(** * Plandomizer: a shallow embedding of [Plandomizer.py]

    The override ("plando") resolution engine of the randomizer: pattern
    matching over names, pool allocation, the sparse record model, item-pool
    alteration, location fill with its reachability gate, entrance
    overrides and starting-item layering.

    Python values are modelled as follows.
    - [str] is [string]; [int] is [Z]; [dict] is an insertion-ordered
      association list ([odict]), because iteration order is observable.
    - A Python [list] that is mutated in place and shared between callers
      is a list object in a heap ([Heap]), addressed by a reference.
    - Exceptions are values of [exn]; a computation is a function from the
      state to an outcome and the state, so that mutations made before a
      [raise] persist, as they do in Python.
    - [random] is an explicit source of choices ([Rng]); every theorem
      holds for every source. *)

From Stdlib Require Import String Ascii List ZArith Bool Arith Lia.
From Stdlib Require Import DecimalString.
Import ListNotations.

Local Open Scope string_scope.
Local Open Scope list_scope.

(* ================================================================== *)
(** * Python primitives *)
(* ================================================================== *)

Module Py.

(** [s.startswith(p)] *)
Fixpoint startswith (s p : string) {struct p} : bool :=
  match p with
  | EmptyString => true
  | String c p' =>
      match s with
      | EmptyString => false
      | String d s' => Ascii.eqb d c && startswith s' p'
      end
  end.

(** [s.endswith(p)]: [p] is [s] or a suffix of the tail of [s]. *)
Fixpoint endswith (s p : string) : bool :=
  String.eqb s p ||
  match s with
  | EmptyString => false
  | String _ s' => endswith s' p
  end.

(** [p in s] on strings: [p] starts at some position of [s]. *)
Fixpoint contains (s p : string) : bool :=
  startswith s p ||
  match s with
  | EmptyString => false
  | String _ s' => contains s' p
  end.

(** [s[1:]] *)
Definition drop_first (s : string) : string :=
  match s with
  | EmptyString => EmptyString
  | String _ s' => s'
  end.

(** [s[:-1]] *)
Fixpoint drop_last (s : string) : string :=
  match s with
  | EmptyString => EmptyString
  | String c EmptyString => EmptyString
  | String c s' => String c (drop_last s')
  end.

(** [s.lower()], on the ASCII letters. *)
Definition lower_ascii (c : ascii) : ascii :=
  let n := nat_of_ascii c in
  if (65 <=? n)%nat && (n <=? 90)%nat then ascii_of_nat (n + 32) else c.

Fixpoint lower (s : string) : string :=
  match s with
  | EmptyString => EmptyString
  | String c s' => String (lower_ascii c) (lower s')
  end.

(** ['%d' % n] for a non-negative [n]. *)
Definition str_nat (n : nat) : string :=
  NilEmpty.string_of_uint (Nat.to_uint n).

(** [x in l] for a list of strings. *)
Definition mem (x : string) (l : list string) : bool :=
  existsb (String.eqb x) l.

(** [l.remove(x)]: deletes the first element equal to [x]; [None] stands
    for the [ValueError] Python raises when there is none. *)
Fixpoint list_remove {A} (eqb : A -> A -> bool) (x : A) (l : list A)
  : option (list A) :=
  match l with
  | [] => None
  | y :: l' =>
      if eqb y x then Some l'
      else match list_remove eqb x l' with
           | Some r => Some (y :: r)
           | None => None
           end
  end.

(** [l[i]] with Python's negative indices; [None] is [IndexError]. *)
Definition index {A} (l : list A) (i : Z) : option A :=
  let n := Z.of_nat (length l) in
  if (0 <=? i)%Z then nth_error l (Z.to_nat i)
  else if (- n <=? i)%Z then nth_error l (Z.to_nat (n + i))
  else None.

(** [range(n)] *)
Definition range (n : nat) : list nat := seq 0 n.

End Py.

(* ================================================================== *)
(** * Exceptions, outcomes and the state-and-exception monad *)
(* ================================================================== *)

Inductive exn : Type :=
| KeyError (msg : string)
| ValueError (msg : string)
| RuntimeError (msg : string)
| IndexError (msg : string)
| TypeError (msg : string)
| AttributeError (msg : string)
| FillError (msg : string)
| EntranceShuffleError (msg : string).

Inductive outcome (A : Type) : Type :=
| Ok (a : A)
| Raise (e : exn).
Arguments Ok {A} a.
Arguments Raise {A} e.

(** A computation over a state [S]: the state is returned in both
    outcomes, because Python keeps the mutations made before a [raise]. *)
Definition M (S A : Type) : Type := S -> outcome A * S.

Definition ret {S A} (a : A) : M S A := fun s => (Ok a, s).

Definition bind {S A B} (m : M S A) (k : A -> M S B) : M S B :=
  fun s =>
    match m s with
    | (Ok a, s') => k a s'
    | (Raise e, s') => (Raise e, s')
    end.

Definition raise {S A} (e : exn) : M S A := fun s => (Raise e, s).
Definition get {S} : M S S := fun s => (Ok s, s).
Definition put {S} (s : S) : M S unit := fun _ => (Ok tt, s).
Definition modify {S} (f : S -> S) : M S unit := fun s => (Ok tt, f s).

(** [try: m except ...: h e]; [h] returns [None] for the exceptions the
    handler does not catch. *)
Definition try_except {S A} (m : M S A) (h : exn -> option (M S A)) : M S A :=
  fun s =>
    match m s with
    | (Ok a, s') => (Ok a, s')
    | (Raise e, s') =>
        match h e with
        | Some k => k s'
        | None => (Raise e, s')
        end
    end.

Declare Scope monad_scope.
Delimit Scope monad_scope with monad.
Notation "x <- m ;; k" := (bind m (fun x => k))
  (at level 61, m at next level, right associativity) : monad_scope.
Notation "m ;; k" := (bind m (fun _ => k))
  (at level 61, right associativity) : monad_scope.
Notation "' pat <- m ;; k" := (bind m (fun x => match x with pat => k end))
  (at level 61, pat pattern, m at next level, right associativity) : monad_scope.

Local Open Scope monad_scope.

(** [for x in l: body x] *)
Fixpoint for_each {S A} (l : list A) (body : A -> M S unit) : M S unit :=
  match l with
  | [] => ret tt
  | x :: l' => body x ;; for_each l' body
  end.

(** A [for] loop that carries local variables. *)
Fixpoint fold_m {S A B} (l : list A) (b : B) (f : B -> A -> M S B) : M S B :=
  match l with
  | [] => ret b
  | x :: l' => b' <- f b x ;; fold_m l' b' f
  end.

(** A result computed outside the monad. *)
Definition lift_outcome {S A} (o : outcome A) : M S A :=
  match o with
  | Ok a => ret a
  | Raise e => raise e
  end.

Definition is_key_error (e : exn) : bool :=
  match e with KeyError _ => true | _ => false end.

(* ================================================================== *)
(** * Insertion-ordered dictionaries *)
(* ================================================================== *)

Module Dict.

Definition odict (V : Type) : Type := list (string * V).

(** [d.get(k)] / [k in d] *)
Fixpoint get {V} (d : odict V) (k : string) : option V :=
  match d with
  | [] => None
  | (k', v) :: d' => if String.eqb k' k then Some v else get d' k
  end.

Definition mem {V} (d : odict V) (k : string) : bool :=
  match get d k with Some _ => true | None => false end.

(** [d[k] = v]: an existing key keeps its position. *)
Fixpoint set {V} (d : odict V) (k : string) (v : V) : odict V :=
  match d with
  | [] => [(k, v)]
  | (k', v') :: d' =>
      if String.eqb k' k then (k', v) :: d' else (k', v') :: set d' k v
  end.

(** [del d[k]] (the caller checks that the key is present). *)
Fixpoint del {V} (d : odict V) (k : string) : odict V :=
  match d with
  | [] => []
  | (k', v') :: d' =>
      if String.eqb k' k then d' else (k', v') :: del d' k
  end.

(** [d.update(pairs)] *)
Definition update {V} (d : odict V) (pairs : list (string * V)) : odict V :=
  fold_left (fun acc kv => set acc (fst kv) (snd kv)) pairs d.

Definition keys {V} (d : odict V) : list string := map fst d.

End Dict.

(* ================================================================== *)
(** * The random source *)
(* ================================================================== *)

(** The pseudorandom generator is a list of draws; an exhausted list
    keeps drawing 0. *)
Definition Rng : Type := list nat.

Definition draw (g : Rng) : nat * Rng :=
  match g with
  | [] => (0, [])
  | n :: g' => (n, g')
  end.

(** [random.choice(l)]: [None] is the [IndexError] raised on an empty
    sequence. *)
Definition random_choice {A} (l : list A) (g : Rng) : option A * Rng :=
  match l with
  | [] => (None, g)
  | _ :: _ =>
      let (n, g') := draw g in
      (nth_error l (n mod length l), g')
  end.

(* ================================================================== *)
(** * List objects and the pull functions *)
(* ================================================================== *)

Section Pools.

Context {A : Type}.
Variable eqb : A -> A -> bool.
Hypothesis eqb_spec : forall x y, eqb x y = true <-> x = y.

(** The list objects of the program, by address. *)
Definition Heap : Type := list (list A).
Definition ref : Type := nat.

Definition deref (h : Heap) (r : ref) : list A := nth r h [].

Fixpoint store (h : Heap) (r : ref) (l : list A) : Heap :=
  match h, r with
  | [], _ => []
  | _ :: h', O => l :: h'
  | x :: h', S r' => x :: store h' r' l
  end.

(** A new list object. *)
Definition alloc (h : Heap) (l : list A) : ref * Heap :=
  (length h, h ++ [l]).

Definition heap_total (h : Heap) : nat :=
  fold_right (fun l n => length l + n) 0 h.

Definition pools_total (h : Heap) (pools : list ref) : nat :=
  fold_right (fun r n => length (deref h r) + n) 0 pools.

(** [[(element, pool) for pool in pools for element in pool
      if predicate(element)]] *)
Definition candidates (h : Heap) (pools : list ref) (predicate : A -> bool)
  : list (A * ref) :=
  flat_map (fun r => map (fun e => (e, r)) (filter predicate (deref h r))) pools.

(** [pool.remove(element)] on the list object at [r]. *)
Definition heap_remove (h : Heap) (r : ref) (element : A) : Heap :=
  match Py.list_remove eqb element (deref h r) with
  | Some l => store h r l
  | None => h
  end.

Definition pull_random_element (h : Heap) (pools : list ref)
    (predicate : A -> bool) (remove : bool) (g : Rng)
  : option A * Heap * Rng :=
  match random_choice (candidates h pools predicate) g with
  | (None, g') => (None, h, g')
  | (Some (element, pool), g') =>
      if remove then (Some element, heap_remove h pool element, g')
      else (Some element, h, g')
  end.

Fixpoint first_in_pool (predicate : A -> bool) (l : list A) : option A :=
  match l with
  | [] => None
  | e :: l' => if predicate e then Some e else first_in_pool predicate l'
  end.

Fixpoint pull_first_element (h : Heap) (pools : list ref)
    (predicate : A -> bool) (remove : bool) : option A * Heap :=
  match pools with
  | [] => (None, h)
  | pool :: pools' =>
      match first_in_pool predicate (deref h pool) with
      | Some element =>
          if remove then (Some element, heap_remove h pool element)
          else (Some element, h)
      | None => pull_first_element h pools' predicate remove
      end
  end.

End Pools.

(* ================================================================== *)
(** * Settings, typed records and the world distribution *)
(* ================================================================== *)

(** The typed views of the records, as the resolution algorithms use
    them (the document boundary is in [Module Records]). *)
Record StarterRecord : Type := { count : Z }.

Record ItemPoolRecord : Type := { ipr_type : string; ipr_count : Z }.

(** [LocationRecord.item]: a name or pattern, or a list of candidates. *)
Inductive pattern : Type :=
| PStr (s : string)
| PList (l : list string).

(** [player] is the number of the owning player, from 1. *)
Record LocationRecord : Type := {
  item : option pattern;
  player : option nat;
  price : option Z;
  model : option string
}.

(** A value of [self.locations]: a record, or the list of records that
    [WorldDistribution.update] builds under a key that is a pattern. *)
Inductive LocationEntry : Type :=
| OneRecord (r : LocationRecord)
| ManyRecords (l : list LocationRecord).

Record EntranceRecord : Type := {
  region : option string;
  origin : option string
}.

(** An entry of [settings.starting_items]: a count for all worlds, or the
    per-world dictionary stored under a ['World N'] key. *)
Inductive StartingEntry : Type :=
| ForAll (r : StarterRecord)
| ForWorld (d : Dict.odict StarterRecord).

(** The fields of [Settings] that the modelled functions read. *)
Record Settings : Type := {
  shuffle_song_items : string;
  triforce_hunt : bool;
  shuffle_ganon_bosskey : string;
  lacs_condition : string;
  bridge : string;
  tokensanity : string;
  shuffle_smallkeys : string;
  shuffle_hideoutkeys : string;
  shuffle_tcgkeys : string;
  shuffle_bosskeys : string;
  shuffle_silver_rupees : string;
  key_rings : list string;
  blue_fire_arrows : bool;
  shuffle_child_trade : list string;
  adult_trade_shuffle : bool;
  adult_trade_start : list string;
  item_pool_value : string;
  disabled_locations : list string;
  enable_distribution_file : bool;
  starting_items_setting : Dict.odict StartingEntry
}.

(** [WorldDistribution], with the fields of its [Distribution] that it
    reads through [self.distribution]. *)
Record WorldDistribution : Type := {
  wd_id : nat;
  item_pool : Dict.odict ItemPoolRecord;
  entrances : Dict.odict EntranceRecord;
  locations : Dict.odict LocationEntry;
  base_pool : list string;
  major_group : list string;
  song_as_items : bool;
  search_groups : Dict.odict (list string);
  dist_settings : Settings;
  world_count : nat
}.

Definition set_item_pool (d : Dict.odict ItemPoolRecord) (w : WorldDistribution) :=
  {| wd_id := wd_id w; item_pool := d; entrances := entrances w;
     locations := locations w; base_pool := base_pool w;
     major_group := major_group w; song_as_items := song_as_items w;
     search_groups := search_groups w; dist_settings := dist_settings w;
     world_count := world_count w |}.

Definition set_locations (d : Dict.odict LocationEntry) (w : WorldDistribution) :=
  {| wd_id := wd_id w; item_pool := item_pool w; entrances := entrances w;
     locations := d; base_pool := base_pool w;
     major_group := major_group w; song_as_items := song_as_items w;
     search_groups := search_groups w; dist_settings := dist_settings w;
     world_count := world_count w |}.

Definition set_base_pool (l : list string) (w : WorldDistribution) :=
  {| wd_id := wd_id w; item_pool := item_pool w; entrances := entrances w;
     locations := locations w; base_pool := l;
     major_group := major_group w; song_as_items := song_as_items w;
     search_groups := search_groups w; dist_settings := dist_settings w;
     world_count := world_count w |}.

Definition set_major_group (l : list string) (w : WorldDistribution) :=
  {| wd_id := wd_id w; item_pool := item_pool w; entrances := entrances w;
     locations := locations w; base_pool := base_pool w;
     major_group := l; song_as_items := song_as_items w;
     search_groups := search_groups w; dist_settings := dist_settings w;
     world_count := world_count w |}.

Definition set_song_as_items (b : bool) (w : WorldDistribution) :=
  {| wd_id := wd_id w; item_pool := item_pool w; entrances := entrances w;
     locations := locations w; base_pool := base_pool w;
     major_group := major_group w; song_as_items := b;
     search_groups := search_groups w; dist_settings := dist_settings w;
     world_count := world_count w |}.

(* ================================================================== *)
(** * Patterns *)
(* ================================================================== *)

Definition is_output_only (p : string) : bool := Py.startswith p ":".

Definition is_pattern (p : string) : bool :=
  Py.startswith p "!" || Py.startswith p "*" || Py.startswith p "#"
  || Py.endswith p "*".

Section PatternMatcher.

(** [ItemInfo.items]: item name to item type, in table order. *)
Variable ItemInfo_items : list (string * string).
(** [item_groups], the constant table of [ItemPool]. *)
Variable item_groups : Dict.odict (list string).

(** [item_groups[name]] for the keys the code writes as literals. *)
Definition item_group (name : string) : list string :=
  match Dict.get item_groups name with
  | Some l => l
  | None => []
  end.

Definition items_of_type (p : string -> string -> bool) : list string :=
  map fst (filter (fun ni => p (fst ni) (snd ni)) ItemInfo_items).

Definition small_key_name (rings : list string) (dungeon : string) : string :=
  if Py.mem dungeon rings
  then "Small Key Ring (" ++ dungeon ++ ")"
  else "Small Key (" ++ dungeon ++ ")".

Definition keysanity_dungeons : list string :=
  ["Bottom of the Well"; "Forest Temple"; "Fire Temple"; "Water Temple";
   "Shadow Temple"; "Spirit Temple"; "Gerudo Training Ground"; "Ganons Castle"].

(** The value given to [self.major_group] when it is computed. *)
Definition compute_major_group (st : Settings) (base : list string)
    (group : list string) : list string :=
  let g0 := filter (fun item => Py.mem item base) group in
  let g1 := if negb (shuffle_song_items st =? "any")
            then filter (fun x => negb (Py.mem x (item_group "Song"))) g0
            else g0 in
  let g2 := if triforce_hunt st then g1 ++ ["Triforce Piece"] else g1 in
  let major_tokens :=
    ((shuffle_ganon_bosskey st =? "on_lacs") && (lacs_condition st =? "tokens"))
    || (shuffle_ganon_bosskey st =? "tokens") || (bridge st =? "tokens") in
  let g3 := if (tokensanity st =? "all") && major_tokens
            then g2 ++ ["Gold Skulltula Token"] else g2 in
  let major_hearts :=
    ((shuffle_ganon_bosskey st =? "on_lacs") && (lacs_condition st =? "hearts"))
    || (shuffle_ganon_bosskey st =? "hearts") || (bridge st =? "hearts") in
  let g4 := if major_hearts
            then g3 ++ ["Heart Container"; "Piece of Heart";
                        "Piece of Heart (Treasure Chest Game)"]
            else g3 in
  let g5 := if shuffle_smallkeys st =? "keysanity"
            then g4 ++ map (small_key_name (key_rings st)) keysanity_dungeons
            else g4 in
  let g6 := if shuffle_hideoutkeys st =? "keysanity"
            then g5 ++ [small_key_name (key_rings st) "Thieves Hideout"]
            else g5 in
  let g7 := if shuffle_tcgkeys st =? "keysanity"
            then g6 ++ [small_key_name (key_rings st) "Treasure Chest Game"]
            else g6 in
  let g8 := if shuffle_bosskeys st =? "keysanity"
            then g7 ++ items_of_type
                   (fun name ty => (ty =? "BossKey") && negb (name =? "Boss Key"))
            else g7 in
  let g9 := if shuffle_ganon_bosskey st =? "keysanity"
            then g8 ++ items_of_type (fun _ ty => ty =? "GanonBossKey")
            else g8 in
  if shuffle_silver_rupees st =? "anywhere"
  then g9 ++ items_of_type (fun _ ty => ty =? "SilverRupee")
  else g9.

(** The wildcard part of [pattern_matcher], after ['!'] and ['#'] have
    been handled. *)
Definition wildcard_matcher (invert : bool) (pattern : string) : string -> bool :=
  let wildcard_begin := Py.startswith pattern "*" in
  let pattern := if wildcard_begin then Py.drop_first pattern else pattern in
  let wildcard_end := Py.endswith pattern "*" in
  if wildcard_end then
    let pattern := Py.drop_last pattern in
    if wildcard_begin
    then fun s => xorb invert (Py.contains s pattern)
    else fun s => xorb invert (Py.startswith s pattern)
  else
    if wildcard_begin
    then fun s => xorb invert (Py.endswith s pattern)
    else fun s => xorb invert (String.eqb s pattern).

(** [pattern_matcher] on a [str]. *)
Definition pattern_matcher_str (pattern : string)
  : M WorldDistribution (string -> bool) :=
  let invert := Py.startswith pattern "!" in
  let pattern := if invert then Py.drop_first pattern else pattern in
  if Py.startswith pattern "#" then
    self <- get ;;
    match Dict.get (search_groups self) (Py.drop_first pattern) with
    | None => raise (KeyError (Py.drop_first pattern))
    | Some group =>
        if pattern =? "#MajorItem" then
          (match major_group self with
           | [] => modify (set_major_group
                     (compute_major_group (dist_settings self) (base_pool self) group))
           | _ :: _ => ret tt
           end) ;;
          self <- get ;;
          let group := major_group self in
          ret (fun s => xorb invert (Py.mem s group))
        else ret (fun s => xorb invert (Py.mem s group))
    end
  else ret (wildcard_matcher invert pattern).

(** [for pattern_item in pattern: pattern_list.append(...)] *)
Fixpoint pattern_matcher_each (l : list string)
  : M WorldDistribution (list (string -> bool)) :=
  match l with
  | [] => ret []
  | pattern_item :: l' =>
      m <- pattern_matcher_str pattern_item ;;
      ms <- pattern_matcher_each l' ;;
      ret (m :: ms)
  end.

(** [reduce(lambda acc, sub_matcher: lambda item: sub_matcher(item) or
    acc(item), pattern_list, lambda _: False)] *)
Definition reduce_matchers (pattern_list : list (string -> bool)) : string -> bool :=
  fold_left (fun acc sub_matcher => fun item => sub_matcher item || acc item)
            pattern_list (fun _ => false).

Definition pattern_matcher (p : pattern) : M WorldDistribution (string -> bool) :=
  match p with
  | PList l =>
      pattern_list <- pattern_matcher_each l ;;
      ret (reduce_matchers pattern_list)
  | PStr s => pattern_matcher_str s
  end.

End PatternMatcher.


(* ================================================================== *)
(** * Items, locations and pool elements *)
(* ================================================================== *)

(** An [Item] object.  [item_uid] is the identity of the object: Python
    compares items by identity, so [pool.remove(item)] removes that very
    object. *)
Record Item : Type := {
  item_uid : nat;
  item_name : string;
  item_world : nat;
  item_type : string;
  item_advancement : bool;
  item_price : option Z
}.

Record Location : Type := {
  loc_name : string;
  loc_world : nat;
  loc_type : string;
  loc_price : option Z
}.

Definition option_Z_eqb (a b : option Z) : bool :=
  match a, b with
  | None, None => true
  | Some x, Some y => Z.eqb x y
  | _, _ => false
  end.

Definition Item_eqb (a b : Item) : bool :=
  Nat.eqb (item_uid a) (item_uid b) && String.eqb (item_name a) (item_name b)
  && Nat.eqb (item_world a) (item_world b) && String.eqb (item_type a) (item_type b)
  && Bool.eqb (item_advancement a) (item_advancement b)
  && option_Z_eqb (item_price a) (item_price b).

Definition Location_eqb (a b : Location) : bool :=
  String.eqb (loc_name a) (loc_name b) && Nat.eqb (loc_world a) (loc_world b)
  && String.eqb (loc_type a) (loc_type b) && option_Z_eqb (loc_price a) (loc_price b).

(** What the pool functions need of an element: equality, and the name
    and world the predicates look at.  A pool of names ([list[str]]) has
    the name itself as its name. *)
Class PoolElement (E : Type) : Type := {
  elt_eqb : E -> E -> bool;
  elt_name : E -> string;
  elt_world : E -> nat
}.

#[export] Instance PoolElement_string : PoolElement string :=
  {| elt_eqb := String.eqb; elt_name := fun s => s; elt_world := fun _ => 0 |}.

#[export] Instance PoolElement_Item : PoolElement Item :=
  {| elt_eqb := Item_eqb; elt_name := item_name; elt_world := item_world |}.

(** The state a pool operation works on: [self], the list objects and the
    random source. *)
Record PState (E : Type) : Type := {
  st_self : WorldDistribution;
  st_heap : @Heap E;
  st_rng : Rng
}.
Arguments st_self {E} _.
Arguments st_heap {E} _.
Arguments st_rng {E} _.

Definition with_self {E} (w : WorldDistribution) (s : PState E) : PState E :=
  {| st_self := w; st_heap := st_heap s; st_rng := st_rng s |}.
Definition with_heap {E} (h : @Heap E) (s : PState E) : PState E :=
  {| st_self := st_self s; st_heap := h; st_rng := st_rng s |}.
Definition with_rng {E} (g : Rng) (s : PState E) : PState E :=
  {| st_self := st_self s; st_heap := st_heap s; st_rng := g |}.

(** A method of [self] run inside a pool operation. *)
Definition lift_self {E A} (m : M WorldDistribution A) : M (PState E) A :=
  fun s => let (r, w) := m (st_self s) in (r, with_self w s).

Definition dquote : string := String (ascii_of_nat 34) EmptyString.

(** [random.choices(l, k=k)] on a non-empty [l]. *)
Fixpoint random_choices {A} (l : list A) (k : nat) (g : Rng)
  : option (list A) * Rng :=
  match k with
  | O => (Some [], g)
  | S k' =>
      match random_choice l g with
      | (Some x, g') =>
          match random_choices l k' g' with
          | (Some xs, g'') => (Some (x :: xs), g'')
          | (None, g'') => (None, g'')
          end
      | (None, g') => (None, g')
      end
  end.

(* ================================================================== *)
(** * The pool allocator *)
(* ================================================================== *)

Section PoolAllocator.

Variable ItemInfo_items : list (string * string).
Variable item_groups : Dict.odict (list string).
(** [is_item(name)]: the name is in the item table. *)
Variable is_item : string -> bool.
(** [build_close_match(name, kind)]: the suggestion put in messages. *)
Variable build_close_match : string -> string -> string.
(** [get_junk_item(count, pool, plando_pool)], the junk selector. *)
Variable get_junk_item :
  Z -> option (list string) -> option (Dict.odict ItemPoolRecord) -> Rng ->
  outcome (list string) * Rng.

Definition self_pattern_matcher {E} (p : pattern) : M (PState E) (string -> bool) :=
  lift_self (pattern_matcher ItemInfo_items item_groups p).

Section Remove.

Context {E : Type} `{PoolElement E}.

(** [lambda item: base_remove_matcher(item) and
    ((item in self.base_pool) ^ (not use_base_pool))], with the
    [self.base_pool] of the moment of the call. *)
Definition remove_matcher (base_remove_matcher : string -> bool)
    (use_base_pool : bool) (self : WorldDistribution) (item : string) : bool :=
  base_remove_matcher item
  && xorb (Py.mem item (base_pool self)) (negb use_base_pool).

Definition remove_predicate (world_id : option nat)
    (base_remove_matcher : string -> bool) (use_base_pool : bool)
    (self : WorldDistribution) : E -> bool :=
  match world_id with
  | None => fun item =>
      remove_matcher base_remove_matcher use_base_pool self (elt_name item)
  | Some w => fun item =>
      Nat.eqb (elt_world item) w
      && remove_matcher base_remove_matcher use_base_pool self (elt_name item)
  end.

(** [self.base_pool.remove(x)] *)
Definition base_pool_remove (x : string) : M (PState E) unit :=
  s <- get ;;
  match Py.list_remove String.eqb x (base_pool (st_self s)) with
  | Some l => put (with_self (set_base_pool l (st_self s)) s)
  | None => raise (ValueError "list.remove(x): x not in list")
  end.

Definition no_remaining_items (item_name : string) : exn :=
  KeyError ("No remaining items matching " ++ dquote ++ item_name ++ dquote
            ++ " to be removed.").

Definition no_items_matching (item_name : string) : exn :=
  KeyError ("No items matching " ++ dquote ++ item_name ++ dquote).

(** The [for i in range(count)] loop of [pool_remove_item]; [n] is
    [count - i], the number of iterations left. *)
Fixpoint pool_remove_loop (self_call : Z -> M (PState E) (list E))
    (pools : list ref) (item_name : string) (world_id : option nat)
    (use_base_pool : bool) (base_remove_matcher : string -> bool)
    (n : nat) (removed_items : list E) : M (PState E) (list E) :=
  match n with
  | O => ret removed_items
  | S n' =>
      s <- get ;;
      let '(removed_item, h', g') :=
        pull_random_element elt_eqb (st_heap s) pools
          (remove_predicate world_id base_remove_matcher use_base_pool (st_self s))
          true (st_rng s) in
      put (with_rng g' (with_heap h' s)) ;;
      match removed_item with
      | None =>
          if negb use_base_pool then
            if is_item item_name then raise (no_remaining_items item_name)
            else raise (no_items_matching item_name)
          else
            rest <- self_call (Z.of_nat n) ;;
            ret (removed_items ++ rest)
      | Some removed_item =>
          (if use_base_pool then base_pool_remove (elt_name removed_item)
           else ret tt) ;;
          pool_remove_loop self_call pools item_name world_id use_base_pool
            base_remove_matcher n' (removed_items ++ [removed_item])
      end
  end.

Definition pool_remove_item_with (self_call : Z -> M (PState E) (list E))
    (pools : list ref) (item_name : string) (count : Z)
    (world_id : option nat) (use_base_pool : bool) : M (PState E) (list E) :=
  base_remove_matcher <- self_pattern_matcher (PStr item_name) ;;
  pool_remove_loop self_call pools item_name world_id use_base_pool
    base_remove_matcher (Z.to_nat count) [].

(** [pool_remove_item]: the call with [use_base_pool=True] may call itself
    once, with [use_base_pool=False]; that call never calls itself. *)
Definition pool_remove_item (pools : list ref) (item_name : string) (count : Z)
    (world_id : option nat) (use_base_pool : bool) : M (PState E) (list E) :=
  pool_remove_item_with
    (fun count' =>
       pool_remove_item_with (fun _ => ret [])
         pools item_name count' world_id false)
    pools item_name count world_id use_base_pool.

End Remove.

(** The candidates of [pool_add_item] for a pattern: the table's names
    that match and have not been set to 0 in [self.item_pool].  The
    pattern is compiled again for every name, as in the source. *)
Fixpoint add_candidates (item_name : string) (names : list string)
  : M (PState string) (list string) :=
  match names with
  | [] => ret []
  | name :: names' =>
      matcher <- self_pattern_matcher (PStr item_name) ;;
      s <- get ;;
      let allowed :=
        match Dict.get (item_pool (st_self s)) name with
        | None => true
        | Some r => negb (Z.eqb (ipr_count r) 0)
        end in
      rest <- add_candidates item_name names' ;;
      ret (if matcher name && allowed then name :: rest else rest)
  end.

Definition unknown_item_added (item_name : string) : exn :=
  RuntimeError ("Unknown item could not be added: '" ++ item_name ++ "'. "
                ++ build_close_match item_name "item").

Definition unknown_or_zero_item (item_name : string) : exn :=
  RuntimeError ("Unknown item, or item set to 0 in the item pool could not be added: '"
                ++ item_name ++ "'. " ++ build_close_match item_name "item").

(** [pool.append(item)] on the list object [pool]. *)
Definition pool_append {E} (pool : ref) (x : E) : M (PState E) unit :=
  modify (fun s => with_heap (store (st_heap s) pool (deref (st_heap s) pool ++ [x])) s).

Definition pool_add_item (pool : ref) (item_name : string) (count : Z)
  : M (PState string) (list string) :=
  added_items <-
    (if item_name =? "#Junk" then
       s <- get ;;
       let (r, g') := get_junk_item count (Some (deref (st_heap s) pool))
                        (Some (item_pool (st_self s))) (st_rng s) in
       put (with_rng g' s) ;;
       match r with
       | Ok l => ret l
       | Raise e => raise e
       end
     else if is_pattern item_name then
       candidates <- add_candidates item_name (map fst ItemInfo_items) ;;
       match candidates with
       | [] => raise (unknown_or_zero_item item_name)
       | _ :: _ =>
           s <- get ;;
           let (r, g') := random_choices candidates (Z.to_nat count) (st_rng s) in
           put (with_rng g' s) ;;
           match r with
           | Some l => ret l
           | None => raise (IndexError "Cannot choose from an empty sequence")
           end
       end
     else
       if negb (is_item item_name) then raise (unknown_item_added item_name)
       else ret (repeat item_name (Z.to_nat count))) ;;
  for_each added_items (pool_append pool) ;;
  ret added_items.

End PoolAllocator.

(* ================================================================== *)
(** * The record model at the document boundary *)
(* ================================================================== *)

Module Records.

Set Warnings "-register-all".

(** A document value (what [json.load] produces, floats apart). *)
Inductive doc : Type :=
| DNone
| DBool (b : bool)
| DInt (z : Z)
| DStr (s : string)
| DList (l : list doc)
| DDict (d : list (string * doc)).

(** Python's [==] on document values; [True == 1] holds.  Dictionaries
    are compared entry by entry in order: the code only compares with
    the scalar defaults and with literals. *)
Fixpoint py_eq (a b : doc) {struct a} : bool :=
  match a, b with
  | DNone, DNone => true
  | DBool x, DBool y => Bool.eqb x y
  | DBool x, DInt z | DInt z, DBool x => Z.eqb z (if x then 1 else 0)
  | DInt x, DInt y => Z.eqb x y
  | DStr x, DStr y => String.eqb x y
  | DList x, DList y =>
      (fix eq_list (x y : list doc) {struct x} : bool :=
         match x, y with
         | [], [] => true
         | a' :: x', b' :: y' => py_eq a' b' && eq_list x' y'
         | _, _ => false
         end) x y
  | DDict x, DDict y =>
      (fix eq_dict (x y : list (string * doc)) {struct x} : bool :=
         match x, y with
         | [], [] => true
         | (k, a') :: x', (k', b') :: y' =>
             String.eqb k k' && py_eq a' b' && eq_dict x' y'
         | _, _ => false
         end) x y
  | _, _ => false
  end.

(** Truthiness. *)
Definition truthy (a : doc) : bool :=
  match a with
  | DNone => false
  | DBool b => b
  | DInt z => negb (Z.eqb z 0)
  | DStr s => negb (String.eqb s "")
  | DList l => match l with [] => false | _ => true end
  | DDict d => match d with [] => false | _ => true end
  end.

Definition str_Z (z : Z) : string :=
  if (z <? 0)%Z then "-" ++ Py.str_nat (Z.to_nat (- z)) else Py.str_nat (Z.to_nat z).

Fixpoint join (sep : string) (l : list string) : string :=
  match l with
  | [] => ""
  | [x] => x
  | x :: l' => x ++ sep ++ join sep l'
  end.

(** [repr(a)]; escapes inside strings are not modelled. *)
Fixpoint py_repr (a : doc) : string :=
  match a with
  | DNone => "None"
  | DBool b => if b then "True" else "False"
  | DInt z => str_Z z
  | DStr s => "'" ++ s ++ "'"
  | DList l => "[" ++ join ", " (map py_repr l) ++ "]"
  | DDict d =>
      "{" ++ join ", " (map (fun kv : string * doc =>
                               let (k, v) := kv in ("'" ++ k ++ "': " ++ py_repr v)%string) d)
      ++ "}"
  end.

(** [str(a)] *)
Definition py_str (a : doc) : string :=
  match a with
  | DStr s => s
  | _ => py_repr a
  end.

(** A [Record] object: its [properties] (key to default) and its
    instance attributes. *)
Record RecordObj : Type := {
  properties : Dict.odict doc;
  attrs : Dict.odict doc
}.

Definition setattr (k : string) (v : doc) : M RecordObj unit :=
  modify (fun self => {| properties := properties self;
                         attrs := Dict.set (attrs self) k v |}).

Definition getattr (k : string) : M RecordObj doc :=
  self <- get ;;
  match Dict.get (attrs self) k with
  | Some v => ret v
  | None => raise (AttributeError k)
  end.

(** [k in src_dict] *)
Definition doc_contains {S} (src : doc) (k : string) : M S bool :=
  match src with
  | DDict d => ret (Dict.mem d k)
  | DStr s => ret (Py.contains s k)
  | DList l => ret (existsb (py_eq (DStr k)) l)
  | _ => raise (TypeError "argument is not iterable")
  end.

(** [src_dict.get(k, p)] *)
Definition doc_get {S} (src : doc) (k : string) (p : doc) : M S doc :=
  match src with
  | DDict d => ret (match Dict.get d k with Some v => v | None => p end)
  | _ => raise (AttributeError "get")
  end.

(** [Record.update] *)
Definition Record_update (src_dict : doc) (update_all : bool) : M RecordObj unit :=
  let src_dict := match src_dict with DNone => DDict [] | _ => src_dict end in
  let src_dict := match src_dict with
                  | DList _ => DDict [("item", src_dict)]
                  | _ => src_dict
                  end in
  self <- get ;;
  for_each (properties self) (fun kp =>
    let (k, p) := kp in
    present <- (if update_all then ret true else doc_contains src_dict k) ;;
    if present then v <- doc_get src_dict k p ;; setattr k v
    else ret tt).

(** [Record.__init__], on an object whose class has set its attributes;
    [update] is the class's own [update] method. *)
Definition Record_init (update : doc -> bool -> M RecordObj unit)
    (props : Dict.odict doc) (src_dict : option doc) : M RecordObj unit :=
  modify (fun self => {| properties := props; attrs := attrs self |}) ;;
  match src_dict with
  | Some src => update src true
  | None => ret tt
  end.

(** [Record.to_json] *)
Fixpoint to_json_fields (props : Dict.odict doc) : M RecordObj (Dict.odict doc) :=
  match props with
  | [] => ret []
  | (k, d) :: props' =>
      v <- getattr k ;;
      rest <- to_json_fields props' ;;
      ret (if negb (py_eq v d) then (k, v) :: rest else rest)
  end.

Definition Record_to_json : M RecordObj (Dict.odict doc) :=
  self <- get ;;
  to_json_fields (properties self).

(** A constructor call: the object is built from no attributes; it
    exists only if [__init__] returns. *)
Definition construct (init : M RecordObj unit) : outcome RecordObj :=
  match init {| properties := []; attrs := [] |} with
  | (Ok _, self) => Ok self
  | (Raise e, _) => Raise e
  end.

(** A method call that only reads the object. *)
Definition call {A} (self : RecordObj) (m : M RecordObj A) : outcome A :=
  fst (m self).

Definition as_some (src : doc) : option doc :=
  match src with DNone => None | _ => Some src end.

(** ** [DungeonRecord] and [TrialRecord] *)

Definition tri_mapping (yes no : string) (s : string) : doc :=
  if s =? "random" then DNone
  else if s =? yes then DBool true
  else if s =? no then DBool false
  else DNone.

Definition tri_init (attr yes no : string) (src_dict : doc) : M RecordObj unit :=
  setattr attr DNone ;;
  let src_dict := match src_dict with
                  | DStr s => DDict [(attr, tri_mapping yes no s)]
                  | _ => src_dict
                  end in
  Record_init Record_update [(attr, DNone)] (as_some src_dict).

Definition tri_to_json (attr yes no : string) : M RecordObj doc :=
  v <- getattr attr ;;
  match v with
  | DNone => ret (DStr "random")
  | _ => ret (DStr (if truthy v then yes else no))
  end.

Definition DungeonRecord_init := tri_init "mq" "mq" "vanilla".
Definition DungeonRecord_to_json := tri_to_json "mq" "mq" "vanilla".
Definition TrialRecord_init := tri_init "active" "active" "inactive".
Definition TrialRecord_to_json := tri_to_json "active" "active" "inactive".

(** ** [EmptyDungeonRecord] *)

Definition EmptyDungeonRecord_init (src_dict : doc) : M RecordObj unit :=
  setattr "empty" DNone ;;
  let src_dict :=
    if py_eq src_dict (DStr "random") then DDict [("empty", DNone)]
    else match src_dict with
         | DBool _ => DDict [("empty", src_dict)]
         | _ => src_dict
         end in
  Record_init Record_update [("empty", DNone)] (as_some src_dict).

Definition EmptyDungeonRecord_to_json : M RecordObj doc := getattr "empty".

(** ** [GossipRecord] *)

Definition GossipRecord_init (src_dict : doc) : M RecordObj unit :=
  setattr "colors" DNone ;;
  setattr "hinted_locations" DNone ;;
  setattr "hinted_items" DNone ;;
  Record_init Record_update
    [("text", DNone); ("colors", DNone); ("hinted_locations", DNone);
     ("hinted_items", DNone)] (as_some src_dict).

Definition GossipRecord_to_json : M RecordObj doc :=
  d <- Record_to_json ;; ret (DDict d).

(** ** [ItemPoolRecord] *)

(** [x < 0] *)
Definition lt0 {S} (x : doc) : M S bool :=
  match x with
  | DInt z => ret (z <? 0)%Z
  | DBool _ => ret false
  | _ => raise (TypeError "'<' not supported")
  end.

Definition count_error : exn :=
  ValueError "Count cannot be negative in a ItemPoolRecord.".
Definition type_error : exn :=
  ValueError "Type must be 'add', 'remove', or 'set' in a ItemPoolRecord.".

(** The two checks that follow [super().update] in
    [ItemPoolRecord.update]. *)
Definition ItemPoolRecord_checks : M RecordObj unit :=
  c <- getattr "count" ;;
  negative <- lt0 c ;;
  if negative then raise count_error
  else
    t <- getattr "type" ;;
    if negb (existsb (py_eq t) [DStr "add"; DStr "remove"; DStr "set"])
    then raise type_error
    else ret tt.

Definition ItemPoolRecord_update (src_dict : doc) (update_all : bool)
  : M RecordObj unit :=
  Record_update src_dict update_all ;;
  ItemPoolRecord_checks.

Definition is_int (src : doc) : bool :=
  match src with DInt _ | DBool _ => true | _ => false end.

Definition ItemPoolRecord_init (src_dict : doc) : M RecordObj unit :=
  setattr "type" (DStr "set") ;;
  setattr "count" (DInt 1) ;;
  let src_dict := if is_int src_dict then DDict [("count", src_dict)] else src_dict in
  Record_init ItemPoolRecord_update [("type", DStr "set"); ("count", DInt 1)]
    (as_some src_dict).

Definition ItemPoolRecord_to_json : M RecordObj doc :=
  t <- getattr "type" ;;
  if py_eq t (DStr "set") then getattr "count"
  else d <- Record_to_json ;; ret (DDict d).

(** ** [LocationRecord] *)

Definition LocationRecord_init (src_dict : doc) : M RecordObj unit :=
  setattr "item" DNone ;;
  setattr "player" DNone ;;
  let src_dict := match src_dict with
                  | DStr _ => DDict [("item", src_dict)]
                  | _ => src_dict
                  end in
  Record_init Record_update
    [("item", DNone); ("player", DNone); ("price", DNone); ("model", DNone)]
    (as_some src_dict).

(** [list(d.keys()) == ks] *)
Fixpoint names_eqb (a b : list string) : bool :=
  match a, b with
  | [], [] => true
  | x :: a', y :: b' => String.eqb x y && names_eqb a' b'
  | _, _ => false
  end.

Definition keys_are (d : Dict.odict doc) (ks : list string) : bool :=
  names_eqb (Dict.keys d) ks.

Definition LocationRecord_to_json : M RecordObj doc :=
  self_dict <- Record_to_json ;;
  if keys_are self_dict ["item"]
  then v <- getattr "item" ;; ret (DStr (py_str v))
  else ret (DDict self_dict).

(** ** [EntranceRecord] *)

Definition EntranceRecord_init (src_dict : doc) : M RecordObj unit :=
  setattr "region" DNone ;;
  setattr "origin" DNone ;;
  let src_dict := match src_dict with
                  | DStr _ => DDict [("region", src_dict)]
                  | _ => src_dict
                  end in
  has_from <- doc_contains src_dict "from" ;;
  src_dict <-
    (if has_from then
       match src_dict with
       | DDict d =>
           match Dict.get d "from" with
           | Some v => ret (DDict (Dict.del (Dict.set d "origin" v) "from"))
           | None => raise (KeyError "from")
           end
       | _ => raise (TypeError "indices must be integers")
       end
     else ret src_dict) ;;
  Record_init Record_update [("region", DNone); ("origin", DNone)]
    (as_some src_dict).

Definition EntranceRecord_to_json : M RecordObj doc :=
  self_dict <- Record_to_json ;;
  if keys_are self_dict ["region"]
  then v <- getattr "region" ;; ret (DStr (py_str v))
  else
    match Dict.get self_dict "origin" with
    | Some v => ret (DDict (Dict.del (Dict.set self_dict "from" v) "origin"))
    | None => raise (KeyError "origin")
    end.

(** ** [StarterRecord] *)

Definition StarterRecord_init (src_dict : doc) : M RecordObj unit :=
  setattr "count" (DInt 1) ;;
  let src_dict := if is_int src_dict then DDict [("count", src_dict)] else src_dict in
  Record_init Record_update [("count", DInt 1)] (as_some src_dict).

Definition StarterRecord_to_json : M RecordObj doc := getattr "count".

(** ** [SongRecord] *)

Definition SongRecord_init (src_dict : doc) : M RecordObj unit :=
  setattr "notes" DNone ;;
  let src_dict := match src_dict with
                  | DNone | DStr _ => Some (DDict [("notes", src_dict)])
                  | _ => Some src_dict
                  end in
  Record_init Record_update [("notes", DNone)] src_dict.

Definition SongRecord_to_json : M RecordObj doc := getattr "notes".

(** The record classes, with their constructor and serializer. *)
Inductive record_class : Type :=
| CDungeon | CEmptyDungeon | CGossip | CItemPool | CLocation | CEntrance
| CStarter | CTrial | CSong.

Definition init_of (c : record_class) : doc -> M RecordObj unit :=
  match c with
  | CDungeon => DungeonRecord_init
  | CEmptyDungeon => EmptyDungeonRecord_init
  | CGossip => GossipRecord_init
  | CItemPool => ItemPoolRecord_init
  | CLocation => LocationRecord_init
  | CEntrance => EntranceRecord_init
  | CStarter => StarterRecord_init
  | CTrial => TrialRecord_init
  | CSong => SongRecord_init
  end.

Definition to_json_of (c : record_class) : M RecordObj doc :=
  match c with
  | CDungeon => DungeonRecord_to_json
  | CEmptyDungeon => EmptyDungeonRecord_to_json
  | CGossip => GossipRecord_to_json
  | CItemPool => ItemPoolRecord_to_json
  | CLocation => LocationRecord_to_json
  | CEntrance => EntranceRecord_to_json
  | CStarter => StarterRecord_to_json
  | CTrial => TrialRecord_to_json
  | CSong => SongRecord_to_json
  end.

(** [from_document(j)]: the constructor of the class applied to [j]. *)
Definition from_document (c : record_class) (j : doc) : outcome RecordObj :=
  construct (init_of c j).

(** [to_document(r)] *)
Definition to_document (c : record_class) (r : RecordObj) : outcome doc :=
  call r (to_json_of c).

End Records.

(* ================================================================== *)
(** * Starting items *)
(* ================================================================== *)

(** [['World %d' % (i + 1) for i in range(n)]] *)
Definition world_names (n : nat) : list string :=
  map (fun i => ("World " ++ Py.str_nat (i + 1))%string) (Py.range n).

(** [data.update(pairs)] for the entries that apply to every world.  The
    property is declared to return [dict[str, StarterRecord]]: an entry
    that holds a per-world dictionary under a name that is no world name
    is a type error here (in Python it would fail at the first use of its
    [count]). *)
Fixpoint update_global (data : Dict.odict StarterRecord)
    (entries : list (string * StartingEntry)) : outcome (Dict.odict StarterRecord) :=
  match entries with
  | [] => Ok data
  | (item_name, ForAll r) :: entries' =>
      update_global (Dict.set data item_name r) entries'
  | (_, ForWorld _) :: _ => Raise (TypeError "StarterRecord expected")
  end.

(** The property [WorldDistribution.starting_items]. *)
Definition starting_items (self : WorldDistribution)
  : outcome (Dict.odict StarterRecord) :=
  let names := world_names (world_count self) in
  let setting := starting_items_setting (dist_settings self) in
  match nth_error names (wd_id self) with
  | None => Raise (IndexError "list index out of range")
  | Some world_name =>
      match
        match Dict.get setting world_name with
        | Some (ForWorld d) => Ok (Dict.update [] d)
        | Some (ForAll _) => Raise (TypeError "'StarterRecord' object is not iterable")
        | None => Ok []
        end
      with
      | Raise e => Raise e
      | Ok data =>
          update_global data
            (filter (fun kv => negb (Py.mem (fst kv) names)) setting)
      end
  end.

(** [get_starting_item] *)
Definition get_starting_item (self : WorldDistribution) (item : string) : outcome Z :=
  match starting_items self with
  | Raise e => Raise e
  | Ok items =>
      match Dict.get items item with
      | Some r => Ok (count r)
      | None => Ok 0%Z
      end
  end.

(** An entry of [StartingItems.inventory]: the item it grants and its
    ammo, each with the count curve indexed by the equipment level. *)
Record InventoryEntry : Type := {
  entry_item_name : string;
  entry_ammo : option (Dict.odict (list Z))
}.

(** [item.ammo] as a condition. *)
Definition has_ammo (e : InventoryEntry) : bool :=
  match entry_ammo e with
  | Some (_ :: _) => true
  | _ => false
  end.

Definition ammo_items (e : InventoryEntry) : Dict.odict (list Z) :=
  match entry_ammo e with
  | Some d => d
  | None => []
  end.

Section StartingAmmo.

(** [StartingItems.inventory.values()] *)
Variable inventory : list InventoryEntry.

Definition StartingItemsDict : Type := Dict.odict StarterRecord.

(** [starting_items[ammo].count = qty[starting_items[item_name].count - 1]] *)
Definition write_ammo (item_name ammo : string) (qty : list Z)
  : M StartingItemsDict unit :=
  si <- get ;;
  match Dict.get si item_name with
  | None => raise (KeyError item_name)
  | Some r =>
      match Py.index qty (count r - 1) with
      | None => raise (IndexError "tuple index out of range")
      | Some q => put (Dict.set si ammo {| count := q |})
      end
  end.

(** The body of the inner loop of [add_starting_ammo]: ammo that is
    already among the starting items is left alone. *)
Definition ammo_step (item_name : string) (aq : string * list Z)
  : M StartingItemsDict unit :=
  let (ammo, qty) := aq in
  si <- get ;;
  if negb (Dict.mem si ammo) then
    put (Dict.set si ammo {| count := 0 |}) ;;
    write_ammo item_name ammo qty
  else ret tt.

(** The body of the outer loop of [add_starting_ammo]. *)
Definition ammo_outer (item : InventoryEntry) : M StartingItemsDict unit :=
  si <- get ;;
  if Dict.mem si (entry_item_name item) && has_ammo item
  then for_each (ammo_items item) (ammo_step (entry_item_name item))
  else ret tt.

Definition add_starting_ammo : M StartingItemsDict unit :=
  for_each inventory ammo_outer.

(** The first entry of the inventory for [item_name] that has ammo: the
    loop of [add_starting_item_with_ammo] stops there. *)
Definition ammo_entry (item_name : string) : option InventoryEntry :=
  find (fun item => String.eqb (entry_item_name item) item_name && has_ammo item)
       inventory.

(** The body of the inner loop of [add_starting_item_with_ammo]: the
    ammo count is written in every case. *)
Definition with_ammo_step (item_name : string) (aq : string * list Z)
  : M StartingItemsDict unit :=
  let (ammo, qty) := aq in
  si <- get ;;
  (if negb (Dict.mem si ammo)
   then put (Dict.set si ammo {| count := 0 |})
   else ret tt) ;;
  write_ammo item_name ammo qty.

Definition add_starting_item_with_ammo (item_name : string) (cnt : Z)
  : M StartingItemsDict unit :=
  si <- get ;;
  (if negb (Dict.mem si item_name)
   then put (Dict.set si item_name {| count := 0 |})
   else ret tt) ;;
  si <- get ;;
  match Dict.get si item_name with
  | None => raise (KeyError item_name)
  | Some r => put (Dict.set si item_name {| count := count r + cnt |})
  end ;;
  match ammo_entry item_name with
  | None => ret tt
  | Some item => for_each (ammo_items item) (with_ammo_step item_name)
  end.

End StartingAmmo.

(* ================================================================== *)
(** * Entrance overrides *)
(* ================================================================== *)

(** What [set_shuffled_entrances] reads of an [Entrance] object; regions
    are given by their names. [ent_replaces_parent] is
    [replaces.parent_region.name], absent when [replaces] is [None]. *)
Record Entrance : Type := {
  ent_name : string;
  ent_type : string;
  ent_connected_region : option string;
  ent_parent_region : string;
  ent_replaces_parent : option string
}.

Section Entrances.

(** The region graph with its entrance objects; an entrance object is
    named by its address, and [entrance_at] reads its present state. *)
Variable Graph : Type.
Variable entrance_at : Graph -> nat -> Entrance.

(** [worlds[id].get_entrance(name)] *)
Variable get_entrance : nat -> string -> M Graph (option nat).
(** The primitives of [EntranceShuffle]; they raise
    [EntranceShuffleError]. *)
Variable check_entrances_compatibility : nat -> nat -> M Graph unit.
Variable change_connections : nat -> nat -> M Graph unit.
Variable validate_world : nat -> M Graph unit.
Variable confirm_replacement : nat -> nat -> M Graph unit.
(** [build_close_match(name, 'entrance', entrance_pools)] *)
Variable close_match_entrance : string -> string.

Definition world_number (self : WorldDistribution) : string :=
  Py.str_nat (wd_id self + 1).

Definition unknown_entrance (self : WorldDistribution) (name : string) : exn :=
  RuntimeError ("Unknown entrance in world " ++ world_number self ++ ": " ++ name
                ++ ". " ++ close_match_entrance name).

Definition not_in_shuffled_pool (self : WorldDistribution) (name : string) : exn :=
  RuntimeError ("Entrance does not belong to a pool of shuffled entrances in world "
                ++ world_number self ++ ": " ++ name).

Definition already_shuffled (self : WorldDistribution) (name : string) : exn :=
  RuntimeError ("Entrance already shuffled in world " ++ world_number self ++ ": "
                ++ name).

Definition no_target (self : WorldDistribution) (e : Entrance)
    (target_region : string) : exn :=
  RuntimeError ("No entrance found to replace with " ++ ent_name e
                ++ " that leads to " ++ target_region ++ " in world "
                ++ world_number self).

Definition no_target_from (self : WorldDistribution) (e : Entrance)
    (target_region target_parent : string) : exn :=
  RuntimeError ("No entrance found to replace with " ++ ent_name e
                ++ " that leads to " ++ target_region ++ " from " ++ target_parent
                ++ " in world " ++ world_number self).

Definition target_already_shuffled (self : WorldDistribution)
    (target_region target_parent : string) : exn :=
  RuntimeError ("Entrance leading to " ++ target_region ++ " from " ++ target_parent
                ++ " is already shuffled in world " ++ world_number self).

Definition cannot_connect (self : WorldDistribution) (e : Entrance)
    (region : string) (reason : string) : exn :=
  RuntimeError ("Cannot connect " ++ ent_name e ++ " To " ++ region ++ " in world "
                ++ world_number self ++ " (Reason: " ++ reason ++ ")").

(** [next(filter(p, pool))] on a pool of entrance objects. *)
Definition first_entrance (g : Graph) (p : Entrance -> bool) (pool : list nat)
  : option nat :=
  find (fun a => p (entrance_at g a)) pool.

(** [target.replaces.parent_region.name == target_parent], for the
    targets up to the first match; [None] on a target without
    [replaces]. *)
Fixpoint first_from (g : Graph) (target_parent : string) (targets : list nat)
  : outcome (option nat) :=
  match targets with
  | [] => Ok None
  | t :: targets' =>
      match ent_replaces_parent (entrance_at g t) with
      | None => Raise (AttributeError "parent_region")
      | Some p => if String.eqb p target_parent then Ok (Some t)
                  else first_from g target_parent targets'
      end
  end.

(** The body of the loop over the entrance pools, for the record
    [(name, record)] with target region [target_region]; the result is
    the new value of [entrance_found]. *)
Definition entrance_pool_step (self : WorldDistribution)
    (target_entrance_pools : Dict.odict (list nat))
    (name : string) (record : EntranceRecord) (target_region : string)
    (entrance_found : bool) (kv : string * list nat) : M Graph bool :=
  let (pool_type, entrance_pool) := kv in
  g <- get ;;
  match first_entrance g (fun e => String.eqb (ent_name e) name) entrance_pool with
  | None => ret entrance_found
  | Some matched_entrance =>
      let me := entrance_at g matched_entrance in
      match ent_connected_region me with
      | Some _ =>
          if ent_type me =? "Overworld" then ret true
          else raise (already_shuffled self name)
      | None =>
          match Dict.get target_entrance_pools pool_type with
          | None => raise (KeyError pool_type)
          | Some targets =>
              let matched_targets_to_region :=
                filter (fun t =>
                          match ent_connected_region (entrance_at g t) with
                          | Some r => String.eqb r target_region
                          | None => false
                          end) targets in
              match matched_targets_to_region with
              | [] => raise (no_target self me target_region)
              | first_target :: _ =>
                  '(matched_target, target_parent) <-
                    (match origin record with
                     | Some target_parent =>
                         if negb (target_parent =? "") then
                           match first_from g target_parent matched_targets_to_region with
                           | Raise e => raise e
                           | Ok None =>
                               raise (no_target_from self me target_region target_parent)
                           | Ok (Some t) => ret (t, target_parent)
                           end
                         else ret (first_target,
                                   ent_parent_region (entrance_at g first_target))
                     | None => ret (first_target,
                                    ent_parent_region (entrance_at g first_target))
                     end) ;;
                  let mt := entrance_at g matched_target in
                  match ent_connected_region mt with
                  | None => raise (target_already_shuffled self target_region target_parent)
                  | Some target_connected =>
                      try_except
                        (check_entrances_compatibility matched_entrance matched_target ;;
                         change_connections matched_entrance matched_target ;;
                         validate_world matched_entrance)
                        (fun e =>
                           match e with
                           | EntranceShuffleError reason =>
                               Some (g' <- get ;;
                                     let region :=
                                       match ent_connected_region
                                               (entrance_at g' matched_entrance) with
                                       | Some r => r
                                       | None =>
                                           match ent_connected_region
                                                   (entrance_at g' matched_target) with
                                           | Some r => r
                                           | None => "None"
                                           end
                                       end in
                                     raise (cannot_connect self me region reason))
                           | _ => None
                           end) ;;
                      confirm_replacement matched_entrance matched_target ;;
                      ret true
                  end
              end
          end
      end
  end.

(** [for pool_type, entrance_pool in entrance_pools.items()] *)
Fixpoint entrance_pools_loop (self : WorldDistribution)
    (target_entrance_pools : Dict.odict (list nat))
    (name : string) (record : EntranceRecord) (target_region : string)
    (entrance_found : bool) (pools : Dict.odict (list nat)) : M Graph bool :=
  match pools with
  | [] => ret entrance_found
  | kv :: pools' =>
      found <- entrance_pool_step self target_entrance_pools name record
                 target_region entrance_found kv ;;
      entrance_pools_loop self target_entrance_pools name record target_region
        found pools'
  end.

(** The body of the loop over [self.entrances]. *)
Definition set_shuffled_entrance (self : WorldDistribution)
    (entrance_pools target_entrance_pools : Dict.odict (list nat))
    (nr : string * EntranceRecord) : M Graph unit :=
  let (name, record) := nr in
  match region record with
  | None => ret tt
  | Some target_region =>
      try_except
        (found <- get_entrance (wd_id self) name ;;
         match found with
         | None => raise (unknown_entrance self name)
         | Some _ => ret tt
         end)
        (fun e => if is_key_error e then Some (raise (unknown_entrance self name))
                  else None) ;;
      entrance_found <- entrance_pools_loop self target_entrance_pools name record
                          target_region false entrance_pools ;;
      if negb entrance_found then raise (not_in_shuffled_pool self name)
      else ret tt
  end.

Definition set_shuffled_entrances (self : WorldDistribution)
    (entrance_pools target_entrance_pools : Dict.odict (list nat))
  : M Graph unit :=
  for_each (entrances self)
           (set_shuffled_entrance self entrance_pools target_entrance_pools).

End Entrances.

(* ================================================================== *)
(** * Item-pool alteration *)
(* ================================================================== *)

(** What [alter_pool] and [fill] read of a [World]. *)
Record World : Type := {
  world_id : nat;
  world_settings : Settings;
  world_itempool : list Item
}.

Section AlterPool.

Variable ItemInfo_items : list (string * string).
Variable item_groups : Dict.odict (list string).
Variable is_item : string -> bool.
Variable build_close_match : string -> string -> string.
Variable get_junk_item :
  Z -> option (list string) -> option (Dict.odict ItemPoolRecord) -> Rng ->
  outcome (list string) * Rng.

Definition add_item := pool_add_item ItemInfo_items item_groups is_item
                         build_close_match get_junk_item.
Definition remove_item (pool : ref) (item_name : string) (count : Z)
  : M (PState string) (list string) :=
  pool_remove_item ItemInfo_items item_groups is_item [pool] item_name count None true.
Definition compile_pattern (p : string) : M (PState string) (string -> bool) :=
  self_pattern_matcher ItemInfo_items item_groups (PStr p).

(** [world.settings.item_pool_value in ['plentiful', 'ludicrous']] *)
Definition plentiful (ws : Settings) : bool :=
  Py.mem (item_pool_value ws) ["plentiful"; "ludicrous"].

(** [except KeyError: raise KeyError(msg)] *)
Definition key_error_as (msg : string) {A} (e : exn) : option (M (PState string) A) :=
  if is_key_error e then Some (raise (KeyError msg)) else None.

Definition unshuffled_trade (item_name : string) : exn :=
  RuntimeError ("An unshuffled trade item was included as a starting item. Please remove "
                ++ item_name ++ " from starting items").

(** First loop: the ['add'] and the ['remove'] adjustments. *)
Definition add_remove_step (pool : ref) (nr : string * ItemPoolRecord)
  : M (PState string) unit :=
  let (item_name, record) := nr in
  (if ipr_type record =? "add"
   then add_item pool item_name (ipr_count record) ;; ret tt
   else ret tt) ;;
  (if ipr_type record =? "remove"
   then remove_item pool item_name (ipr_count record) ;; ret tt
   else ret tt).

(** [self.item_pool[item_name].count = 1] *)
Definition set_count_one (item_name : string) : M (PState string) unit :=
  s <- get ;;
  match Dict.get (item_pool (st_self s)) item_name with
  | None => raise (KeyError item_name)
  | Some r =>
      put (with_self
             (set_item_pool
                (Dict.set (item_pool (st_self s)) item_name
                          {| ipr_type := ipr_type r; ipr_count := 1 |})
                (st_self s)) s)
  end.

(** Second loop: the ['set'] adjustments.  The local variables are
    [remove_trade] and [bottles]. *)
Definition set_step (world : World) (pool : ref)
    (bottle_matcher adult_trade_matcher child_trade_matcher : string -> bool)
    (acc : list string * Z) (nr : string * ItemPoolRecord)
  : M (PState string) (list string * Z) :=
  let ws := world_settings world in
  let (remove_trade, bottles) := acc in
  let (item_name, record) := nr in
  if negb (ipr_type record =? "set") then ret acc
  else if item_name =? "#Junk"
  then raise (ValueError "#Junk item group cannot have a set number of items")
  else if (item_name =? "Ice Arrows") && blue_fire_arrows ws
  then raise (ValueError "Cannot add Ice Arrows to item pool with Blue Fire Arrows enabled")
  else if (item_name =? "Blue Fire Arrows") && negb (blue_fire_arrows ws)
  then raise (ValueError "Cannot add Blue Fire Arrows to item pool with Blue Fire Arrows disabled")
  else if child_trade_matcher item_name
          && negb (Py.mem item_name (shuffle_child_trade ws))
  then ret (remove_trade ++ [item_name], bottles)
  else if child_trade_matcher item_name && negb (plentiful ws)
  then set_count_one item_name ;; ret acc
  else
    predicate <- compile_pattern item_name ;;
    s <- get ;;
    let pool_match := filter predicate (deref (st_heap s) pool) in
    for_each pool_match base_pool_remove ;;
    let add_count := (ipr_count record - Z.of_nat (length pool_match))%Z in
    let trade_fixed := negb (plentiful ws || adult_trade_shuffle ws) in
    if (add_count >? 0)%Z then
      added_items <- add_item pool item_name add_count ;;
      bottles' <- fold_m added_items bottles (fun bottles item =>
        if bottle_matcher item then ret (bottles + 1)%Z
        else if adult_trade_matcher item && trade_fixed
        then remove_item pool "#AdultTrade" 1 ;; ret bottles
        else ret bottles) ;;
      ret (remove_trade, bottles')
    else
      removed_items <- remove_item pool item_name (- add_count) ;;
      bottles' <- fold_m removed_items bottles (fun bottles item =>
        if bottle_matcher item then ret (bottles - 1)%Z
        else if adult_trade_matcher item && trade_fixed
        then add_item pool "#AdultTrade" 1 ;; ret bottles
        else ret bottles) ;;
      ret (remove_trade, bottles').

(** [del self.item_pool[item]] *)
Definition del_item_pool (item : string) : M (PState string) unit :=
  s <- get ;;
  if Dict.mem (item_pool (st_self s)) item
  then put (with_self (set_item_pool (Dict.del (item_pool (st_self s)) item)
                                     (st_self s)) s)
  else raise (KeyError item).

(** Fourth step: the starting items leave the pool. *)
Definition starting_step (world : World) (pool : ref)
    (bottle_matcher adult_trade_matcher : string -> bool)
    (nr : string * StarterRecord) : M (PState string) unit :=
  let ws := world_settings world in
  let (item_name, record) := nr in
  if bottle_matcher item_name
  then remove_item pool "#Bottle" (count record) ;; ret tt
  else if Py.mem item_name ["Pocket Egg"; "Pocket Cucco"] && adult_trade_shuffle ws
  then
    try_except
      (if Py.mem "Pocket Egg" (adult_trade_start ws) then
         try_except
           (remove_item pool "Pocket Egg" (count record) ;; ret tt)
           (key_error_as "Tried to start with a Pocket Egg but could not remove it from the item pool. Are both Pocket Egg and Pocket Cucco shuffled?")
       else if negb (Py.mem "Pocket Cucco" (adult_trade_start ws))
       then raise (unshuffled_trade item_name)
       else remove_item pool "Pocket Cucco" (count record) ;; ret tt)
      (key_error_as "Tried to start with a Pocket Egg or Pocket Cucco but could not remove it from the item pool. Are both Pocket Egg and Pocket Cucco shuffled?")
  else if adult_trade_matcher item_name && negb (adult_trade_shuffle ws)
  then remove_item pool "#AdultTrade" (count record) ;; ret tt
  else if (item_name =? "Ice Arrows") && blue_fire_arrows ws
  then remove_item pool "Blue Fire Arrows" (count record) ;; ret tt
  else if Py.mem item_name ["Weird Egg"; "Chicken"]
          && match shuffle_child_trade ws with [] => false | _ => true end
  then
    try_except
      (if Py.mem "Weird Egg" (shuffle_child_trade ws)
       then remove_item pool "Weird Egg" (count record) ;; ret tt
       else if negb (Py.mem "Chicken" (shuffle_child_trade ws))
       then raise (unshuffled_trade item_name)
       else remove_item pool "Chicken" (count record) ;; ret tt)
      (key_error_as "Tried to start with a Weird Egg or Chicken but could not remove it from the item pool. Are both Weird Egg and the Chicken shuffled?")
  else if is_item item_name
  then
    try_except
      (remove_item pool item_name (count record) ;; ret tt)
      (fun e => if is_key_error e then Some (ret tt) else None) ;;
    if Py.mem item_name (item_group item_groups "Song")
    then modify (fun s => with_self (set_song_as_items true (st_self s)) s)
    else ret tt
  else ret tt.

(** Steps 1 to 4 of [alter_pool]: everything between the copy of the
    pool into [self.base_pool] and the final junk step. *)
Definition alter_pool_adjust (world : World) (pool : ref) : M (PState string) unit :=
  bottle_matcher <- compile_pattern "#Bottle" ;;
  adult_trade_matcher <- compile_pattern "#AdultTrade" ;;
  child_trade_matcher <- compile_pattern "#ChildTrade" ;;
  s <- get ;;
  for_each (item_pool (st_self s)) (add_remove_step pool) ;;
  s <- get ;;
  '(remove_trade, bottles) <-
    fold_m (item_pool (st_self s)) ([], 0%Z)
      (set_step world pool bottle_matcher adult_trade_matcher child_trade_matcher) ;;
  for_each remove_trade del_item_pool ;;
  (if (bottles >? 0)%Z
   then remove_item pool "#Bottle" bottles ;; ret tt
   else add_item pool "#Bottle" (- bottles) ;; ret tt) ;;
  s <- get ;;
  start <- lift_outcome (starting_items (st_self s)) ;;
  for_each start (starting_step world pool bottle_matcher adult_trade_matcher).

(** Step 5: junk is added or removed until the pool has [pool_size]
    elements again; the pool itself is returned. *)
Definition alter_pool_restore (pool : ref) (pool_size : Z) : M (PState string) ref :=
  s <- get ;;
  let junk_to_add := (pool_size - Z.of_nat (length (deref (st_heap s) pool)))%Z in
  (if (junk_to_add >? 0)%Z
   then add_item pool "#Junk" junk_to_add ;; ret tt
   else remove_item pool "#Junk" (- junk_to_add) ;; ret tt) ;;
  ret pool.

Definition alter_pool (world : World) (pool : ref) : M (PState string) ref :=
  s <- get ;;
  put (with_self (set_base_pool (deref (st_heap s) pool) (st_self s)) s) ;;
  let pool_size := Z.of_nat (length (deref (st_heap s) pool)) in
  alter_pool_adjust world pool ;;
  alter_pool_restore pool pool_size.

End AlterPool.

(* ================================================================== *)
(** * Location fill *)
(* ================================================================== *)

(** [sorted(names)] *)
Fixpoint insert_sorted (x : string) (l : list string) : list string :=
  match l with
  | [] => [x]
  | y :: l' => if String.leb x y then x :: l else y :: insert_sorted x l'
  end.

Definition sorted (l : list string) : list string :=
  fold_right insert_sorted [] l.

Fixpoint take_nth {A} (n : nat) (l : list A) : option (A * list A) :=
  match l, n with
  | [], _ => None
  | x :: l', O => Some (x, l')
  | x :: l', S n' =>
      match take_nth n' l' with
      | Some (y, r) => Some (y, x :: r)
      | None => None
      end
  end.

(** [random.sample(l, len(l))]: a permutation drawn from the random
    source, one element at a time. *)
Fixpoint random_sample {A} (k : nat) (l : list A) (g : Rng) : list A * Rng :=
  match k with
  | O => ([], g)
  | S k' =>
      let (n, g') := draw g in
      match take_nth (n mod length l) l with
      | Some (x, rest) =>
          let (xs, g'') := random_sample k' rest g' in (x :: xs, g'')
      | None => ([], g')
      end
  end.

(** [s[0]] *)
Definition first_char {S} (s : string) : M S ascii :=
  match s with
  | EmptyString => raise (IndexError "string index out of range")
  | String c _ => ret c
  end.

Definition is_hash (c : ascii) : bool := Ascii.eqb c "#"%char.

Section Fill.

Variable ItemInfo_items : list (string * string).
Variable item_groups : Dict.odict (list string).
Variable is_item : string -> bool.
Variable build_close_match : string -> string -> string.
Variable get_junk_item :
  Z -> option (list string) -> option (Dict.odict ItemPoolRecord) -> Rng ->
  outcome (list string) * Rng.

(** [song_list] of [ItemPool]. *)
Variable song_list : list string.
(** The names of [location_table], in table order. *)
Variable location_names : list string.
(** [LocationFactory(name)] *)
Variable LocationFactory : string -> outcome Location.
(** [location_table[name][4]], the vanilla item of a location. *)
Variable vanilla_item : string -> outcome string.
(** [ItemFactory(name, world)]; the last argument is the identity given
    to the new object. *)
Variable ItemFactory : string -> option nat -> nat -> outcome Item.

(** The state of the worlds that [push_item] changes and the search
    reads. *)
Variable WorldStates : Type.
(** [location.world.push_item(location, item, True)] *)
Variable push_item : Location -> Item -> WorldStates -> WorldStates.
(** [Search.max_explore(states, items).can_beat_game(False)] *)
Variable can_beat_game : WorldStates -> list Item -> bool.

(** The state of a fill: [self], the item pools and the random source;
    the location pools; the list [item_pools] itself; the worlds; and the
    identity of the next object [ItemFactory] makes. *)
Record FState : Type := {
  fs_pools : PState Item;
  fs_locations : @Heap Location;
  fs_item_pools : list ref;
  fs_worlds : WorldStates;
  fs_next_uid : nat
}.

Definition with_pools (p : PState Item) (s : FState) : FState :=
  {| fs_pools := p; fs_locations := fs_locations s;
     fs_item_pools := fs_item_pools s; fs_worlds := fs_worlds s;
     fs_next_uid := fs_next_uid s |}.
Definition with_locations (h : @Heap Location) (s : FState) : FState :=
  {| fs_pools := fs_pools s; fs_locations := h;
     fs_item_pools := fs_item_pools s; fs_worlds := fs_worlds s;
     fs_next_uid := fs_next_uid s |}.
Definition with_item_pools (l : list ref) (s : FState) : FState :=
  {| fs_pools := fs_pools s; fs_locations := fs_locations s;
     fs_item_pools := l; fs_worlds := fs_worlds s;
     fs_next_uid := fs_next_uid s |}.
Definition with_worlds (w : WorldStates) (s : FState) : FState :=
  {| fs_pools := fs_pools s; fs_locations := fs_locations s;
     fs_item_pools := fs_item_pools s; fs_worlds := w;
     fs_next_uid := fs_next_uid s |}.
Definition with_next_uid (n : nat) (s : FState) : FState :=
  {| fs_pools := fs_pools s; fs_locations := fs_locations s;
     fs_item_pools := fs_item_pools s; fs_worlds := fs_worlds s;
     fs_next_uid := n |}.

(** A pool operation run inside a fill. *)
Definition lift_pools {A} (m : M (PState Item) A) : M FState A :=
  fun s => let (r, p) := m (fs_pools s) in (r, with_pools p s).

Definition fill_pattern_matcher (p : pattern) : M FState (string -> bool) :=
  lift_pools (self_pattern_matcher ItemInfo_items item_groups p).

Definition get_self : M FState WorldDistribution :=
  s <- get ;; ret (st_self (fs_pools s)).

Definition put_self (w : WorldDistribution) : M FState unit :=
  modify (fun s => with_pools (with_self w (fs_pools s)) s).

(** [random.choices(l)[0]] *)
Definition choose_one {A} (l : list A) : M FState A :=
  s <- get ;;
  let (r, g') := random_choice l (st_rng (fs_pools s)) in
  put (with_pools (with_rng g' (fs_pools s)) s) ;;
  match r with
  | Some x => ret x
  | None => raise (IndexError "Cannot choose from an empty sequence")
  end.

(** A new [Item] object. *)
Definition make_item (name : string) (world : option nat) : M FState Item :=
  s <- get ;;
  put (with_next_uid (S (fs_next_uid s)) s) ;;
  lift_outcome (ItemFactory name world (fs_next_uid s)).

(** [worlds[i]] *)
Definition world_at (worlds : list World) (i : nat) : M FState World :=
  match nth_error worlds i with
  | Some w => ret w
  | None => raise (IndexError "list index out of range")
  end.

(** ** [get_valid_items_from_record] *)

Definition group_choice (choice : string) : M FState bool :=
  c <- first_char choice ;;
  ret (is_hash c && Dict.mem item_groups (Py.drop_first choice)).

Fixpoint remove_used (used_items valid_items : list string) : list string :=
  match used_items with
  | [] => valid_items
  | used_item :: used' =>
      match Py.list_remove String.eqb used_item valid_items with
      | Some l => remove_used used' l
      | None => remove_used used' valid_items
      end
  end.

Definition get_valid_items_from_record (itempool : list Item)
    (used_items : list string) (record_item : pattern) : M FState (list string) :=
  predicate <- fill_pattern_matcher record_item ;;
  let in_pool := existsb (fun it => predicate (item_name it)) itempool in
  valid_items <-
    match record_item with
    | PList choices =>
        groups <- fold_m choices [] (fun acc choice =>
          is_group <- group_choice choice ;;
          ret (if is_group && in_pool then acc ++ [choice] else acc)) ;;
        ret (groups ++
             map item_name
               (filter (fun it => Py.mem (item_name it) choices
                                  && predicate (item_name it)) itempool))
    | PStr name =>
        is_group <- group_choice name ;;
        if is_group then ret (if in_pool then [name] else [])
        else ret [name]
    end ;;
  ret (remove_used used_items valid_items).

(** ** [pool_replace_item] and [get_item] *)

Definition fill_remove_item (pools : list ref) (item_name : string)
    (player_id : nat) : M FState Item :=
  removed <- lift_pools (pool_remove_item ItemInfo_items item_groups is_item
                           pools item_name 1 (Some player_id) true) ;;
  match removed with
  | it :: _ => ret it
  | [] => raise (IndexError "list index out of range")
  end.

(** The candidates of [ItemIterator(item_matcher, world)]: an object is
    made for every name of the table, and kept when the pattern matches
    its name. *)
Fixpoint item_iterator (new_item : string) (world : nat) (names : list string)
  : M FState (list Item) :=
  match names with
  | [] => ret []
  | name :: names' =>
      it <- make_item name (Some world) ;;
      matcher <- fill_pattern_matcher (PStr new_item) ;;
      rest <- item_iterator new_item world names' ;;
      ret (if matcher (item_name it) then it :: rest else rest)
  end.

Definition junk_item (restricted : bool) : M FState Item :=
  s <- get ;;
  let p := fs_pools s in
  let (r, g') :=
    if restricted
    then get_junk_item 1 (Some (base_pool (st_self p)))
           (Some (item_pool (st_self p))) (st_rng p)
    else get_junk_item 1 None None (st_rng p) in
  put (with_pools (with_rng g' p) s) ;;
  names <- lift_outcome r ;;
  match names with
  | name :: _ => make_item name None
  | [] => raise (IndexError "list index out of range")
  end.

Definition pool_replace_item (item_pools : list ref) (item_group : string)
    (player_id : nat) (new_item : string) (worlds : list World) : M FState Item :=
  removed_item <- fill_remove_item item_pools item_group player_id ;;
  self <- get_self ;;
  match Dict.get (item_pool self) (item_name removed_item) with
  | None => raise (KeyError (item_name removed_item))
  | Some r =>
      if (ipr_count r >? 1)%Z
      then put_self (set_item_pool
                       (Dict.set (item_pool self) (item_name removed_item)
                          {| ipr_type := ipr_type r; ipr_count := ipr_count r - 1 |})
                       self)
      else put_self (set_item_pool (Dict.del (item_pool self) (item_name removed_item))
                                   self)
  end ;;
  if new_item =? "#Junk" then
    self <- get_self ;;
    junk_item (enable_distribution_file (dist_settings self))
  else
    world <- world_at worlds player_id ;;
    candidates <- item_iterator new_item (world_id world) (map fst ItemInfo_items) ;;
    choose_one candidates.

Definition too_many (self : WorldDistribution) (what stock : string) : exn :=
  RuntimeError ("Too many " ++ what ++ " were added to world " ++ world_number self
                ++ ", and not enough " ++ stock ++ " to be removed.").

Definition unknown_item_placed (self : WorldDistribution) (record_item : string)
    (location : Location) : exn :=
  RuntimeError ("Unknown item '" ++ record_item ++ "' being placed on location "
                ++ loc_name location ++ " in world " ++ world_number self ++ ". "
                ++ build_close_match record_item "item").

(** [except KeyError: raise e] *)
Definition on_key_error {A} (e : exn) (ex : exn) : option (M FState A) :=
  if is_key_error ex then Some (raise e) else None.

Definition is_index_error (e : exn) : bool :=
  match e with IndexError _ => true | _ => false end.

(** The list [pool] of [get_item]: the list objects of [item_pools], with
    a new empty list in the place of each ignored one. *)
Fixpoint restricted_pools (ignore_pools : list nat) (i : nat) (item_pools : list ref)
  : M FState (list ref) :=
  match item_pools with
  | [] => ret []
  | p :: rest =>
      p' <- (if existsb (Nat.eqb i) ignore_pools
             then s <- get ;;
                  let (r, h) := alloc (st_heap (fs_pools s)) [] in
                  put (with_pools (with_heap h (fs_pools s)) s) ;;
                  ret r
             else ret p) ;;
      rest' <- restricted_pools ignore_pools (S i) rest ;;
      ret (p' :: rest')
  end.

(** [for i, new_pool in enumerate(pool): if new_pool: item_pools[i] = new_pool] *)
Fixpoint persist_pools (h : @Heap Item) (pool item_pools : list ref) : list ref :=
  match pool, item_pools with
  | new_pool :: pool', old :: item_pools' =>
      (match deref h new_pool with
       | [] => old
       | _ :: _ => new_pool
       end) :: persist_pools h pool' item_pools'
  | _, _ => item_pools
  end.

(** The count of [name] in [self.item_pool] goes down by one; the entry
    is deleted when it was 1. *)
Definition shop_item_taken (name : string) : M FState unit :=
  self <- get_self ;;
  match Dict.get (item_pool self) name with
  | None => ret tt
  | Some r =>
      if (ipr_count r =? 1)%Z
      then put_self (set_item_pool (Dict.del (item_pool self) name) self)
      else put_self (set_item_pool
                       (Dict.set (item_pool self) name
                          {| ipr_type := ipr_type r; ipr_count := ipr_count r - 1 |})
                       self)
  end.

(** The count of [name] in [self.item_pool] goes up by one. *)
Definition item_replaced (name : string) : M FState unit :=
  self <- get_self ;;
  match Dict.get (item_pool self) name with
  | None => put_self (set_item_pool
                        (Dict.set (item_pool self) name
                           {| ipr_type := "set"; ipr_count := 1 |}) self)
  | Some r => put_self (set_item_pool
                          (Dict.set (item_pool self) name
                             {| ipr_type := ipr_type r; ipr_count := ipr_count r + 1 |})
                          self)
  end.

Definition get_item (ignore_pools : list nat) (location : Location)
    (player_id : nat) (record_item : string) (worlds : list World) : M FState Item :=
  world <- world_at worlds player_id ;;
  self <- get_self ;;
  s <- get ;;
  let item_pools := fs_item_pools s in
  pool <- (match ignore_pools with
           | [] => ret item_pools
           | _ :: _ => restricted_pools ignore_pools 0 item_pools
           end) ;;
  it <-
    try_except
      (fill_remove_item pool record_item player_id)
      (fun ex =>
         if is_key_error ex then Some (
           it <-
             (if (loc_type location =? "Shop") && Py.contains record_item "Buy" then
                try_except
                  (removed_item <- fill_remove_item pool "Buy *" player_id ;;
                   shop_item_taken (item_name removed_item) ;;
                   make_item record_item (Some (world_id world)))
                  (on_key_error (too_many self "shop buy items"
                                   "shop buy items are available in the item pool"))
              else if Py.mem record_item (item_group item_groups "Bottle") then
                try_except
                  (pool_replace_item pool "#Bottle" player_id record_item worlds)
                  (on_key_error (too_many self "bottles"
                                   "bottles are available in the item pool"))
              else if Py.mem record_item (item_group item_groups "AdultTrade")
                      && negb (adult_trade_shuffle (world_settings world)) then
                try_except
                  (pool_replace_item pool "#AdultTrade" player_id record_item worlds)
                  (on_key_error (too_many self "adult trade items"
                                   "adult trade items are available in the item pool"))
              else if Py.mem record_item (item_group item_groups "ChildTrade")
                      && negb (Py.mem record_item
                                 (shuffle_child_trade (world_settings world))) then
                try_except
                  (pool_replace_item pool "#ChildTrade" player_id record_item worlds)
                  (on_key_error (too_many self "child trade items"
                                   "child trade items are available in the item pool"))
              else
                world0 <- world_at worlds 0 ;;
                if (record_item =? "Ice Arrows")
                   && blue_fire_arrows (world_settings world0)
                then raise (ValueError "Cannot add Ice Arrows to item pool with Blue Fire Arrows enabled")
                else if (record_item =? "Blue Fire Arrows")
                        && negb (blue_fire_arrows (world_settings world0))
                then raise (ValueError "Cannot add Blue Fire Arrows to item pool with Blue Fire Arrows disabled")
                else
                  try_except
                    (pool_replace_item item_pools "#Junk" player_id record_item worlds)
                    (fun ex' =>
                       if is_key_error ex'
                       then Some (raise (too_many self "items" "junk is available"))
                       else if is_index_error ex'
                       then Some (raise (unknown_item_placed self record_item location))
                       else None)) ;;
           item_replaced (item_name it) ;;
           ret it)
         else if is_index_error ex
         then Some (raise (unknown_item_placed self record_item location))
         else None) ;;
  s <- get ;;
  put (with_item_pools
         (persist_pools (st_heap (fs_pools s)) pool (fs_item_pools s)) s) ;;
  ret it.

(** ** [fill] *)

Definition unknown_location (world : World) (location_name : string) : exn :=
  RuntimeError ("Unknown location in world " ++ Py.str_nat (world_id world + 1)
                ++ ": '" ++ location_name ++ "'. "
                ++ build_close_match location_name "location").

Definition already_filled (self : WorldDistribution) (location_name : string) : exn :=
  RuntimeError ("Location already filled in world " ++ world_number self ++ ": "
                ++ location_name).

Definition reward_outside_boss (self : WorldDistribution) (record_item : string)
    (location_name : string) : exn :=
  RuntimeError ("Cannot place dungeon reward " ++ record_item ++ " in world "
                ++ world_number self ++ " in location " ++ location_name ++ ".").

(** The message of the reachability gate. *)
Definition not_reachable (self : WorldDistribution) (location : Location)
    (it : Item) (player_id : nat) : exn :=
  FillError (loc_name location ++ " in world " ++ world_number self
             ++ " is not reachable without " ++ item_name it ++ " in world "
             ++ Py.str_nat (player_id + 1) ++ "!").

(** [lambda loc: loc.world.id == world.id and
    loc.name.lower() == location_name.lower()] *)
Definition location_matcher (world : World) (location_name : string)
    (loc : Location) : bool :=
  Nat.eqb (loc_world loc) (world_id world)
  && String.eqb (Py.lower (loc_name loc)) (Py.lower location_name).

(** [any(name in song_list and r.count
         for name, r in world.settings.starting_items.items())] *)
Fixpoint starts_with_song (entries : Dict.odict StartingEntry) : M FState bool :=
  match entries with
  | [] => ret false
  | (name, e) :: entries' =>
      if Py.mem name song_list then
        match e with
        | ForAll r => if negb (count r =? 0)%Z then ret true
                      else starts_with_song entries'
        | ForWorld _ => raise (AttributeError "count")
        end
      else starts_with_song entries'
  end.

(** [self.locations[key].item = chosen], on the record object. *)
Definition write_record_item (key : string) (record : LocationRecord)
    (chosen : string) : M FState unit :=
  self <- get_self ;;
  put_self (set_locations
              (Dict.set (locations self) key
                 (OneRecord {| item := Some (PStr chosen); player := player record;
                               price := price record; model := model record |}))
              self).

(** The items of all pools, [itertools.chain.from_iterable(item_pools)]. *)
Definition pool_items (s : FState) : list Item :=
  flat_map (deref (st_heap (fs_pools s))) (fs_item_pools s).

(** The reachability gate, run once an item has been pushed. *)
Definition reachability_gate (location : Location) (it : Item) (player_id : nat)
  : M FState unit :=
  if item_advancement it then
    s <- get ;;
    if negb (can_beat_game (fs_worlds s) (pool_items s))
    then raise (not_reachable (st_self (fs_pools s)) location it player_id)
    else ret tt
  else ret tt.

(** What the body of the loop has done when it reaches the gate. *)
Inductive placement : Type :=
| Skipped
| Placed (location : Location) (it : Item) (player_id : nat).

(** The body of the loop of [fill] up to and including [push_item]:
    the location is pulled, the item is resolved and taken from the
    pools, and pushed.  [used_items] is the local list of the loop. *)
Definition place_record (worlds : list World) (world : World)
    (location_pools : list ref) (fillable_locations : list Location)
    (key location_name : string) (record : LocationRecord)
    (used_items : list string) : M FState (placement * list string) :=
  match item record with
  | None => ret (Skipped, used_items)
  | Some record_item =>
      s <- get ;;
      let (found, h) := pull_first_element Location_eqb (fs_locations s)
                          location_pools (location_matcher world location_name)
                          true in
      put (with_locations h s) ;;
      match found with
      | None =>
          location <- try_except (lift_outcome (LocationFactory location_name))
                        (on_key_error (unknown_location world location_name)) ;;
          if loc_type location =? "Boss" then ret (Skipped, used_items)
          else if Py.mem (loc_name location)
                    (disabled_locations (world_settings world))
          then ret (Skipped, used_items)
          else if existsb (location_matcher world location_name) fillable_locations
          then self <- get_self ;; raise (already_filled self location_name)
          else ret (Skipped, used_items)
      | Some location =>
          valid_items <-
            (match record_item with
             | PStr "#Vanilla" =>
                 v <- lift_outcome (vanilla_item location_name) ;; ret [v]
             | _ => get_valid_items_from_record (world_itempool world) used_items
                      record_item
             end) ;;
          '(chosen, used_items) <-
            (match valid_items with
             | [] =>
                 match record_item with
                 | PList choices =>
                     let allowed_choices :=
                       filter (fun c =>
                                 negb (Py.mem c ["#ChildTrade"; "#AdultTrade"; "#Bottle"]
                                       || Py.mem c (item_group item_groups "Bottle")
                                       || Py.mem c (item_group item_groups "AdultTrade")
                                       || Py.mem c (item_group item_groups "ChildTrade")))
                              choices in
                     chosen <- choose_one allowed_choices ;;
                     write_record_item key record chosen ;;
                     ret (chosen, used_items)
                 | PStr name => ret (name, used_items)
                 end
             | _ :: _ =>
                 chosen <- choose_one valid_items ;;
                 write_record_item key record chosen ;;
                 c <- first_char chosen ;;
                 ret (chosen, if negb (is_hash c) then used_items ++ [chosen]
                              else used_items)
             end) ;;
          self <- get_self ;;
          let player_id := match player record with
                           | None => wd_id self
                           | Some p => p - 1
                           end in
          (if Py.mem chosen (item_group item_groups "DungeonReward")
           then raise (reward_outside_boss self chosen location_name)
           else ret tt) ;;
          let song_shuffle := shuffle_song_items (world_settings world) =? "song" in
          chosen <-
            (if (chosen =? "#Junk") && (loc_type location =? "Song") && song_shuffle
             then
               has_song <- starts_with_song
                             (starting_items_setting (world_settings world)) ;;
               if negb has_song
               then write_record_item key record "#JunkSong" ;; ret "#JunkSong"
               else ret chosen
             else ret chosen) ;;
          matcher <- fill_pattern_matcher (PStr chosen) ;;
          let is_invert := matcher "!" in
          s <- get ;;
          let n := length (fs_item_pools s) in
          let ignore_pools :=
            if is_invert && negb (loc_type location =? "Song") && song_shuffle
            then Some [2] else None in
          let ignore_pools :=
            if is_invert && (loc_type location =? "Song") && song_shuffle
            then Some (filter (fun i => negb (Nat.eqb i 2)) (Py.range n))
            else ignore_pools in
          let ignore_pools :=
            if (loc_type location =? "Shop")
               && match loc_price location with None => true | Some _ => false end
            then filter (fun i => negb (Nat.eqb i 0)) (Py.range n)
            else match ignore_pools with
                 | None => [0]
                 | Some l => l ++ [0]
                 end in
          it <- get_item ignore_pools location player_id chosen worlds ;;
          (if (loc_type location =? "Song") && negb (item_type it =? "Song")
           then self <- get_self ;; put_self (set_song_as_items true self)
           else ret tt) ;;
          modify (fun s => with_worlds (push_item location it (fs_worlds s)) s) ;;
          ret (Placed location it player_id, used_items)
      end
  end.

(** The body of the loop of [fill], for the pair [(location_name, record)]
    that [pattern_dict_items] yields from the key [key]. *)
Definition fill_location (worlds : list World) (world : World)
    (location_pools : list ref) (fillable_locations : list Location)
    (key location_name : string) (value : LocationEntry)
    (used_items : list string) : M FState (list string) :=
  match value with
  | ManyRecords _ => raise (AttributeError "item")
  | OneRecord record =>
      '(placed, used_items) <- place_record worlds world location_pools
                                 fillable_locations key location_name record
                                 used_items ;;
      match placed with
      | Skipped => ret used_items
      | Placed location it player_id =>
          reachability_gate location it player_id ;; ret used_items
      end
  end.

(** A location of the table met by [pattern_dict_items] under a key that
    is a pattern: the pattern is compiled, and the body runs if the
    location matches. *)
Definition fill_matching (worlds : list World) (world : World)
    (location_pools : list ref) (fillable_locations : list Location)
    (key : string) (value : LocationEntry)
    (used_items : list string) (location_name : string)
  : M FState (list string) :=
  matcher <- fill_pattern_matcher (PStr key) ;;
  if matcher location_name
  then fill_location worlds world location_pools fillable_locations key
         location_name value used_items
  else ret used_items.

(** [pattern_dict_items] driving the loop: a key that is a pattern is
    tried against every location of the table in turn; any other key is
    the name of the location. *)
Definition fill_key (worlds : list World) (world : World)
    (location_pools : list ref) (fillable_locations : list Location)
    (used_items : list string) (kv : string * LocationEntry)
  : M FState (list string) :=
  let (key, value) := kv in
  if is_pattern key then
    fold_m location_names used_items
      (fill_matching worlds world location_pools fillable_locations key value)
  else fill_location worlds world location_pools fillable_locations key key value
         used_items.

(** The order in which [fill] visits [self.locations]. *)
Definition fill_order (s : FState) : list (string * LocationEntry) * Rng :=
  let self := st_self (fs_pools s) in
  match locations self with
  | [] => ([], st_rng (fs_pools s))
  | _ :: _ =>
      let names := sorted (Dict.keys (locations self)) in
      let (order, g') := random_sample (length names) names (st_rng (fs_pools s)) in
      (flat_map (fun k => match Dict.get (locations self) k with
                          | Some v => [(k, v)]
                          | None => []
                          end) order, g')
  end.

Definition fill (worlds : list World) (location_pools : list ref) : M FState unit :=
  self <- get_self ;;
  world <- world_at worlds (wd_id self) ;;
  s <- get ;;
  let fillable_locations := flat_map (deref (fs_locations s)) location_pools in
  let (order, g') := fill_order s in
  put (with_pools (with_rng g' (fs_pools s)) s) ;;
  fold_m order [] (fill_key worlds world location_pools fillable_locations) ;;
  ret tt.

End Fill.

Arguments fs_pools {WorldStates} _.
Arguments fs_locations {WorldStates} _.
Arguments fs_item_pools {WorldStates} _.
Arguments fs_worlds {WorldStates} _.
Arguments fs_next_uid {WorldStates} _.
Arguments with_pools {WorldStates} _ _.
Arguments with_locations {WorldStates} _ _.
Arguments with_item_pools {WorldStates} _ _.
Arguments with_worlds {WorldStates} _ _.
Arguments with_next_uid {WorldStates} _ _.
Arguments pool_items {WorldStates} _.
Arguments fill_order {WorldStates} _.

(* ================================================================== *)
(** * Vocabulary of the specifications *)
(* ================================================================== *)

(** The part of the major group that comes from the base pool. *)
Definition major_core (item_groups : Dict.odict (list string))
    (st : Settings) (base group : list string) : list string :=
  let g0 := filter (fun item => Py.mem item base) group in
  if negb (shuffle_song_items st =? "any")
  then filter (fun x => negb (Py.mem x (item_group item_groups "Song"))) g0
  else g0.

(** Two states of [self] in which a pattern compiles to the same
    predicate: same groups, settings and memoized major group, and a base
    pool that has only lost names. *)
Definition same_env (w w2 : WorldDistribution) : Prop :=
  search_groups w2 = search_groups w /\
  dist_settings w2 = dist_settings w /\
  major_group w2 = major_group w /\
  (forall x, Py.mem x (base_pool w2) = true -> Py.mem x (base_pool w) = true).

(** Equality on pool elements decides identity. *)
Class PoolElementLaws (E : Type) `{PoolElement E} : Prop :=
  elt_eqb_eq : forall x y : E, elt_eqb x y = true <-> x = y.

(** The matches of a compiled pattern within the scope of a removal: all
    elements, or the elements of one world. *)
Definition in_scope {E} `{PoolElement E} (world_id : option nat)
    (m : string -> bool) (e : E) : bool :=
  match world_id with
  | None => m (elt_name e)
  | Some w => Nat.eqb (elt_world e) w && m (elt_name e)
  end.

(** Taking names out of the base pool, one copy each, in order. *)
Fixpoint remove_names (names : list string) (l : list string)
  : option (list string) :=
  match names with
  | [] => Some l
  | x :: names' =>
      match Py.list_remove String.eqb x l with
      | Some l' => remove_names names' l'
      | None => None
      end
  end.

(** No element of the pools satisfies [p]. *)
Definition pools_lack {E} (h : @Heap E) (pools : list ref) (p : E -> bool) : Prop :=
  forall r e, In r pools -> In e (deref h r) -> p e = false.

(** The elements of [l] were taken from the pools of [h]. *)
Definition taken_from {E} (h : @Heap E) (pools : list ref) (l : list E) : Prop :=
  Forall (fun e => exists r, In r pools /\ In e (deref h r)) l.

(** The error of an exhausted removal: its message is chosen by whether
    the pattern text is the name of an item. *)
Definition key_error_of (is_item : string -> bool) (name : string) : exn :=
  if is_item name then no_remaining_items name else no_items_matching name.

Import Records.

(** An [ItemPoolRecord] object with the given [type] and [count]. *)
Definition ipr_obj (t c : doc) : RecordObj :=
  {| properties := [("type", DStr "set"); ("count", DInt 1)];
     attrs := [("type", t); ("count", c)] |}.


Definition pool_type (t : doc) : Prop :=
  t = DStr "add" \/ t = DStr "remove" \/ t = DStr "set".

(** ** Valid records *)

Definition opt_str (v : doc) : Prop := v = DNone \/ exists s, v = DStr s.
Definition opt_int (v : doc) : Prop := v = DNone \/ exists z, v = DInt z.
Definition opt_bool (v : doc) : Prop := v = DNone \/ exists b, v = DBool b.
Definition str_list (v : doc) : Prop := exists l, v = DList (map DStr l).
Definition opt_str_list (v : doc) : Prop := v = DNone \/ str_list v.

(** The [properties] each class passes to [Record.__init__]. *)
Definition props_of (c : record_class) : Dict.odict doc :=
  match c with
  | CDungeon => [("mq", DNone)]
  | CEmptyDungeon => [("empty", DNone)]
  | CGossip => [("text", DNone); ("colors", DNone); ("hinted_locations", DNone);
                ("hinted_items", DNone)]
  | CItemPool => [("type", DStr "set"); ("count", DInt 1)]
  | CLocation => [("item", DNone); ("player", DNone); ("price", DNone);
                  ("model", DNone)]
  | CEntrance => [("region", DNone); ("origin", DNone)]
  | CStarter => [("count", DInt 1)]
  | CTrial => [("active", DNone)]
  | CSong => [("notes", DNone)]
  end.

(** The attributes of an object of each class, in the order the
    constructor creates them, with values of the declared types. *)
Definition valid_attrs (c : record_class) (a : Dict.odict doc) : Prop :=
  match c with
  | CDungeon => exists v, a = [("mq", v)] /\ opt_bool v
  | CEmptyDungeon => exists v, a = [("empty", v)] /\ opt_bool v
  | CTrial => exists v, a = [("active", v)] /\ opt_bool v
  | CSong => exists v, a = [("notes", v)] /\ opt_str v
  | CStarter => exists z, a = [("count", DInt z)]
  | CItemPool =>
      exists t z, a = [("type", t); ("count", DInt z)] /\ pool_type t /\ (0 <= z)%Z
  | CLocation =>
      exists i p pr mo,
        a = [("item", i); ("player", p); ("price", pr); ("model", mo)] /\
        (opt_str i \/ str_list i) /\ opt_int p /\ opt_int pr /\ opt_str mo
  | CEntrance =>
      exists re o, a = [("region", re); ("origin", o)] /\ opt_str re /\ opt_str o
  | CGossip =>
      exists t co hl hi,
        a = [("colors", co); ("hinted_locations", hl); ("hinted_items", hi);
             ("text", t)] /\
        opt_str t /\ opt_str_list co /\ opt_str_list hl /\ opt_str_list hi
  end.

Definition valid (c : record_class) (r : RecordObj) : Prop :=
  properties r = props_of c /\ valid_attrs c (attrs r).

(** A [LocationRecord] whose only field away from its default is a list
    of candidate items. *)
Definition list_item_only (r : RecordObj) : Prop :=
  exists l, attrs r = [("item", DList l); ("player", DNone); ("price", DNone);
                       ("model", DNone)].

(** The object of a class with every field at its default. *)
Definition default_obj (c : record_class) : RecordObj :=
  {| properties := props_of c;
     attrs := match c with
              | CGossip => [("colors", DNone); ("hinted_locations", DNone);
                            ("hinted_items", DNone); ("text", DNone)]
              | _ => props_of c
              end |}.

(** What each class writes for its default object. *)
Definition default_form (c : record_class) : doc :=
  match c with
  | CDungeon | CTrial => DStr "random"
  | CEmptyDungeon | CSong => DNone
  | CItemPool | CStarter => DInt 1
  | CGossip | CLocation | CEntrance => DDict []
  end.

(** An empty representation. *)
Definition empty_doc (j : doc) : Prop :=
  j = DNone \/ j = DDict [] \/ j = DList [] \/ j = DStr "".

(** The fields [Record.to_json] emits: those away from their default. *)
Definition changed_fields (r : RecordObj) : Dict.odict doc :=
  flat_map (fun kd : string * doc =>
              let (k, d) := kd in
              match Dict.get (attrs r) k with
              | Some v => if py_eq v d then [] else [(k, v)]
              | None => []
              end) (properties r).

(** ** Starting items *)

(** The setting as [Distribution.reset] leaves it: a dictionary (no key
    twice) whose entries under other names than the world names are
    counts. *)
Definition normalized_setting (names : list string)
    (setting : Dict.odict StartingEntry) : Prop :=
  NoDup (Dict.keys setting) /\
  forall k v, In (k, v) setting -> Py.mem k names = false -> exists r, v = ForAll r.

(** The largest entry of a count curve. *)
Definition curve_max (qty : list Z) : Z :=
  match qty with
  | [] => 0%Z
  | q :: qs => fold_right Z.max q qs
  end.

(** The count of an item in the starting items, 0 when it has none. *)
Definition count_of (si : Dict.odict StarterRecord) (name : string) : Z :=
  match Dict.get si name with
  | Some r => count r
  | None => 0%Z
  end.

(** The starting items after the count of [item_name] has been raised by
    [cnt], before any ammo is written. *)
Definition bumped (si : StartingItemsDict) (item_name : string) (cnt : Z)
  : StartingItemsDict :=
  let si0 := if negb (Dict.mem si item_name)
             then Dict.set si item_name {| count := 0 |} else si in
  Dict.set si0 item_name {| count := count_of si item_name + cnt |}.

(** The entries of [si] are found unchanged in [si']. *)
Definition entries_kept (si si' : StartingItemsDict) : Prop :=
  forall k r, Dict.get si k = Some r -> Dict.get si' k = Some r.

(** ** Invariants of computations *)

(** A computation that relates every state to the state it leaves,
    whatever its outcome. *)
Definition keeps {S A} (R : S -> S -> Prop) (m : M S A) : Prop :=
  forall s, R s (snd (m s)).

(** The list objects are neither created nor destroyed. *)
Definition same_heap_length {E} (s s' : PState E) : Prop :=
  length (st_heap s') = length (st_heap s).

(** A call that returns has removed exactly as many elements as asked
    from the pools. *)
Definition removes_exactly {E} (pools : list ref)
    (sc : Z -> M (PState E) (list E)) : Prop :=
  forall k s1 l1 s2,
    sc k s1 = (Ok l1, s2) ->
    length l1 = Z.to_nat k /\
    pools_total (st_heap s2) pools + Z.to_nat k = pools_total (st_heap s1) pools.

(** The contract of the junk selector: when it returns, it returns as
    many names as it was asked for. *)
Definition junk_selector_exact
    (get_junk_item : Z -> option (list string) ->
                     option (Dict.odict ItemPoolRecord) -> Rng ->
                     outcome (list string) * Rng) : Prop :=
  forall count pool plando g l g',
    get_junk_item count pool plando g = (Ok l, g') -> length l = Z.to_nat count.



(** ** Entrances in the pools *)

(** What a pool of shuffled entrances holds under a name: nothing, an
    entrance that is still to be connected, or a connected one, of type
    ['Overworld'] or not.  The entrance is the first of that name in the
    pool, as [next(filter(...))] finds it. *)
Inductive pool_holding : Type :=
| HoldsNone
| HoldsFree
| HoldsConnected (overworld : bool).

Definition holding (Graph : Type) (entrance_at : Graph -> nat -> Entrance)
    (g : Graph) (name : string) (pool : list nat) : pool_holding :=
  match first_entrance Graph entrance_at g
          (fun e => String.eqb (ent_name e) name) pool with
  | None => HoldsNone
  | Some a =>
      match ent_connected_region (entrance_at g a) with
      | None => HoldsFree
      | Some _ => HoldsConnected (String.eqb (ent_type (entrance_at g a)) "Overworld")
      end
  end.

(* ================================================================== *)
(** * Small concrete worlds *)
(* ================================================================== *)

Definition demo_settings : Settings :=
  {| shuffle_song_items := "song"; triforce_hunt := false;
     shuffle_ganon_bosskey := "dungeon"; lacs_condition := "vanilla";
     bridge := "medallions"; tokensanity := "off";
     shuffle_smallkeys := "dungeon"; shuffle_hideoutkeys := "vanilla";
     shuffle_tcgkeys := "vanilla"; shuffle_bosskeys := "dungeon";
     shuffle_silver_rupees := "vanilla"; key_rings := [];
     blue_fire_arrows := false; shuffle_child_trade := [];
     adult_trade_shuffle := false; adult_trade_start := [];
     item_pool_value := "balanced"; disabled_locations := [];
     enable_distribution_file := true;
     starting_items_setting := [] |}.

Definition demo_self : WorldDistribution :=
  {| wd_id := 0; item_pool := []; entrances := []; locations := [];
     base_pool := []; major_group := []; song_as_items := false;
     search_groups := [("Bottle", ["Bottle"; "Bottle with Milk"])];
     dist_settings := demo_settings;
     world_count := 1 |}.

(** A small item table. *)
Definition demo_items : list (string * string) :=
  [("Kokiri Sword", "Item"); ("Bow", "Item"); ("Bombs", "Item");
   ("Bottle", "Item"); ("Bottle with Milk", "Item");
   ("Recovery Heart", "Item"); ("Rupees (5)", "Item")].

Definition demo_is_item (name : string) : bool :=
  Py.mem name (map fst demo_items).

(** One pool of names at address 0, with a given base pool and random
    source. *)
Definition demo_pool_state (pool base : list string) (g : Rng) : PState string :=
  {| st_self := set_base_pool base demo_self; st_heap := [pool]; st_rng := g |}.

(** Two bows for world 1 in its own entry, one bow for all worlds. *)
Definition demo_layered_self : WorldDistribution :=
  {| wd_id := 0; item_pool := []; entrances := []; locations := [];
     base_pool := []; major_group := []; song_as_items := false;
     search_groups := [];
     dist_settings :=
       {| shuffle_song_items := "song"; triforce_hunt := false;
          shuffle_ganon_bosskey := "dungeon"; lacs_condition := "vanilla";
          bridge := "medallions"; tokensanity := "off";
          shuffle_smallkeys := "dungeon"; shuffle_hideoutkeys := "vanilla";
          shuffle_tcgkeys := "vanilla"; shuffle_bosskeys := "dungeon";
          shuffle_silver_rupees := "vanilla"; key_rings := [];
          blue_fire_arrows := false; shuffle_child_trade := [];
          adult_trade_shuffle := false; adult_trade_start := [];
          item_pool_value := "balanced"; disabled_locations := [];
          enable_distribution_file := true;
          starting_items_setting :=
            [("World 1", ForWorld [("Bow", {| count := 2 |});
                                   ("Bombs", {| count := 1 |})]);
             ("Bow", ForAll {| count := 1 |})] |};
     world_count := 1 |}.

(** The bow with its arrows, the bomb bag with its bombs. *)
Definition demo_inventory : list InventoryEntry :=
  [{| entry_item_name := "Bow";
      entry_ammo := Some [("Arrows", [30; 40; 50]%Z)] |};
   {| entry_item_name := "Bomb Bag";
      entry_ammo := Some [("Bombs", [20; 30; 40]%Z)] |};
   {| entry_item_name := "Hookshot"; entry_ammo := None |}].

(** A graph of four entrance objects: an overworld entrance that is
    already connected, an interior that is already connected, a free
    dungeon entrance and the target that leads to the Deku Tree. *)
Definition demo_graph : list Entrance :=
  [{| ent_name := "Kokiri Forest -> Lost Woods"; ent_type := "Overworld";
      ent_connected_region := Some "Lost Woods";
      ent_parent_region := "Kokiri Forest"; ent_replaces_parent := None |};
   {| ent_name := "Kokiri Forest -> KF Links House"; ent_type := "Interior";
      ent_connected_region := Some "KF Links House";
      ent_parent_region := "Kokiri Forest"; ent_replaces_parent := None |};
   {| ent_name := "KF Outside Deku Tree -> Deku Tree Lobby"; ent_type := "Dungeon";
      ent_connected_region := None;
      ent_parent_region := "KF Outside Deku Tree"; ent_replaces_parent := None |};
   {| ent_name := "Root -> Deku Tree Lobby"; ent_type := "Dungeon";
      ent_connected_region := Some "Deku Tree Lobby";
      ent_parent_region := "Root"; ent_replaces_parent := Some "KF Outside Deku Tree" |}].

Definition demo_entrance_at (g : list Entrance) (a : nat) : Entrance :=
  nth a g {| ent_name := ""; ent_type := ""; ent_connected_region := None;
             ent_parent_region := ""; ent_replaces_parent := None |}.

Fixpoint demo_find_entrance (name : string) (g : list Entrance) (a : nat) : option nat :=
  match g with
  | [] => None
  | e :: g' => if String.eqb (ent_name e) name then Some a
               else demo_find_entrance name g' (S a)
  end.

Definition demo_get_entrance (world_id : nat) (name : string)
  : M (list Entrance) (option nat) :=
  fun g => match demo_find_entrance name g 0 with
           | Some a => (Ok (Some a), g)
           | None => (Raise (KeyError ("No such entrance " ++ name)), g)
           end.

Definition demo_entrance_pools : Dict.odict (list nat) :=
  [("Overworld", [0]); ("Dungeon", [2])].

Definition demo_to (target : string) : EntranceRecord :=
  {| region := Some target; origin := None |}.

(** A junk selector that always picks the recovery heart. *)
Definition demo_get_junk_item (count : Z) (pool : option (list string))
    (plando : option (Dict.odict ItemPoolRecord)) (g : Rng)
  : outcome (list string) * Rng :=
  if (count <? 1)%Z
  then (Raise (ValueError "get_junk_item argument 'count' must be greater than 0."), g)
  else (Ok (repeat "Recovery Heart" (Z.to_nat count)), g).

Definition demo_groups : Dict.odict (list string) :=
  [("Bottle", ["Bottle"; "Bottle with Milk"]);
   ("AdultTrade", ["Pocket Egg"; "Pocket Cucco"]);
   ("ChildTrade", ["Weird Egg"; "Chicken"]);
   ("Junk", ["Recovery Heart"; "Rupees (5)"]);
   ("Song", ["Zeldas Lullaby"])].

Definition demo_world : World :=
  {| world_id := 0; world_settings := demo_settings; world_itempool := [] |}.

(** The sword is removed, the bombs are set to two, and the bow is a
    starting item. *)
Definition demo_alter_self : WorldDistribution :=
  {| wd_id := 0;
     item_pool := [("Kokiri Sword", {| ipr_type := "remove"; ipr_count := 1 |});
                   ("Bombs", {| ipr_type := "set"; ipr_count := 2 |})];
     entrances := []; locations := [];
     base_pool := []; major_group := []; song_as_items := false;
     search_groups := demo_groups;
     dist_settings :=
       {| shuffle_song_items := "song"; triforce_hunt := false;
          shuffle_ganon_bosskey := "dungeon"; lacs_condition := "vanilla";
          bridge := "medallions"; tokensanity := "off";
          shuffle_smallkeys := "dungeon"; shuffle_hideoutkeys := "vanilla";
          shuffle_tcgkeys := "vanilla"; shuffle_bosskeys := "dungeon";
          shuffle_silver_rupees := "vanilla"; key_rings := [];
          blue_fire_arrows := false; shuffle_child_trade := [];
          adult_trade_shuffle := false; adult_trade_start := [];
          item_pool_value := "balanced"; disabled_locations := [];
          enable_distribution_file := true;
          starting_items_setting := [("Bow", ForAll {| count := 1 |})] |};
     world_count := 1 |}.

Definition demo_alter_state : PState string :=
  {| st_self := demo_alter_self;
     st_heap := [["Kokiri Sword"; "Bow"; "Bombs"; "Recovery Heart"; "Bottle"]];
     st_rng := [2; 7; 1] |}.

(** A world in which the iron boots wait in the progression pool, and a
    rule of the game that makes it unwinnable once they lie in Zora
    Fountain. *)
Definition demo_boots : Item :=
  {| item_uid := 0; item_name := "Iron Boots"; item_world := 0;
     item_type := "Item"; item_advancement := true; item_price := None |}.

Definition demo_fountain : Location :=
  {| loc_name := "Zora Fountain"; loc_world := 0; loc_type := "Chest";
     loc_price := None |}.

Definition demo_LocationFactory (name : string) : outcome Location :=
  if name =? "Zora Fountain" then Ok demo_fountain
  else Raise (KeyError name).

Definition demo_ItemFactory (name : string) (world : option nat) (uid : nat)
  : outcome Item :=
  if demo_is_item name
  then Ok {| item_uid := uid; item_name := name;
             item_world := match world with Some w => w | None => 0 end;
             item_type := "Item"; item_advancement := false; item_price := None |}
  else Raise (KeyError ("Unknown Item: " ++ name)).

Definition demo_push_item (l : Location) (it : Item) (w : list (string * string))
  : list (string * string) :=
  (loc_name l, item_name it) :: w.

Definition demo_can_beat_game (w : list (string * string)) (items : list Item) : bool :=
  negb (existsb (fun p => (fst p =? "Zora Fountain") && (snd p =? "Iron Boots")) w).

Definition demo_fill_self : WorldDistribution :=
  {| wd_id := 0; item_pool := []; entrances := [];
     locations :=
       [("Zora Fountain",
         OneRecord {| item := Some (PStr "Iron Boots"); player := None;
                      price := None; model := None |});
        ("Kokiri Shop",
         OneRecord {| item := Some (PStr "Bombs"); player := None;
                      price := None; model := None |})];
     base_pool := ["Iron Boots"]; major_group := []; song_as_items := false;
     search_groups := demo_groups;
     dist_settings := demo_settings;
     world_count := 1 |}.

Definition demo_fill_world : World :=
  {| world_id := 0; world_settings := demo_settings;
     world_itempool := [demo_boots] |}.

Definition demo_fill_state (g : Rng) : FState (list (string * string)) :=
  {| fs_pools := {| st_self := demo_fill_self;
                    st_heap := [[]; []; []; [demo_boots]; []; []];
                    st_rng := g |};
     fs_locations := [[]; []; [demo_fountain]];
     fs_item_pools := [0; 1; 2; 3; 4; 5];
     fs_worlds := [];
     fs_next_uid := 1 |}.

(* ================================================================== *)
(** * The rest of the module: pulls by name and pulls of all matches *)
(* ================================================================== *)

Section PullAll.

Context {A : Type}.
Variable eqb : A -> A -> bool.

(** The loop [for element in pool] of [pull_all_elements].  Python's list
    iterator keeps a position [i]: it yields [pool[i]] and moves on by
    one, until [i] has reached the length the list has at that moment.
    The body removes from the very list it iterates over.  The list never
    grows, so the loop has ended after as many steps as the list had
    elements at the start: [fuel] counts them. *)
Fixpoint pull_all_loop (fuel : nat) (h : Heap) (pool : ref) (i : nat)
    (predicate : A -> bool) (remove : bool) (elements : list A)
  : list A * Heap :=
  match fuel with
  | O => (elements, h)
  | S fuel' =>
      match nth_error (deref h pool) i with
      | None => (elements, h)
      | Some element =>
          if predicate element then
            pull_all_loop fuel'
              (if remove then heap_remove eqb h pool element else h)
              pool (S i) predicate remove (elements ++ [element])
          else pull_all_loop fuel' h pool (S i) predicate remove elements
      end
  end.

(** [for pool in pools] *)
Fixpoint pull_all_pools (h : Heap) (pools : list ref) (predicate : A -> bool)
    (remove : bool) (elements : list A) : list A * Heap :=
  match pools with
  | [] => (elements, h)
  | pool :: pools' =>
      let (elements', h') :=
        pull_all_loop (length (deref h pool)) h pool 0 predicate remove elements in
      pull_all_pools h' pools' predicate remove elements'
  end.

Definition pull_all_elements (h : Heap) (pools : list ref)
    (predicate : A -> bool) (remove : bool) : option (list A) * Heap :=
  let (elements, h') := pull_all_pools h pools predicate remove [] in
  match elements with
  | [] => (None, h')
  | _ :: _ => (Some elements, h')
  end.

End PullAll.

(** What a loop that removes while it iterates pulls from a list and what
    it leaves, when no element occurs twice: once an element is pulled
    the rest of the list moves up by one place while the iterator moves
    on by one, so the element that followed is not looked at. *)
Fixpoint pulled_and_left {A} (predicate : A -> bool) (l : list A)
  : list A * list A :=
  match l with
  | [] => ([], [])
  | x :: l1 =>
      if predicate x then
        match l1 with
        | [] => ([x], [])
        | y :: l2 =>
            let (a, b) := pulled_and_left predicate l2 in (x :: a, y :: b)
        end
      else let (a, b) := pulled_and_left predicate l1 in (a, x :: b)
  end.

(** What a run of the loop of [pull_all_elements], with removal, owes to
    the state it started from: the elements it has added satisfy the
    predicate and were in the pool; no list object has grown, and only
    the pool has changed. *)
Definition pulled_from {A} (p : A -> bool) (pool : ref) (h : Heap)
    (elements : list A) (out : list A * Heap) : Prop :=
  exists new,
    fst out = elements ++ new /\
    Forall (fun e => p e = true /\ In e (deref h pool)) new /\
    length (snd out) = length h /\
    heap_total (snd out) + length new = heap_total h /\
    (forall r x, In x (deref (snd out) r) -> In x (deref h r)) /\
    (forall r, r <> pool -> deref (snd out) r = deref h r).

#[export] Instance PoolElement_Location : PoolElement Location :=
  {| elt_eqb := Location_eqb; elt_name := loc_name; elt_world := loc_world |}.

Section PullNamed.

Variable ItemInfo_items : list (string * string).
Variable item_groups : Dict.odict (list string).

Context {E : Type} `{PoolElement E}.

(** [lambda e: e.world is world and matcher(e.name)]; a world object is
    named by its number. *)
Definition in_world (world : nat) (matcher : string -> bool) (e : E) : bool :=
  Nat.eqb (elt_world e) world && matcher (elt_name e).

(** [pull_item_or_location] *)
Definition pull_item_or_location (pools : list ref) (world : nat) (name : string)
    (remove : bool) : M (PState E) (option E) :=
  if is_pattern name then
    matcher <- self_pattern_matcher ItemInfo_items item_groups (PStr name) ;;
    s <- get ;;
    let '(found, h', g') :=
      pull_random_element elt_eqb (st_heap s) pools (in_world world matcher)
        remove (st_rng s) in
    put (with_rng g' (with_heap h' s)) ;;
    ret found
  else
    s <- get ;;
    let (found, h') :=
      pull_first_element elt_eqb (st_heap s) pools
        (in_world world (fun n => String.eqb n name)) remove in
    put (with_heap h' s) ;;
    ret found.

End PullNamed.

(* ================================================================== *)
(** * Output-only keys *)
(* ================================================================== *)

(** [strip_output_only], as the value [obj] has once the call has
    returned.  In a dictionary the keys that are output-only are deleted
    and the values that remain are stripped in turn; the two passes are
    one here. *)
Fixpoint strip_output_only (obj : doc) : doc :=
  match obj with
  | DList l => DList (map strip_output_only l)
  | DDict d =>
      DDict ((fix strip_entries (d : list (string * doc)) : list (string * doc) :=
                match d with
                | [] => []
                | (key, elem) :: d' =>
                    if is_output_only key then strip_entries d'
                    else (key, strip_output_only elem) :: strip_entries d'
                end) d)
  | _ => obj
  end.

(** [for key in output_only_keys: del obj[key]] *)
Definition del_output_only (d : Dict.odict doc) : Dict.odict doc :=
  fold_left (fun obj key => Dict.del obj key)
            (filter is_output_only (Dict.keys d)) d.

(** A dictionary key that is output-only, anywhere in a document. *)
Fixpoint has_output_only (obj : doc) : bool :=
  match obj with
  | DList l => existsb has_output_only l
  | DDict d =>
      (fix any_entry (d : list (string * doc)) : bool :=
         match d with
         | [] => false
         | (key, elem) :: d' =>
             is_output_only key || has_output_only elem || any_entry d'
         end) d
  | _ => false
  end.

(* ================================================================== *)
(** * Adding a location to the plan *)
(* ================================================================== *)

(** [for x in l: body], where [l] is a list of objects: the loop runs
    over their positions. *)
Fixpoint list_set {A} (i : nat) (x : A) (l : list A) : list A :=
  match l, i with
  | [], _ => []
  | _ :: l', O => x :: l'
  | y :: l', S i' => y :: list_set i' x l'
  end.

Section AddLocation.

Variable ItemInfo_items : list (string * string).
Variable item_groups : Dict.odict (list string).

Definition location_exists : exn :=
  KeyError "Cannot add location that already exists".

(** [LocationRecord(new_item)] *)
Definition record_of_item (new_item : string) : LocationRecord :=
  {| item := Some (PStr new_item); player := None; price := None; model := None |}.

(** The loop of [WorldDistribution.add_location] over the keys of
    [self.locations]. *)
Fixpoint add_location_check (new_location : string) (keys : list string)
  : M WorldDistribution unit :=
  match keys with
  | [] => ret tt
  | location :: keys' =>
      pattern <- pattern_matcher_str ItemInfo_items item_groups location ;;
      if pattern new_location then raise location_exists
      else add_location_check new_location keys'
  end.

(** [WorldDistribution.add_location] *)
Definition add_location (new_location new_item : string)
  : M WorldDistribution unit :=
  self <- get ;;
  add_location_check new_location (Dict.keys (locations self)) ;;
  modify (fun self =>
            set_locations
              (Dict.set (locations self) new_location
                 (OneRecord (record_of_item new_item))) self).

(** What [Distribution.add_location] works on: the world distributions
    and the lines printed. *)
Record DistState : Type := {
  ds_world_dists : list WorldDistribution;
  ds_printed : list string
}.

(** A method of the world distribution at position [i]. *)
Definition on_world_dist {A} (i : nat) (m : M WorldDistribution A) : M DistState A :=
  fun d =>
    match nth_error (ds_world_dists d) i with
    | None => (Raise (IndexError "list index out of range"), d)
    | Some world_dist =>
        let (r, world_dist') := m world_dist in
        (r, {| ds_world_dists := list_set i world_dist' (ds_world_dists d);
               ds_printed := ds_printed d |})
    end.

Definition print_line (line : string) : M DistState unit :=
  modify (fun d => {| ds_world_dists := ds_world_dists d;
                      ds_printed := ds_printed d ++ [line] |}).

Definition excluded_location_line : string :=
  "Cannot place item at excluded location because it already has an item defined in the Distribution.".

(** [Distribution.add_location] *)
Definition Distribution_add_location (new_location new_item : string)
  : M DistState unit :=
  d <- get ;;
  for_each (Py.range (length (ds_world_dists d)))
    (fun i =>
       try_except (on_world_dist i (add_location new_location new_item))
         (fun e => if is_key_error e then Some (print_line excluded_location_line)
                   else None)).

End AddLocation.

(* ================================================================== *)
(** * Dungeons, trials and randomized settings *)
(* ================================================================== *)

Record DungeonRecord : Type := { mq : option bool }.
Record EmptyDungeonRecord : Type := { empty : option bool }.
Record TrialRecord : Type := { active : option bool }.

(** The sections of [WorldDistribution] that the [configure_] methods
    read. *)
Record WorldChoices : Type := {
  randomized_settings : Dict.odict doc;
  dungeons : Dict.odict DungeonRecord;
  empty_dungeons : Dict.odict EmptyDungeonRecord;
  trials : Dict.odict TrialRecord
}.

Definition not_in_list : exn := ValueError "list.remove(x): x not in list".

(** [pool.remove(name)] on a list of names. *)
Definition names_remove (name : string) (pool : list string)
  : outcome (list string) :=
  match Py.list_remove String.eqb name pool with
  | Some l => Ok l
  | None => Raise not_in_list
  end.

(** The body of the loop of [configure_trials]; the state is the list
    [trial_pool], the local variable is [dist_chosen]. *)
Definition trial_step (dist_chosen : list string) (nr : string * TrialRecord)
  : M (list string) (list string) :=
  let (name, record) := nr in
  match active record with
  | None => ret dist_chosen
  | Some chosen =>
      trial_pool <- get ;;
      trial_pool' <- lift_outcome (names_remove name trial_pool) ;;
      put trial_pool' ;;
      ret (if chosen then dist_chosen ++ [name] else dist_chosen)
  end.

(** [configure_trials] *)
Definition configure_trials (self : WorldChoices) : M (list string) (list string) :=
  fold_m (trials self) [] trial_step.

(** What [configure_dungeons] changes: the two pools it is given and the
    two dictionaries of the world ([world.empty_dungeons[name].empty] is
    the value under [name]). *)
Record DungeonState : Type := {
  mq_dungeon_pool : list string;
  empty_dungeon_pool : list string;
  dungeon_mq : Dict.odict bool;
  world_empty_dungeons : Dict.odict bool
}.

Definition dungeon_mq_step (dist_num_mq : Z) (nr : string * DungeonRecord)
  : M DungeonState Z :=
  let (name, record) := nr in
  match mq record with
  | None => ret dist_num_mq
  | Some is_mq =>
      s <- get ;;
      pool <- lift_outcome (names_remove name (mq_dungeon_pool s)) ;;
      if is_mq then
        put {| mq_dungeon_pool := pool;
               empty_dungeon_pool := empty_dungeon_pool s;
               dungeon_mq := Dict.set (dungeon_mq s) name true;
               world_empty_dungeons := world_empty_dungeons s |} ;;
        ret (dist_num_mq + 1)%Z
      else
        put {| mq_dungeon_pool := pool;
               empty_dungeon_pool := empty_dungeon_pool s;
               dungeon_mq := dungeon_mq s;
               world_empty_dungeons := world_empty_dungeons s |} ;;
        ret dist_num_mq
  end.

Definition dungeon_empty_step (dist_num_empty : Z) (nr : string * EmptyDungeonRecord)
  : M DungeonState Z :=
  let (name, record) := nr in
  match empty record with
  | None => ret dist_num_empty
  | Some is_empty =>
      s <- get ;;
      pool <- lift_outcome (names_remove name (empty_dungeon_pool s)) ;;
      put {| mq_dungeon_pool := mq_dungeon_pool s;
             empty_dungeon_pool := pool;
             dungeon_mq := dungeon_mq s;
             world_empty_dungeons := world_empty_dungeons s |} ;;
      if is_empty then
        s <- get ;;
        if Dict.mem (world_empty_dungeons s) name then
          put {| mq_dungeon_pool := mq_dungeon_pool s;
                 empty_dungeon_pool := empty_dungeon_pool s;
                 dungeon_mq := dungeon_mq s;
                 world_empty_dungeons :=
                   Dict.set (world_empty_dungeons s) name true |} ;;
          ret (dist_num_empty + 1)%Z
        else raise (KeyError name)
      else ret dist_num_empty
  end.

(** [configure_dungeons] *)
Definition configure_dungeons (self : WorldChoices) : M DungeonState (Z * Z) :=
  dist_num_mq <- fold_m (dungeons self) 0%Z dungeon_mq_step ;;
  dist_num_empty <- fold_m (empty_dungeons self) 0%Z dungeon_empty_step ;;
  ret (dist_num_mq, dist_num_empty).

(** What [configure_randomized_settings] reads and writes of a world: the
    attributes of its settings object and its [randomized_list]. *)
Record SettingsWorld : Type := {
  settings_attrs : Dict.odict doc;
  randomized_list : list string
}.

Definition unknown_random_setting (id : nat) (name : string) : exn :=
  RuntimeError ("Unknown random setting in world " ++ Py.str_nat (id + 1)
                ++ ": '" ++ name ++ "'").

(** The body of the loop of [configure_randomized_settings]; [id] is
    [self.id]. *)
Definition randomized_step (id : nat) (nr : string * doc) : M SettingsWorld unit :=
  let (name, record) := nr in
  world <- get ;;
  if negb (Dict.mem (settings_attrs world) name)
  then raise (unknown_random_setting id name)
  else
    put {| settings_attrs := Dict.set (settings_attrs world) name record;
           randomized_list :=
             if negb (Py.mem name (randomized_list world))
             then randomized_list world ++ [name]
             else randomized_list world |}.

(** [configure_randomized_settings] *)
Definition configure_randomized_settings (id : nat) (self : WorldChoices)
  : M SettingsWorld unit :=
  for_each (randomized_settings self) (randomized_step id).

(** The names a section of the plan decides ([field] is not [None]) and
    those it decides in the affirmative. *)
Definition decided {R} (field : R -> option bool) (nr : string * R) : bool :=
  match field (snd nr) with
  | Some _ => true
  | None => false
  end.

Definition affirmed {R} (field : R -> option bool) (nr : string * R) : bool :=
  match field (snd nr) with
  | Some true => true
  | _ => false
  end.

Definition names_where {R} (f : string * R -> bool) (d : Dict.odict R)
  : list string :=
  map fst (filter f d).

(** A dictionary in which the names of [l] have been set to [true]. *)
Definition set_true (l : list string) (d : Dict.odict bool) : Dict.odict bool :=
  fold_left (fun acc name => Dict.set acc name true) l d.

(* ================================================================== *)
(** * The complete item pool *)
(* ================================================================== *)

Section CompletePool.

(** [item.dungeonitem], a property of [Item]. *)
Variable dungeonitem : Item -> bool.

(** [item.dungeonitem or item.type in ('Drop', 'Event', 'DungeonReward')] *)
Definition left_out (it : Item) : bool :=
  dungeonitem it || Py.mem (item_type it) ["Drop"; "Event"; "DungeonReward"].

Definition count_item (it : Item) : M WorldDistribution unit :=
  if left_out it then ret tt
  else
    self <- get ;;
    match Dict.get (item_pool self) (item_name it) with
    | Some r =>
        put (set_item_pool
               (Dict.set (item_pool self) (item_name it)
                  {| ipr_type := ipr_type r; ipr_count := ipr_count r + 1 |}) self)
    | None =>
        put (set_item_pool
               (Dict.set (item_pool self) (item_name it)
                  {| ipr_type := "set"; ipr_count := 1 |}) self)
    end.

(** [set_complete_itempool] *)
Definition set_complete_itempool (pool : list Item) : M WorldDistribution unit :=
  modify (set_item_pool []) ;;
  for_each pool count_item.

(** The number of items of a name that are counted. *)
Definition counted (pool : list Item) (name : string) : nat :=
  length (filter (fun it => negb (left_out it) && String.eqb (item_name it) name)
                 pool).

End CompletePool.

(* ================================================================== *)
(** * Text ids of gossip stones *)
(* ================================================================== *)

Definition is_hex_digit (c : ascii) : bool :=
  let n := nat_of_ascii c in
  ((48 <=? n)%nat && (n <=? 57)%nat) || ((97 <=? n)%nat && (n <=? 102)%nat)
  || ((65 <=? n)%nat && (n <=? 70)%nat).

Definition hex_value (c : ascii) : Z :=
  let n := nat_of_ascii c in
  if (n <=? 57)%nat then Z.of_nat (n - 48)
  else if (n <=? 70)%nat then Z.of_nat (n - 55)
  else Z.of_nat (n - 87).

Definition newline : string := String (ascii_of_nat 10) EmptyString.

(** [([0-9a-f]{4})$] with [re.IGNORECASE]: four hexadecimal digits, then
    the end of the string or its final line feed.  The result is the
    group. *)
Definition match_hex4 (s : string) : option string :=
  match s with
  | String a (String b (String c (String d rest))) =>
      if is_hex_digit a && is_hex_digit b && is_hex_digit c && is_hex_digit d
         && ((rest =? "") || (rest =? newline))
      then Some (String a (String b (String c (String d EmptyString))))
      else None
  | _ => None
  end.

(** The tail of [s] after the prefix [p], letters compared without
    case. *)
Definition after_prefix (p s : string) : option string :=
  if Py.startswith (Py.lower s) p
  then Some (substring (String.length p) (String.length s - String.length p) s)
  else None.

Definition or_else {A} (a b : option A) : option A :=
  match a with
  | Some _ => a
  | None => b
  end.

(** [re.match(r"^(?:\$|x|0x)?([0-9a-f]{4})$", name, flags=re.IGNORECASE)]:
    the alternatives of the optional prefix are tried in order, then the
    empty prefix; the result is [match[1]]. *)
Definition match_textid (name : string) : option string :=
  let try_prefix p :=
    match after_prefix p name with
    | Some rest => match_hex4 rest
    | None => None
    end in
  or_else (try_prefix "$")
    (or_else (try_prefix "x") (or_else (try_prefix "0x") (match_hex4 name))).

(** [int(digits, base=16)] on hexadecimal digits. *)
Definition int_base16 (digits : string) : Z :=
  fold_left (fun acc c => (16 * acc + hex_value c)%Z) (list_ascii_of_string digits) 0%Z.

(** The stone id that [configure_gossip] reads in a name that matches no
    stone. *)
Definition explicit_textid (name : string) : option Z :=
  option_map int_base16 (match_textid name).

Definition hex_upper (n : Z) : ascii :=
  if (n <? 10)%Z then ascii_of_nat (48 + Z.to_nat n)
  else ascii_of_nat (55 + Z.to_nat n).

(** The digits of a positive number in base 16, capitals. *)
Fixpoint hex_digits (fuel : nat) (z : Z) (acc : string) : string :=
  match fuel with
  | O => acc
  | S fuel' =>
      let acc' := String (hex_upper (z mod 16)) acc in
      if (z / 16 =? 0)%Z then acc' else hex_digits fuel' (z / 16) acc'
  end.

(** [format(z, 'X')] for [z >= 0]: a number below [2 ^ n] has at most [n]
    digits. *)
Definition format_X (z : Z) : string :=
  hex_digits (S (Z.to_nat (Z.log2 z))) z "".

Fixpoint zeros (n : nat) : string :=
  match n with
  | O => ""
  | S n' => String "0"%char (zeros n')
  end.

(** [format(z, '04X')]: the sign counts in the width. *)
Definition format_04X (z : Z) : string :=
  if (z <? 0)%Z then
    let digits := format_X (- z) in
    "-" ++ zeros (3 - String.length digits) ++ digits
  else
    let digits := format_X z in
    zeros (4 - String.length digits) ++ digits.

(** ["0x{:04X}".format(loc)], the key [update_spoiler] writes for a hint
    whose stone has no name. *)
Definition textid_key (loc : Z) : string := "0x" ++ format_04X loc.

(** [p] holds of the [n] integers from [z] on. *)
Fixpoint holds_from (n : nat) (z : Z) (p : Z -> bool) : bool :=
  match n with
  | O => true
  | S n' => p z && holds_from n' (z + 1)%Z p
  end.

(** An id is read back from the key written for it. *)
Definition reads_back (loc : Z) : bool :=
  match explicit_textid (textid_key loc) with
  | Some z => Z.eqb z loc
  | None => false
  end.

(* ================================================================== *)
(** * Triforce hunt *)
(* ================================================================== *)

(** What [configure_triforce_hunt] reads and writes of a world. *)
Record HuntWorld : Type := {
  hw_distribution : WorldDistribution;
  skip_child_zelda : bool;
  triforce_goal : Z;
  triforce_count : Z;
  total_starting_triforce_count : Z
}.

Definition set_triforce_count (n : Z) (w : HuntWorld) : HuntWorld :=
  {| hw_distribution := hw_distribution w; skip_child_zelda := skip_child_zelda w;
     triforce_goal := triforce_goal w; triforce_count := n;
     total_starting_triforce_count := total_starting_triforce_count w |}.

Definition set_total_starting (n : Z) (w : HuntWorld) : HuntWorld :=
  {| hw_distribution := hw_distribution w; skip_child_zelda := skip_child_zelda w;
     triforce_goal := triforce_goal w; triforce_count := triforce_count w;
     total_starting_triforce_count := n |}.

(** [worlds[i]] *)
Definition hunt_world (i : nat) : M (list HuntWorld) HuntWorld :=
  worlds <- get ;;
  match nth_error worlds i with
  | Some w => ret w
  | None => raise (IndexError "list index out of range")
  end.

(** [world.distribution.locations['Song from Impa'].item == 'Triforce Piece'],
    behind the test that the key is there. *)
Definition impa_gives_triforce (self : WorldDistribution) : outcome bool :=
  match Dict.get (locations self) "Song from Impa" with
  | None => Ok false
  | Some (OneRecord r) =>
      Ok match item r with
         | Some (PStr s) => s =? "Triforce Piece"
         | _ => false
         end
  | Some (ManyRecords _) => Raise (AttributeError "item")
  end.

(** The body of the first loop; the local variables are [total_count]
    and [total_starting_count]. *)
Definition hunt_count_step (totals : Z * Z) (i : nat)
  : M (list HuntWorld) (Z * Z) :=
  let (total_count, total_starting_count) := totals in
  world <- hunt_world i ;;
  let self := hw_distribution world in
  match Dict.get (item_pool self) "Triforce Piece" with
  | None => raise (KeyError "Triforce Piece")
  | Some r =>
      modify (list_set i (set_triforce_count (ipr_count r) world)) ;;
      start <- lift_outcome (starting_items self) ;;
      total_starting_count <-
        match Dict.get start "Triforce Piece" with
        | Some sr =>
            world <- hunt_world i ;;
            modify (list_set i (set_triforce_count (triforce_count world + count sr)
                                                   world)) ;;
            ret (total_starting_count + count sr)%Z
        | None => ret total_starting_count
        end ;;
      total_starting_count <-
        (if skip_child_zelda world then
           impa <- lift_outcome (impa_gives_triforce self) ;;
           ret (if impa then total_starting_count + 1 else total_starting_count)%Z
         else ret total_starting_count) ;;
      world <- hunt_world i ;;
      ret ((total_count + triforce_count world)%Z, total_starting_count)
  end.

Definition not_enough_pieces (goal total_count : Z) : exn :=
  RuntimeError ("Not enough Triforce Pieces in the worlds. There should be at least "
                ++ str_Z goal ++ " and there are only " ++ str_Z total_count ++ ".").

Definition too_many_pieces (goal total_starting_count : Z) : exn :=
  RuntimeError ("Too many Triforce Pieces in starting items. There should be at most "
                ++ str_Z (goal - 1) ++ " and there are " ++ str_Z total_starting_count
                ++ ".").

(** [Distribution.configure_triforce_hunt]; the state is the list
    [worlds]. *)
Definition configure_triforce_hunt : M (list HuntWorld) unit :=
  worlds <- get ;;
  '(total_count, total_starting_count) <-
    fold_m (Py.range (length worlds)) (0%Z, 0%Z) hunt_count_step ;;
  first <- hunt_world 0 ;;
  if (total_count <? triforce_goal first)%Z
  then raise (not_enough_pieces (triforce_goal first) total_count)
  else if (total_starting_count >=? triforce_goal first)%Z
  then raise (too_many_pieces (triforce_goal first) total_starting_count)
  else
    for_each (Py.range (length worlds))
      (fun i =>
         world <- hunt_world i ;;
         modify (list_set i (set_total_starting total_starting_count world))).

(** The pieces of a world: in its pool, among its starting items, and
    the one Impa gives when the visit to Zelda is skipped. *)
Definition pool_pieces (w : HuntWorld) : Z :=
  match Dict.get (item_pool (hw_distribution w)) "Triforce Piece" with
  | Some r => ipr_count r
  | None => 0%Z
  end.

Definition starting_pieces (w : HuntWorld) : Z :=
  match starting_items (hw_distribution w) with
  | Ok start => count_of start "Triforce Piece"
  | Raise _ => 0%Z
  end.

Definition impa_piece (w : HuntWorld) : Z :=
  if skip_child_zelda w then
    match impa_gives_triforce (hw_distribution w) with
    | Ok true => 1%Z
    | _ => 0%Z
    end
  else 0%Z.

Definition sum_over {A} (f : A -> Z) (l : list A) : Z :=
  fold_right (fun x n => (f x + n)%Z) 0%Z l.

(** A world whose plan can be counted: the pool has an entry for the
    piece, the starting items can be read, and so can the record of
    Impa's song when it is looked at. *)
Definition hunt_ready (w : HuntWorld) : Prop :=
  Dict.mem (item_pool (hw_distribution w)) "Triforce Piece" = true /\
  (exists start, starting_items (hw_distribution w) = Ok start) /\
  (skip_child_zelda w = true ->
   exists b, impa_gives_triforce (hw_distribution w) = Ok b).

(** The world once its pieces are counted. *)
Definition hunt_counted (w : HuntWorld) : HuntWorld :=
  set_triforce_count (pool_pieces w + starting_pieces w) w.

(* ================================================================== *)
(** * Starting hearts *)
(* ================================================================== *)

(** [data[name].count += n] on the [defaultdict] of [Distribution.reset],
    whose missing entries start as [StarterRecord(0)]. *)
Definition add_count (name : string) (n : Z) (data : Dict.odict StartingEntry)
  : outcome (Dict.odict StartingEntry) :=
  match Dict.get data name with
  | None => Ok (Dict.set data name (ForAll {| count := 0 + n |}))
  | Some (ForAll r) => Ok (Dict.set data name (ForAll {| count := count r + n |}))
  | Some (ForWorld _) => Raise (AttributeError "count")
  end.

Definition and_then {A B} (o : outcome A) (k : A -> outcome B) : outcome B :=
  match o with
  | Ok a => k a
  | Raise e => Raise e
  end.

(** The block of [Distribution.reset] that adds hearts.  [old] is
    [self.settings.starting_items] as it is before [reset] replaces it,
    [data] its replacement in the making.  [math.ceil(n / 2)] and
    [math.floor(n / 2)] are [(n + 1) / 2] and [n / 2] in integers. *)
Definition reset_hearts (starting_hearts : Z) (pool_value : string)
    (old data : Dict.odict StartingEntry) : outcome (Dict.odict StartingEntry) :=
  if (starting_hearts >? 3)%Z && negb (Dict.mem old "Piece of Heart")
     && negb (Dict.mem old "Heart Container")
  then
    let num_hearts_to_collect := (starting_hearts - 3)%Z in
    if pool_value =? "plentiful" then
      if (starting_hearts >=? 20)%Z then
        and_then (add_count "Piece of Heart" 4 data)
          (add_count "Heart Container" (num_hearts_to_collect - 1))
      else add_count "Heart Container" num_hearts_to_collect data
    else
      and_then (add_count "Piece of Heart" (4 * ((num_hearts_to_collect + 1) / 2)) data)
        (add_count "Heart Container" (num_hearts_to_collect / 2))
  else Ok data.

(** The count of an entry of [data], 0 when it has none. *)
Definition entry_count (data : Dict.odict StartingEntry) (name : string) : Z :=
  match Dict.get data name with
  | Some (ForAll r) => count r
  | _ => 0%Z
  end.

(** The quarters of heart a starting inventory holds. *)
Definition heart_quarters (data : Dict.odict StartingEntry) : Z :=
  (4 * entry_count data "Heart Container" + entry_count data "Piece of Heart")%Z.

(* ================================================================== *)
(** * Records of the spoiler *)
(* ================================================================== *)

(** What [EntranceRecord.from_entrance] reads of an entrance:
    [connected_region.name], and of [replaces] its [primary], its [type]
    and [parent_region.name]. *)
Record SpoilerEntrance : Type := {
  se_connected_region : option string;
  se_replaces : option (bool * string * string)
}.

(** [EntranceRecord.from_entrance] *)
Definition from_entrance (entrance : SpoilerEntrance) : outcome RecordObj :=
  match se_replaces entrance with
  | None => Raise (AttributeError "primary")
  | Some (primary, type, parent_region) =>
      let origin_name :=
        if primary && Py.mem type ["Interior"; "SpecialInterior"; "Grotto"; "Grave"]
        then DNone else DStr parent_region in
      match se_connected_region entrance with
      | None => Raise (AttributeError "name")
      | Some connected =>
          from_document CEntrance
            (DDict [("region", DStr connected); ("origin", origin_name)])
      end
  end.

(** What [LocationRecord.from_item] reads of the location of an item: the
    number of its world, its price and [has_preview()]. *)
Record SpoilerLocation : Type := {
  sl_world : nat;
  sl_price : option Z;
  sl_has_preview : bool
}.

(** What it reads of the item: its name, its [index], the number of its
    world and the number of worlds, its location and the name of the item
    it looks like. *)
Record SpoilerItem : Type := {
  si_name : string;
  si_index : option Z;
  si_world : nat;
  si_world_count : nat;
  si_location : option SpoilerLocation;
  si_looks_like : option string
}.

(** [can_cloak]: only an ice trap is cloaked. *)
Definition can_cloak (index : option Z) : bool :=
  match index with
  | Some i => (i =? 124)%Z
  | None => false
  end.

Definition doc_of_int (o : option Z) : doc :=
  match o with
  | Some z => DInt z
  | None => DNone
  end.

(** [LocationRecord.from_item] *)
Definition from_item (it : SpoilerItem) : outcome RecordObj :=
  let number := DInt (Z.of_nat (si_world it + 1)) in
  let player :=
    if (1 <? si_world_count it)%nat then number
    else match si_location it with
         | Some l => if Nat.eqb (si_world it) (sl_world l) then DNone else number
         | None => number
         end in
  match si_location it with
  | None => Raise (AttributeError (match si_looks_like it with
                                   | Some _ => "has_preview"
                                   | None => "price"
                                   end))
  | Some l =>
      let model :=
        match si_looks_like it with
        | Some looks =>
            if sl_has_preview l && can_cloak (si_index it) then DStr looks else DNone
        | None => DNone
        end in
      from_document CLocation
        (DDict [("item", DStr (si_name it)); ("player", player);
                ("model", model); ("price", doc_of_int (sl_price l))])
  end.

(* ================================================================== *)
(** * Attributes after an update *)
(* ================================================================== *)

(** The attribute [k] of a record after [update(src, update_all)], from
    what it was before: [src[k]] for a property that [src] has, the
    default of a property that it lacks when all are updated, and the old
    attribute otherwise. *)
Definition updated_attr (props src : Dict.odict doc) (update_all : bool)
    (old : option doc) (k : string) : option doc :=
  match Dict.get props k with
  | Some p =>
      match Dict.get src k with
      | Some v => Some v
      | None => if update_all then Some p else old
      end
  | None => old
  end.

(* ================================================================== *)
(** * More concrete worlds *)
(* ================================================================== *)

(** Two trials are decided by the plan, one of them active. *)
Definition demo_choices : WorldChoices :=
  {| randomized_settings := [("bridge", DStr "open"); ("trials", DInt 2)];
     dungeons := [("Deku Tree", {| mq := Some true |});
                  ("Fire Temple", {| mq := Some false |});
                  ("Water Temple", {| mq := None |})];
     empty_dungeons := [("Fire Temple", {| empty := Some true |})];
     trials := [("Forest", {| active := Some true |});
                ("Fire", {| active := Some false |});
                ("Water", {| active := None |})] |}.

Definition demo_dungeon_state : DungeonState :=
  {| mq_dungeon_pool := ["Deku Tree"; "Fire Temple"; "Water Temple"];
     empty_dungeon_pool := ["Deku Tree"; "Fire Temple"];
     dungeon_mq := [("Deku Tree", false); ("Fire Temple", false)];
     world_empty_dungeons := [("Deku Tree", false); ("Fire Temple", false)] |}.

Definition demo_settings_world : SettingsWorld :=
  {| settings_attrs := [("bridge", DStr "medallions"); ("trials", DInt 6)];
     randomized_list := ["bridge"] |}.

Definition demo_item (uid : nat) (name type : string) : Item :=
  {| item_uid := uid; item_name := name; item_world := 0; item_type := type;
     item_advancement := false; item_price := None |}.

Definition demo_dungeonitem (it : Item) : bool :=
  Py.mem (item_type it) ["Map"; "Compass"; "SmallKey"; "BossKey"].

(** A plan with a record for the shop and one for every chest. *)
Definition demo_plan_self : WorldDistribution :=
  set_locations
    [("Kokiri Shop", OneRecord (record_of_item "Bombs"));
     ("*Chest", OneRecord (record_of_item "Bow"))] demo_self.

(** A hunt over two worlds: three pieces in each pool, one more in the
    starting items of all worlds. *)
Definition demo_hunt_self (id : nat) : WorldDistribution :=
  {| wd_id := id;
     item_pool := [("Triforce Piece", {| ipr_type := "set"; ipr_count := 3 |})];
     entrances := []; locations := [];
     base_pool := []; major_group := []; song_as_items := false;
     search_groups := [];
     dist_settings :=
       {| shuffle_song_items := "song"; triforce_hunt := true;
          shuffle_ganon_bosskey := "dungeon"; lacs_condition := "vanilla";
          bridge := "medallions"; tokensanity := "off";
          shuffle_smallkeys := "dungeon"; shuffle_hideoutkeys := "vanilla";
          shuffle_tcgkeys := "vanilla"; shuffle_bosskeys := "dungeon";
          shuffle_silver_rupees := "vanilla"; key_rings := [];
          blue_fire_arrows := false; shuffle_child_trade := [];
          adult_trade_shuffle := false; adult_trade_start := [];
          item_pool_value := "balanced"; disabled_locations := [];
          enable_distribution_file := true;
          starting_items_setting := [("Triforce Piece", ForAll {| count := 1 |})] |};
     world_count := 2 |}.

Definition demo_hunt_worlds (goal : Z) : list HuntWorld :=
  [{| hw_distribution := demo_hunt_self 0; skip_child_zelda := false;
      triforce_goal := goal; triforce_count := 0;
      total_starting_triforce_count := 0 |};
   {| hw_distribution := demo_hunt_self 1; skip_child_zelda := false;
      triforce_goal := goal; triforce_count := 0;
      total_starting_triforce_count := 0 |}].

(* ================================================================== *)
(** * Strings *)
(* ================================================================== *)










Lemma startswith_app_nonempty (q r : string) (c : ascii) :
  Py.startswith (q ++ r) (String c "") =
  match q with
  | EmptyString => Py.startswith r (String c "")
  | String d _ => Ascii.eqb d c
  end.
Proof. destruct q; simpl; [reflexivity | now rewrite andb_true_r]. Qed.

(* ================================================================== *)
(** * The pattern grammar *)
(* ================================================================== *)

Section PatternCorrect.

Variable ItemInfo_items : list (string * string).
Variable item_groups : Dict.odict (list string).

Local Notation "'compile'" := (pattern_matcher ItemInfo_items item_groups).
Local Notation "'compile_str'" := (pattern_matcher_str ItemInfo_items item_groups).
Local Notation "'compile_each'" := (pattern_matcher_each ItemInfo_items item_groups).

Lemma compile_plain (q : string) (self : WorldDistribution) :
  Py.startswith q "!" = false -> Py.startswith q "#" = false ->
  compile_str q self = (Ok (wildcard_matcher false q), self).
Proof.
  intros Hbang Hhash. unfold pattern_matcher_str.
  rewrite Hbang, Hhash. reflexivity.
Qed.






Lemma wildcard_exact (q s : string) :
  Py.startswith q "*" = false -> Py.endswith q "*" = false ->
  wildcard_matcher false q s = String.eqb s q.
Proof.
  intros Hb He. unfold wildcard_matcher. rewrite Hb, He. reflexivity.
Qed.





End PatternCorrect.


(* ================================================================== *)
(** * List objects and random pulls *)
(* ================================================================== *)

Lemma random_choice_none {A} (l : list A) (g : Rng) :
  fst (random_choice l g) = None <-> l = [].
Proof.
  destruct l as [|x l]; simpl; [tauto|].
  destruct (draw g) as [n g']. simpl. split; [|discriminate].
  intros H. apply nth_error_None in H.
  pose proof (Nat.mod_upper_bound n (S (length l)) ltac:(lia)). simpl in H. lia.
Qed.

Lemma random_choice_in {A} (l : list A) (g : Rng) (x : A) :
  fst (random_choice l g) = Some x -> In x l.
Proof.
  destruct l as [|y l]; simpl; [discriminate|].
  destruct (draw g) as [n g']. simpl. apply nth_error_In.
Qed.

Section PoolFacts.

Context {A : Type}.
Variable eqb : A -> A -> bool.
Hypothesis eqb_spec : forall x y, eqb x y = true <-> x = y.

Lemma in_candidates (h : Heap) (pools : list ref) (p : A -> bool) (e : A) (r : ref) :
  In (e, r) (candidates h pools p) <->
  In r pools /\ In e (deref h r) /\ p e = true.
Proof.
  unfold candidates. rewrite in_flat_map. split.
  - intros [r' [Hr H]]. apply in_map_iff in H. destruct H as [e' [E He]].
    injection E as -> ->. apply filter_In in He. tauto.
  - intros (Hr & He & Hp). exists r. split; [exact Hr|].
    apply in_map_iff. exists e. split; [reflexivity|]. apply filter_In. tauto.
Qed.

Lemma candidates_nil (h : Heap) (pools : list ref) (p : A -> bool) :
  candidates h pools p = [] <->
  forall r e, In r pools -> In e (deref h r) -> p e = false.
Proof.
  split.
  - intros H r e Hr He. destruct (p e) eqn:Hp; [|reflexivity].
    assert (Hin : In (e, r) (candidates h pools p)) by (apply in_candidates; tauto).
    rewrite H in Hin. destruct Hin.
  - intros H. destruct (candidates h pools p) as [|[e r] l] eqn:E; [reflexivity|].
    assert (Hin : In (e, r) (candidates h pools p)) by (rewrite E; left; reflexivity).
    apply in_candidates in Hin. destruct Hin as (Hr & He & Hp).
    rewrite (H r e Hr He) in Hp. discriminate.
Qed.

Lemma list_remove_in (x : A) (l : list A) :
  In x l ->
  exists l1 l2, l = l1 ++ x :: l2 /\ ~ In x l1 /\
                Py.list_remove eqb x l = Some (l1 ++ l2).
Proof.
  induction l as [|y l IH]; intros Hin; [destruct Hin|]. simpl.
  destruct (eqb y x) eqn:E.
  - apply eqb_spec in E. subst y. exists [], l. simpl. tauto.
  - assert (Hne : y <> x).
    { intros ->. assert (eqb x x = true) by now apply eqb_spec. congruence. }
    destruct Hin as [->|Hin]; [congruence|].
    destruct (IH Hin) as (l1 & l2 & -> & Hn & ->).
    exists (y :: l1), l2. simpl. intuition congruence.
Qed.

Lemma list_remove_none (x : A) (l : list A) :
  Py.list_remove eqb x l = None <-> ~ In x l.
Proof.
  split.
  - intros H Hin. destruct (list_remove_in x l Hin) as (l1 & l2 & _ & _ & E).
    congruence.
  - induction l as [|y l IH]; intros Hn; simpl; [reflexivity|].
    destruct (eqb y x) eqn:E.
    + apply eqb_spec in E. subst. exfalso. apply Hn. now left.
    + rewrite IH; [reflexivity|]. intros Hin. apply Hn. now right.
Qed.

Lemma deref_in_range (h : @Heap A) (r : ref) (e : A) :
  In e (deref h r) -> r < length h.
Proof.
  unfold deref. intros H. destruct (Nat.lt_ge_cases r (length h)) as [|Hge]; [assumption|].
  rewrite nth_overflow in H by assumption. destruct H.
Qed.

Lemma length_store (h : @Heap A) (r : ref) (l : list A) :
  length (store h r l) = length h.
Proof.
  revert r; induction h as [|x h IH]; intros r; [reflexivity|].
  destruct r; simpl; [reflexivity | now rewrite IH].
Qed.

Lemma deref_store_same (h : @Heap A) (r : ref) (l : list A) :
  r < length h -> deref (store h r l) r = l.
Proof.
  revert r; induction h as [|x h IH]; intros r Hr; simpl in Hr; [lia|].
  destruct r; simpl; [reflexivity|]. apply IH. lia.
Qed.

Lemma deref_store_other (h : @Heap A) (r r' : ref) (l : list A) :
  r' <> r -> deref (store h r l) r' = deref h r'.
Proof.
  revert r r'; induction h as [|x h IH]; intros r r' Hne; [reflexivity|].
  destruct r, r'; simpl; try reflexivity; try congruence.
  apply IH. congruence.
Qed.

Lemma heap_total_store (h : @Heap A) (r : ref) (l : list A) :
  r < length h ->
  heap_total (store h r l) + length (deref h r) = heap_total h + length l.
Proof.
  revert r; induction h as [|x h IH]; intros r Hr; simpl in Hr; [lia|].
  destruct r; simpl.
  - unfold deref. simpl. lia.
  - specialize (IH r ltac:(lia)). unfold deref in *. simpl. lia.
Qed.

Lemma pools_total_other (h h' : @Heap A) (pools : list ref) (r : ref) :
  (forall r', r' <> r -> deref h' r' = deref h r') ->
  ~ In r pools -> pools_total h' pools = pools_total h pools.
Proof.
  intros Hd. induction pools as [|p pools IH]; intros Hn; [reflexivity|].
  simpl. rewrite Hd, IH; [reflexivity| |].
  - intros Hin. apply Hn. now right.
  - intros ->. apply Hn. now left.
Qed.

Lemma pools_total_one (h h' : @Heap A) (pools : list ref) (r : ref) :
  (forall r', r' <> r -> deref h' r' = deref h r') ->
  length (deref h' r) + 1 = length (deref h r) ->
  NoDup pools -> In r pools ->
  pools_total h' pools + 1 = pools_total h pools.
Proof.
  intros Hd Hl Hnd. induction Hnd as [|p pools Hnp Hnd IH]; intros Hin; [destruct Hin|].
  simpl. destruct Hin as [->|Hin].
  - rewrite (pools_total_other h h' pools r Hd Hnp). lia.
  - assert (p <> r) by (intros ->; contradiction).
    rewrite Hd by assumption. specialize (IH Hin). lia.
Qed.

(** What [pool.remove(element)] does to the heap when the element is in
    the list object at [r]. *)
Lemma heap_remove_spec (h : Heap) (r : ref) (e : A) :
  In e (deref h r) ->
  let h' := heap_remove eqb h r e in
  (exists l1 l2, deref h r = l1 ++ e :: l2 /\ ~ In e l1 /\ deref h' r = l1 ++ l2) /\
  (forall r', r' <> r -> deref h' r' = deref h r') /\
  length h' = length h /\
  heap_total h' + 1 = heap_total h.
Proof.
  intros Hin h'. subst h'. unfold heap_remove.
  pose proof (deref_in_range h r e Hin) as Hr.
  destruct (list_remove_in e _ Hin) as (l1 & l2 & E & Hn & ->).
  split; [|split; [|split]].
  - exists l1, l2. rewrite deref_store_same by assumption. tauto.
  - intros r' Hne. now apply deref_store_other.
  - apply length_store.
  - pose proof (heap_total_store h r (l1 ++ l2) Hr) as H.
    rewrite E in H. rewrite length_app in H. rewrite length_app in H. simpl in H. lia.
Qed.

(** The behaviour of one random pull, for the removal loops as well. *)
Lemma pull_random_element_facts (h : Heap) (pools : list ref)
    (predicate : A -> bool) (remove : bool) (g : Rng) :
  let res := fst (fst (pull_random_element eqb h pools predicate remove g)) in
  let h' := snd (fst (pull_random_element eqb h pools predicate remove g)) in
  (res = None <->
   forall r e, In r pools -> In e (deref h r) -> predicate e = false) /\
  (res = None -> h' = h) /\
  (forall e, res = Some e ->
     predicate e = true /\
     exists r, In r pools /\ In e (deref h r) /\
       if remove then
         (exists l1 l2, deref h r = l1 ++ e :: l2 /\ ~ In e l1 /\
                        deref h' r = l1 ++ l2) /\
         (forall r', r' <> r -> deref h' r' = deref h r') /\
         length h' = length h /\
         heap_total h' + 1 = heap_total h /\
         (NoDup pools -> pools_total h' pools + 1 = pools_total h pools)
       else h' = h).
Proof.
  intros res h'. subst res h'. unfold pull_random_element.
  pose proof (random_choice_none (candidates h pools predicate) g) as Hnone.
  pose proof (random_choice_in (candidates h pools predicate) g) as Hin.
  destruct (random_choice (candidates h pools predicate) g) as [[[e r]|] g'];
    simpl in Hnone, Hin.
  - assert (Hc : In r pools /\ In e (deref h r) /\ predicate e = true)
      by (apply in_candidates, Hin; reflexivity).
    destruct Hc as (Hr & He & Hp).
    assert (Hsome : fst (fst (if remove
                   then (Some e, heap_remove eqb h r e, g')
                   else (Some e, h, g'))) = Some e) by (destruct remove; reflexivity).
    rewrite Hsome. split; [|split].
    + split; [discriminate|]. intros H. rewrite (H r e Hr He) in Hp. discriminate.
    + discriminate.
    + intros e' E. injection E as <-. split; [exact Hp|].
      exists r. split; [exact Hr|]. split; [exact He|].
      destruct remove; simpl; [|reflexivity].
      destruct (heap_remove_spec h r e He) as (H1 & H2 & H3 & H4).
      repeat split; try assumption.
      intros Hnd. apply (pools_total_one h _ pools r H2); try assumption.
      destruct H1 as (l1 & l2 & E1 & _ & E2). rewrite E1, E2.
      rewrite !length_app. simpl. lia.
  - simpl. split; [|split].
    + split; [intros _|reflexivity]. apply candidates_nil. now apply Hnone.
    + reflexivity.
    + discriminate.
Qed.

(** C10: [pull_random_element] returns [None] exactly when no element of
    any pool satisfies the predicate, and then changes nothing.  Otherwise
    it returns an element [e] of some pool [r] that satisfies the
    predicate; with [remove] the list object [r] loses its first
    occurrence of [e], every other list object is unchanged, and the
    number of elements in the heap, and in the pools when they are
    distinct objects, drops by exactly one; without [remove] nothing
    changes. *)
Theorem pull_random_element_spec (h : Heap) (pools : list ref)
    (predicate : A -> bool) (remove : bool) (g : Rng) :
  let res := fst (fst (pull_random_element eqb h pools predicate remove g)) in
  let h' := snd (fst (pull_random_element eqb h pools predicate remove g)) in
  (res = None <->
   forall r e, In r pools -> In e (deref h r) -> predicate e = false) /\
  (res = None -> h' = h) /\
  (forall e, res = Some e ->
     predicate e = true /\
     exists r, In r pools /\ In e (deref h r) /\
       if remove then
         (exists l1 l2, deref h r = l1 ++ e :: l2 /\ ~ In e l1 /\
                        deref h' r = l1 ++ l2) /\
         (forall r', r' <> r -> deref h' r' = deref h r') /\
         length h' = length h /\
         heap_total h' + 1 = heap_total h /\
         (NoDup pools -> pools_total h' pools + 1 = pools_total h pools)
       else h' = h).
Proof. exact (pull_random_element_facts h pools predicate remove g). Qed.

End PoolFacts.

(** Two pools of names, pulling a name with a prefix test, with removal. *)
Lemma pull_random_element_spec_witness :
  let h := [["Bow"; "Bombs"]; ["Bombchus (5)"; "Bow"]] in
  let p := fun s => Py.startswith s "Bomb" in
  let res := fst (fst (pull_random_element String.eqb h [0; 1] p true [4])) in
  let h' := snd (fst (pull_random_element String.eqb h [0; 1] p true [4])) in
  (res = None <->
   forall r e, In r [0; 1] -> In e (deref h r) -> p e = false) /\
  (res = None -> h' = h) /\
  (forall e, res = Some e ->
     p e = true /\
     exists r, In r [0; 1] /\ In e (deref h r) /\
         (exists l1 l2, deref h r = l1 ++ e :: l2 /\ ~ In e l1 /\
                        deref h' r = l1 ++ l2) /\
         (forall r', r' <> r -> deref h' r' = deref h r') /\
         length h' = length h /\
         heap_total h' + 1 = heap_total h /\
         (NoDup [0; 1] -> pools_total h' [0; 1] + 1 = pools_total h [0; 1])).
Proof.
  exact (pull_random_element_spec String.eqb String.eqb_eq
           [["Bow"; "Bombs"]; ["Bombchus (5)"; "Bow"]] [0; 1]
           (fun s => Py.startswith s "Bomb") true [4]).
Defined.

(* ================================================================== *)
(** * Stability of compiled patterns *)
(* ================================================================== *)

Section MatcherStable.

Variable ItemInfo_items : list (string * string).
Variable item_groups : Dict.odict (list string).

Local Notation "'compile_str'" := (pattern_matcher_str ItemInfo_items item_groups).
Local Notation "'major'" := (compute_major_group ItemInfo_items item_groups).

Lemma compute_major_group_split (st : Settings) (base group : list string) :
  major st base group = major_core item_groups st base group ++ major st [] [].
Proof.
  unfold compute_major_group, major_core. simpl filter.
  destruct (negb (shuffle_song_items st =? "any")); simpl filter;
  repeat match goal with
         | |- context [if ?c then _ else _] => destruct c
         end;
  rewrite ?app_nil_r, <- ?app_assoc; reflexivity.
Qed.

Lemma filter_nil_mono {A} (p q : A -> bool) (l : list A) :
  (forall x, q x = true -> p x = true) -> filter p l = [] -> filter q l = [].
Proof.
  intros Hpq. induction l as [|x l IH]; simpl; [reflexivity|].
  destruct (p x) eqn:Hp; [discriminate|]. intros H.
  destruct (q x) eqn:Hq; [rewrite (Hpq x Hq) in Hp; discriminate | now apply IH].
Qed.

Lemma filter_filter_nil_mono {A} (p q f : A -> bool) (l : list A) :
  (forall x, q x = true -> p x = true) ->
  filter f (filter p l) = [] -> filter f (filter q l) = [].
Proof.
  intros Hpq. induction l as [|x l IH]; simpl; [reflexivity|].
  destruct (q x) eqn:Hq.
  - rewrite (Hpq x Hq). simpl. destruct (f x); [discriminate | exact IH].
  - destruct (p x); simpl; [destruct (f x); [discriminate | exact IH] | exact IH].
Qed.

Lemma compute_major_group_nil_mono (st : Settings) (base base2 group : list string) :
  (forall x, Py.mem x base2 = true -> Py.mem x base = true) ->
  major st base group = [] -> major st base2 group = [].
Proof.
  intros Hsub. rewrite (compute_major_group_split st base),
                       (compute_major_group_split st base2).
  intros H. apply app_eq_nil in H. destruct H as [Hc ->].
  rewrite app_nil_r. unfold major_core in *.
  destruct (negb (shuffle_song_items st =? "any")).
  - eapply filter_filter_nil_mono; [|exact Hc]. exact Hsub.
  - eapply filter_nil_mono; [|exact Hc]. exact Hsub.
Qed.

Lemma set_major_group_id (w : WorldDistribution) :
  set_major_group (major_group w) w = w.
Proof. destruct w; reflexivity. Qed.

Lemma same_env_refl (w : WorldDistribution) : same_env w w.
Proof. unfold same_env. auto. Qed.

(** A pattern that compiled once compiles to the same predicate, without
    any further change of [self], in every later state of the same
    environment; the first compilation changes at most the memoized major
    group. *)
Lemma pattern_matcher_str_stable (p : string) (w w' : WorldDistribution)
    (m : string -> bool) :
  compile_str p w = (Ok m, w') ->
  w' = set_major_group (major_group w') w /\
  forall w2, same_env w' w2 -> compile_str p w2 = (Ok m, w2).
Proof.
  unfold pattern_matcher_str.
  set (invert := Py.startswith p "!").
  set (q := if invert then Py.drop_first p else p).
  destruct (Py.startswith q "#").
  - unfold bind, get.
    destruct (Dict.get (search_groups w) (Py.drop_first q)) as [group|] eqn:Eg;
      [|discriminate].
    destruct (q =? "#MajorItem") eqn:Eq.
    + destruct (major_group w) as [|x l] eqn:Em.
      * unfold modify, ret. simpl. intros H. injection H as <- <-.
        split; [destruct w; reflexivity|].
        intros w2 (Hg & Hs & Hm & Hb). simpl in Hg, Hs, Hm, Hb.
        rewrite Hg, Eg, Hm, Hs.
        destruct (major (dist_settings w) (base_pool w) group) as [|y k] eqn:EG.
        -- rewrite (compute_major_group_nil_mono _ _ _ _ Hb EG).
           simpl. rewrite <- Hm. rewrite set_major_group_id. reflexivity.
        -- rewrite Hm. reflexivity.
      * unfold ret. intros H. injection H as <- <-.
        split; [rewrite Em, <- Em; symmetry; apply set_major_group_id|].
        intros w2 (Hg & Hs & Hm & Hb). rewrite Hg, Eg, Hm, Em. simpl.
        rewrite Hm, Em. reflexivity.
    + unfold ret. intros H. injection H as <- <-.
      split; [symmetry; apply set_major_group_id|].
      intros w2 (Hg & Hs & Hm & Hb). rewrite Hg, Eg. reflexivity.
  - unfold ret. intros H. injection H as <- <-.
    split; [symmetry; apply set_major_group_id|]. reflexivity.
Qed.

End MatcherStable.

(* ================================================================== *)
(** * The two tiers of [pool_remove_item] *)
(* ================================================================== *)

#[export] Instance PoolElementLaws_string : PoolElementLaws string.
Proof. intros x y. apply String.eqb_eq. Qed.

Lemma option_Z_eqb_eq (a b : option Z) : option_Z_eqb a b = true <-> a = b.
Proof.
  destruct a, b; simpl; try (split; [discriminate | congruence]);
    [|tauto]. rewrite Z.eqb_eq. split; congruence.
Qed.

#[export] Instance PoolElementLaws_Item : PoolElementLaws Item.
Proof.
  intros [u n w t a p] [u' n' w' t' a' p']. unfold elt_eqb; simpl.
  unfold Item_eqb; simpl.
  rewrite !andb_true_iff, !Nat.eqb_eq, !String.eqb_eq, Bool.eqb_true_iff,
    option_Z_eqb_eq.
  split; [intros (((((-> & ->) & ->) & ->) & ->) & ->); reflexivity|].
  intros H; injection H; intros; subst; tauto.
Qed.

Lemma mem_In (x : string) (l : list string) : Py.mem x l = true <-> In x l.
Proof.
  unfold Py.mem. rewrite existsb_exists. split.
  - intros [y [Hy E]]. apply String.eqb_eq in E. now subst.
  - intros H. exists x. split; [exact H | apply String.eqb_refl].
Qed.

Lemma list_remove_mem_mono (x y : string) (l l' : list string) :
  Py.list_remove String.eqb x l = Some l' ->
  Py.mem y l' = true -> Py.mem y l = true.
Proof.
  rewrite !mem_In. revert l'. induction l as [|z l IH]; simpl; [discriminate|].
  intros l'. destruct (String.eqb z x).
  - intros H; injection H as <-. now right.
  - destruct (Py.list_remove String.eqb x l) as [r|]; [|discriminate].
    intros H; injection H as <-. intros [->|Hin]; [now left|].
    right. now apply (IH r).
Qed.

Section Tiers.

Variable ItemInfo_items : list (string * string).
Variable item_groups : Dict.odict (list string).
Variable is_item : string -> bool.

Context {E : Type} {PE : PoolElement E} {EL : PoolElementLaws E}.

Variable pools : list ref.
Variable item_name : string.
Variable world_id : option nat.
Variable m : string -> bool.

Local Notation "'loop'" :=
  (pool_remove_loop is_item (E:=E)).

Lemma remove_predicate_scope (ubp : bool) (self : WorldDistribution) (e : E) :
  remove_predicate world_id m ubp self e
  = in_scope world_id m e
    && xorb (Py.mem (elt_name e) (base_pool self)) (negb ubp).
Proof.
  unfold remove_predicate, in_scope, remove_matcher.
  destruct world_id; [rewrite andb_assoc|]; reflexivity.
Qed.

Lemma loop_step_none (sc : Z -> M (PState E) (list E)) (ubp : bool)
    (n : nat) (acc : list E) (s : PState E) (h' : Heap) (g' : Rng) :
  pull_random_element elt_eqb (st_heap s) pools
    (remove_predicate world_id m ubp (st_self s)) true (st_rng s)
  = (None, h', g') ->
  loop sc pools item_name world_id ubp m (S n) acc s =
  (if negb ubp
   then if is_item item_name then raise (no_remaining_items item_name)
        else raise (no_items_matching item_name)
   else rest <- sc (Z.of_nat (S n)) ;; ret (acc ++ rest))
    (with_rng g' (with_heap h' s)).
Proof.
  intros H. cbn [pool_remove_loop]. unfold bind at 1, get at 1. rewrite H.
  reflexivity.
Qed.

Lemma loop_step_some (sc : Z -> M (PState E) (list E)) (ubp : bool)
    (n : nat) (acc : list E) (s : PState E) (e : E) (h' : Heap) (g' : Rng) :
  pull_random_element elt_eqb (st_heap s) pools
    (remove_predicate world_id m ubp (st_self s)) true (st_rng s)
  = (Some e, h', g') ->
  loop sc pools item_name world_id ubp m (S n) acc s =
  ((if ubp then base_pool_remove (elt_name e) else ret tt) ;;
   loop sc pools item_name world_id ubp m n (acc ++ [e]))
    (with_rng g' (with_heap h' s)).
Proof.
  intros H. cbn [pool_remove_loop]. unfold bind at 1, get at 1. rewrite H.
  reflexivity.
Qed.

(** What one pull of the removal loop does. *)
Lemma pull_cases (ubp : bool) (s : PState E) :
  let p := remove_predicate world_id m ubp (st_self s) in
  (pull_random_element elt_eqb (st_heap s) pools p true (st_rng s)
   = (None, st_heap s, st_rng s) /\ pools_lack (st_heap s) pools p) \/
  (exists e h' g' r,
      pull_random_element elt_eqb (st_heap s) pools p true (st_rng s)
      = (Some e, h', g') /\
      p e = true /\ In r pools /\ In e (deref (st_heap s) r) /\
      length h' = length (st_heap s) /\
      heap_total h' + 1 = heap_total (st_heap s) /\
      (forall r' x, In x (deref h' r') -> In x (deref (st_heap s) r'))).
Proof.
  intros p.
  pose proof (pull_random_element_facts elt_eqb elt_eqb_eq (st_heap s) pools p
                true (st_rng s)) as Hspec.
  destruct (pull_random_element elt_eqb (st_heap s) pools p true (st_rng s))
    as [[[e|] h'] g'] eqn:Ep; simpl in Hspec.
  - right. destruct Hspec as (_ & _ & Hsome).
    destruct (Hsome e eq_refl) as (Hp & r & Hr & He & (l1 & l2 & E1 & _ & E2) & Ho & Hl & Ht & _).
    exists e, h', g', r. repeat split; try assumption.
    intros r' x Hx. destruct (Nat.eq_dec r' r) as [->|Hne].
    + rewrite E1. rewrite E2 in Hx. apply in_app_iff in Hx. apply in_app_iff.
      destruct Hx; [left | right; right]; assumption.
    + rewrite <- (Ho r' Hne). exact Hx.
  - left. destruct Hspec as (Hnone & Hsame & _).
    assert (Hl : pools_lack (st_heap s) pools p)
      by (unfold pools_lack; apply Hnone; reflexivity).
    split; [|exact Hl].
    pose proof Hl as Hc. apply candidates_nil in Hc.
    unfold pull_random_element in Ep. rewrite Hc in Ep. simpl in Ep.
    injection Ep as <- <-. reflexivity.
Qed.

Lemma with_same (s : PState E) : with_rng (st_rng s) (with_heap (st_heap s) s) = s.
Proof. destruct s; reflexivity. Qed.

Lemma set_base_pool_id (w : WorldDistribution) : set_base_pool (base_pool w) w = w.
Proof. destruct w; reflexivity. Qed.

Lemma raise_key_error (A : Type) (s : PState E) :
  (if is_item item_name
   then raise (A:=A) (no_remaining_items item_name)
   else raise (no_items_matching item_name)) s
  = (Raise (key_error_of is_item item_name), s).
Proof. unfold key_error_of. destruct (is_item item_name); reflexivity. Qed.

(** The second tier, entered when no match in the pools has a copy left in
    the base pool: it removes matches of the scope until the count is
    reached or none is left. *)
Lemma fallback_loop (sc : Z -> M (PState E) (list E)) :
  forall n acc s,
    pools_lack (st_heap s) pools
      (fun e => in_scope world_id m e
                && Py.mem (elt_name e) (base_pool (st_self s))) ->
    exists rem,
      let out := loop sc pools item_name world_id false m n acc s in
      Forall (fun e => in_scope world_id m e = true) rem /\
      st_self (snd out) = st_self s /\
      length (st_heap (snd out)) = length (st_heap s) /\
      heap_total (st_heap (snd out)) + length rem = heap_total (st_heap s) /\
      (forall r x, In x (deref (st_heap (snd out)) r) -> In x (deref (st_heap s) r)) /\
      taken_from (st_heap s) pools rem /\
      ((fst out = Ok (acc ++ rem) /\ length rem = n) \/
       (fst out = Raise (key_error_of is_item item_name) /\ length rem < n /\
        pools_lack (st_heap (snd out)) pools (in_scope world_id m))).
Proof.
  induction n as [|n IH]; intros acc s Hlack.
  - exists []. simpl. rewrite app_nil_r.
    split; [constructor|]. repeat (split; [auto; fail|]).
    split; [constructor|]. left. split; reflexivity.
  - destruct (pull_cases false s) as [[Ep Hl] | (e & h' & g' & r & Ep & Hp & Hr & He & Hlen & Htot & Hshr)].
    + exists []. cbv zeta. rewrite (loop_step_none sc false n acc s _ _ Ep).
      rewrite with_same. cbn [negb]. cbv iota. rewrite raise_key_error. simpl.
      split; [constructor|]. repeat (split; [auto; fail|]).
      split; [constructor|].
      right. split; [reflexivity|]. split; [lia|].
      intros r e Hr He. specialize (Hl r e Hr He). specialize (Hlack r e Hr He).
      rewrite remove_predicate_scope in Hl. simpl in Hl, Hlack.
      destruct (in_scope world_id m e); [|reflexivity].
      destruct (Py.mem (elt_name e) (base_pool (st_self s))); discriminate.
    + set (s1 := with_rng g' (with_heap h' s)).
      assert (Hlack1 : pools_lack (st_heap s1) pools
                (fun e => in_scope world_id m e
                          && Py.mem (elt_name e) (base_pool (st_self s1)))).
      { intros r' x Hr' Hx. apply (Hlack r' x Hr'). apply Hshr. exact Hx. }
      destruct (IH (acc ++ [e]) s1 Hlack1) as (rem & HF & Hself & Hlen' & Htot' & Hshr' & Htk & Hres).
      exists (e :: rem). cbv zeta.
      assert (Hstep : loop sc pools item_name world_id false m (S n) acc s
                      = loop sc pools item_name world_id false m n (acc ++ [e]) s1)
        by (rewrite (loop_step_some sc false n acc s e _ _ Ep); reflexivity).
      rewrite Hstep.
      rewrite remove_predicate_scope in Hp. apply andb_true_iff in Hp.
      destruct Hp as [Hsc _].
      split; [constructor; assumption|].
      split; [exact Hself|].
      split; [rewrite Hlen'; exact Hlen|].
      split; [simpl in *; lia|].
      split; [intros r' x Hx; apply Hshr, Hshr', Hx|].
      split.
      { constructor; [exists r; tauto|].
        eapply Forall_impl; [|exact Htk]. simpl.
        intros x (r' & Hr' & Hx). exists r'. split; [exact Hr'|]. apply Hshr, Hx. }
      destruct Hres as [[Hok Hn] | (Herr & Hn & Hl')].
      * left. rewrite Hok, <- app_assoc. simpl. split; [reflexivity | lia].
      * right. split; [exact Herr|]. split; [simpl; lia | exact Hl'].
Qed.

(** With [use_base_pool=False] the loop never calls itself: it is the
    same whatever the self call. *)
Lemma loop_false_any (sc1 sc2 : Z -> M (PState E) (list E)) :
  forall n acc s,
    loop sc1 pools item_name world_id false m n acc s
    = loop sc2 pools item_name world_id false m n acc s.
Proof.
  induction n as [|n IH]; intros acc s; [reflexivity|].
  destruct (pull_cases false s)
    as [[Ep _] | (e & h' & g' & r & Ep & _)].
  - rewrite (loop_step_none sc1 false n acc s _ _ Ep),
            (loop_step_none sc2 false n acc s _ _ Ep).
    reflexivity.
  - rewrite (loop_step_some sc1 false n acc s e _ _ Ep),
            (loop_step_some sc2 false n acc s e _ _ Ep).
    unfold bind, ret. apply IH.
Qed.

(** The first tier: as long as a match in the pools has a copy in the base
    pool, such a match is removed, together with its copy in the base
    pool; when there is none left the remaining count goes to the second
    tier.  What is removed and the state reached do not depend on the
    self call. *)
Lemma base_loop :
  forall n acc s,
    exists rem s1,
      Forall (fun e => in_scope world_id m e = true) rem /\
      remove_names (map elt_name rem) (base_pool (st_self s))
        = Some (base_pool (st_self s1)) /\
      st_self s1 = set_base_pool (base_pool (st_self s1)) (st_self s) /\
      length (st_heap s1) = length (st_heap s) /\
      heap_total (st_heap s1) + length rem = heap_total (st_heap s) /\
      (forall r x, In x (deref (st_heap s1) r) -> In x (deref (st_heap s) r)) /\
      taken_from (st_heap s) pools rem /\
      ((length rem = n /\
        forall sc, loop sc pools item_name world_id true m n acc s
                   = (Ok (acc ++ rem), s1)) \/
       (length rem < n /\
        pools_lack (st_heap s1) pools
          (fun e => in_scope world_id m e
                    && Py.mem (elt_name e) (base_pool (st_self s1))) /\
        forall sc, loop sc pools item_name world_id true m n acc s
                   = (rest <- sc (Z.of_nat (n - length rem)) ;;
                      ret (acc ++ rem ++ rest)) s1)).
Proof.
  induction n as [|n IH]; intros acc s.
  - exists [], s. simpl. rewrite app_nil_r, set_base_pool_id.
    split; [constructor|]. repeat (split; [auto; fail|]).
    split; [constructor|]. left. split; reflexivity.
  - destruct (pull_cases true s) as [[Ep Hl] | (e & h' & g' & r & Ep & Hp & Hr & He & Hlen & Htot & Hshr)].
    + exists [], s. cbn [map remove_names length]. rewrite set_base_pool_id.
      split; [constructor|]. split; [reflexivity|]. split; [reflexivity|].
      split; [reflexivity|]. split; [lia|]. split; [auto|].
      split; [constructor|].
      right. split; [lia|]. split.
      * intros r e Hr He. specialize (Hl r e Hr He).
        rewrite remove_predicate_scope in Hl. simpl in Hl.
        rewrite xorb_false_r in Hl. exact Hl.
      * intros sc. rewrite (loop_step_none sc true n acc s _ _ Ep), with_same.
        reflexivity.
    + rewrite remove_predicate_scope in Hp. simpl in Hp. rewrite xorb_false_r in Hp.
      apply andb_true_iff in Hp. destruct Hp as [Hsc Hmem].
      set (s1 := with_rng g' (with_heap h' s)).
      destruct (Py.list_remove String.eqb (elt_name e) (base_pool (st_self s)))
        as [l|] eqn:El.
      2:{ apply (list_remove_none String.eqb String.eqb_eq) in El.
          apply mem_In in Hmem. contradiction. }
      set (s2 := with_self (set_base_pool l (st_self s1)) s1).
      destruct (IH (acc ++ [e]) s2) as (rem & sf & HF & Hrn & Hself & Hlen' & Htot' & Hshr' & Htk & Hres).
      exists (e :: rem), sf.
      assert (Hstep : forall sc,
                loop sc pools item_name world_id true m (S n) acc s
                = loop sc pools item_name world_id true m n (acc ++ [e]) s2).
      { intros sc. rewrite (loop_step_some sc true n acc s e _ _ Ep).
        unfold bind at 1. unfold base_pool_remove, bind at 1, get.
        fold s1. change (base_pool (st_self s1)) with (base_pool (st_self s)).
        rewrite El. reflexivity. }
      split; [constructor; assumption|].
      split; [simpl; rewrite El; exact Hrn|].
      split; [rewrite Hself at 1; reflexivity|].
      split; [rewrite Hlen'; exact Hlen|].
      split; [simpl in *; lia|].
      split; [intros r' x Hx; apply Hshr, Hshr', Hx|].
      split.
      { constructor; [exists r; tauto|].
        eapply Forall_impl; [|exact Htk]. simpl.
        intros x (r' & Hr' & Hx). exists r'. split; [exact Hr'|]. apply Hshr, Hx. }
      destruct Hres as [[Hn Hok] | (Hn & Hl' & Hrest)].
      * left. split; [simpl; lia|]. intros sc.
        rewrite (Hstep sc), (Hok sc), <- app_assoc. reflexivity.
      * right. split; [simpl; lia|]. split; [exact Hl'|]. intros sc.
        rewrite (Hstep sc), (Hrest sc). simpl length.
        replace (S n - S (length rem)) with (n - length rem) by lia.
        unfold bind. destruct (sc (Z.of_nat (n - length rem)) sf) as [[rest|ex] sx];
          [|reflexivity].
        unfold ret. rewrite <- !app_assoc. reflexivity.
Qed.

End Tiers.

Lemma remove_names_mem_mono (names : list string) :
  forall l l', remove_names names l = Some l' ->
  forall y, Py.mem y l' = true -> Py.mem y l = true.
Proof.
  induction names as [|x names IH]; intros l l' H y Hy; simpl in H.
  - injection H as <-. exact Hy.
  - destruct (Py.list_remove String.eqb x l) as [l1|] eqn:E; [|discriminate].
    eapply list_remove_mem_mono; [exact E|]. eapply IH; eassumption.
Qed.

Lemma remove_names_in_base (names : list string) :
  forall l l', remove_names names l = Some l' ->
  Forall (fun x => Py.mem x l = true) names.
Proof.
  induction names as [|x names IH]; intros l l' H; [constructor|].
  simpl in H.
  destruct (Py.list_remove String.eqb x l) as [l1|] eqn:E; [|discriminate].
  constructor.
  - apply mem_In. destruct (in_dec string_dec x l) as [Hin|Hn]; [exact Hin|].
    apply (list_remove_none String.eqb String.eqb_eq) in Hn. congruence.
  - eapply Forall_impl; [|exact (IH l1 l' H)]. simpl.
    intros y Hy. eapply list_remove_mem_mono; [exact E | exact Hy].
Qed.

Section TwoTiers.

Variable ItemInfo_items : list (string * string).
Variable item_groups : Dict.odict (list string).
Variable is_item : string -> bool.

Context {E : Type} {PE : PoolElement E} {EL : PoolElementLaws E}.

Lemma with_self_same (s : PState E) : with_self (st_self s) s = s.
Proof. destruct s; reflexivity. Qed.

(** C5, as the code has it.  When the pattern compiles to [m],
    [pool_remove_item] with the base pool enabled removes in two tiers.
    The first tier is the call with its fallback cut off: it removes
    matches of the scope that have a copy in the base pool, taking that
    copy out of the base pool too, and the call is over when it has
    removed [count] of them.  It stops short only in a state where no
    match in the pools has a copy left in the base pool; the call then
    goes on from that very state as the call with [use_base_pool=False]
    for what is left of the count, which removes matches of the whole
    scope and leaves the base pool alone.  The call returns the elements
    of the first tier followed by those of the second, [count] in all, or
    raises when no match is left in the pools at all; the [KeyError] it
    raises is chosen by [is_item] on the pattern text, not by how many
    elements were matched. *)
Theorem pool_remove_item_two_tiers (pools : list ref) (item_name : string)
    (count : Z) (world_id : option nat) (s : PState E)
    (m : string -> bool) (w' : WorldDistribution) :
  pattern_matcher ItemInfo_items item_groups (PStr item_name) (st_self s)
    = (Ok m, w') ->
  let remove := pool_remove_item ItemInfo_items item_groups is_item
                  pools item_name in
  let out := remove count world_id true s in
  let first := pool_remove_item_with ItemInfo_items item_groups is_item
                 (fun _ => ret []) pools item_name count world_id true s in
  let mid := snd first in
  exists base_removed,
    fst first = Ok base_removed /\
    Forall (fun e => in_scope world_id m e = true) base_removed /\
    Forall (fun e => Py.mem (elt_name e) (base_pool (st_self s)) = true)
           base_removed /\
    remove_names (map elt_name base_removed) (base_pool (st_self s))
      = Some (base_pool (st_self mid)) /\
    taken_from (st_heap s) pools base_removed /\
    heap_total (st_heap mid) + length base_removed = heap_total (st_heap s) /\
    ((length base_removed = Z.to_nat count /\ out = (Ok base_removed, mid)) \/
     (length base_removed < Z.to_nat count /\
      pools_lack (st_heap mid) pools
        (fun e => in_scope world_id m e
                  && Py.mem (elt_name e) (base_pool (st_self mid))) /\
      let second := remove (Z.of_nat (Z.to_nat count - length base_removed))
                      world_id false mid in
      out = (match fst second with
             | Ok rest => Ok (base_removed ++ rest)
             | Raise e => Raise e
             end, snd second) /\
      st_self (snd second) = st_self mid /\
      exists fallback_removed,
        Forall (fun e => in_scope world_id m e = true) fallback_removed /\
        taken_from (st_heap mid) pools fallback_removed /\
        heap_total (st_heap (snd second)) + length fallback_removed
          = heap_total (st_heap mid) /\
        ((fst second = Ok fallback_removed /\
          length (base_removed ++ fallback_removed) = Z.to_nat count) \/
         (fst second = Raise (key_error_of is_item item_name) /\
          length (base_removed ++ fallback_removed) < Z.to_nat count /\
          pools_lack (st_heap (snd second)) pools (in_scope world_id m))))).
Proof.
  intros Hm.
  destruct (pattern_matcher_str_stable _ _ _ _ _ _ Hm) as [Hw' Hstable].
  set (cut := fun _ : Z => ret (S:=PState E) (@nil E)).
  set (sc := fun count' : Z =>
               pool_remove_item_with ItemInfo_items item_groups is_item
                 cut pools item_name count' world_id false).
  set (s0 := with_self w' s).
  assert (Hrun : pool_remove_item ItemInfo_items item_groups is_item
                   pools item_name count world_id true s
                 = pool_remove_loop is_item sc pools item_name world_id true m
                     (Z.to_nat count) [] s0).
  { unfold pool_remove_item. fold cut. fold sc. unfold pool_remove_item_with at 1.
    unfold bind at 1, self_pattern_matcher at 1, lift_self at 1.
    simpl pattern_matcher in Hm |- *. rewrite Hm. reflexivity. }
  assert (Hfirst : pool_remove_item_with ItemInfo_items item_groups is_item
                     cut pools item_name count world_id true s
                   = pool_remove_loop is_item cut pools item_name world_id true m
                       (Z.to_nat count) [] s0).
  { unfold pool_remove_item_with at 1.
    unfold bind at 1, self_pattern_matcher at 1, lift_self at 1.
    simpl pattern_matcher in Hm |- *. rewrite Hm. reflexivity. }
  assert (Hsc : forall k s1, same_env w' (st_self s1) ->
                  sc k s1 = pool_remove_loop is_item cut pools
                              item_name world_id false m (Z.to_nat k) [] s1).
  { intros k s1 Henv. unfold sc, pool_remove_item_with.
    unfold bind at 1, self_pattern_matcher at 1, lift_self at 1.
    simpl pattern_matcher. rewrite (Hstable _ Henv), with_self_same. reflexivity. }
  assert (Hsecond : forall k s1, same_env w' (st_self s1) ->
                      pool_remove_item ItemInfo_items item_groups is_item pools
                        item_name k world_id false s1
                      = sc k s1).
  { intros k s1 Henv. rewrite (Hsc k s1 Henv).
    unfold pool_remove_item. fold cut. fold sc. unfold pool_remove_item_with at 1.
    unfold bind at 1, self_pattern_matcher at 1, lift_self at 1.
    simpl pattern_matcher. rewrite (Hstable _ Henv), with_self_same.
    apply loop_false_any. exact EL. }
  cbv zeta. fold cut. rewrite Hrun, Hfirst.
  assert (Hbp0 : base_pool (st_self s0) = base_pool (st_self s))
    by (simpl; rewrite Hw'; reflexivity).
  destruct (base_loop is_item pools item_name world_id m (Z.to_nat count) [] s0)
    as (rem & s1 & HF & Hrn & Hself & Hlen & Htot & Hshr & Htk & Hres).
  rewrite Hbp0 in Hrn.
  assert (Hbase : Forall (fun e => Py.mem (elt_name e) (base_pool (st_self s)) = true)
                         rem).
  { pose proof (remove_names_in_base _ _ _ Hrn) as H.
    rewrite Forall_map in H. exact H. }
  exists rem.
  destruct Hres as [[Hn Hok] | (Hn & Hlack & Hrest)].
  - rewrite (Hok cut), (Hok sc). cbn [app fst snd].
    split; [reflexivity|]. split; [exact HF|]. split; [exact Hbase|].
    split; [exact Hrn|]. split; [exact Htk|]. split; [exact Htot|].
    left. split; [exact Hn | reflexivity].
  - assert (Hcut : pool_remove_loop is_item cut pools item_name world_id true m
                     (Z.to_nat count) [] s0 = (Ok rem, s1)).
    { rewrite (Hrest cut). unfold cut, bind, ret. cbn [app].
      now rewrite app_nil_r. }
    rewrite Hcut, (Hrest sc). cbn [fst snd].
    split; [reflexivity|]. split; [exact HF|]. split; [exact Hbase|].
    split; [exact Hrn|]. split; [exact Htk|]. split; [exact Htot|].
    right. split; [exact Hn|]. split; [exact Hlack|].
    assert (Henv : same_env w' (st_self s1)).
    { rewrite Hself. unfold same_env. simpl. repeat split; auto.
      intros x Hx. rewrite Hw'. simpl.
      eapply remove_names_mem_mono; [exact Hrn | exact Hx]. }
    rewrite (Hsecond _ _ Henv).
    destruct (fallback_loop is_item pools item_name world_id m cut
                (Z.to_nat (Z.of_nat (Z.to_nat count - length rem))) [] s1 Hlack)
      as (rem2 & HF2 & Hself2 & Hlen2 & Htot2 & Hshr2 & Htk2 & Hres2).
    cbv zeta in HF2, Hself2, Hlen2, Htot2, Hshr2, Htk2, Hres2.
    unfold bind at 1. rewrite (Hsc _ _ Henv).
    destruct (pool_remove_loop is_item cut pools item_name world_id
                false m (Z.to_nat (Z.of_nat (Z.to_nat count - length rem))) [] s1)
      as [[l|ex] sf] eqn:El; cbn [fst snd app] in *.
    + destruct Hres2 as [[Hok Hn2] | (Herr & _)]; [|discriminate].
      injection Hok as ->.
      split; [reflexivity|]. split; [exact Hself2|].
      exists rem2. split; [exact HF2|]. split; [exact Htk2|].
      split; [exact Htot2|]. left. split; [reflexivity|].
      rewrite length_app. lia.
    + destruct Hres2 as [[Hok _] | (Herr & Hn2 & Hl2)]; [discriminate|].
      injection Herr as ->.
      split; [reflexivity|]. split; [exact Hself2|].
      exists rem2. split; [exact HF2|]. split; [exact Htk2|].
      split; [exact Htot2|]. right. split; [reflexivity|].
      split; [rewrite length_app; lia | exact Hl2].
Qed.

End TwoTiers.

(** Two copies of the sword in the pool, one of them in the base pool: the
    first is removed in the first tier, the second in the second. *)
Lemma pool_remove_item_two_tiers_witness :
  let s := demo_pool_state ["Kokiri Sword"; "Bow"; "Kokiri Sword"]
                           ["Kokiri Sword"; "Bow"] [3; 1] in
  let m := wildcard_matcher false "Kokiri Sword" in
  let remove := pool_remove_item [] [] demo_is_item [0] "Kokiri Sword" in
  let out := remove 2%Z None true s in
  let first := pool_remove_item_with [] [] demo_is_item (fun _ => ret [])
                 [0] "Kokiri Sword" 2 None true s in
  let mid := snd first in
  first = (Ok ["Kokiri Sword"], demo_pool_state ["Bow"; "Kokiri Sword"] ["Bow"] [1]) /\
  out = (Ok ["Kokiri Sword"; "Kokiri Sword"], demo_pool_state ["Bow"] ["Bow"] []) /\
  exists base_removed,
    fst first = Ok base_removed /\
    Forall (fun e => in_scope None m e = true) base_removed /\
    Forall (fun e => Py.mem (elt_name e) (base_pool (st_self s)) = true)
           base_removed /\
    remove_names (map elt_name base_removed) (base_pool (st_self s))
      = Some (base_pool (st_self mid)) /\
    taken_from (st_heap s) [0] base_removed /\
    heap_total (st_heap mid) + length base_removed = heap_total (st_heap s) /\
    ((length base_removed = Z.to_nat 2 /\ out = (Ok base_removed, mid)) \/
     (length base_removed < Z.to_nat 2 /\
      pools_lack (st_heap mid) [0]
        (fun e => in_scope None m e
                  && Py.mem (elt_name e) (base_pool (st_self mid))) /\
      let second := remove (Z.of_nat (Z.to_nat 2 - length base_removed))
                      None false mid in
      out = (match fst second with
             | Ok rest => Ok (base_removed ++ rest)
             | Raise e => Raise e
             end, snd second) /\
      st_self (snd second) = st_self mid /\
      exists fallback_removed,
        Forall (fun e => in_scope None m e = true) fallback_removed /\
        taken_from (st_heap mid) [0] fallback_removed /\
        heap_total (st_heap (snd second)) + length fallback_removed
          = heap_total (st_heap mid) /\
        ((fst second = Ok fallback_removed /\
          length (base_removed ++ fallback_removed) = Z.to_nat 2) \/
         (fst second = Raise (key_error_of demo_is_item "Kokiri Sword") /\
          length (base_removed ++ fallback_removed) < Z.to_nat 2 /\
          pools_lack (st_heap (snd second)) [0] (in_scope None m))))).
Proof.
  split; [vm_compute; reflexivity|]. split; [vm_compute; reflexivity|].
  exact (pool_remove_item_two_tiers [] [] demo_is_item [0] "Kokiri Sword" 2 None
           (demo_pool_state ["Kokiri Sword"; "Bow"; "Kokiri Sword"]
                            ["Kokiri Sword"; "Bow"] [3; 1])
           (wildcard_matcher false "Kokiri Sword")
           (set_base_pool ["Kokiri Sword"; "Bow"] demo_self) eq_refl).
Defined.

Example pool_remove_item_two_tiers_run :
  pool_remove_item [] [] demo_is_item [0] "Kokiri Sword" 2 None true
    (demo_pool_state ["Kokiri Sword"; "Bow"; "Kokiri Sword"]
                     ["Kokiri Sword"; "Bow"] [3; 1])
  = (Ok ["Kokiri Sword"; "Kokiri Sword"],
     demo_pool_state ["Bow"] ["Bow"] []).
Proof. vm_compute. reflexivity. Qed.

(** C5, as stated, fails: with the pattern ["Kokiri Sword"], a pool in
    which nothing matches and a pool in which one copy matched and was
    removed before the second was missed raise the same [KeyError]; and so
    do they, with the other message, for the pattern ["*Sword"]. *)
Lemma pool_remove_item_error_same :
  let run pattern pool count :=
    pool_remove_item [] [] demo_is_item [0] pattern count None true
      (demo_pool_state pool pool []) in
  run "Kokiri Sword" ["Bow"] 1%Z
    = (Raise (no_remaining_items "Kokiri Sword"), demo_pool_state ["Bow"] ["Bow"] []) /\
  run "Kokiri Sword" ["Kokiri Sword"; "Bow"] 2%Z
    = (Raise (no_remaining_items "Kokiri Sword"), demo_pool_state ["Bow"] ["Bow"] []) /\
  run "*Sword" ["Bow"] 1%Z
    = (Raise (no_items_matching "*Sword"), demo_pool_state ["Bow"] ["Bow"] []) /\
  run "*Sword" ["Kokiri Sword"; "Bow"] 2%Z
    = (Raise (no_items_matching "*Sword"), demo_pool_state ["Bow"] ["Bow"] []).
Proof. vm_compute. repeat split. Qed.

(* ================================================================== *)
(** * [ItemPoolRecord.update] *)
(* ================================================================== *)

Import Records.









(* ================================================================== *)
(** * Round trip of the records *)
(* ================================================================== *)

Import Records.

Lemma to_json_fields_changed (a : Dict.odict doc) :
  forall props self,
    attrs self = a ->
    (forall k d, In (k, d) props -> Dict.get a k <> None) ->
    to_json_fields props self
    = (Ok (changed_fields {| properties := props; attrs := a |}), self).
Proof.
  induction props as [|[k d] props IH]; intros self Ha Hall; [reflexivity|].
  cbn [to_json_fields]. unfold bind at 1, getattr, bind at 1, get. rewrite Ha.
  destruct (Dict.get a k) as [v|] eqn:Ev.
  2:{ exfalso. apply (Hall k d); [now left | exact Ev]. }
  unfold ret at 1. unfold bind at 1.
  rewrite (IH self Ha) by (intros k' d' Hin; apply (Hall k' d'); now right).
  unfold ret, changed_fields. cbn [flat_map properties attrs]. rewrite Ev.
  destruct (py_eq v d); reflexivity.
Qed.

(** [Record.to_json] emits exactly the keys whose value differs from the
    default, in the order of [properties]. *)
Lemma Record_to_json_changed (r : RecordObj) :
  (forall k d, In (k, d) (properties r) -> Dict.get (attrs r) k <> None) ->
  Record_to_json r = (Ok (changed_fields r), r).
Proof.
  intros H. unfold Record_to_json, bind, get.
  rewrite (to_json_fields_changed (attrs r) (properties r) r eq_refl H).
  destruct r; reflexivity.
Qed.

Ltac valid_cases :=
  repeat match goal with
         | H : opt_bool _ |- _ => destruct H as [-> | [[|] ->]]
         | H : opt_str _ |- _ => destruct H as [-> | [? ->]]
         | H : opt_int _ |- _ => destruct H as [-> | [? ->]]
         | H : opt_str_list _ |- _ => destruct H as [-> | [? ->]]
         | H : str_list _ |- _ => destruct H as [? ->]
         | H : pool_type _ |- _ => destruct H as [-> | [-> | ->]]
         | H : _ \/ _ |- _ => destruct H
         end.

Lemma round_trip_Dungeon (r : RecordObj) (j : doc) :
  valid CDungeon r -> to_document CDungeon r = Ok j ->
  from_document CDungeon j = Ok r.
Proof.
  destruct r as [p a]. intros [Hp (v & Ha & Hv)]. simpl in Hp, Ha. subst p a.
  valid_cases; intros H; injection H as <-; reflexivity.
Qed.

Lemma round_trip_Trial (r : RecordObj) (j : doc) :
  valid CTrial r -> to_document CTrial r = Ok j ->
  from_document CTrial j = Ok r.
Proof.
  destruct r as [p a]. intros [Hp (v & Ha & Hv)]. simpl in Hp, Ha. subst p a.
  valid_cases; intros H; injection H as <-; reflexivity.
Qed.

Lemma round_trip_EmptyDungeon (r : RecordObj) (j : doc) :
  valid CEmptyDungeon r -> to_document CEmptyDungeon r = Ok j ->
  from_document CEmptyDungeon j = Ok r.
Proof.
  destruct r as [p a]. intros [Hp (v & Ha & Hv)]. simpl in Hp, Ha. subst p a.
  valid_cases; intros H; injection H as <-; reflexivity.
Qed.

Lemma round_trip_Song (r : RecordObj) (j : doc) :
  valid CSong r -> to_document CSong r = Ok j ->
  from_document CSong j = Ok r.
Proof.
  destruct r as [p a]. intros [Hp (v & Ha & Hv)]. simpl in Hp, Ha. subst p a.
  valid_cases; intros H; injection H as <-; reflexivity.
Qed.

Lemma round_trip_Starter (r : RecordObj) (j : doc) :
  valid CStarter r -> to_document CStarter r = Ok j ->
  from_document CStarter j = Ok r.
Proof.
  destruct r as [p a]. intros [Hp (z & Ha)]. simpl in Hp, Ha. subst p a.
  intros H; injection H as <-; reflexivity.
Qed.

Lemma round_trip_ItemPool (r : RecordObj) (j : doc) :
  valid CItemPool r -> to_document CItemPool r = Ok j ->
  from_document CItemPool j = Ok r.
Proof.
  destruct r as [p a]. intros [Hp (t & z & Ha & Ht & Hz)]. simpl in Hp, Ha. subst p a.
  assert (Hlt : (z <? 0)%Z = false) by (apply Z.ltb_ge; exact Hz).
  unfold to_document, from_document, construct, call.
  valid_cases; cbn -[Z.eqb Z.ltb];
    try (destruct (Z.eqb_spec z 1) as [->|Hne]; cbn -[Z.eqb Z.ltb]);
    intros H; injection H as <-; cbn -[Z.eqb Z.ltb]; rewrite ?Hlt; reflexivity.
Qed.

Lemma round_trip_Entrance (r : RecordObj) (j : doc) :
  valid CEntrance r -> to_document CEntrance r = Ok j ->
  from_document CEntrance j = Ok r.
Proof.
  destruct r as [p a]. intros [Hp (re & o & Ha & Hre & Ho)]. simpl in Hp, Ha. subst p a.
  valid_cases; intros H; try discriminate H; injection H as <-; reflexivity.
Qed.

Lemma round_trip_Gossip (r : RecordObj) (j : doc) :
  valid CGossip r -> to_document CGossip r = Ok j ->
  from_document CGossip j = Ok r.
Proof.
  destruct r as [p a]. intros [Hp (t & co & hl & hi & Ha & Ht & Hco & Hhl & Hhi)].
  simpl in Hp, Ha. subst p a.
  valid_cases; intros H; injection H as <-; reflexivity.
Qed.

Lemma round_trip_Location (r : RecordObj) (j : doc) :
  valid CLocation r -> to_document CLocation r = Ok j ->
  ~ list_item_only r ->
  from_document CLocation j = Ok r.
Proof.
  destruct r as [p a]. intros [Hp (i & pl & pr & mo & Ha & Hi & Hpl & Hpr & Hmo)].
  simpl in Hp, Ha. subst p a. unfold list_item_only. simpl attrs.
  valid_cases; intros H Hn; injection H as <-; try reflexivity.
  exfalso. apply Hn. eexists. reflexivity.
Qed.

(** C8, as the code has it.  For every record class and every valid
    record that [to_json] serializes, the constructor applied to the
    serialized form gives the record back, except for a [LocationRecord]
    whose only field away from its default is a list of candidate items.
    [Record.to_json] emits exactly the keys whose value differs from the
    default; the classes that override it write their own form for the
    default record: ['random'], [None], [1] or the empty dictionary. *)
Theorem record_round_trip :
  (forall c r j,
     valid c r -> to_document c r = Ok j ->
     ~ (c = CLocation /\ list_item_only r) ->
     from_document c j = Ok r) /\
  (forall r,
     (forall k d, In (k, d) (properties r) -> Dict.get (attrs r) k <> None) ->
     call r Record_to_json = Ok (changed_fields r)) /\
  (forall c, c <> CEntrance ->
     to_document c (default_obj c) = Ok (default_form c)).
Proof.
  split; [|split].
  - intros c r j Hv Hj Hn. destruct c.
    + now apply round_trip_Dungeon.
    + now apply round_trip_EmptyDungeon.
    + now apply round_trip_Gossip.
    + now apply round_trip_ItemPool.
    + apply round_trip_Location; [assumption | assumption |].
      intros Hl. apply Hn. split; [reflexivity | exact Hl].
    + now apply round_trip_Entrance.
    + now apply round_trip_Starter.
    + now apply round_trip_Trial.
    + now apply round_trip_Song.
  - intros r H. unfold call. rewrite (Record_to_json_changed r H). reflexivity.
  - intros c Hc. destruct c; try reflexivity. contradiction.
Qed.

(** An ['add'] adjustment of three copies goes to its document and back. *)
Lemma record_round_trip_witness :
  let r := ipr_obj (DStr "add") (DInt 3) in
  to_document CItemPool r = Ok (DDict [("type", DStr "add"); ("count", DInt 3)]) /\
  from_document CItemPool (DDict [("type", DStr "add"); ("count", DInt 3)]) = Ok r /\
  call r Record_to_json = Ok (changed_fields r) /\
  to_document CGossip (default_obj CGossip) = Ok (default_form CGossip).
Proof.
  destruct record_round_trip as (Hrt & Hbase & Hdef).
  split; [reflexivity|]. split; [|split].
  - apply (Hrt CItemPool (ipr_obj (DStr "add") (DInt 3))).
    + split; [reflexivity|]. exists (DStr "add"), 3%Z.
      split; [reflexivity|]. split; [left; reflexivity | lia].
    + reflexivity.
    + intros [H _]. discriminate H.
  - apply Hbase. intros k d [H | [H | []]]; injection H as <- <-; discriminate.
  - apply Hdef. discriminate.
Defined.

(** C8, as stated, fails on both counts: the default [DungeonRecord]
    and the default [ItemPoolRecord] serialize to ['random'] and to [1],
    which are not empty; and a valid [LocationRecord] holding only a list
    of candidates comes back with the text of the list as its item. *)
Lemma record_round_trip_fails :
  to_document CDungeon (default_obj CDungeon) = Ok (DStr "random") /\
  ~ empty_doc (DStr "random") /\
  to_document CItemPool (default_obj CItemPool) = Ok (DInt 1) /\
  ~ empty_doc (DInt 1) /\
  let r := {| properties := props_of CLocation;
              attrs := [("item", DList [DStr "Bow"; DStr "Bombs"]);
                        ("player", DNone); ("price", DNone); ("model", DNone)] |} in
  valid CLocation r /\
  to_document CLocation r = Ok (DStr "['Bow', 'Bombs']") /\
  from_document CLocation (DStr "['Bow', 'Bombs']")
  = Ok {| properties := props_of CLocation;
          attrs := [("item", DStr "['Bow', 'Bombs']");
                    ("player", DNone); ("price", DNone); ("model", DNone)] |} /\
  from_document CLocation (DStr "['Bow', 'Bombs']") <> Ok r.
Proof.
  split; [reflexivity|]. split; [intros [H | [H | [H | H]]]; discriminate|].
  split; [reflexivity|]. split; [intros [H | [H | [H | H]]]; discriminate|].
  split; [|split; [reflexivity | split; [reflexivity | discriminate]]].
  split; [reflexivity|].
  exists (DList [DStr "Bow"; DStr "Bombs"]), DNone, DNone, DNone.
  split; [reflexivity|]. split.
  - right. exists ["Bow"; "Bombs"]. reflexivity.
  - repeat split; left; reflexivity.
Qed.

(* ================================================================== *)
(** * Dictionaries *)
(* ================================================================== *)

Section DictFacts.

Context {V : Type}.

Lemma get_set_same (d : Dict.odict V) (k : string) (v : V) :
  Dict.get (Dict.set d k v) k = Some v.
Proof.
  induction d as [|[k' v'] d IH]; simpl.
  - now rewrite String.eqb_refl.
  - destruct (String.eqb k' k) eqn:E; simpl; rewrite E; [reflexivity | exact IH].
Qed.

Lemma get_set_other (d : Dict.odict V) (k k2 : string) (v : V) :
  k2 <> k -> Dict.get (Dict.set d k v) k2 = Dict.get d k2.
Proof.
  intros Hne. induction d as [|[k' v'] d IH]; simpl.
  - destruct (String.eqb_spec k k2); [congruence | reflexivity].
  - destruct (String.eqb_spec k' k) as [->|Hk]; simpl.
    + destruct (String.eqb_spec k k2); [congruence | reflexivity].
    + destruct (String.eqb k' k2); [reflexivity | exact IH].
Qed.

Lemma get_In (d : Dict.odict V) (k : string) (v : V) :
  Dict.get d k = Some v -> In (k, v) d.
Proof.
  induction d as [|[k' v'] d IH]; simpl; [discriminate|].
  destruct (String.eqb_spec k' k) as [->|Hk].
  - intros H; injection H as ->. now left.
  - intros H. right. now apply IH.
Qed.

Lemma get_None_keys (d : Dict.odict V) (k : string) :
  Dict.get d k = None <-> ~ In k (Dict.keys d).
Proof.
  induction d as [|[k' v'] d IH]; simpl; [tauto|].
  destruct (String.eqb_spec k' k) as [->|Hk].
  - split; [discriminate | intros H; exfalso; apply H; now left].
  - rewrite IH. tauto.
Qed.

Lemma mem_get (d : Dict.odict V) (k : string) :
  Dict.mem d k = true <-> Dict.get d k <> None.
Proof.
  unfold Dict.mem. destruct (Dict.get d k); split; congruence.
Qed.

Lemma get_update_notin (pairs : list (string * V)) :
  forall (d : Dict.odict V) (k : string),
    ~ In k (map fst pairs) ->
    Dict.get (Dict.update d pairs) k = Dict.get d k.
Proof.
  unfold Dict.update.
  induction pairs as [|[k' v'] pairs IH]; intros d k Hn; simpl; [reflexivity|].
  rewrite IH by (intros H; apply Hn; now right).
  apply get_set_other. intros ->. apply Hn. now left.
Qed.

(** [d.update(pairs)] with pairs of distinct keys: every pair is in the
    result. *)
Lemma get_update_in (pairs : list (string * V)) :
  forall (d : Dict.odict V) (k : string) (v : V),
    NoDup (map fst pairs) -> In (k, v) pairs ->
    Dict.get (Dict.update d pairs) k = Some v.
Proof.
  induction pairs as [|[k' v'] pairs IH]; intros d k v Hnd Hin; [destruct Hin|].
  simpl in Hnd. inversion Hnd as [|? ? Hnotin Hnd']; subst.
  destruct Hin as [E|Hin].
  - injection E as -> ->.
    change (Dict.update d ((k, v) :: pairs))
      with (Dict.update (Dict.set d k v) pairs).
    rewrite get_update_notin by assumption. apply get_set_same.
  - change (Dict.update d ((k', v') :: pairs))
      with (Dict.update (Dict.set d k' v') pairs).
    now apply IH.
Qed.

End DictFacts.

(* ================================================================== *)
(** * Layering of the starting items *)
(* ================================================================== *)

Lemma update_global_ok (entries : list (string * StartingEntry)) :
  forall data,
    (forall k v, In (k, v) entries -> exists r, v = ForAll r) ->
    exists data', update_global data entries = Ok data' /\
      (forall k r, NoDup (map fst entries) -> In (k, ForAll r) entries ->
                   Dict.get data' k = Some r) /\
      (forall k, ~ In k (map fst entries) -> Dict.get data' k = Dict.get data k).
Proof.
  induction entries as [|[k' v'] entries IH]; intros data Hall.
  - exists data. split; [reflexivity|]. split; [intros k r _ []|reflexivity].
  - destruct (Hall k' v' (or_introl eq_refl)) as [r' ->].
    destruct (IH (Dict.set data k' r')) as (data' & Hrun & Hin & Hout).
    { intros k v Hkv. apply (Hall k v). now right. }
    exists data'. split; [exact Hrun|]. split.
    + intros k r Hnd [E|Hkr].
      * injection E as -> ->. simpl in Hnd. inversion Hnd; subst.
        rewrite Hout by assumption. apply get_set_same.
      * simpl in Hnd. inversion Hnd; subst. now apply Hin.
    + intros k Hn. rewrite Hout by (intros H; apply Hn; now right).
      apply get_set_other. intros ->. apply Hn. now left.
Qed.

Lemma NoDup_map_fst_filter {V} (f : string * V -> bool) (l : list (string * V)) :
  NoDup (map fst l) -> NoDup (map fst (filter f l)).
Proof.
  induction l as [|[k v] l IH]; simpl; intros H; [constructor|].
  inversion H as [|? ? Hn Hnd]; subst.
  destruct (f (k, v)); simpl; [|now apply IH].
  constructor; [|now apply IH].
  intros Hin. apply Hn. apply in_map_iff in Hin. destruct Hin as [[k2 v2] [E Hin]].
  simpl in E. subst k2. apply filter_In in Hin. destruct Hin as [Hin _].
  apply in_map_iff. exists (k, v2). split; [reflexivity | exact Hin].
Qed.

(** C4, as the code has it: when the normalized setting has, for an item
    name, both an entry in this world's ['World N'] dictionary and an entry
    for all worlds, the property [starting_items] returns the record of the
    entry for all worlds: the global entry is applied last and replaces
    the per-player one. *)
Theorem starting_items_global_wins (self : WorldDistribution)
    (world_name item_name : string) (d : Dict.odict StarterRecord)
    (per_player global : StarterRecord) :
  let names := world_names (world_count self) in
  let setting := starting_items_setting (dist_settings self) in
  normalized_setting names setting ->
  nth_error names (wd_id self) = Some world_name ->
  Dict.get setting world_name = Some (ForWorld d) ->
  Dict.get d item_name = Some per_player ->
  Py.mem item_name names = false ->
  Dict.get setting item_name = Some (ForAll global) ->
  exists data, starting_items self = Ok data /\
               Dict.get data item_name = Some global /\
               get_starting_item self item_name = Ok (count global).
Proof.
  intros names setting [Hnd Hty] Hw Hd Hp Hnot Hg.
  set (entries := filter (fun kv : string * StartingEntry =>
                            negb (Py.mem (fst kv) names)) setting).
  destruct (update_global_ok entries (Dict.update [] d)) as (data & Hrun & Hin & _).
  { intros k v Hkv. apply filter_In in Hkv. destruct Hkv as [Hkv Hf].
    simpl in Hf. apply negb_true_iff in Hf. exact (Hty k v Hkv Hf). }
  assert (Hstart : starting_items self = Ok data).
  { unfold starting_items. fold names setting. rewrite Hw, Hd. exact Hrun. }
  assert (Hget : Dict.get data item_name = Some global).
  { apply Hin.
    - apply NoDup_map_fst_filter. exact Hnd.
    - apply filter_In. split; [now apply get_In|]. simpl. now rewrite Hnot. }
  exists data. split; [exact Hstart|]. split; [exact Hget|].
  unfold get_starting_item. rewrite Hstart, Hget. reflexivity.
Qed.

(** World 1 asks for two bows in its own entry, and one bow is given to
    all worlds: the property answers one. *)
Lemma starting_items_global_wins_witness :
  exists data, starting_items demo_layered_self = Ok data /\
               Dict.get data "Bow" = Some {| count := 1 |} /\
               get_starting_item demo_layered_self "Bow" = Ok 1%Z.
Proof.
  apply (starting_items_global_wins demo_layered_self "World 1" "Bow"
           [("Bow", {| count := 2 |}); ("Bombs", {| count := 1 |})]
           {| count := 2 |} {| count := 1 |}).
  - split.
    + repeat constructor; simpl; intuition discriminate.
    + intros k v [E | [E | []]] Hm; injection E as <- <-.
      * discriminate Hm.
      * eexists. reflexivity.
  - reflexivity.
  - reflexivity.
  - reflexivity.
  - reflexivity.
  - reflexivity.
Defined.

(** C4, as stated, fails: the per-player count of the bow is 2, the
    global one is 1, and [starting_items] returns 1 for world 1. *)
Lemma starting_items_per_player_loses :
  Dict.get (starting_items_setting (dist_settings demo_layered_self)) "World 1"
  = Some (ForWorld [("Bow", {| count := 2 |}); ("Bombs", {| count := 1 |})]) /\
  Dict.get (starting_items_setting (dist_settings demo_layered_self)) "Bow"
  = Some (ForAll {| count := 1 |}) /\
  starting_items demo_layered_self
  = Ok [("Bow", {| count := 1 |}); ("Bombs", {| count := 1 |})] /\
  get_starting_item demo_layered_self "Bow" = Ok 1%Z /\
  get_starting_item demo_layered_self "Bow" <> Ok 2%Z.
Proof. repeat split; try reflexivity. discriminate. Qed.

(* ================================================================== *)
(** * Ammo expansion *)
(* ================================================================== *)

Lemma for_each_cons {S A} (x : A) (l : list A) (body : A -> M S unit) (s : S) :
  for_each (x :: l) body s =
  match body x s with
  | (Ok _, s1) => for_each l body s1
  | (Raise e, s1) => (Raise e, s1)
  end.
Proof. reflexivity. Qed.

Lemma index_In {A} (l : list A) (i : Z) (x : A) : Py.index l i = Some x -> In x l.
Proof.
  unfold Py.index. destruct (0 <=? i)%Z; [apply nth_error_In|].
  destruct (- Z.of_nat (length l) <=? i)%Z; [apply nth_error_In | discriminate].
Qed.

Lemma index_beyond {A} (l : list A) (i : Z) :
  (Z.of_nat (length l) <= i)%Z -> Py.index l i = None.
Proof.
  intros H. unfold Py.index.
  destruct (Z.leb_spec 0 i) as [H0|H0]; [|lia].
  apply nth_error_None. lia.
Qed.

Lemma curve_max_ge (qty : list Z) (q : Z) : In q qty -> (q <= curve_max qty)%Z.
Proof.
  destruct qty as [|q0 qs]; [intros []|]. simpl.
  revert q0. induction qs as [|q1 qs IH]; intros q0 [->|Hin]; simpl.
  - lia.
  - destruct Hin.
  - specialize (IH q (or_introl eq_refl)). clear IH.
    assert (H : forall a l, (a <= fold_right Z.max a l)%Z).
    { intros a l. induction l as [|b l IHl]; simpl; lia. }
    specialize (H q qs). lia.
  - destruct Hin as [->|Hin].
    + lia.
    + specialize (IH q0 (or_intror Hin)). lia.
Qed.

Local Notation "'index_error'" := (IndexError "tuple index out of range").

Lemma for_each_app {S A} (l1 l2 : list A) (body : A -> M S unit) (s : S) :
  for_each (l1 ++ l2) body s =
  match for_each l1 body s with
  | (Ok _, s1) => for_each l2 body s1
  | (Raise e, s1) => (Raise e, s1)
  end.
Proof.
  revert s. induction l1 as [|x l1 IH]; intros s; [reflexivity|].
  cbn [app]. rewrite !for_each_cons.
  destruct (body x s) as [[[]|e] s1]; [apply IH | reflexivity].
Qed.

Section AmmoFacts.

Variable inventory : list InventoryEntry.

(** [starting_items[ammo].count = qty[starting_items[item_name].count - 1]]
    writes the entry of the curve at the count of the item less one, or
    raises [IndexError] when the curve has no such entry. *)
Lemma write_ammo_run (item_name ammo : string) (qty : list Z)
    (si : StartingItemsDict) (r : StarterRecord) :
  Dict.get si item_name = Some r ->
  write_ammo item_name ammo qty si
  = match Py.index qty (count r - 1) with
    | Some q => (Ok tt, Dict.set si ammo {| count := q |})
    | None => (Raise index_error, si)
    end.
Proof.
  intros Hr. unfold write_ammo, bind, get. rewrite Hr.
  destruct (Py.index qty (count r - 1)); reflexivity.
Qed.

(** One step of ammo expansion that succeeds writes an entry of the
    curve under the ammo's name and touches no other name. *)
Lemma write_ammo_ok (item_name ammo : string) (qty : list Z)
    (si si' : StartingItemsDict) :
  write_ammo item_name ammo qty si = (Ok tt, si') ->
  exists q, In q qty /\ si' = Dict.set si ammo {| count := q |}.
Proof.
  unfold write_ammo, bind, get.
  destruct (Dict.get si item_name) as [r|]; [|discriminate].
  destruct (Py.index qty (count r - 1)) as [q|] eqn:E; [|discriminate].
  intros H. injection H as <-. exists q. split; [eapply index_In; exact E | reflexivity].
Qed.

Lemma write_ammo_beyond (item_name ammo : string) (qty : list Z)
    (si : StartingItemsDict) (r : StarterRecord) :
  Dict.get si item_name = Some r ->
  (Z.of_nat (length qty) < count r)%Z ->
  write_ammo item_name ammo qty si = (Raise index_error, si).
Proof.
  intros Hr Hc. rewrite (write_ammo_run _ _ _ _ _ Hr).
  rewrite index_beyond by lia. reflexivity.
Qed.

Lemma with_ammo_step_ok (item_name ammo : string) (qty : list Z)
    (si si' : StartingItemsDict) :
  with_ammo_step item_name (ammo, qty) si = (Ok tt, si') ->
  (exists r, Dict.get si' ammo = Some r /\ In (count r) qty) /\
  (forall k, k <> ammo -> Dict.get si' k = Dict.get si k).
Proof.
  unfold with_ammo_step, bind at 1, get at 1. unfold bind at 1.
  destruct (negb (Dict.mem si ammo)); unfold put, ret; intros H;
    apply write_ammo_ok in H; destruct H as (q & Hq & ->).
  - split; [exists {| count := q |}; split; [apply get_set_same | exact Hq]|].
    intros k Hk. rewrite !get_set_other by assumption. reflexivity.
  - split; [exists {| count := q |}; split; [apply get_set_same | exact Hq]|].
    intros k Hk. rewrite get_set_other by assumption. reflexivity.
Qed.

Lemma with_ammo_loop_ok (item_name : string) (l : Dict.odict (list Z)) :
  forall si si',
    NoDup (Dict.keys l) ->
    for_each l (with_ammo_step item_name) si = (Ok tt, si') ->
    (forall ammo qty, In (ammo, qty) l ->
       exists r, Dict.get si' ammo = Some r /\ In (count r) qty) /\
    (forall k, ~ In k (Dict.keys l) -> Dict.get si' k = Dict.get si k).
Proof.
  induction l as [|[ammo qty] l IH]; intros si si' Hnd Hrun.
  - injection Hrun as <-. split; [intros ? ? [] | reflexivity].
  - rewrite for_each_cons in Hrun.
    destruct (with_ammo_step item_name (ammo, qty) si) as [[[]|e] s1] eqn:E1;
      [|discriminate].
    simpl in Hnd. inversion Hnd as [|? ? Hnotin Hnd']; subst.
    destruct (with_ammo_step_ok _ _ _ _ _ E1) as [(r & Hr & Hin) Hother].
    destruct (IH s1 si' Hnd' Hrun) as [Hall Hkeep].
    split.
    + intros a q [E|Hq].
      * injection E as <- <-. exists r. split; [|exact Hin].
        rewrite Hkeep by assumption. exact Hr.
      * now apply Hall.
    + intros k Hk. rewrite Hkeep by (intros H; apply Hk; now right).
      apply Hother. intros ->. apply Hk. now left.
Qed.

(** The step of [add_starting_item_with_ammo] for an ammo other than the
    item: it writes the entry of the curve at the count of the item less
    one, whether or not the ammo was there, or raises [IndexError]. *)
Lemma with_ammo_step_cases (item_name ammo : string) (qty : list Z)
    (si : StartingItemsDict) (r : StarterRecord) :
  Dict.get si item_name = Some r ->
  item_name <> ammo ->
  (exists q s1,
      Py.index qty (count r - 1) = Some q /\
      with_ammo_step item_name (ammo, qty) si = (Ok tt, s1) /\
      Dict.get s1 ammo = Some {| count := q |} /\
      forall k, k <> ammo -> Dict.get s1 k = Dict.get si k) \/
  (Py.index qty (count r - 1) = None /\
   fst (with_ammo_step item_name (ammo, qty) si) = Raise index_error).
Proof.
  intros Hr Hne.
  assert (Erun : with_ammo_step item_name (ammo, qty) si
                 = write_ammo item_name ammo qty
                     (if negb (Dict.mem si ammo)
                      then Dict.set si ammo {| count := 0 |} else si)).
  { unfold with_ammo_step, bind, get.
    destruct (negb (Dict.mem si ammo)); reflexivity. }
  rewrite Erun. clear Erun.
  match goal with
  | |- context [write_ammo _ _ _ ?s] => set (s0 := s)
  end.
  assert (Hother : forall k, k <> ammo -> Dict.get s0 k = Dict.get si k).
  { intros k Hk. unfold s0. destruct (negb (Dict.mem si ammo)); [|reflexivity].
    now rewrite get_set_other by assumption. }
  assert (Hr0 : Dict.get s0 item_name = Some r) by (rewrite Hother; assumption).
  clearbody s0.
  rewrite (write_ammo_run item_name ammo qty s0 r Hr0).
  destruct (Py.index qty (count r - 1)) as [q|]; [left | right; split; reflexivity].
  eexists q, _. split; [reflexivity|]. split; [reflexivity|].
  split; [apply get_set_same|].
  intros k Hk. rewrite get_set_other by assumption. now apply Hother.
Qed.

(** The loop of [add_starting_item_with_ammo] over the ammo of an item
    that is not its own ammo: every count it writes is read at the count
    of the item less one. *)
Lemma with_ammo_loop_exact (item_name : string) (r : StarterRecord) :
  forall (l : Dict.odict (list Z)) (si si' : StartingItemsDict),
    Dict.get si item_name = Some r ->
    ~ In item_name (Dict.keys l) ->
    NoDup (Dict.keys l) ->
    for_each l (with_ammo_step item_name) si = (Ok tt, si') ->
    Dict.get si' item_name = Some r /\
    (forall ammo qty, In (ammo, qty) l ->
       exists r', Dict.get si' ammo = Some r' /\
                  Py.index qty (count r - 1) = Some (count r')) /\
    (forall k, ~ In k (Dict.keys l) -> Dict.get si' k = Dict.get si k).
Proof.
  induction l as [|[ammo qty] l IH]; intros si si' Hr Hself Hnd Hrun.
  - injection Hrun as <-. split; [exact Hr|]. split; [intros ? ? [] | reflexivity].
  - rewrite for_each_cons in Hrun.
    assert (Hne : item_name <> ammo) by (intros ->; apply Hself; now left).
    inversion Hnd as [|? ? Hnotin Hnd']; subst.
    destruct (with_ammo_step_cases item_name ammo qty si r Hr Hne)
      as [(q & s1 & Hq & Hstep & Hwritten & Hother) | (_ & Hraise)].
    2:{ destruct (with_ammo_step item_name (ammo, qty) si) as [[[]|e] s1];
          simpl in Hraise; discriminate. }
    rewrite Hstep in Hrun.
    assert (Hr1 : Dict.get s1 item_name = Some r) by (rewrite Hother; assumption).
    destruct (IH s1 si' Hr1 (fun H => Hself (or_intror H)) Hnd' Hrun)
      as (Hr' & Hall & Hkeep).
    split; [exact Hr'|]. split.
    + intros a q' [E|Hin].
      * injection E as <- <-. exists {| count := q |}.
        split; [|exact Hq]. rewrite Hkeep by assumption. exact Hwritten.
      * now apply Hall.
    + intros k Hk. rewrite Hkeep by (intros H; apply Hk; now right).
      apply Hother. intros ->. apply Hk. now left.
Qed.

End AmmoFacts.

Section AmmoExpansion.

Variable inventory : list InventoryEntry.

Lemma bumped_get (si : StartingItemsDict) (item_name : string) (cnt : Z) :
  Dict.get (bumped si item_name cnt) item_name
  = Some {| count := count_of si item_name + cnt |}.
Proof. unfold bumped. apply get_set_same. Qed.

Lemma add_starting_item_with_ammo_unfold (si : StartingItemsDict)
    (item_name : string) (cnt : Z) :
  add_starting_item_with_ammo inventory item_name cnt si =
  match ammo_entry inventory item_name with
  | None => (Ok tt, bumped si item_name cnt)
  | Some item =>
      for_each (ammo_items item) (with_ammo_step item_name) (bumped si item_name cnt)
  end.
Proof.
  unfold add_starting_item_with_ammo, bumped, count_of, bind, get, Dict.mem.
  destruct (Dict.get si item_name) as [r|] eqn:E; simpl.
  - rewrite E. simpl. destruct (ammo_entry inventory item_name); reflexivity.
  - rewrite get_set_same. simpl. destruct (ammo_entry inventory item_name); reflexivity.
Qed.

Lemma with_ammo_step_beyond (item_name ammo : string) (qty : list Z)
    (si : StartingItemsDict) (r : StarterRecord) :
  Dict.get si item_name = Some r ->
  (Z.of_nat (length qty) < count r)%Z ->
  fst (with_ammo_step item_name (ammo, qty) si) = Raise index_error.
Proof.
  intros Hr Hc. unfold with_ammo_step, bind at 1, get at 1. unfold bind at 1.
  destruct (negb (Dict.mem si ammo)) eqn:Em; unfold put, ret.
  - assert (Hne : item_name <> ammo).
    { intros ->. apply negb_true_iff in Em. unfold Dict.mem in Em.
      rewrite Hr in Em. discriminate. }
    erewrite write_ammo_beyond; [reflexivity | | exact Hc].
    rewrite get_set_other by assumption. exact Hr.
  - erewrite write_ammo_beyond; [reflexivity | exact Hr | exact Hc].
Qed.

(** The loop of [add_starting_item_with_ammo] raises at an ammo whose
    curve is shorter than the count of the item, wherever the ammo
    stands, as long as the item is not its own ammo before it. *)
Lemma with_ammo_loop_beyond (item_name ammo : string) (qty : list Z)
    (rest : Dict.odict (list Z)) (r : StarterRecord) :
  (Z.of_nat (length qty) < count r)%Z ->
  forall (pre : Dict.odict (list Z)) (si : StartingItemsDict),
    Dict.get si item_name = Some r ->
    ~ In item_name (Dict.keys pre) ->
    fst (for_each (pre ++ (ammo, qty) :: rest) (with_ammo_step item_name) si)
    = Raise index_error.
Proof.
  intros Hc. induction pre as [|[a q'] pre IH]; intros si Hr Hself.
  - cbn [app]. rewrite for_each_cons.
    pose proof (with_ammo_step_beyond item_name ammo qty si r Hr Hc) as Hb.
    destruct (with_ammo_step item_name (ammo, qty) si) as [[[]|e] s1];
      simpl in Hb; [discriminate | exact Hb].
  - cbn [app]. rewrite for_each_cons.
    assert (Hne : item_name <> a) by (intros ->; apply Hself; now left).
    destruct (with_ammo_step_cases item_name a q' si r Hr Hne)
      as [(q & s1 & _ & Hstep & _ & Hother) | (_ & Hraise)].
    + rewrite Hstep. apply IH; [rewrite Hother; assumption|].
      intros H. apply Hself. now right.
    + destruct (with_ammo_step item_name (a, q') si) as [[[]|e] s1];
        simpl in Hraise; [discriminate | exact Hraise].
Qed.

(** The step of [add_starting_ammo] for an item that is among the
    starting items: ammo that is there is left alone; ammo that is not
    gets the entry of the curve at the count of the item less one, or the
    step raises [IndexError]. *)
Lemma ammo_step_cases (item_name ammo : string) (qty : list Z)
    (si : StartingItemsDict) (r : StarterRecord) :
  Dict.get si item_name = Some r ->
  (Dict.get si ammo <> None /\
   ammo_step item_name (ammo, qty) si = (Ok tt, si)) \/
  (Dict.get si ammo = None /\
   exists q s1,
     Py.index qty (count r - 1) = Some q /\
     ammo_step item_name (ammo, qty) si = (Ok tt, s1) /\
     Dict.get s1 ammo = Some {| count := q |} /\
     forall k, k <> ammo -> Dict.get s1 k = Dict.get si k) \/
  (Dict.get si ammo = None /\
   Py.index qty (count r - 1) = None /\
   exists s1,
     ammo_step item_name (ammo, qty) si = (Raise index_error, s1) /\
     forall k, k <> ammo -> Dict.get s1 k = Dict.get si k).
Proof.
  intros Hr.
  assert (Erun : ammo_step item_name (ammo, qty) si
                 = if negb (Dict.mem si ammo)
                   then write_ammo item_name ammo qty
                          (Dict.set si ammo {| count := 0 |})
                   else (Ok tt, si)).
  { unfold ammo_step, bind, get.
    destruct (negb (Dict.mem si ammo)); reflexivity. }
  rewrite Erun. unfold Dict.mem.
  destruct (Dict.get si ammo) as [v|] eqn:Ea; cbn [negb].
  - left. split; [discriminate | reflexivity].
  - right. assert (Hne : item_name <> ammo) by congruence.
    rewrite (write_ammo_run item_name ammo qty _ r)
      by (rewrite get_set_other by assumption; exact Hr).
    destruct (Py.index qty (count r - 1)) as [q|]; [left | right].
    + split; [reflexivity|]. eexists q, _.
      split; [reflexivity|]. split; [reflexivity|].
      split; [apply get_set_same|].
      intros k Hk. now rewrite !get_set_other by assumption.
    + split; [reflexivity|]. split; [reflexivity|]. eexists.
      split; [reflexivity|].
      intros k Hk. now rewrite get_set_other by assumption.
Qed.

(** The inner loop of [add_starting_ammo]: entries that are there stay
    as they are, a new entry stands under an ammo of the loop, and a
    failure is an [IndexError]; when the loop returns, each new count is
    read from a curve of that ammo at the count of the item less one. *)
Lemma ammo_inner (item_name : string) (r : StarterRecord) :
  forall (l : Dict.odict (list Z)) (si : StartingItemsDict),
    Dict.get si item_name = Some r ->
    entries_kept si (snd (for_each l (ammo_step item_name) si)) /\
    (forall k, Dict.get si k = None ->
               Dict.get (snd (for_each l (ammo_step item_name) si)) k <> None ->
               In k (Dict.keys l)) /\
    (fst (for_each l (ammo_step item_name) si) = Ok tt \/
     fst (for_each l (ammo_step item_name) si) = Raise index_error) /\
    (fst (for_each l (ammo_step item_name) si) = Ok tt ->
     forall k v, Dict.get si k = None ->
       Dict.get (snd (for_each l (ammo_step item_name) si)) k = Some v ->
       exists qty, In (k, qty) l /\ Py.index qty (count r - 1) = Some (count v)).
Proof.
  induction l as [|[ammo qty] l IH]; intros si Hr.
  - cbn [for_each ret fst snd]. split; [intros k v H; exact H|].
    split; [intros k H1 H2; contradiction|]. split; [now left|].
    intros _ k v H1 H2. congruence.
  - rewrite for_each_cons.
    destruct (ammo_step_cases item_name ammo qty si r Hr)
      as [(Ha & Hstep) | [(Ha & q & s1 & Hq & Hstep & Hw & Hother)
                         | (Ha & Hq & s1 & Hstep & Hother)]];
      rewrite Hstep.
    + destruct (IH si Hr) as (Hkept & Hnew & Hout & Hval).
      split; [exact Hkept|].
      split; [intros k H1 H2; right; now apply Hnew|].
      split; [exact Hout|].
      intros Hok k v H1 H2. destruct (Hval Hok k v H1 H2) as (qty' & Hin & Hi).
      exists qty'. split; [now right | exact Hi].
    + assert (Hne : item_name <> ammo) by congruence.
      assert (Hr1 : Dict.get s1 item_name = Some r) by (rewrite Hother; assumption).
      destruct (IH s1 Hr1) as (Hkept & Hnew & Hout & Hval).
      split.
      { intros k v Hk. apply Hkept. rewrite Hother; [exact Hk | congruence]. }
      split.
      { intros k H1 H2. destruct (string_dec k ammo) as [->|Hk]; [now left|].
        right. apply Hnew; [rewrite Hother; assumption | exact H2]. }
      split; [exact Hout|].
      intros Hok k v H1 H2. destruct (string_dec k ammo) as [->|Hk].
      * exists qty. split; [now left|].
        rewrite (Hkept ammo _ Hw) in H2. injection H2 as <-. exact Hq.
      * destruct (Hval Hok k v) as (qty' & Hin & Hi);
          [rewrite Hother; assumption | exact H2|].
        exists qty'. split; [now right | exact Hi].
    + cbn [fst snd]. split.
      { intros k v Hk. rewrite Hother; [exact Hk | congruence]. }
      split.
      { intros k H1 H2. destruct (string_dec k ammo) as [->|Hk]; [now left|].
        rewrite Hother in H2 by assumption. contradiction. }
      split; [now right | discriminate].
Qed.

(** The inner loop raises at an ammo that is not among the starting
    items and whose curve is shorter than the count of the item, wherever
    the ammo stands, as long as no ammo before it has its name. *)
Lemma ammo_inner_beyond (item_name ammo : string) (qty : list Z)
    (rest : Dict.odict (list Z)) (r : StarterRecord) :
  (Z.of_nat (length qty) < count r)%Z ->
  forall (pre : Dict.odict (list Z)) (si : StartingItemsDict),
    Dict.get si item_name = Some r ->
    Dict.get si ammo = None ->
    ~ In ammo (Dict.keys pre) ->
    fst (for_each (pre ++ (ammo, qty) :: rest) (ammo_step item_name) si)
    = Raise index_error.
Proof.
  intros Hc. induction pre as [|[a q'] pre IH]; intros si Hr Ha Hpre.
  - cbn [app]. rewrite for_each_cons.
    destruct (ammo_step_cases item_name ammo qty si r Hr)
      as [(Ha' & _) | [(_ & q & s1 & Hq & _) | (_ & _ & s1 & Hstep & _)]].
    + contradiction.
    + rewrite index_beyond in Hq by lia. discriminate.
    + rewrite Hstep. reflexivity.
  - cbn [app]. rewrite for_each_cons.
    assert (Hne : ammo <> a) by (intros ->; apply Hpre; now left).
    destruct (ammo_step_cases item_name a q' si r Hr)
      as [(_ & Hstep) | [(Ha' & q & s1 & _ & Hstep & _ & Hother)
                        | (_ & _ & s1 & Hstep & _)]];
      rewrite Hstep.
    + apply IH; [exact Hr | exact Ha | intros H; apply Hpre; now right].
    + assert (Hia : item_name <> a) by congruence.
      apply IH; [rewrite Hother; assumption | rewrite Hother; assumption|].
      intros H. apply Hpre. now right.
    + reflexivity.
Qed.

(** The body of the outer loop of [add_starting_ammo]. *)
Lemma ammo_outer_facts (item : InventoryEntry) (si : StartingItemsDict) :
  entries_kept si (snd (ammo_outer item si)) /\
  (forall k, Dict.get si k = None ->
             Dict.get (snd (ammo_outer item si)) k <> None ->
             In k (Dict.keys (ammo_items item))) /\
  (fst (ammo_outer item si) = Ok tt \/
   fst (ammo_outer item si) = Raise index_error) /\
  (fst (ammo_outer item si) = Ok tt ->
   forall k v, Dict.get si k = None ->
     Dict.get (snd (ammo_outer item si)) k = Some v ->
     exists qty c,
       In (k, qty) (ammo_items item) /\
       Dict.get (snd (ammo_outer item si)) (entry_item_name item) = Some c /\
       Py.index qty (count c - 1) = Some (count v)).
Proof.
  assert (Erun : ammo_outer item si
                 = if Dict.mem si (entry_item_name item) && has_ammo item
                   then for_each (ammo_items item)
                          (ammo_step (entry_item_name item)) si
                   else (Ok tt, si)).
  { unfold ammo_outer, bind, get.
    destruct (Dict.mem si (entry_item_name item) && has_ammo item); reflexivity. }
  rewrite Erun. clear Erun. unfold Dict.mem.
  destruct (Dict.get si (entry_item_name item)) as [r|] eqn:Hr;
    [destruct (has_ammo item)|]; cbn [andb].
  - destruct (ammo_inner (entry_item_name item) r (ammo_items item) si Hr)
      as (Hkept & Hnew & Hout & Hval).
    split; [exact Hkept|]. split; [exact Hnew|]. split; [exact Hout|].
    intros Hok k v H1 H2. destruct (Hval Hok k v H1 H2) as (qty & Hin & Hi).
    exists qty, r. split; [exact Hin|]. split; [apply Hkept; exact Hr | exact Hi].
  - cbn [ret fst snd]. split; [intros k v H; exact H|].
    split; [intros k H1 H2; contradiction|]. split; [now left|].
    intros _ k v H1 H2. congruence.
  - cbn [ret fst snd]. split; [intros k v H; exact H|].
    split; [intros k H1 H2; contradiction|]. split; [now left|].
    intros _ k v H1 H2. congruence.
Qed.

(** The outer loop of [add_starting_ammo] over a part of the inventory. *)
Lemma ammo_outer_loop :
  forall (l : list InventoryEntry) (si : StartingItemsDict),
    entries_kept si (snd (for_each l ammo_outer si)) /\
    (forall k, Dict.get si k = None ->
               Dict.get (snd (for_each l ammo_outer si)) k <> None ->
               exists item, In item l /\ In k (Dict.keys (ammo_items item))) /\
    (fst (for_each l ammo_outer si) = Ok tt \/
     fst (for_each l ammo_outer si) = Raise index_error) /\
    (fst (for_each l ammo_outer si) = Ok tt ->
     forall k v, Dict.get si k = None ->
       Dict.get (snd (for_each l ammo_outer si)) k = Some v ->
       exists item qty c,
         In item l /\ In (k, qty) (ammo_items item) /\
         Dict.get (snd (for_each l ammo_outer si)) (entry_item_name item) = Some c /\
         Py.index qty (count c - 1) = Some (count v)).
Proof.
  induction l as [|item l IH]; intros si.
  - cbn [for_each ret fst snd]. split; [intros k v H; exact H|].
    split; [intros k H1 H2; contradiction|]. split; [now left|].
    intros _ k v H1 H2. congruence.
  - rewrite for_each_cons.
    destruct (ammo_outer_facts item si) as (Hkept1 & Hnew1 & Hout1 & Hval1).
    destruct (ammo_outer item si) as [[[]|e] s1]; cbn [fst snd] in *.
    + destruct (IH s1) as (Hkept & Hnew & Hout & Hval).
      split; [intros k v Hk; apply Hkept, Hkept1, Hk|].
      split.
      { intros k H1 H2. destruct (Dict.get s1 k) as [v1|] eqn:Ek.
        - exists item. split; [now left|]. apply Hnew1; [exact H1 | congruence].
        - destruct (Hnew k Ek H2) as (it & Hit & Hk). exists it.
          split; [now right | exact Hk]. }
      split; [exact Hout|].
      intros Hok k v H1 H2. destruct (Dict.get s1 k) as [v1|] eqn:Ek.
      * destruct (Hval1 eq_refl k v1 H1 Ek) as (qty & c & Hin & Hc & Hi).
        rewrite (Hkept k v1 Ek) in H2. injection H2 as <-.
        exists item, qty, c. split; [now left|]. split; [exact Hin|].
        split; [apply Hkept; exact Hc | exact Hi].
      * destruct (Hval Hok k v Ek H2) as (it & qty & c & Hit & Hin & Hc & Hi).
        exists it, qty, c. split; [now right|]. repeat split; assumption.
    + split; [exact Hkept1|].
      split.
      { intros k H1 H2. exists item. split; [now left | now apply Hnew1]. }
      split; [exact Hout1|]. intros H. discriminate H.
Qed.

End AmmoExpansion.

(** C6, as the code has it.  Every ammo count that ammo expansion writes
    is the entry of the ammo's count curve at the count of the equipment
    less one, hence at most the largest entry of the curve: for
    [add_starting_item_with_ammo], under each ammo of the item's entry
    (the item not being its own ammo); for [add_starting_ammo], under
    each name it adds, while the names already present are kept.  Neither
    function clamps: a count of the equipment beyond the length of the
    curve raises [IndexError], wherever the ammo that is reached with
    that count stands. *)
Theorem ammo_expansion_within_curve (inventory : list InventoryEntry) :
  (forall si si' item_name cnt item,
     ammo_entry inventory item_name = Some item ->
     NoDup (Dict.keys (ammo_items item)) ->
     add_starting_item_with_ammo inventory item_name cnt si = (Ok tt, si') ->
     forall ammo qty, In (ammo, qty) (ammo_items item) ->
       exists r, Dict.get si' ammo = Some r /\ In (count r) qty /\
                 (count r <= curve_max qty)%Z) /\
  (forall si si' item_name cnt item,
     ammo_entry inventory item_name = Some item ->
     NoDup (Dict.keys (ammo_items item)) ->
     ~ In item_name (Dict.keys (ammo_items item)) ->
     add_starting_item_with_ammo inventory item_name cnt si = (Ok tt, si') ->
     Dict.get si' item_name = Some {| count := count_of si item_name + cnt |} /\
     forall ammo qty, In (ammo, qty) (ammo_items item) ->
       exists r, Dict.get si' ammo = Some r /\
                 Py.index qty (count_of si item_name + cnt - 1) = Some (count r)) /\
  (forall si item_name cnt item pre ammo qty rest,
     ammo_entry inventory item_name = Some item ->
     ammo_items item = pre ++ (ammo, qty) :: rest ->
     ~ In item_name (Dict.keys pre) ->
     (Z.of_nat (length qty) < count_of si item_name + cnt)%Z ->
     fst (add_starting_item_with_ammo inventory item_name cnt si)
     = Raise (IndexError "tuple index out of range")) /\
  (forall si si',
     add_starting_ammo inventory si = (Ok tt, si') ->
     entries_kept si si' /\
     (forall k r, Dict.get si k = None -> Dict.get si' k = Some r ->
        exists item qty c,
          In item inventory /\ In (k, qty) (ammo_items item) /\
          Dict.get si' (entry_item_name item) = Some c /\
          Py.index qty (count c - 1) = Some (count r) /\
          (count r <= curve_max qty)%Z)) /\
  (forall si before item after pre ammo qty rest r,
     inventory = before ++ item :: after ->
     ammo_items item = pre ++ (ammo, qty) :: rest ->
     Dict.get si (entry_item_name item) = Some r ->
     Dict.get si ammo = None ->
     (forall other, In other before ->
                    ~ In ammo (Dict.keys (ammo_items other))) ->
     ~ In ammo (Dict.keys pre) ->
     (Z.of_nat (length qty) < count r)%Z ->
     fst (add_starting_ammo inventory si)
     = Raise (IndexError "tuple index out of range")).
Proof.
  split; [|split; [|split; [|split]]].
  - intros si si' item_name cnt item Hent Hnd Hrun ammo qty Hin.
    rewrite add_starting_item_with_ammo_unfold, Hent in Hrun.
    destruct (with_ammo_loop_ok item_name (ammo_items item) _ _ Hnd Hrun)
      as [Hall _].
    destruct (Hall ammo qty Hin) as (r & Hr & Hq).
    exists r. split; [exact Hr|]. split; [exact Hq | now apply curve_max_ge].
  - intros si si' item_name cnt item Hent Hnd Hself Hrun.
    rewrite add_starting_item_with_ammo_unfold, Hent in Hrun.
    destruct (with_ammo_loop_exact item_name _ (ammo_items item) _ _
                (bumped_get si item_name cnt) Hself Hnd Hrun)
      as (Hitem & Hall & _).
    split; [exact Hitem|]. exact Hall.
  - intros si item_name cnt item pre ammo qty rest Hent Hitems Hself Hc.
    rewrite add_starting_item_with_ammo_unfold, Hent, Hitems.
    apply (with_ammo_loop_beyond item_name ammo qty rest
             {| count := count_of si item_name + cnt |} Hc pre);
      [apply bumped_get | exact Hself].
  - intros si si' Hrun.
    destruct (ammo_outer_loop inventory si) as (Hkept & _ & _ & Hval).
    unfold add_starting_ammo in Hrun. rewrite Hrun in Hkept, Hval.
    cbn [fst snd] in Hkept, Hval.
    split; [exact Hkept|].
    intros k r Hk Hk'.
    destruct (Hval eq_refl k r Hk Hk') as (item & qty & c & Hi & Hin & Hc & Hq).
    exists item, qty, c. repeat split; try assumption.
    apply curve_max_ge. eapply index_In. exact Hq.
  - intros si before item after pre ammo qty rest r -> Hitems Hr Ha Hbefore
           Hpre Hc.
    unfold add_starting_ammo. rewrite for_each_app.
    destruct (ammo_outer_loop before si) as (Hkept & Hnew & Hout & _).
    destruct (for_each before ammo_outer si) as [[[]|e] s1]; cbn [fst snd] in *.
    2:{ destruct Hout as [H|H]; [discriminate | exact H]. }
    rewrite for_each_cons.
    assert (Hr1 : Dict.get s1 (entry_item_name item) = Some r) by (apply Hkept, Hr).
    assert (Ha1 : Dict.get s1 ammo = None).
    { destruct (Dict.get s1 ammo) as [v|] eqn:Ev; [|reflexivity].
      destruct (Hnew ammo Ha) as (other & Hother & Hk); [congruence|].
      exfalso. exact (Hbefore other Hother Hk). }
    assert (Hhas : has_ammo item = true).
    { unfold has_ammo, ammo_items in *. destruct (entry_ammo item) as [[|]|];
        try reflexivity; destruct pre; discriminate. }
    assert (E : fst (ammo_outer item s1) = Raise index_error).
    { unfold ammo_outer, bind at 1, get at 1. unfold Dict.mem at 1.
      rewrite Hr1, Hhas. cbn [andb]. rewrite Hitems.
      exact (ammo_inner_beyond (entry_item_name item) ammo qty rest r Hc pre s1
               Hr1 Ha1 Hpre). }
    destruct (ammo_outer item s1) as [[[]|e] s2]; simpl in E;
      [discriminate | exact E].
Qed.

(** The bow at level 2 gets 40 arrows, the second entry of its curve. *)
Lemma ammo_expansion_within_curve_witness :
  let si' := snd (add_starting_item_with_ammo demo_inventory "Bow" 2 []) in
  Dict.get si' "Bow" = Some {| count := 2 |} /\
  (exists r, Dict.get si' "Arrows" = Some r /\
             Py.index [30; 40; 50]%Z 1 = Some (count r)) /\
  Dict.get si' "Arrows" = Some {| count := 40 |}.
Proof.
  destruct (ammo_expansion_within_curve demo_inventory) as (_ & Hexact & _).
  destruct (Hexact [] (snd (add_starting_item_with_ammo demo_inventory "Bow" 2 []))
              "Bow" 2%Z
              {| entry_item_name := "Bow";
                 entry_ammo := Some [("Arrows", [30; 40; 50]%Z)] |})
    as [Hbow Hammo].
  - reflexivity.
  - repeat constructor. simpl. tauto.
  - simpl. intros [H | []]. discriminate H.
  - reflexivity.
  - split; [exact Hbow|]. split; [|reflexivity].
    apply (Hammo "Arrows" [30; 40; 50]%Z). left. reflexivity.
Defined.

(** C6, as stated, fails: a fourth bow is beyond the curve of the
    arrows, and both functions raise [IndexError] instead of writing 50. *)
Lemma ammo_expansion_not_clamped :
  fst (add_starting_item_with_ammo demo_inventory "Bow" 4 [])
  = Raise (IndexError "tuple index out of range") /\
  fst (add_starting_ammo demo_inventory [("Bow", {| count := 4 |})])
  = Raise (IndexError "tuple index out of range") /\
  curve_max [30; 40; 50]%Z = 50%Z.
Proof. repeat split. Qed.

(* ================================================================== *)
(** * Entrance overrides: the rejections *)
(* ================================================================== *)

Section EntranceErrors.

Variable Graph : Type.
Variable entrance_at : Graph -> nat -> Entrance.
Variable get_entrance : nat -> string -> M Graph (option nat).
Variable check_entrances_compatibility : nat -> nat -> M Graph unit.
Variable change_connections : nat -> nat -> M Graph unit.
Variable validate_world : nat -> M Graph unit.
Variable confirm_replacement : nat -> nat -> M Graph unit.
Variable close_match_entrance : string -> string.

Local Notation "'pool_step'" :=
  (entrance_pool_step Graph entrance_at check_entrances_compatibility
     change_connections validate_world confirm_replacement).
Local Notation "'pools_loop'" :=
  (entrance_pools_loop Graph entrance_at check_entrances_compatibility
     change_connections validate_world confirm_replacement).
Local Notation "'one_entrance'" :=
  (set_shuffled_entrance Graph entrance_at get_entrance
     check_entrances_compatibility change_connections validate_world
     confirm_replacement close_match_entrance).

Lemma pools_loop_absent (self : WorldDistribution)
    (targets : Dict.odict (list nat)) (name : string) (record : EntranceRecord)
    (target_region : string) (g : Graph) :
  forall pools found,
    (forall pt pool, In (pt, pool) pools ->
       first_entrance Graph entrance_at g
         (fun e => String.eqb (ent_name e) name) pool = None) ->
    pools_loop self targets name record target_region found pools g = (Ok found, g).
Proof.
  induction pools as [|[pt pool] pools IH]; intros found Habs; [reflexivity|].
  cbn [entrance_pools_loop]. unfold bind at 1.
  assert (E : pool_step self targets name record target_region found (pt, pool) g
              = (Ok found, g)).
  { unfold entrance_pool_step, bind, get.
    rewrite (Habs pt pool (or_introl eq_refl)). reflexivity. }
  rewrite E. apply IH. intros pt' pool' Hin. apply (Habs pt' pool'). now right.
Qed.

Local Notation "'holds'" := (holding Graph entrance_at).

Lemma pool_step_none (self : WorldDistribution)
    (targets : Dict.odict (list nat)) (name : string) (record : EntranceRecord)
    (target_region : string) (found : bool) (pt : string) (pool : list nat)
    (g : Graph) :
  holds g name pool = HoldsNone ->
  pool_step self targets name record target_region found (pt, pool) g
  = (Ok found, g).
Proof.
  unfold holding, entrance_pool_step, bind, get.
  destruct (first_entrance Graph entrance_at g _ pool) as [a|]; [|reflexivity].
  destruct (ent_connected_region (entrance_at g a)); discriminate.
Qed.

Lemma pool_step_connected (self : WorldDistribution)
    (targets : Dict.odict (list nat)) (name : string) (record : EntranceRecord)
    (target_region : string) (found : bool) (pt : string) (pool : list nat)
    (g : Graph) (overworld : bool) :
  holds g name pool = HoldsConnected overworld ->
  pool_step self targets name record target_region found (pt, pool) g
  = if overworld then (Ok true, g) else (Raise (already_shuffled self name), g).
Proof.
  unfold holding, entrance_pool_step, bind, get.
  destruct (first_entrance Graph entrance_at g _ pool) as [a|]; [|discriminate].
  destruct (ent_connected_region (entrance_at g a)); [|discriminate].
  intros H. injection H as <-.
  destruct (ent_type (entrance_at g a) =? "Overworld"); reflexivity.
Qed.

(** Over pools that lack the entrance or hold it connected and of type
    ['Overworld'], the loop changes nothing and reports whether one of
    them held it. *)
Lemma pools_loop_tolerated (self : WorldDistribution)
    (targets : Dict.odict (list nat)) (name : string) (record : EntranceRecord)
    (target_region : string) (g : Graph) :
  forall pools found,
    (forall pt pool, In (pt, pool) pools ->
       holds g name pool = HoldsNone \/ holds g name pool = HoldsConnected true) ->
    exists found',
      pools_loop self targets name record target_region found pools g
      = (Ok found', g) /\
      (found = true -> found' = true) /\
      ((exists pt pool, In (pt, pool) pools /\
                        holds g name pool = HoldsConnected true) ->
       found' = true).
Proof.
  induction pools as [|[pt pool] pools IH]; intros found Hall.
  - exists found. split; [reflexivity|]. split; [auto|].
    intros (pt & pool & [] & _).
  - cbn [entrance_pools_loop]. unfold bind at 1.
    assert (Htail : forall pt' pool', In (pt', pool') pools ->
              holds g name pool' = HoldsNone \/
              holds g name pool' = HoldsConnected true)
      by (intros pt' pool' Hin; apply (Hall pt' pool'); now right).
    destruct (Hall pt pool (or_introl eq_refl)) as [Hnone | Hover].
    + rewrite (pool_step_none self targets name record target_region found
                 pt pool g Hnone).
      destruct (IH found Htail) as (found' & Hrun & Hkeep & Hsome).
      exists found'. split; [exact Hrun|]. split; [exact Hkeep|].
      intros (pt' & pool' & [E | Hin] & Hh).
      * injection E as <- <-. rewrite Hnone in Hh. discriminate.
      * apply Hsome. exists pt', pool'. split; assumption.
    + rewrite (pool_step_connected self targets name record target_region found
                 pt pool g true Hover).
      destruct (IH true Htail) as (found' & Hrun & Hkeep & _).
      exists found'. split; [exact Hrun|].
      split; intros _; apply Hkeep; reflexivity.
Qed.

(** The loop stops at the first pool that holds the entrance connected
    and of another type. *)
Lemma pools_loop_refused (self : WorldDistribution)
    (targets : Dict.odict (list nat)) (name : string) (record : EntranceRecord)
    (target_region : string) (g : Graph) (pt : string) (pool : list nat)
    (after : Dict.odict (list nat)) :
  holds g name pool = HoldsConnected false ->
  forall before found,
    (forall pt' pool', In (pt', pool') before ->
       holds g name pool' = HoldsNone \/ holds g name pool' = HoldsConnected true) ->
    pools_loop self targets name record target_region found
      (before ++ (pt, pool) :: after) g
    = (Raise (already_shuffled self name), g).
Proof.
  intros Hrefuse. induction before as [|[pt' pool'] before IH]; intros found Hall.
  - cbn [app entrance_pools_loop]. unfold bind at 1.
    rewrite (pool_step_connected self targets name record target_region found
               pt pool g false Hrefuse).
    reflexivity.
  - cbn [app entrance_pools_loop]. unfold bind at 1.
    assert (Htail : forall pt2 pool2, In (pt2, pool2) before ->
              holds g name pool2 = HoldsNone \/
              holds g name pool2 = HoldsConnected true)
      by (intros pt2 pool2 Hin; apply (Hall pt2 pool2); now right).
    destruct (Hall pt' pool' (or_introl eq_refl)) as [Hnone | Hover].
    + rewrite (pool_step_none self targets name record target_region found
                 pt' pool' g Hnone).
      exact (IH found Htail).
    + rewrite (pool_step_connected self targets name record target_region found
                 pt' pool' g true Hover).
      exact (IH true Htail).
Qed.

(** C7: the rejections of [set_shuffled_entrances], for a record with a
    target region (a record without one is skipped before any check).  A
    name that [get_entrance] does not know raises the unknown-entrance
    error; a name it knows but that no pool of shuffled entrances holds
    raises the not-in-a-pool error, which is a different error.  For a
    name it knows, the record raises the already-shuffled error at the
    first pool that holds the entrance connected and of another type than
    ['Overworld'], the pools before it lacking the entrance or holding it
    connected and of type ['Overworld']; and when every pool lacks the
    entrance or holds it so, and one does hold it, the record passes
    silently: it returns and changes nothing.  In a single pool, the
    step on a connected entrance passes exactly when the type is
    ['Overworld']. *)
Theorem set_shuffled_entrance_rejections (self : WorldDistribution)
    (pools targets : Dict.odict (list nat)) (name : string)
    (record : EntranceRecord) (target_region : string) (g : Graph) :
  region record = Some target_region ->
  ((fst (get_entrance (wd_id self) name g) = Ok None \/
    exists msg, fst (get_entrance (wd_id self) name g) = Raise (KeyError msg)) ->
   fst (one_entrance self pools targets (name, record) g)
   = Raise (unknown_entrance close_match_entrance self name)) /\
  (forall a g1,
     get_entrance (wd_id self) name g = (Ok (Some a), g1) ->
     (forall pt pool, In (pt, pool) pools ->
        first_entrance Graph entrance_at g1
          (fun e => String.eqb (ent_name e) name) pool = None) ->
     one_entrance self pools targets (name, record) g
     = (Raise (not_in_shuffled_pool self name), g1)) /\
  unknown_entrance close_match_entrance self name <> not_in_shuffled_pool self name /\
  already_shuffled self name <> unknown_entrance close_match_entrance self name /\
  already_shuffled self name <> not_in_shuffled_pool self name /\
  (forall a g1 before pt pool after,
     get_entrance (wd_id self) name g = (Ok (Some a), g1) ->
     pools = before ++ (pt, pool) :: after ->
     (forall pt' pool', In (pt', pool') before ->
        holds g1 name pool' = HoldsNone \/
        holds g1 name pool' = HoldsConnected true) ->
     holds g1 name pool = HoldsConnected false ->
     one_entrance self pools targets (name, record) g
     = (Raise (already_shuffled self name), g1)) /\
  (forall a g1,
     get_entrance (wd_id self) name g = (Ok (Some a), g1) ->
     (forall pt pool, In (pt, pool) pools ->
        holds g1 name pool = HoldsNone \/
        holds g1 name pool = HoldsConnected true) ->
     (exists pt pool, In (pt, pool) pools /\
                      holds g1 name pool = HoldsConnected true) ->
     one_entrance self pools targets (name, record) g = (Ok tt, g1)) /\
  (forall found pt pool a r g1,
     first_entrance Graph entrance_at g1
       (fun e => String.eqb (ent_name e) name) pool = Some a ->
     ent_connected_region (entrance_at g1 a) = Some r ->
     pool_step self targets name record target_region found (pt, pool) g1
     = if ent_type (entrance_at g1 a) =? "Overworld"
       then (Ok true, g1)
       else (Raise (already_shuffled self name), g1)).
Proof.
  intros Hregion.
  assert (Hknown : forall a g1,
            get_entrance (wd_id self) name g = (Ok (Some a), g1) ->
            one_entrance self pools targets (name, record) g
            = (entrance_found <- pools_loop self targets name record
                                   target_region false pools ;;
               if negb entrance_found
               then raise (not_in_shuffled_pool self name)
               else ret tt) g1).
  { intros a g1 Hget. unfold set_shuffled_entrance. rewrite Hregion.
    unfold bind at 1, try_except, bind at 1. rewrite Hget. reflexivity. }
  split; [|split; [|split; [|split; [|split; [|split; [|split]]]]]].
  - intros Hmiss. unfold set_shuffled_entrance. rewrite Hregion.
    unfold bind at 1, try_except, bind at 1.
    destruct (get_entrance (wd_id self) name g) as [[[a|]|e] g1] eqn:Eg;
      simpl in Hmiss.
    + destruct Hmiss as [H | [msg H]]; discriminate.
    + reflexivity.
    + destruct Hmiss as [H | [msg H]]; [discriminate|].
      injection H as ->. reflexivity.
  - intros a g1 Hget Habs. rewrite (Hknown a g1 Hget). unfold bind at 1.
    rewrite (pools_loop_absent self targets name record target_region g1 pools
               false Habs).
    reflexivity.
  - unfold unknown_entrance, not_in_shuffled_pool. simpl. discriminate.
  - unfold unknown_entrance, already_shuffled. simpl. discriminate.
  - unfold not_in_shuffled_pool, already_shuffled. simpl. discriminate.
  - intros a g1 before pt pool after Hget -> Hbefore Hrefuse.
    rewrite (Hknown a g1 Hget). unfold bind at 1.
    rewrite (pools_loop_refused self targets name record target_region g1 pt pool
               after Hrefuse before false Hbefore).
    reflexivity.
  - intros a g1 Hget Hall Hsome.
    rewrite (Hknown a g1 Hget). unfold bind at 1.
    destruct (pools_loop_tolerated self targets name record target_region g1
                pools false Hall) as (found' & Hrun & _ & Hfound).
    rewrite Hrun, (Hfound Hsome). reflexivity.
  - intros found pt pool a r g1 Hfirst Hconn.
    unfold entrance_pool_step, bind, get. rewrite Hfirst, Hconn.
    destruct (ent_type (entrance_at g1 a) =? "Overworld"); reflexivity.
Qed.

End EntranceErrors.

(** On the small graph: an unknown name, a known entrance outside the
    pools, the connected overworld entrance, which is let through, and a
    connected interior, which is refused behind a pool that lacks it. *)
Lemma set_shuffled_entrance_rejections_witness :
  let run pools name :=
    set_shuffled_entrance (list Entrance) demo_entrance_at demo_get_entrance
      (fun _ _ => ret tt) (fun _ _ => ret tt) (fun _ => ret tt) (fun _ _ => ret tt)
      (fun _ => "") demo_self pools [] (name, demo_to "Deku Tree Lobby")
      demo_graph in
  fst (run demo_entrance_pools "Kokiri Forest -> Moon")
  = Raise (unknown_entrance (fun _ => "") demo_self "Kokiri Forest -> Moon") /\
  run demo_entrance_pools "Kokiri Forest -> KF Links House"
  = (Raise (not_in_shuffled_pool demo_self "Kokiri Forest -> KF Links House"),
     demo_graph) /\
  run demo_entrance_pools "Kokiri Forest -> Lost Woods" = (Ok tt, demo_graph) /\
  run [("Overworld", [0]); ("Interior", [1])] "Kokiri Forest -> KF Links House"
  = (Raise (already_shuffled demo_self "Kokiri Forest -> KF Links House"),
     demo_graph).
Proof.
  pose (thm := fun pools name =>
    set_shuffled_entrance_rejections (list Entrance) demo_entrance_at
      demo_get_entrance (fun _ _ => ret tt) (fun _ _ => ret tt) (fun _ => ret tt)
      (fun _ _ => ret tt) (fun _ => "") demo_self pools [] name
      (demo_to "Deku Tree Lobby") "Deku Tree Lobby" demo_graph eq_refl).
  split; [|split; [|split]].
  - destruct (thm demo_entrance_pools "Kokiri Forest -> Moon") as (H & _).
    apply H. right. eexists. reflexivity.
  - destruct (thm demo_entrance_pools "Kokiri Forest -> KF Links House")
      as (_ & H & _).
    apply (H 1 demo_graph); [reflexivity|].
    intros pt pool [E | [E | []]]; injection E as <- <-; reflexivity.
  - destruct (thm demo_entrance_pools "Kokiri Forest -> Lost Woods")
      as (_ & _ & _ & _ & _ & _ & H & _).
    apply (H 0 demo_graph); [reflexivity | |].
    + intros pt pool [E | [E | []]]; injection E as <- <-;
        [right | left]; reflexivity.
    + exists "Overworld", [0]. split; [now left | reflexivity].
  - destruct (thm [("Overworld", [0]); ("Interior", [1])]
                  "Kokiri Forest -> KF Links House")
      as (_ & _ & _ & _ & _ & H & _).
    apply (H 1 demo_graph [("Overworld", [0])] "Interior" [1] []);
      [reflexivity | reflexivity | | reflexivity].
    intros pt pool [E | []]. injection E as <- <-. left. reflexivity.
Defined.

(* ================================================================== *)
(** * Invariants through the monad *)
(* ================================================================== *)

Section Keeps.

Context {S : Type}.
Variable R : S -> S -> Prop.
Hypothesis R_refl : forall s, R s s.
Hypothesis R_trans : forall a b c, R a b -> R b c -> R a c.

Lemma keeps_ret {A} (a : A) : keeps R (ret a).
Proof. intros s. apply R_refl. Qed.

Lemma keeps_raise {A} (e : exn) : keeps R (raise (A:=A) e).
Proof. intros s. apply R_refl. Qed.

Lemma keeps_get : keeps R get.
Proof. intros s. apply R_refl. Qed.

Lemma keeps_bind {A B} (m : M S A) (k : A -> M S B) :
  keeps R m -> (forall a, keeps R (k a)) -> keeps R (bind m k).
Proof.
  intros Hm Hk s. unfold bind. specialize (Hm s).
  destruct (m s) as [[a|e] s1]; simpl in Hm; [|exact Hm].
  eapply R_trans; [exact Hm | apply Hk].
Qed.

Lemma keeps_get_bind {A} (k : S -> M S A) :
  (forall s, R s (snd (k s s))) -> keeps R (bind get k).
Proof. intros H s. apply H. Qed.

Lemma keeps_modify (f : S -> S) : (forall s, R s (f s)) -> keeps R (modify f).
Proof. intros H s. apply H. Qed.

Lemma keeps_for_each {A} (l : list A) (body : A -> M S unit) :
  (forall x, keeps R (body x)) -> keeps R (for_each l body).
Proof.
  intros H. induction l as [|x l IH]; [apply keeps_ret|].
  simpl. apply keeps_bind; [apply H | intros _; exact IH].
Qed.

Lemma keeps_fold_m {A B} (l : list A) (f : B -> A -> M S B) :
  (forall b x, keeps R (f b x)) -> forall b, keeps R (fold_m l b f).
Proof.
  intros H. induction l as [|x l IH]; intros b; [apply keeps_ret|].
  simpl. apply keeps_bind; [apply H | intros b'; apply IH].
Qed.

Lemma keeps_try_except {A} (m : M S A) (h : exn -> option (M S A)) :
  keeps R m -> (forall e k, h e = Some k -> keeps R k) ->
  keeps R (try_except m h).
Proof.
  intros Hm Hh s. unfold try_except. specialize (Hm s).
  destruct (m s) as [[a|e] s1]; simpl in Hm; [exact Hm|].
  destruct (h e) as [k|] eqn:E; [|exact Hm].
  eapply R_trans; [exact Hm | apply (Hh e k E)].
Qed.

Lemma keeps_lift_outcome {A} (o : outcome A) : keeps R (lift_outcome o).
Proof. destruct o; [apply keeps_ret | apply keeps_raise]. Qed.

End Keeps.

(* ================================================================== *)
(** * The list objects persist *)
(* ================================================================== *)

Lemma shl_refl {E} (s : PState E) : same_heap_length s s.
Proof. reflexivity. Qed.

Lemma shl_trans {E} (a b c : PState E) :
  same_heap_length a b -> same_heap_length b c -> same_heap_length a c.
Proof. unfold same_heap_length. congruence. Qed.

Ltac keeps_step :=
  lazymatch goal with
  | |- keeps _ (ret _) => apply (keeps_ret _ shl_refl)
  | |- keeps _ (raise _) => apply (keeps_raise _ shl_refl)
  | |- keeps _ get => apply (keeps_get _ shl_refl)
  | |- keeps _ (lift_outcome _) => apply (keeps_lift_outcome _ shl_refl)
  | |- keeps _ (bind _ _) => apply (keeps_bind _ shl_trans); [|intros ?]
  | |- keeps _ (for_each _ _) => apply (keeps_for_each _ shl_refl shl_trans); intros ?
  | |- keeps _ (fold_m _ _ _) => apply (keeps_fold_m _ shl_refl shl_trans); intros ? ?
  | |- keeps _ (try_except _ _) =>
      apply (keeps_try_except _ shl_trans); [|intros ? ? ?]
  | |- keeps _ (if ?c then _ else _) => destruct c
  | |- keeps _ (match ?x with _ => _ end) => destruct x
  end.

Section HeapLength.

Variable ItemInfo_items : list (string * string).
Variable item_groups : Dict.odict (list string).
Variable is_item : string -> bool.
Variable build_close_match : string -> string -> string.
Variable get_junk_item :
  Z -> option (list string) -> option (Dict.odict ItemPoolRecord) -> Rng ->
  outcome (list string) * Rng.

Lemma keeps_lift_self {E A} (m : M WorldDistribution A) :
  keeps (@same_heap_length E) (lift_self m).
Proof.
  intros s. unfold lift_self. destruct (m (st_self s)). reflexivity.
Qed.

Lemma keeps_self_pattern_matcher {E} (p : pattern) :
  keeps (@same_heap_length E) (self_pattern_matcher ItemInfo_items item_groups p).
Proof. apply keeps_lift_self. Qed.

Lemma keeps_base_pool_remove {E} (x : string) :
  keeps (@same_heap_length E) (base_pool_remove x).
Proof.
  intros s. unfold base_pool_remove, bind, get.
  destruct (Py.list_remove String.eqb x (base_pool (st_self s))); reflexivity.
Qed.

Lemma heap_remove_length {E} (eqb : E -> E -> bool) (h : Heap) (r : ref) (e : E) :
  length (heap_remove eqb h r e) = length h.
Proof.
  unfold heap_remove. destruct (Py.list_remove eqb e (deref h r));
    [apply length_store | reflexivity].
Qed.

Lemma pull_random_element_length {E} (eqb : E -> E -> bool) (h : Heap)
    (pools : list ref) (p : E -> bool) (remove : bool) (g : Rng) :
  length (snd (fst (pull_random_element eqb h pools p remove g))) = length h.
Proof.
  unfold pull_random_element.
  destruct (random_choice (candidates h pools p) g) as [[[e r]|] g'];
    [destruct remove|]; simpl; auto using heap_remove_length.
Qed.

Lemma keeps_pool_remove_loop {E} `{PoolElement E}
    (sc : Z -> M (PState E) (list E)) (pools : list ref) (item_name : string)
    (world_id : option nat) (ubp : bool) (m : string -> bool) :
  (forall k, keeps same_heap_length (sc k)) ->
  forall n acc,
    keeps same_heap_length
      (pool_remove_loop is_item sc pools item_name world_id ubp m n acc).
Proof.
  intros Hsc. induction n as [|n IH]; intros acc; [apply (keeps_ret _ shl_refl)|].
  cbn [pool_remove_loop]. apply keeps_get_bind. intros s.
  pose proof (pull_random_element_length elt_eqb (st_heap s) pools
                (remove_predicate world_id m ubp (st_self s)) true (st_rng s)) as Hl.
  destruct (pull_random_element elt_eqb (st_heap s) pools
              (remove_predicate world_id m ubp (st_self s)) true (st_rng s))
    as [[ri h'] g']. simpl in Hl.
  unfold bind at 1, put.
  set (s1 := with_rng g' (with_heap h' s)).
  assert (H1 : same_heap_length s s1) by exact Hl.
  eapply shl_trans; [exact H1|].
  destruct ri as [e|].
  - apply (keeps_bind _ shl_trans).
    + destruct ubp; [apply keeps_base_pool_remove | apply (keeps_ret _ shl_refl)].
    + intros _. apply IH.
  - destruct (negb ubp).
    + destruct (is_item item_name); apply (keeps_raise _ shl_refl).
    + apply (keeps_bind _ shl_trans); [apply Hsc|].
      intros rest. apply (keeps_ret _ shl_refl).
Qed.

Lemma keeps_pool_remove_item {E} `{PoolElement E} (pools : list ref)
    (item_name : string) (count : Z) (world_id : option nat) (ubp : bool) :
  keeps same_heap_length
    (pool_remove_item ItemInfo_items item_groups is_item pools item_name count
       world_id ubp).
Proof.
  unfold pool_remove_item, pool_remove_item_with.
  apply (keeps_bind _ shl_trans); [apply keeps_self_pattern_matcher|].
  intros m. apply keeps_pool_remove_loop. intros k.
  apply (keeps_bind _ shl_trans); [apply keeps_self_pattern_matcher|].
  intros m'. apply keeps_pool_remove_loop. intros k'. apply (keeps_ret _ shl_refl).
Qed.

Lemma keeps_pool_append {E} (pool : ref) (x : E) :
  keeps same_heap_length (pool_append pool x).
Proof. intros s. unfold pool_append, modify. simpl. apply length_store. Qed.

Lemma keeps_add_candidates (item_name : string) (names : list string) :
  keeps same_heap_length (add_candidates ItemInfo_items item_groups item_name names).
Proof.
  induction names as [|n names IH]; [apply (keeps_ret _ shl_refl)|].
  cbn [add_candidates].
  apply (keeps_bind _ shl_trans); [apply keeps_self_pattern_matcher|]. intros m.
  apply (keeps_bind _ shl_trans); [apply (keeps_get _ shl_refl)|]. intros s.
  apply (keeps_bind _ shl_trans); [exact IH|]. intros rest.
  apply (keeps_ret _ shl_refl).
Qed.

Lemma keeps_pool_add_item (pool : ref) (item_name : string) (count : Z) :
  keeps same_heap_length
    (pool_add_item ItemInfo_items item_groups is_item build_close_match
       get_junk_item pool item_name count).
Proof.
  unfold pool_add_item.
  apply (keeps_bind _ shl_trans).
  - destruct (item_name =? "#Junk").
    + apply keeps_get_bind. intros s.
      destruct (get_junk_item count (Some (deref (st_heap s) pool))
                  (Some (item_pool (st_self s))) (st_rng s)) as [[l|e] g'];
        reflexivity.
    + destruct (is_pattern item_name).
      * apply (keeps_bind _ shl_trans); [apply keeps_add_candidates|].
        intros [|c cs]; [apply (keeps_raise _ shl_refl)|].
        apply keeps_get_bind. intros s.
        destruct (random_choices (c :: cs) (Z.to_nat count) (st_rng s))
          as [[l|] g']; reflexivity.
      * destruct (negb (is_item item_name));
          [apply (keeps_raise _ shl_refl) | apply (keeps_ret _ shl_refl)].
  - intros added.
    apply (keeps_bind _ shl_trans); [|intros _; apply (keeps_ret _ shl_refl)].
    apply (keeps_for_each _ shl_refl shl_trans). intros x. apply keeps_pool_append.
Qed.

End HeapLength.

Section AdjustKeeps.

Variable ItemInfo_items : list (string * string).
Variable item_groups : Dict.odict (list string).
Variable is_item : string -> bool.
Variable build_close_match : string -> string -> string.
Variable get_junk_item :
  Z -> option (list string) -> option (Dict.odict ItemPoolRecord) -> Rng ->
  outcome (list string) * Rng.

Local Notation "'add'" :=
  (add_item ItemInfo_items item_groups is_item build_close_match get_junk_item).
Local Notation "'remove'" := (remove_item ItemInfo_items item_groups is_item).

Lemma keeps_add_item (pool : ref) (item_name : string) (count : Z) :
  keeps same_heap_length (add pool item_name count).
Proof. apply keeps_pool_add_item. Qed.

Lemma keeps_remove_item (pool : ref) (item_name : string) (count : Z) :
  keeps same_heap_length (remove pool item_name count).
Proof. apply keeps_pool_remove_item. Qed.

Lemma keeps_compile_pattern (p : string) :
  keeps (@same_heap_length string) (compile_pattern ItemInfo_items item_groups p).
Proof. apply keeps_lift_self. Qed.

Lemma keeps_set_count_one (item_name : string) :
  keeps same_heap_length (set_count_one item_name).
Proof.
  intros s. unfold set_count_one, bind, get.
  destruct (Dict.get (item_pool (st_self s)) item_name); reflexivity.
Qed.

Lemma keeps_del_item_pool (item : string) :
  keeps same_heap_length (del_item_pool item).
Proof.
  intros s. unfold del_item_pool, bind, get.
  destruct (Dict.mem (item_pool (st_self s)) item); reflexivity.
Qed.

Lemma keeps_key_error_as (msg : string) (A : Type) (e : exn)
    (k : M (PState string) A) :
  key_error_as msg e = Some k -> keeps same_heap_length k.
Proof.
  unfold key_error_as. destruct (is_key_error e); [|discriminate].
  intros H. injection H as <-. apply (keeps_raise _ shl_refl).
Qed.

Ltac keeps_auto :=
  repeat first
    [ apply keeps_add_item | apply keeps_remove_item | apply keeps_compile_pattern
    | apply keeps_base_pool_remove | apply keeps_set_count_one
    | apply keeps_del_item_pool
    | match goal with
      | H : key_error_as _ _ = Some _ |- _ => exact (keeps_key_error_as _ _ _ _ H)
      end
    | keeps_step ].

Lemma keeps_add_remove_step (pool : ref) (nr : string * ItemPoolRecord) :
  keeps same_heap_length
    (add_remove_step ItemInfo_items item_groups is_item build_close_match
       get_junk_item pool nr).
Proof. unfold add_remove_step. keeps_auto. Qed.

Lemma keeps_set_step (world : World) (pool : ref)
    (bm am cm : string -> bool) (acc : list string * Z)
    (nr : string * ItemPoolRecord) :
  keeps same_heap_length
    (set_step ItemInfo_items item_groups is_item build_close_match get_junk_item
       world pool bm am cm acc nr).
Proof. unfold set_step. keeps_auto. Qed.

Lemma keeps_starting_step (world : World) (pool : ref)
    (bm am : string -> bool) (nr : string * StarterRecord) :
  keeps same_heap_length
    (starting_step ItemInfo_items item_groups is_item world pool bm am nr).
Proof.
  unfold starting_step. keeps_auto.
  - destruct (is_key_error e); [|discriminate].
    match goal with H : Some _ = Some _ |- _ => injection H as <- end.
    apply (keeps_ret _ shl_refl).
  - intros st0. reflexivity.
Qed.

Lemma keeps_alter_pool_adjust (world : World) (pool : ref) :
  keeps same_heap_length
    (alter_pool_adjust ItemInfo_items item_groups is_item build_close_match
       get_junk_item world pool).
Proof.
  unfold alter_pool_adjust.
  repeat first [ apply keeps_add_remove_step | apply keeps_set_step
               | apply keeps_starting_step | keeps_auto ].
Qed.

End AdjustKeeps.

(* ================================================================== *)
(** * Sizes *)
(* ================================================================== *)

Section RemoveSize.

Variable ItemInfo_items : list (string * string).
Variable item_groups : Dict.odict (list string).
Variable is_item : string -> bool.

Context {E : Type} {PE : PoolElement E} {EL : PoolElementLaws E}.

Variable pools : list ref.
Hypothesis pools_distinct : NoDup pools.

Lemma pull_total (h h' : Heap) (p : E -> bool) (g g' : Rng) (e : E) :
  pull_random_element elt_eqb h pools p true g = (Some e, h', g') ->
  pools_total h' pools + 1 = pools_total h pools.
Proof.
  intros Hp.
  pose proof (pull_random_element_facts elt_eqb elt_eqb_eq h pools p true g) as Hs.
  rewrite Hp in Hs. simpl in Hs. destruct Hs as (_ & _ & Hsome).
  destruct (Hsome e eq_refl) as (_ & r & _ & _ & _ & _ & _ & _ & Ht).
  exact (Ht pools_distinct).
Qed.

Lemma pull_none_heap (h h' : Heap) (p : E -> bool) (g g' : Rng) :
  pull_random_element elt_eqb h pools p true g = (None, h', g') -> h' = h.
Proof.
  intros Hp.
  pose proof (pull_random_element_facts elt_eqb elt_eqb_eq h pools p true g) as Hs.
  rewrite Hp in Hs. simpl in Hs. destruct Hs as (_ & Hsame & _). now apply Hsame.
Qed.

Lemma pool_remove_loop_size (sc : Z -> M (PState E) (list E))
    (item_name : string) (world_id : option nat) (ubp : bool)
    (m : string -> bool) :
  (ubp = true -> removes_exactly pools sc) ->
  forall n acc s l s',
    pool_remove_loop is_item sc pools item_name world_id ubp m n acc s = (Ok l, s') ->
    length l = length acc + n /\
    pools_total (st_heap s') pools + n = pools_total (st_heap s) pools.
Proof.
  intros Hsc. induction n as [|n IH]; intros acc s l s' Hrun.
  - injection Hrun as <- <-. lia.
  - destruct (pull_random_element elt_eqb (st_heap s) pools
                (remove_predicate world_id m ubp (st_self s)) true (st_rng s))
      as [[[e|] h'] g'] eqn:Ep.
    + rewrite (loop_step_some is_item pools item_name world_id m sc ubp n acc s e
                 _ _ Ep) in Hrun.
      pose proof (pull_total _ _ _ _ _ _ Ep) as Ht.
      unfold bind at 1 in Hrun.
      destruct ((if ubp then base_pool_remove (elt_name e) else ret tt)
                  (with_rng g' (with_heap h' s))) as [[[]|ex] s1] eqn:E1;
        [|discriminate].
      assert (Hh : st_heap s1 = h').
      { destruct ubp.
        - unfold base_pool_remove, bind, get in E1. simpl in E1.
          destruct (Py.list_remove String.eqb (elt_name e) (base_pool (st_self s)));
            [|discriminate]. injection E1 as <-. reflexivity.
        - injection E1 as <-. reflexivity. }
      destruct (IH _ _ _ _ Hrun) as [Hl Hp]. rewrite Hh in Hp.
      rewrite length_app in Hl. simpl in Hl. lia.
    + rewrite (loop_step_none is_item pools item_name world_id m sc ubp n acc s
                 _ _ Ep) in Hrun.
      pose proof (pull_none_heap _ _ _ _ _ Ep) as ->.
      destruct ubp; cbn [negb] in Hrun.
      * unfold bind in Hrun.
        destruct (sc (Z.of_nat (S n)) (with_rng g' (with_heap (st_heap s) s)))
          as [[rest|ex] s1] eqn:E1; [|discriminate].
        injection Hrun as <- <-.
        destruct (Hsc eq_refl _ _ _ _ E1) as [Hl Hp].
        rewrite Nat2Z.id in Hl, Hp. cbn [st_heap with_rng with_heap] in Hp.
        rewrite length_app. lia.
      * destruct (is_item item_name); discriminate.
Qed.

Lemma lift_self_heap {A} (m : M WorldDistribution A) (s : PState E)
    (a : A) (s' : PState E) :
  lift_self m s = (Ok a, s') -> st_heap s' = st_heap s.
Proof.
  unfold lift_self. destruct (m (st_self s)). intros H. injection H as _ <-.
  reflexivity.
Qed.

(** [pool_remove_item] that returns has removed [count] elements from the
    pools, and returns that many. *)
Lemma pool_remove_item_size (item_name : string) (count : Z)
    (world_id : option nat) (ubp : bool) (s s' : PState E) (l : list E) :
  pool_remove_item ItemInfo_items item_groups is_item pools item_name count
    world_id ubp s = (Ok l, s') ->
  length l = Z.to_nat count /\
  pools_total (st_heap s') pools + Z.to_nat count = pools_total (st_heap s) pools.
Proof.
  assert (Hinner : forall c ubp0 sc,
             (ubp0 = true -> removes_exactly pools sc) ->
             forall s1 l1 s2,
               pool_remove_item_with ItemInfo_items item_groups is_item sc pools
                 item_name c world_id ubp0 s1 = (Ok l1, s2) ->
               length l1 = Z.to_nat c /\
               pools_total (st_heap s2) pools + Z.to_nat c
               = pools_total (st_heap s1) pools).
  { intros c ubp0 sc Hsc s1 l1 s2 Hrun.
    unfold pool_remove_item_with, bind in Hrun.
    destruct (self_pattern_matcher ItemInfo_items item_groups (PStr item_name) s1)
      as [[m|ex] sm] eqn:Em; [|discriminate].
    apply lift_self_heap in Em.
    destruct (pool_remove_loop_size sc item_name world_id ubp0 m Hsc _ _ _ _ _ Hrun)
      as [Hl Hp].
    rewrite Em in Hp. simpl in Hl. lia. }
  intros Hrun. unfold pool_remove_item in Hrun.
  apply (Hinner count ubp _) in Hrun; [exact Hrun|].
  intros _ k s1 l1 s2 Hk. apply (Hinner k false _) in Hk; [exact Hk|].
  discriminate.
Qed.

End RemoveSize.

(* ================================================================== *)
(** * Conservation of the pool size *)
(* ================================================================== *)

Lemma pool_append_all {E} (pool : ref) (l : list E) :
  forall s : PState E,
    pool < length (st_heap s) ->
    exists s', for_each l (pool_append pool) s = (Ok tt, s') /\
               deref (st_heap s') pool = deref (st_heap s) pool ++ l.
Proof.
  induction l as [|x l IH]; intros s Hp.
  - exists s. split; [reflexivity | now rewrite app_nil_r].
  - set (s1 := with_heap (store (st_heap s) pool (deref (st_heap s) pool ++ [x])) s).
    destruct (IH s1) as (s' & Hrun & Hd).
    { simpl. now rewrite length_store. }
    exists s'. split; [exact Hrun|].
    rewrite Hd. simpl. rewrite deref_store_same by assumption.
    now rewrite <- app_assoc.
Qed.

Section Conservation.

Variable ItemInfo_items : list (string * string).
Variable item_groups : Dict.odict (list string).
Variable is_item : string -> bool.
Variable build_close_match : string -> string -> string.
Variable get_junk_item :
  Z -> option (list string) -> option (Dict.odict ItemPoolRecord) -> Rng ->
  outcome (list string) * Rng.

Hypothesis junk_exact : junk_selector_exact get_junk_item.

Lemma add_junk_size (pool : ref) (n : Z) (s s' : PState string) (l : list string) :
  pool < length (st_heap s) ->
  add_item ItemInfo_items item_groups is_item build_close_match get_junk_item
    pool "#Junk" n s = (Ok l, s') ->
  length (deref (st_heap s') pool)
  = length (deref (st_heap s) pool) + Z.to_nat n.
Proof.
  intros Hp. unfold add_item, pool_add_item.
  change ("#Junk" =? "#Junk") with true. cbv iota.
  unfold bind at 1. unfold bind at 1, get at 1.
  destruct (get_junk_item n (Some (deref (st_heap s) pool))
              (Some (item_pool (st_self s))) (st_rng s)) as [[junk|e] g'] eqn:Ej;
    [|discriminate].
  unfold bind at 1, put at 1, ret at 1.
  destruct (pool_append_all pool junk (with_rng g' s) Hp) as (s2 & Hrun & Hd).
  unfold bind at 1. rewrite Hrun. unfold ret. intros H. injection H as _ <-.
  rewrite Hd, length_app. simpl. rewrite (junk_exact _ _ _ _ _ _ Ej). reflexivity.
Qed.

Lemma remove_size (pool : ref) (name : string) (n : Z) (s s' : PState string)
    (l : list string) :
  remove_item ItemInfo_items item_groups is_item pool name n s = (Ok l, s') ->
  length (deref (st_heap s') pool) + Z.to_nat n = length (deref (st_heap s) pool).
Proof.
  intros Hrun. unfold remove_item in Hrun.
  apply (pool_remove_item_size ItemInfo_items item_groups is_item [pool]) in Hrun.
  - destruct Hrun as [_ Ht]. simpl in Ht. lia.
  - repeat constructor. simpl. tauto.
Qed.

Lemma alter_pool_restore_size (pool : ref) (pool_size : nat) (s s' : PState string)
    (r : ref) :
  pool < length (st_heap s) ->
  alter_pool_restore ItemInfo_items item_groups is_item build_close_match
    get_junk_item pool (Z.of_nat pool_size) s = (Ok r, s') ->
  r = pool /\ length (deref (st_heap s') pool) = pool_size.
Proof.
  intros Hp. unfold alter_pool_restore, bind at 1, get at 1.
  set (len := length (deref (st_heap s) pool)).
  destruct (Z.gtb_spec (Z.of_nat pool_size - Z.of_nat len) 0) as [Hgt|Hle];
    unfold bind at 1.
  - unfold bind at 1.
    destruct (add_item ItemInfo_items item_groups is_item build_close_match
                get_junk_item pool "#Junk" (Z.of_nat pool_size - Z.of_nat len) s)
      as [[l|e] s1] eqn:Ea; [|discriminate].
    unfold ret. intros H. injection H as <- <-.
    split; [reflexivity|].
    rewrite (add_junk_size _ _ _ _ _ Hp Ea). fold len. lia.
  - unfold bind at 1.
    destruct (remove_item ItemInfo_items item_groups is_item pool "#Junk"
                (- (Z.of_nat pool_size - Z.of_nat len)) s)
      as [[l|e] s1] eqn:Er; [|discriminate].
    unfold ret. intros H. injection H as <- <-.
    split; [reflexivity|].
    pose proof (remove_size _ _ _ _ _ _ Er) as Hs. fold len in Hs. lia.
Qed.

(** C1: when the junk selector returns as many names as it is asked for,
    an [alter_pool] that returns without raising returns the list object
    it was given, and that list has the length it had on entry, whatever
    the adjustments, the bottle balance and the starting items took out or
    put in before the final junk step. *)
Theorem alter_pool_conserves_size (world : World) (pool : ref)
    (s s' : PState string) (r : ref) :
  pool < length (st_heap s) ->
  alter_pool ItemInfo_items item_groups is_item build_close_match get_junk_item
    world pool s = (Ok r, s') ->
  r = pool /\
  length (deref (st_heap s') pool) = length (deref (st_heap s) pool).
Proof.
  intros Hp. unfold alter_pool, bind at 1, get at 1. unfold bind at 1, put at 1.
  set (s0 := with_self (set_base_pool (deref (st_heap s) pool) (st_self s)) s).
  unfold bind at 1.
  pose proof (keeps_alter_pool_adjust ItemInfo_items item_groups is_item
                build_close_match get_junk_item world pool s0) as Hk.
  destruct (alter_pool_adjust ItemInfo_items item_groups is_item build_close_match
              get_junk_item world pool s0) as [[[]|e] s1]; [|discriminate].
  unfold same_heap_length in Hk. simpl in Hk.
  intros Hrun.
  apply alter_pool_restore_size in Hrun; [exact Hrun | lia].
Qed.

End Conservation.

(** The spec's scenario: the only sword is removed, a second bag of bombs
    is added, the bow leaves as a starting item, and one junk item brings
    the pool back to its five elements. *)
Lemma alter_pool_conserves_size_witness :
  alter_pool demo_items demo_groups demo_is_item (fun _ _ => "") demo_get_junk_item
    demo_world 0 demo_alter_state
  = (Ok 0,
     {| st_self := set_base_pool ["Recovery Heart"; "Bottle"] demo_alter_self;
        st_heap := [["Bombs"; "Recovery Heart"; "Bottle"; "Bombs"; "Recovery Heart"]];
        st_rng := [1] |}) /\
  length (deref (st_heap (snd (alter_pool demo_items demo_groups demo_is_item
                                 (fun _ _ => "") demo_get_junk_item demo_world 0
                                 demo_alter_state))) 0)
  = length (deref (st_heap demo_alter_state) 0).
Proof.
  assert (Hrun : alter_pool demo_items demo_groups demo_is_item (fun _ _ => "")
                   demo_get_junk_item demo_world 0 demo_alter_state
                 = (Ok 0,
                    {| st_self := set_base_pool ["Recovery Heart"; "Bottle"]
                                    demo_alter_self;
                       st_heap := [["Bombs"; "Recovery Heart"; "Bottle"; "Bombs";
                                    "Recovery Heart"]];
                       st_rng := [1] |}))
    by (vm_compute; reflexivity).
  split; [exact Hrun|].
  refine (proj2 (alter_pool_conserves_size demo_items demo_groups demo_is_item
                   (fun _ _ => "") demo_get_junk_item _ demo_world 0
                   demo_alter_state _ 0 _ _)).
  - intros count pool plando g l g'. unfold demo_get_junk_item.
    destruct (count <? 1)%Z; [discriminate|].
    intros H. injection H as <- _. apply repeat_length.
  - simpl. lia.
  - rewrite Hrun. reflexivity.
Defined.

(* ================================================================== *)
(** * The reachability gate of [fill] *)
(* ================================================================== *)

(** A loop stops at the first iteration that raises: the iterations
    before it have run, none after it does. *)
Lemma fold_m_stops {S A B} (f : B -> A -> M S B) (x : A) (rest : list A)
    (e : exn) (s1 : S) :
  forall (before : list A) (b0 b : B) (s0 s : S),
    fold_m before b0 f s0 = (Ok b, s) ->
    f b x s = (Raise e, s1) ->
    fold_m (before ++ x :: rest) b0 f s0 = (Raise e, s1).
Proof.
  induction before as [|y before IH]; intros b0 b s0 s Hbefore Hx.
  - injection Hbefore as -> ->. simpl. unfold bind. rewrite Hx. reflexivity.
  - simpl in Hbefore |- *. unfold bind in Hbefore |- *.
    destruct (f b0 y s0) as [[b1|e1] s01]; [|discriminate].
    eapply IH; eassumption.
Qed.

Section Gate.

Variable ItemInfo_items : list (string * string).
Variable item_groups : Dict.odict (list string).
Variable is_item : string -> bool.
Variable build_close_match : string -> string -> string.
Variable get_junk_item :
  Z -> option (list string) -> option (Dict.odict ItemPoolRecord) -> Rng ->
  outcome (list string) * Rng.
Variable song_list : list string.
Variable location_names : list string.
Variable LocationFactory : string -> outcome Location.
Variable vanilla_item : string -> outcome string.
Variable ItemFactory : string -> option nat -> nat -> outcome Item.
Variable WorldStates : Type.
Variable push_item : Location -> Item -> WorldStates -> WorldStates.
Variable can_beat_game : WorldStates -> list Item -> bool.

Local Notation "'place'" :=
  (place_record ItemInfo_items item_groups is_item build_close_match get_junk_item
     song_list LocationFactory vanilla_item ItemFactory WorldStates push_item).
Local Notation "'body'" :=
  (fill_location ItemInfo_items item_groups is_item build_close_match get_junk_item
     song_list LocationFactory vanilla_item ItemFactory WorldStates push_item
     can_beat_game).
Local Notation "'matching'" :=
  (fill_matching ItemInfo_items item_groups is_item build_close_match get_junk_item
     song_list LocationFactory vanilla_item ItemFactory WorldStates push_item
     can_beat_game).
Local Notation "'per_key'" :=
  (fill_key ItemInfo_items item_groups is_item build_close_match get_junk_item
     song_list location_names LocationFactory vanilla_item ItemFactory WorldStates
     push_item can_beat_game).
Local Notation "'fill_all'" :=
  (fill ItemInfo_items item_groups is_item build_close_match get_junk_item
     song_list location_names LocationFactory vanilla_item ItemFactory WorldStates
     push_item can_beat_game).

Variable worlds : list World.
Variable world : World.
Variable location_pools : list ref.
Variable fillable_locations : list Location.

(** C3: the reachability gate.  Suppose the body of the loop of [fill]
    has pushed the item [it] on [location] for the player [player_id],
    leaving the state [s1], that [it] is an advancement item, and that the
    search reports in [s1] that the game cannot be beaten.  Then the body
    raises [FillError] in the state [s1], with a message that names the
    location, the world of this distribution, the item and the world of
    the owning player; and the loop, and [fill] itself, raise that error
    in that state whatever records remain: none of them is processed. *)
Theorem fill_reachability_gate (key location_name : string)
    (record : LocationRecord) (used_items used_items' : list string)
    (s s1 : FState WorldStates) (location : Location) (it : Item)
    (player_id : nat) :
  place worlds world location_pools fillable_locations key location_name record
    used_items s = (Ok (Placed location it player_id, used_items'), s1) ->
  item_advancement it = true ->
  can_beat_game (fs_worlds s1) (pool_items s1) = false ->
  let err := FillError (loc_name location ++ " in world "
                        ++ Py.str_nat (wd_id (st_self (fs_pools s1)) + 1)
                        ++ " is not reachable without " ++ item_name it
                        ++ " in world " ++ Py.str_nat (player_id + 1) ++ "!") in
  body worlds world location_pools fillable_locations key location_name
    (OneRecord record) used_items s = (Raise err, s1) /\
  (is_pattern key = false -> location_name = key ->
   forall before rest used0 s0,
     fold_m before used0
       (per_key worlds world location_pools fillable_locations) s0
     = (Ok used_items, s) ->
     fold_m (before ++ (key, OneRecord record) :: rest) used0
       (per_key worlds world location_pools fillable_locations) s0
     = (Raise err, s1)) /\
  (is_pattern key = true ->
   forall names_before names_after used_in s_in s2 matcher,
     location_names = names_before ++ location_name :: names_after ->
     fold_m names_before used_in
       (matching worlds world location_pools fillable_locations key
          (OneRecord record)) s_in = (Ok used_items, s2) ->
     fill_pattern_matcher ItemInfo_items item_groups WorldStates (PStr key) s2
     = (Ok matcher, s) ->
     matcher location_name = true ->
     forall before rest used0 s0,
       fold_m before used0
         (per_key worlds world location_pools fillable_locations) s0
       = (Ok used_in, s_in) ->
       fold_m (before ++ (key, OneRecord record) :: rest) used0
         (per_key worlds world location_pools fillable_locations) s0
       = (Raise err, s1)) /\
  (is_pattern key = false -> location_name = key ->
   forall s00 before rest g',
     nth_error worlds (wd_id (st_self (fs_pools s00))) = Some world ->
     fillable_locations = flat_map (deref (fs_locations s00)) location_pools ->
     fill_order s00 = (before ++ (key, OneRecord record) :: rest, g') ->
     fold_m before []
       (per_key worlds world location_pools fillable_locations)
       (with_pools (with_rng g' (fs_pools s00)) s00)
     = (Ok used_items, s) ->
     fill_all worlds location_pools s00 = (Raise err, s1)).
Proof.
  intros Hplace Hadv Hbeat err.
  assert (Hbody : body worlds world location_pools fillable_locations key
                    location_name (OneRecord record) used_items s = (Raise err, s1)).
  { unfold fill_location, bind at 1. rewrite Hplace.
    unfold bind, reachability_gate. rewrite Hadv. unfold bind, get.
    rewrite Hbeat. reflexivity. }
  split; [exact Hbody|]. split; [|split].
  - intros Hlit -> before rest used0 s0 Hbefore.
    eapply fold_m_stops; [exact Hbefore|].
    unfold fill_key. rewrite Hlit. exact Hbody.
  - intros Hpat names_before names_after used_in s_in s2 matcher Hnames Hinner
           Hcompile Hmatch before rest used0 s0 Hbefore.
    eapply fold_m_stops; [exact Hbefore|].
    unfold fill_key. rewrite Hpat, Hnames.
    eapply fold_m_stops; [exact Hinner|].
    unfold fill_matching, bind at 1. rewrite Hcompile, Hmatch. exact Hbody.
  - intros Hlit -> s00 before rest g' Hworld Hfillable Horder Hbefore.
    unfold fill, bind at 1, get_self, bind at 1, get at 1, ret at 1.
    unfold bind at 1, world_at. rewrite Hworld. unfold ret at 1.
    unfold bind at 1, get at 1. rewrite Horder.
    unfold bind at 1, put at 1. unfold bind at 1.
    rewrite <- Hfillable.
    erewrite fold_m_stops; [reflexivity | exact Hbefore |].
    unfold fill_key. rewrite Hlit. exact Hbody.
Qed.

End Gate.

(** The iron boots are planned for Zora Fountain, where the toy rule of
    the game makes them unreachable; the shuffled order visits Zora
    Fountain first.  [fill] raises the error of the gate, and the record
    for the shop, which would raise an unknown-location error, is never
    processed. *)
Lemma fill_reachability_gate_witness :
  fst (fill demo_items demo_groups demo_is_item (fun _ _ => "") demo_get_junk_item
         [] ["Zora Fountain"] demo_LocationFactory (fun _ => Raise (KeyError ""))
         demo_ItemFactory (list (string * string)) demo_push_item
         demo_can_beat_game [demo_fill_world] [0; 1; 2] (demo_fill_state [1; 0; 0]))
  = Raise (FillError
             "Zora Fountain in world 1 is not reachable without Iron Boots in world 1!").
Proof.
  eassert (Hplace :
    place_record demo_items demo_groups demo_is_item (fun _ _ => "")
      demo_get_junk_item [] demo_LocationFactory (fun _ => Raise (KeyError ""))
      demo_ItemFactory (list (string * string)) demo_push_item
      [demo_fill_world] demo_fill_world [0; 1; 2] [demo_fountain]
      "Zora Fountain" "Zora Fountain"
      {| item := Some (PStr "Iron Boots"); player := None; price := None;
         model := None |} []
      (with_pools (with_rng [0] (fs_pools (demo_fill_state [1; 0; 0])))
         (demo_fill_state [1; 0; 0]))
    = (Ok (Placed demo_fountain demo_boots 0, _), _))
    by (vm_compute; reflexivity).
  destruct (fill_reachability_gate demo_items demo_groups demo_is_item
              (fun _ _ => "") demo_get_junk_item [] ["Zora Fountain"]
              demo_LocationFactory (fun _ => Raise (KeyError "")) demo_ItemFactory
              (list (string * string)) demo_push_item demo_can_beat_game
              [demo_fill_world] demo_fill_world [0; 1; 2] [demo_fountain]
              _ _ _ _ _ _ _ _ _ _ Hplace eq_refl eq_refl)
    as (_ & _ & _ & Hfill).
  rewrite (Hfill eq_refl eq_refl (demo_fill_state [1; 0; 0]) []
             [("Kokiri Shop",
               OneRecord {| item := Some (PStr "Bombs"); player := None;
                            price := None; model := None |})]
             [0] eq_refl eq_refl eq_refl eq_refl).
  reflexivity.
Defined.

(* ================================================================== *)
(** * Pulls of the first match and of all matches *)
(* ================================================================== *)

Section FirstFacts.

Context {A : Type}.
Variable eqb : A -> A -> bool.
Hypothesis eqb_spec : forall x y, eqb x y = true <-> x = y.

Lemma first_in_pool_none (p : A -> bool) (l : list A) :
  first_in_pool p l = None <-> forall x, In x l -> p x = false.
Proof.
  induction l as [|y l IH]; simpl.
  - split; [intros _ x [] | reflexivity].
  - destruct (p y) eqn:Hy.
    + split; [discriminate|]. intros H. rewrite (H y) in Hy by now left. discriminate.
    + rewrite IH. split.
      * intros H x [<-|Hx]; [exact Hy | now apply H].
      * intros H x Hx. apply H. now right.
Qed.

Lemma first_in_pool_some (p : A -> bool) (l : list A) (e : A) :
  first_in_pool p l = Some e ->
  p e = true /\
  exists l1 l2, l = l1 ++ e :: l2 /\ forall x, In x l1 -> p x = false.
Proof.
  induction l as [|y l IH]; simpl; [discriminate|].
  destruct (p y) eqn:Hy.
  - intros H; injection H as <-. split; [exact Hy|].
    exists [], l. split; [reflexivity | intros x []].
  - intros H. destruct (IH H) as (Hp & l1 & l2 & -> & Hl1).
    split; [exact Hp|]. exists (y :: l1), l2. split; [reflexivity|].
    intros x [<-|Hx]; [exact Hy | now apply Hl1].
Qed.

(** Removing an element that is the first of the list to satisfy a
    predicate removes it where it stands. *)
Lemma list_remove_first_match (p : A -> bool) (l1 l2 : list A) (e : A) :
  p e = true -> (forall x, In x l1 -> p x = false) ->
  Py.list_remove eqb e (l1 ++ e :: l2) = Some (l1 ++ l2).
Proof.
  intros He Hl1. induction l1 as [|y l1 IH]; simpl.
  - assert (E : eqb e e = true) by now apply eqb_spec. rewrite E. reflexivity.
  - destruct (eqb y e) eqn:E.
    + apply eqb_spec in E. subst y. rewrite (Hl1 e) in He by now left. discriminate.
    + rewrite IH; [reflexivity|]. intros x Hx. apply Hl1. now right.
Qed.

(** The behaviour of a pull of the first match, for its callers as well. *)
Lemma pull_first_element_facts (h : Heap) (pools : list ref)
    (predicate : A -> bool) (remove : bool) :
  let res := fst (pull_first_element eqb h pools predicate remove) in
  let h' := snd (pull_first_element eqb h pools predicate remove) in
  (res = None <-> pools_lack h pools predicate) /\
  (res = None -> h' = h) /\
  (forall e, res = Some e ->
     predicate e = true /\
     exists before r after l1 l2,
       pools = before ++ r :: after /\
       pools_lack h before predicate /\
       deref h r = l1 ++ e :: l2 /\
       (forall x, In x l1 -> predicate x = false) /\
       if remove then
         deref h' r = l1 ++ l2 /\
         (forall r', r' <> r -> deref h' r' = deref h r') /\
         length h' = length h /\
         heap_total h' + 1 = heap_total h
       else h' = h).
Proof.
  induction pools as [|pool pools IH]; simpl.
  - split; [|split].
    + split; [intros _ r e [] | reflexivity].
    + reflexivity.
    + discriminate.
  - destruct (first_in_pool predicate (deref h pool)) as [element|] eqn:Ef.
    + destruct (first_in_pool_some _ _ _ Ef) as (Hp & l1 & l2 & El & Hl1).
      assert (Hin : In element (deref h pool))
        by (rewrite El; apply in_or_app; right; now left).
      assert (Hres : fst (if remove
                          then (Some element, heap_remove eqb h pool element)
                          else (Some element, h)) = Some element)
        by (destruct remove; reflexivity).
      rewrite Hres. split; [|split].
      * split; [discriminate|]. intros H.
        rewrite (H pool element) in Hp; [discriminate | now left | exact Hin].
      * discriminate.
      * intros e E. injection E as <-. split; [exact Hp|].
        exists [], pool, pools, l1, l2. split; [reflexivity|].
        split; [intros r x []|]. split; [exact El|]. split; [exact Hl1|].
        destruct remove; simpl; [|reflexivity].
        pose proof (deref_in_range h pool element Hin) as Hr.
        assert (Eh : heap_remove eqb h pool element = store h pool (l1 ++ l2)).
        { unfold heap_remove. rewrite El.
          rewrite (list_remove_first_match predicate l1 l2 element Hp Hl1).
          reflexivity. }
        rewrite Eh. split; [now apply deref_store_same|].
        split; [intros r' Hne; now apply deref_store_other|].
        split; [apply length_store|].
        pose proof (heap_total_store h pool (l1 ++ l2) Hr) as Ht.
        rewrite El in Ht. rewrite !length_app in Ht. simpl in Ht. lia.
    + destruct IH as (IH1 & IH2 & IH3).
      pose proof (proj1 (first_in_pool_none _ _) Ef) as Hnone.
      split; [|split].
      * rewrite IH1. split.
        -- intros H r e [<-|Hr] He; [now apply Hnone | now apply (H r)].
        -- intros H r e Hr He. apply (H r); [now right | exact He].
      * exact IH2.
      * intros e E. destruct (IH3 e E) as (Hp & before & r & after & l1 & l2 &
                                           -> & Hb & Hrest).
        split; [exact Hp|]. exists (pool :: before), r, after, l1, l2.
        split; [reflexivity|]. split; [|exact Hrest].
        intros r' x [<-|Hr'] Hx; [now apply Hnone | now apply (Hb r')].
Qed.

(** X1: [pull_first_element] returns [None] exactly when no element of
    any pool satisfies the predicate, and then changes nothing.
    Otherwise it returns the first element that satisfies the predicate
    in the first pool that holds one; with [remove] that pool loses the
    element at that very place, every other list object is unchanged and
    the heap holds one element less; without [remove] nothing changes. *)
Theorem pull_first_element_spec (h : Heap) (pools : list ref)
    (predicate : A -> bool) (remove : bool) :
  let res := fst (pull_first_element eqb h pools predicate remove) in
  let h' := snd (pull_first_element eqb h pools predicate remove) in
  (res = None <-> pools_lack h pools predicate) /\
  (res = None -> h' = h) /\
  (forall e, res = Some e ->
     predicate e = true /\
     exists before r after l1 l2,
       pools = before ++ r :: after /\
       pools_lack h before predicate /\
       deref h r = l1 ++ e :: l2 /\
       (forall x, In x l1 -> predicate x = false) /\
       if remove then
         deref h' r = l1 ++ l2 /\
         (forall r', r' <> r -> deref h' r' = deref h r') /\
         length h' = length h /\
         heap_total h' + 1 = heap_total h
       else h' = h).
Proof. exact (pull_first_element_facts h pools predicate remove). Qed.

End FirstFacts.

(** The first pool has no bomb; the second has two kinds: the first of
    them is pulled and removed. *)
Lemma pull_first_element_spec_witness :
  let h := [["Bow"; "Hookshot"]; ["Arrows"; "Bombs"; "Bombchus (5)"]] in
  let p := fun s => Py.startswith s "Bomb" in
  pull_first_element String.eqb h [0; 1] p true
  = (Some "Bombs", [["Bow"; "Hookshot"]; ["Arrows"; "Bombchus (5)"]]) /\
  (fst (pull_first_element String.eqb h [0; 1] p true) = None <->
   pools_lack h [0; 1] p).
Proof.
  split; [reflexivity|].
  exact (proj1 (pull_first_element_spec String.eqb String.eqb_eq
                  [["Bow"; "Hookshot"]; ["Arrows"; "Bombs"; "Bombchus (5)"]]
                  [0; 1] (fun s => Py.startswith s "Bomb") true)).
Defined.

(* ================================================================== *)
(** * [pull_all_elements] *)
(* ================================================================== *)

Lemma nth_error_at {A} (pre suf : list A) :
  nth_error (pre ++ suf) (length pre) = hd_error suf.
Proof.
  induction pre as [|y pre IH]; simpl; [destruct suf; reflexivity | exact IH].
Qed.

Section AllFacts.

Context {A : Type}.
Variable eqb : A -> A -> bool.

Lemma list_remove_length (x : A) (l l' : list A) :
  Py.list_remove eqb x l = Some l' -> S (length l') = length l.
Proof.
  revert l'. induction l as [|y l IH]; simpl; intros l' H; [discriminate|].
  destruct (eqb y x); [injection H as <-; reflexivity|].
  destruct (Py.list_remove eqb x l) as [r|]; [|discriminate].
  injection H as <-. simpl. now rewrite (IH r eq_refl).
Qed.

Lemma heap_remove_shrinks (h : Heap) (r r' : ref) (x : A) :
  length (deref (heap_remove eqb h r x) r') <= length (deref h r').
Proof.
  unfold heap_remove.
  destruct (Py.list_remove eqb x (deref h r)) as [l|] eqn:E; [|lia].
  apply list_remove_length in E.
  destruct (Nat.eq_dec r' r) as [->|Hne].
  - destruct (Nat.lt_ge_cases r (length h)) as [Hr|Hr].
    + rewrite deref_store_same by exact Hr. lia.
    + unfold deref in E. rewrite nth_overflow in E by exact Hr. simpl in E. lia.
  - rewrite deref_store_other by exact Hne. lia.
Qed.

(** The loop has ended when the position has reached the length of the
    list: fuel beyond the number of elements left to visit is not used. *)
Lemma pull_all_loop_enough (p : A -> bool) (remove : bool) (pool : ref) :
  forall fuel h i elements k,
    length (deref h pool) <= i + fuel ->
    pull_all_loop eqb (fuel + k) h pool i p remove elements
    = pull_all_loop eqb fuel h pool i p remove elements.
Proof.
  induction fuel as [|fuel IH]; intros h i elements k Hl.
  - assert (En : nth_error (deref h pool) i = None)
      by (apply nth_error_None; lia).
    destruct k; simpl; [reflexivity | now rewrite En].
  - simpl. destruct (nth_error (deref h pool) i) as [element|]; [|reflexivity].
    destruct (p element).
    + apply IH. destruct remove; [|lia].
      pose proof (heap_remove_shrinks h pool pool element). lia.
    + apply IH. lia.
Qed.

(** Without removal the loop is a filter. *)
Lemma pull_all_loop_keep (p : A -> bool) (h : Heap) (pool : ref) :
  forall fuel pre suf elements,
    deref h pool = pre ++ suf -> length suf <= fuel ->
    pull_all_loop eqb fuel h pool (length pre) p false elements
    = (elements ++ filter p suf, h).
Proof.
  induction fuel as [|fuel IH]; intros pre suf elements E Hf.
  - destruct suf; simpl in Hf; [|lia]. simpl. now rewrite app_nil_r.
  - simpl. rewrite E, nth_error_at. destruct suf as [|x suf]; simpl.
    + now rewrite app_nil_r.
    + simpl in Hf.
      assert (E' : deref h pool = (pre ++ [x]) ++ suf)
        by (rewrite E, <- app_assoc; reflexivity).
      assert (L : S (length pre) = length (pre ++ [x]))
        by (rewrite length_app; simpl; lia).
      rewrite L. destruct (p x).
      * rewrite (IH _ suf _ E') by lia. now rewrite <- app_assoc.
      * now rewrite (IH _ suf _ E') by lia.
Qed.

Lemma pull_all_pools_keep (p : A -> bool) (h : Heap) :
  forall pools elements,
    pull_all_pools eqb h pools p false elements
    = (elements ++ filter p (flat_map (deref h) pools), h).
Proof.
  induction pools as [|pool pools IH]; intros elements; simpl.
  - now rewrite app_nil_r.
  - pose proof (pull_all_loop_keep p h pool _ [] (deref h pool) elements eq_refl
                  (Nat.le_refl _)) as E.
    simpl in E. rewrite E, IH, filter_app, app_assoc. reflexivity.
Qed.

(** X2: without removal, [pull_all_elements] returns the elements that
    satisfy the predicate, pool after pool, each pool in its order (a
    list object given twice is read twice), or [None] when there is none;
    it changes nothing. *)
Theorem pull_all_elements_without_removal (h : Heap) (pools : list ref)
    (predicate : A -> bool) :
  pull_all_elements eqb h pools predicate false
  = (match filter predicate (flat_map (deref h) pools) with
     | [] => None
     | x :: l => Some (x :: l)
     end, h).
Proof.
  unfold pull_all_elements. rewrite pull_all_pools_keep. simpl.
  destruct (filter predicate (flat_map (deref h) pools)); reflexivity.
Qed.

Hypothesis eqb_spec : forall x y, eqb x y = true <-> x = y.

Lemma pull_all_loop_removes (p : A -> bool) (pool : ref) :
  forall fuel h i elements,
    pulled_from p pool h elements (pull_all_loop eqb fuel h pool i p true elements).
Proof.
  induction fuel as [|fuel IH]; intros h i elements.
  - exists []. simpl. rewrite app_nil_r. repeat split; auto; lia.
  - simpl. destruct (nth_error (deref h pool) i) as [element|] eqn:En.
    2:{ exists []. simpl. rewrite app_nil_r. repeat split; auto; lia. }
    apply nth_error_In in En.
    destruct (p element) eqn:Hp; [|apply IH].
    destruct (heap_remove_spec eqb eqb_spec h pool element En)
      as ((l1 & l2 & E1 & Hn1 & E2) & Hother & Hlen & Htot).
    destruct (IH (heap_remove eqb h pool element) (S i) (elements ++ [element]))
      as (new & Hout & Hnew & Hl & Ht & Hsub & Hoth).
    assert (Hback : forall r x, In x (deref (heap_remove eqb h pool element) r) ->
                                In x (deref h r)).
    { intros r x Hx. destruct (Nat.eq_dec r pool) as [->|Hne].
      - rewrite E2 in Hx. rewrite E1. apply in_app_or in Hx. apply in_or_app.
        destruct Hx; [now left | right; now right].
      - now rewrite Hother in Hx. }
    exists (element :: new). split; [rewrite Hout, <- app_assoc; reflexivity|].
    split.
    { constructor; [split; assumption|].
      eapply Forall_impl; [|exact Hnew]. intros a [Ha Hin]. split; [exact Ha|].
      now apply Hback. }
    split; [congruence|]. split; [simpl; lia|]. split.
    + intros r x Hx. apply Hback, Hsub, Hx.
    + intros r Hne. rewrite Hoth by exact Hne. now apply Hother.
Qed.

(** Elements that do not satisfy the predicate are passed over. *)
Lemma pull_all_loop_scan (p : A -> bool) (pool : ref) (remove : bool) (h : Heap) :
  forall l1 fuel pre rest elements,
    (forall x, In x l1 -> p x = false) ->
    deref h pool = pre ++ l1 ++ rest ->
    pull_all_loop eqb (length l1 + fuel) h pool (length pre) p remove elements
    = pull_all_loop eqb fuel h pool (length pre + length l1) p remove elements.
Proof.
  induction l1 as [|x l1 IH]; intros fuel pre rest elements Hl1 E.
  - simpl. now rewrite Nat.add_0_r.
  - simpl. rewrite E, nth_error_at. simpl. rewrite (Hl1 x) by now left.
    assert (E' : deref h pool = (pre ++ [x]) ++ l1 ++ rest)
      by (rewrite E, <- app_assoc; reflexivity).
    assert (L : S (length pre) = length (pre ++ [x]))
      by (rewrite length_app; simpl; lia).
    rewrite L, (IH fuel _ rest elements); [|intros y Hy; apply Hl1; now right|exact E'].
    f_equal. rewrite length_app. simpl. lia.
Qed.

Lemma pull_all_loop_lack (p : A -> bool) (pool : ref) (remove : bool) (h : Heap)
    (elements : list A) :
  (forall x, In x (deref h pool) -> p x = false) ->
  pull_all_loop eqb (length (deref h pool)) h pool 0 p remove elements
  = (elements, h).
Proof.
  intros H.
  pose proof (pull_all_loop_scan p pool remove h (deref h pool) 0 [] [] elements H) as E.
  rewrite Nat.add_0_r, app_nil_r in E. simpl in E. rewrite (E eq_refl).
  reflexivity.
Qed.

Lemma pull_all_loop_finds (p : A -> bool) (pool : ref) (h : Heap) (elements : list A)
    (x : A) :
  In x (deref h pool) -> p x = true ->
  exists y new,
    fst (pull_all_loop eqb (length (deref h pool)) h pool 0 p true elements)
    = elements ++ y :: new.
Proof.
  intros Hin Hp.
  destruct (first_in_pool p (deref h pool)) as [y|] eqn:Ef.
  2:{ rewrite (proj1 (first_in_pool_none p _) Ef x Hin) in Hp. discriminate. }
  destruct (first_in_pool_some p _ _ Ef) as (Hy & l1 & l2 & E & Hl1).
  pose proof (pull_all_loop_scan p pool true h l1 (S (length l2)) [] (y :: l2)
                elements Hl1 E) as Hscan.
  simpl in Hscan.
  assert (L : length (deref h pool) = length l1 + S (length l2))
    by (rewrite E, length_app; reflexivity).
  pose proof (nth_error_at l1 (y :: l2)) as Hn. rewrite <- E in Hn.
  destruct (pull_all_loop_removes p pool (length l2)
              (heap_remove eqb h pool y) (S (length l1)) (elements ++ [y]))
    as (new & Hout & _).
  exists y, new. rewrite L, Hscan. simpl. rewrite Hn. simpl. rewrite Hy.
  rewrite Hout, <- app_assoc. reflexivity.
Qed.

(** The same for the loop over the pools. *)
Lemma pull_all_pools_removes (p : A -> bool) :
  forall pools h elements,
    exists new,
      fst (pull_all_pools eqb h pools p true elements) = elements ++ new /\
      Forall (fun e => p e = true) new /\ taken_from h pools new /\
      length (snd (pull_all_pools eqb h pools p true elements)) = length h /\
      heap_total (snd (pull_all_pools eqb h pools p true elements)) + length new
      = heap_total h /\
      (forall r x, In x (deref (snd (pull_all_pools eqb h pools p true elements)) r) ->
                   In x (deref h r)) /\
      (forall r, ~ In r pools ->
                 deref (snd (pull_all_pools eqb h pools p true elements)) r = deref h r).
Proof.
  induction pools as [|pool pools IH]; intros h elements.
  - exists []. simpl. rewrite app_nil_r. repeat split; auto; try constructor; lia.
  - simpl.
    destruct (pull_all_loop_removes p pool (length (deref h pool)) h 0 elements)
      as (new1 & Hout1 & Hnew1 & Hl1 & Ht1 & Hsub1 & Hoth1).
    destruct (pull_all_loop eqb (length (deref h pool)) h pool 0 p true elements)
      as [elements1 h1]. simpl in Hout1, Hl1, Ht1, Hsub1, Hoth1.
    destruct (IH h1 elements1) as (new2 & Hout2 & Hp2 & Hnew2 & Hl2 & Ht2 & Hsub2 & Hoth2).
    exists (new1 ++ new2). split; [rewrite Hout2, Hout1, <- app_assoc; reflexivity|].
    split.
    { apply Forall_app. split; [|exact Hp2].
      eapply Forall_impl; [|exact Hnew1]. intros a [Ha _]. exact Ha. }
    split.
    { unfold taken_from. apply Forall_app. split.
      - eapply Forall_impl; [|exact Hnew1]. intros a [_ Ha].
        exists pool. split; [now left | exact Ha].
      - eapply Forall_impl; [|exact Hnew2]. intros a (r & Hr & Ha).
        exists r. split; [now right | now apply Hsub1]. }
    split; [congruence|]. split; [rewrite length_app; lia|]. split.
    + intros r x Hx. apply Hsub1, Hsub2, Hx.
    + intros r Hn. rewrite Hoth2 by (intros Hr; apply Hn; now right).
      apply Hoth1. intros ->. apply Hn. now left.
Qed.

Lemma pull_all_pools_lack (p : A -> bool) (remove : bool) :
  forall pools h elements,
    pools_lack h pools p ->
    pull_all_pools eqb h pools p remove elements = (elements, h).
Proof.
  induction pools as [|pool pools IH]; intros h elements H; [reflexivity|].
  simpl. rewrite pull_all_loop_lack by (intros x Hx; apply (H pool); [now left | exact Hx]).
  apply IH. intros r x Hr Hx. apply (H r); [now right | exact Hx].
Qed.

Lemma pull_all_pools_finds (p : A -> bool) :
  forall pools h elements,
    ~ pools_lack h pools p ->
    exists y new,
      fst (pull_all_pools eqb h pools p true elements) = elements ++ y :: new.
Proof.
  induction pools as [|pool pools IH]; intros h elements H.
  - exfalso. apply H. intros r x [].
  - simpl. destruct (first_in_pool p (deref h pool)) as [x|] eqn:Ef.
    + destruct (first_in_pool_some p _ _ Ef) as (Hx & l1 & l2 & E & _).
      assert (Hin : In x (deref h pool))
        by (rewrite E; apply in_or_app; right; now left).
      destruct (pull_all_loop_finds p pool h elements x Hin Hx) as (y & new & Hy).
      destruct (pull_all_loop eqb (length (deref h pool)) h pool 0 p true elements)
        as [elements1 h1]. simpl in Hy.
      destruct (pull_all_pools_removes p pools h1 elements1) as (new2 & Hout & _).
      exists y, (new ++ new2). rewrite Hout, Hy, <- app_assoc. reflexivity.
    + pose proof (proj1 (first_in_pool_none p _) Ef) as Hnone.
      rewrite pull_all_loop_lack by exact Hnone.
      apply IH. intros Hl. apply H. intros r x [<-|Hr] Hx;
        [now apply Hnone | now apply (Hl r)].
Qed.

(** X3: with removal, [pull_all_elements] returns [None] exactly when no
    element of any pool satisfies the predicate, and then changes
    nothing.  Otherwise every element it returns satisfies the predicate
    and was in one of the pools; no list object is created or grows, the
    heap holds as many elements less as were returned, and the list
    objects outside the pools are unchanged. *)
Theorem pull_all_elements_with_removal (h : Heap) (pools : list ref)
    (predicate : A -> bool) :
  let res := fst (pull_all_elements eqb h pools predicate true) in
  let h' := snd (pull_all_elements eqb h pools predicate true) in
  (res = None <-> pools_lack h pools predicate) /\
  (res = None -> h' = h) /\
  (forall l, res = Some l ->
     Forall (fun e => predicate e = true) l /\
     taken_from h pools l /\
     length h' = length h /\
     heap_total h' + length l = heap_total h /\
     (forall r x, In x (deref h' r) -> In x (deref h r)) /\
     (forall r, ~ In r pools -> deref h' r = deref h r)).
Proof.
  unfold pull_all_elements.
  destruct (pull_all_pools_removes predicate pools h [])
    as (new & Hout & Hp & Hfrom & Hl & Ht & Hsub & Hoth).
  assert (Hlack : pools_lack h pools predicate ->
                  pull_all_pools eqb h pools predicate true [] = ([], h))
    by apply pull_all_pools_lack.
  assert (Hfind : fst (pull_all_pools eqb h pools predicate true []) = [] ->
                  pools_lack h pools predicate).
  { intros E. destruct (candidates h pools predicate) as [|c cs] eqn:Ec.
    - exact (proj1 (candidates_nil h pools predicate) Ec).
    - exfalso.
      assert (Hn : ~ pools_lack h pools predicate).
      { intros Hl0. pose proof (proj2 (candidates_nil h pools predicate) Hl0).
        congruence. }
      destruct (pull_all_pools_finds predicate pools h [] Hn) as (y & new' & Hy).
      rewrite E in Hy. discriminate. }
  destruct (pull_all_pools eqb h pools predicate true []) as [elements h1] eqn:Eall.
  simpl in Hout, Hl, Ht, Hsub, Hoth, Hfind. subst elements.
  destruct new as [|x new]; simpl.
  - split; [|split].
    + split; [intros _; now apply Hfind | reflexivity].
    + intros _. specialize (Hlack (Hfind eq_refl)). congruence.
    + discriminate.
  - split; [|split].
    + split; [discriminate|]. intros H. specialize (Hlack H). discriminate.
    + discriminate.
    + intros l E. injection E as <-. repeat split; assumption.
Qed.

End AllFacts.

Lemma store_deref_id {A} (h : @Heap A) (r : ref) : store h r (deref h r) = h.
Proof.
  revert r. induction h as [|x h IH]; intros r; [reflexivity|].
  destruct r; simpl; [reflexivity|]. unfold deref in *. simpl. now rewrite IH.
Qed.

Lemma store_store {A} (h : @Heap A) (r : ref) (a b : list A) :
  store (store h r a) r b = store h r b.
Proof.
  revert r. induction h as [|x h IH]; intros r; [reflexivity|].
  destruct r; simpl; [reflexivity | now rewrite IH].
Qed.

Section PulledAndLeft.

Context {A : Type}.
Variable p : A -> bool.

Lemma pulled_and_left_skip (x : A) (l : list A) :
  p x = false ->
  pulled_and_left p (x :: l)
  = (fst (pulled_and_left p l), x :: snd (pulled_and_left p l)).
Proof.
  intros H. cbn [pulled_and_left]. rewrite H.
  destruct (pulled_and_left p l); reflexivity.
Qed.

Lemma pulled_and_left_pull (x y : A) (l : list A) :
  p x = true ->
  pulled_and_left p (x :: y :: l)
  = (x :: fst (pulled_and_left p l), y :: snd (pulled_and_left p l)).
Proof.
  intros H. cbn [pulled_and_left]. rewrite H.
  destruct (pulled_and_left p l); reflexivity.
Qed.

Lemma pulled_and_left_last (x : A) :
  p x = true -> pulled_and_left p [x] = ([x], []).
Proof. intros H. cbn [pulled_and_left]. now rewrite H. Qed.

Lemma pulled_and_left_in :
  forall n l, length l <= n ->
    (forall x, In x (fst (pulled_and_left p l)) -> In x l) /\
    (forall x, In x (snd (pulled_and_left p l)) -> In x l).
Proof.
  induction n as [|n IH]; intros l Hl.
  - destruct l; simpl in Hl; [|lia]. simpl. tauto.
  - destruct l as [|x l1]; [simpl; tauto|]. simpl in Hl.
    destruct (p x) eqn:Hx.
    + destruct l1 as [|y l2].
      * rewrite pulled_and_left_last by exact Hx. simpl. tauto.
      * simpl in Hl. destruct (IH l2 ltac:(lia)) as [H1 H2].
        rewrite pulled_and_left_pull by exact Hx. cbn [fst snd].
        split; intros z [<-|Hz]; [now left | right; right; now apply H1
                                 | right; now left | right; right; now apply H2].
    + destruct (IH l1 ltac:(lia)) as [H1 H2].
      rewrite pulled_and_left_skip by exact Hx. cbn [fst snd].
      split; [intros z Hz; right; now apply H1|].
      intros z [<-|Hz]; [now left | right; now apply H2].
Qed.

Lemma pulled_in (l : list A) (x : A) :
  In x (fst (pulled_and_left p l)) -> In x l.
Proof. apply (pulled_and_left_in (length l) l (Nat.le_refl _)). Qed.

(** The neighbour of a pulled element is left. *)
Lemma pulled_and_left_adjacent :
  forall n l1 a b l2,
    length l1 <= n ->
    NoDup (l1 ++ a :: b :: l2) ->
    In a (fst (pulled_and_left p (l1 ++ a :: b :: l2))) ->
    ~ In b (fst (pulled_and_left p (l1 ++ a :: b :: l2))) /\
    In b (snd (pulled_and_left p (l1 ++ a :: b :: l2))).
Proof.
  induction n as [|n IH]; intros l1 a b l2 Hl Hnd Ha.
  - destruct l1; simpl in Hl; [|lia]. cbn [app] in *.
    apply NoDup_cons_iff in Hnd. destruct Hnd as [Ha1 Hnd].
    apply NoDup_cons_iff in Hnd. destruct Hnd as [Hb1 Hnd].
    destruct (p a) eqn:Hpa.
    + rewrite pulled_and_left_pull by exact Hpa. cbn [fst snd].
      split; [|now left].
      intros [->|Hb]; [apply Ha1; now left | apply Hb1, (pulled_in l2 b), Hb].
    + exfalso. rewrite pulled_and_left_skip in Ha by exact Hpa. cbn [fst] in Ha.
      apply Ha1, (pulled_in (b :: l2) a), Ha.
  - destruct l1 as [|x l1].
    + apply (IH [] a b l2); [simpl; lia | exact Hnd | exact Ha].
    + simpl in Hl. cbn [app] in *.
      apply NoDup_cons_iff in Hnd. destruct Hnd as [Hx Hnd].
      assert (Hxa : x <> a).
      { intros ->. apply Hx. apply in_or_app. right. now left. }
      assert (Hxb : x <> b).
      { intros ->. apply Hx. apply in_or_app. right. right. now left. }
      destruct (p x) eqn:Hpx.
      * destruct l1 as [|y l1].
        -- exfalso. cbn [app] in *.
           apply NoDup_cons_iff in Hnd. destruct Hnd as [Ha1 Hnd].
           rewrite pulled_and_left_pull in Ha by exact Hpx. cbn [fst] in Ha.
           destruct Ha as [E|Ha];
             [now apply Hxa | apply Ha1, (pulled_in (b :: l2) a), Ha].
        -- cbn [app] in *. simpl in Hl.
           apply NoDup_cons_iff in Hnd. destruct Hnd as [Hy Hnd].
           rewrite pulled_and_left_pull in Ha |- * by exact Hpx.
           cbn [fst snd] in *.
           destruct Ha as [E|Ha]; [exfalso; now apply Hxa|].
           destruct (IH l1 a b l2 ltac:(lia) Hnd Ha) as [H1 H2].
           split; [|now right].
           intros [E|Hb]; [now apply Hxb | now apply H1].
      * rewrite pulled_and_left_skip in Ha |- * by exact Hpx. cbn [fst snd] in *.
        destruct (IH l1 a b l2 ltac:(lia) Hnd Ha) as [H1 H2].
        split; [exact H1 | now right].
Qed.

End PulledAndLeft.

Section SkipFacts.

Context {A : Type}.
Variable eqb : A -> A -> bool.
Hypothesis eqb_spec : forall x y, eqb x y = true <-> x = y.

Lemma list_remove_at (pre rest : list A) (x : A) :
  NoDup (pre ++ x :: rest) ->
  Py.list_remove eqb x (pre ++ x :: rest) = Some (pre ++ rest).
Proof.
  induction pre as [|y pre IH]; simpl; intros Hnd.
  - assert (E : eqb x x = true) by now apply eqb_spec. now rewrite E.
  - apply NoDup_cons_iff in Hnd. destruct Hnd as [Hy Hnd].
    destruct (eqb y x) eqn:E.
    + apply eqb_spec in E. subst y. exfalso. apply Hy. apply in_or_app. right. now left.
    + now rewrite IH.
Qed.

(** With removal, on a list object that holds no element twice, the loop
    pulls and leaves what [pulled_and_left] says. *)
Lemma pull_all_loop_nodup (p : A -> bool) (pool : ref) :
  forall fuel h pre suf elements,
    deref h pool = pre ++ suf -> NoDup (pre ++ suf) -> length suf <= fuel ->
    pull_all_loop eqb fuel h pool (length pre) p true elements
    = (elements ++ fst (pulled_and_left p suf),
       store h pool (pre ++ snd (pulled_and_left p suf))).
Proof.
  induction fuel as [|fuel IH]; intros h pre suf elements E Hnd Hf.
  - destruct suf; simpl in Hf; [|lia]. simpl.
    rewrite !app_nil_r. rewrite app_nil_r in E. rewrite <- E, store_deref_id.
    reflexivity.
  - simpl. rewrite E, nth_error_at. destruct suf as [|x l1];
      cbv beta iota delta [hd_error].
    { simpl. rewrite !app_nil_r. rewrite app_nil_r in E.
      rewrite <- E, store_deref_id. reflexivity. }
    simpl in Hf.
    assert (Hr : pool < length h).
    { apply (deref_in_range h pool x). rewrite E. apply in_or_app. right. now left. }
    assert (L : forall z, S (length pre) = length (pre ++ [z]))
      by (intros z; rewrite length_app; simpl; lia).
    destruct (p x) eqn:Hp.
    + assert (Eh : heap_remove eqb h pool x = store h pool (pre ++ l1)).
      { unfold heap_remove. rewrite E, (list_remove_at pre l1 x Hnd). reflexivity. }
      rewrite Eh. destruct l1 as [|y l2].
      * rewrite pulled_and_left_last by exact Hp. cbn [fst snd].
        destruct fuel as [|fuel].
        -- reflexivity.
        -- cbn [pull_all_loop]. rewrite deref_store_same by exact Hr.
           assert (En : nth_error (pre ++ []) (S (length pre)) = None)
             by (apply nth_error_None; rewrite length_app; simpl; lia).
           rewrite En. reflexivity.
      * simpl in Hf.
        assert (Nd : NoDup ((pre ++ [y]) ++ l2)).
        { apply NoDup_remove_1 in Hnd. rewrite <- app_assoc. exact Hnd. }
        rewrite (L y).
        rewrite (IH (store h pool (pre ++ y :: l2)) (pre ++ [y]) l2 (elements ++ [x]));
          [| rewrite deref_store_same by exact Hr; rewrite <- app_assoc; reflexivity
           | exact Nd | lia].
        rewrite pulled_and_left_pull by exact Hp. cbn [fst snd].
        rewrite store_store, <- !app_assoc. reflexivity.
    + rewrite (L x).
      rewrite (IH h (pre ++ [x]) l1 elements);
        [| rewrite E, <- app_assoc; reflexivity
         | rewrite <- app_assoc; exact Hnd | lia].
      rewrite pulled_and_left_skip by exact Hp. cbn [fst snd].
      rewrite <- !app_assoc. reflexivity.
Qed.

(** X4: with removal, over a list object that holds no element twice,
    [pull_all_elements] never pulls the element that stands right after
    one it has pulled: that element stays in the pool, whether or not it
    satisfies the predicate. *)
Theorem pull_all_elements_skips_next (h h' : Heap) (pool : ref)
    (predicate : A -> bool) (l1 l2 : list A) (a b : A) (pulled : list A) :
  NoDup (deref h pool) ->
  deref h pool = l1 ++ a :: b :: l2 ->
  pull_all_elements eqb h [pool] predicate true = (Some pulled, h') ->
  In a pulled ->
  ~ In b pulled /\ In b (deref h' pool).
Proof.
  intros Hnd E Hrun Ha.
  assert (Hr : pool < length h).
  { apply (deref_in_range h pool a). rewrite E. apply in_or_app. right. now left. }
  pose proof (pull_all_loop_nodup predicate pool (length (deref h pool)) h []
                (deref h pool) [] eq_refl Hnd (Nat.le_refl _)) as Hloop.
  cbn [length app] in Hloop.
  unfold pull_all_elements in Hrun. cbn [pull_all_pools] in Hrun.
  rewrite Hloop in Hrun. clear Hloop.
  rewrite E in Hrun, Hnd.
  assert (Hpulled : pulled = fst (pulled_and_left predicate (l1 ++ a :: b :: l2)) /\
                    h' = store h pool (snd (pulled_and_left predicate
                                              (l1 ++ a :: b :: l2)))).
  { destruct (pulled_and_left predicate (l1 ++ a :: b :: l2)) as [u v].
    cbn [fst snd] in *. destruct u; [discriminate|].
    injection Hrun as <- <-. split; reflexivity. }
  destruct Hpulled as [-> ->].
  rewrite deref_store_same by exact Hr.
  exact (pulled_and_left_adjacent predicate (length l1) l1 a b l2
           (Nat.le_refl _) Hnd Ha).
Qed.

End SkipFacts.

(** Every name of the pool is a bottle: the empty bottle is pulled, the
    bottle of milk that follows stays. *)
Lemma pull_all_elements_with_removal_witness :
  let h := [["Bottle"; "Bottle with Milk"; "Bow"]] in
  let p := fun s => Py.startswith s "Bottle" in
  pull_all_elements String.eqb h [0] p true
  = (Some ["Bottle"], [["Bottle with Milk"; "Bow"]]) /\
  (fst (pull_all_elements String.eqb h [0] p true) = None <-> pools_lack h [0] p).
Proof.
  split; [reflexivity|].
  exact (proj1 (pull_all_elements_with_removal String.eqb String.eqb_eq
                  [["Bottle"; "Bottle with Milk"; "Bow"]] [0]
                  (fun s => Py.startswith s "Bottle"))).
Defined.

Lemma pull_all_elements_skips_next_witness :
  ~ In "Bottle with Milk" ["Bottle"] /\
  In "Bottle with Milk" (deref [["Bottle with Milk"; "Bow"]] 0).
Proof.
  apply (pull_all_elements_skips_next String.eqb String.eqb_eq
           [["Bottle"; "Bottle with Milk"; "Bow"]] [["Bottle with Milk"; "Bow"]] 0
           (fun s => Py.startswith s "Bottle") [] ["Bow"]
           "Bottle" "Bottle with Milk" ["Bottle"]).
  - repeat constructor; simpl; intuition discriminate.
  - reflexivity.
  - reflexivity.
  - now left.
Defined.

(* ================================================================== *)
(** * Pulls by name *)
(* ================================================================== *)

#[export] Instance PoolElementLaws_Location : PoolElementLaws Location.
Proof.
  intros [n w t p] [n' w' t' p']. unfold elt_eqb; simpl. unfold Location_eqb; simpl.
  rewrite !andb_true_iff, !Nat.eqb_eq, !String.eqb_eq, option_Z_eqb_eq.
  split; [intros (((-> & ->) & ->) & ->); reflexivity|].
  intros H; injection H; intros; subst; tauto.
Qed.

Section PullNamedFacts.

Variable ItemInfo_items : list (string * string).
Variable item_groups : Dict.odict (list string).

Context {E : Type} {PE : PoolElement E} {EL : PoolElementLaws E}.

Lemma in_world_true (world : nat) (m : string -> bool) (e : E) :
  in_world world m e = true <-> elt_world e = world /\ m (elt_name e) = true.
Proof. unfold in_world. now rewrite andb_true_iff, Nat.eqb_eq. Qed.

(** X5: an element that [pull_item_or_location] returns belongs to the
    world asked for and was in one of the pools; its name is the name
    asked for when that is a plain name, and matches it as a pattern
    otherwise.  A plain name never raises, leaves [self] and the random
    source alone, and yields [None] exactly when no element of the pools
    has that world and that name.  Without [remove] the list objects are
    left as they were. *)
Theorem pull_item_or_location_sound (pools : list ref) (world : nat)
    (name : string) (remove : bool) (s : PState E) :
  let out := pull_item_or_location ItemInfo_items item_groups pools world name
               remove s in
  (forall e, fst out = Ok (Some e) ->
     elt_world e = world /\
     (exists r, In r pools /\ In e (deref (st_heap s) r)) /\
     (is_pattern name = false -> elt_name e = name) /\
     (is_pattern name = true ->
      exists m, fst (pattern_matcher_str ItemInfo_items item_groups name (st_self s))
                = Ok m /\ m (elt_name e) = true)) /\
  (is_pattern name = false ->
     (exists found, fst out = Ok found) /\
     st_self (snd out) = st_self s /\ st_rng (snd out) = st_rng s /\
     (fst out = Ok None <->
      forall r e, In r pools -> In e (deref (st_heap s) r) ->
                  elt_world e = world -> elt_name e <> name)) /\
  (remove = false -> st_heap (snd out) = st_heap s).
Proof.
  intros out. subst out. unfold pull_item_or_location.
  destruct (is_pattern name) eqn:Hpat.
  - unfold bind, self_pattern_matcher, lift_self, pattern_matcher, get, put, ret.
    destruct (pattern_matcher_str ItemInfo_items item_groups name (st_self s))
      as [[m|ex] w']; cbn [fst snd with_self st_heap st_rng].
    2:{ split; [discriminate|]. split; [discriminate | reflexivity]. }
    pose proof (pull_random_element_facts elt_eqb elt_eqb_eq (st_heap s) pools
                  (in_world world m) remove (st_rng s)) as F.
    destruct (pull_random_element elt_eqb (st_heap s) pools (in_world world m)
                remove (st_rng s)) as [[found h'] g'].
    cbn [fst snd] in F. destruct F as (_ & Fnone & Fsome).
    cbn [fst snd with_rng with_heap st_heap st_self st_rng].
    split; [|split; [discriminate|]].
    + intros e He. injection He as ->.
      destruct (Fsome e eq_refl) as (Hp & r & Hr & Hin & _).
      apply in_world_true in Hp. destruct Hp as [Hw Hm].
      split; [exact Hw|]. split; [exists r; tauto|]. split; [discriminate|].
      intros _. exists m. tauto.
    + intros ->. destruct found as [e|].
      * destruct (Fsome e eq_refl) as (_ & r & _ & _ & Hh). exact Hh.
      * now apply Fnone.
  - unfold bind, get, put, ret.
    pose proof (pull_first_element_facts elt_eqb elt_eqb_eq (st_heap s) pools
                  (in_world world (fun n => String.eqb n name)) remove) as F.
    destruct (pull_first_element elt_eqb (st_heap s) pools
                (in_world world (fun n => String.eqb n name)) remove)
      as [found h'].
    cbn [fst snd] in F. destruct F as (Fiff & Fnone & Fsome).
    cbn [fst snd with_heap st_heap st_self st_rng].
    split; [|split].
    + intros e He. injection He as ->.
      destruct (Fsome e eq_refl) as (Hp & before & r & after & l1 & l2 &
                                     -> & _ & El & _).
      apply in_world_true in Hp. destruct Hp as [Hw Hm].
      apply String.eqb_eq in Hm.
      split; [exact Hw|]. split.
      { exists r. split; [apply in_or_app; right; now left|].
        rewrite El. apply in_or_app. right. now left. }
      split; [intros _; exact Hm | discriminate].
    + intros _. split; [exists found; reflexivity|].
      split; [reflexivity|]. split; [reflexivity|]. split.
      * intros Hn. injection Hn as ->.
        pose proof (proj1 Fiff eq_refl) as Hl.
        intros r e Hr He Hw Hname. specialize (Hl r e Hr He).
        assert (Ht : in_world world (fun n => String.eqb n name) e = true)
          by (apply in_world_true; split; [exact Hw | now apply String.eqb_eq]).
        congruence.
      * intros Hall. f_equal. apply Fiff. intros r e Hr He.
        destruct (in_world world (fun n => String.eqb n name) e) eqn:Ht;
          [|reflexivity].
        apply in_world_true in Ht. destruct Ht as [Hw Hm].
        apply String.eqb_eq in Hm. exfalso. exact (Hall r e Hr He Hw Hm).
    + intros ->. destruct found as [e|].
      * destruct (Fsome e eq_refl) as (_ & before & r & after & l1 & l2 &
                                       _ & _ & _ & _ & Hh). exact Hh.
      * now apply Fnone.
Qed.

End PullNamedFacts.

(** The bow of world 1 is asked for by its name: the bow of world 0,
    which comes first, is passed over. *)
Lemma pull_item_or_location_sound_witness :
  let bow w u := {| item_uid := u; item_name := "Bow"; item_world := w;
                    item_type := "Item"; item_advancement := true;
                    item_price := None |} in
  let s := {| st_self := demo_self; st_heap := [[bow 0 0; bow 1 1]];
              st_rng := [] |} in
  let out := pull_item_or_location [] [] [0] 1 "Bow" true s in
  fst out = Ok (Some (bow 1 1)) /\
  st_heap (snd out) = [[bow 0 0]] /\
  (forall e, fst out = Ok (Some e) ->
     elt_world e = 1 /\
     (exists r, In r [0] /\ In e (deref (st_heap s) r)) /\
     (is_pattern "Bow" = false -> elt_name e = "Bow") /\
     (is_pattern "Bow" = true ->
      exists m, fst (pattern_matcher_str [] [] "Bow" (st_self s)) = Ok m /\
                m (elt_name e) = true)).
Proof.
  intros bow s out. split; [reflexivity|]. split; [reflexivity|].
  exact (proj1 (pull_item_or_location_sound [] [] [0] 1 "Bow" true s)).
Defined.

(* ================================================================== *)
(** * [strip_output_only] *)
(* ================================================================== *)

(** Induction on documents, through their lists and dictionaries. *)
Lemma doc_induction (P : doc -> Prop) :
  P DNone -> (forall b, P (DBool b)) -> (forall z, P (DInt z)) ->
  (forall s, P (DStr s)) ->
  (forall l, Forall P l -> P (DList l)) ->
  (forall d, Forall (fun kv => P (snd kv)) d -> P (DDict d)) ->
  forall a, P a.
Proof.
  intros HNone HBool HInt HStr HList HDict.
  fix IH 1. intros [|b|z|s|l|d].
  - exact HNone.
  - apply HBool.
  - apply HInt.
  - apply HStr.
  - apply HList. revert l. fix IHl 1. intros [|x l].
    + constructor.
    + constructor; [apply IH | apply IHl].
  - apply HDict. revert d. fix IHd 1. intros [|[k v] d].
    + constructor.
    + constructor; [apply IH | apply IHd].
Qed.

(** The entries of a stripped dictionary. *)
Lemma strip_output_only_entries (d : list (string * doc)) :
  strip_output_only (DDict d)
  = DDict (map (fun kv => (fst kv, strip_output_only (snd kv)))
               (filter (fun kv => negb (is_output_only (fst kv))) d)).
Proof.
  simpl. f_equal. induction d as [|[k v] d IH]; [reflexivity|].
  simpl. destruct (is_output_only k); simpl; [exact IH | now rewrite IH].
Qed.

Lemma fold_del_other (k : string) (v : doc) (keys : list string) :
  forall d, (forall key, In key keys -> key <> k) ->
    fold_left (fun obj key => Dict.del obj key) keys ((k, v) :: d)
    = (k, v) :: fold_left (fun obj key => Dict.del obj key) keys d.
Proof.
  induction keys as [|key keys IH]; intros d H; [reflexivity|].
  simpl. destruct (String.eqb_spec k key) as [E|_].
  - exfalso. apply (H key); [now left | now symmetry].
  - apply IH. intros key' Hk. apply H. now right.
Qed.

(** Deleting the output-only keys one by one leaves the other entries,
    in their order. *)
Lemma del_output_only_filter (d : Dict.odict doc) :
  del_output_only d = filter (fun kv => negb (is_output_only (fst kv))) d.
Proof.
  unfold del_output_only. induction d as [|[k v] d IH]; [reflexivity|].
  simpl. destruct (is_output_only k) eqn:Ek; simpl.
  - rewrite String.eqb_refl. exact IH.
  - rewrite fold_del_other; [now rewrite IH|].
    intros key Hkey ->. apply filter_In in Hkey. destruct Hkey as [_ Hk]. congruence.
Qed.

Lemma get_map_values {V W} (f : V -> W) (d : Dict.odict V) (k : string) :
  Dict.get (map (fun kv => (fst kv, f (snd kv))) d) k = option_map f (Dict.get d k).
Proof.
  induction d as [|[k' v] d IH]; [reflexivity|].
  simpl. destruct (String.eqb k' k); [reflexivity | exact IH].
Qed.

Lemma get_filter_keys {V} (keep : string -> bool) (d : Dict.odict V) (k : string) :
  Dict.get (filter (fun kv => keep (fst kv)) d) k
  = if keep k then Dict.get d k else None.
Proof.
  induction d as [|[k' v] d IH]; simpl; [now destruct (keep k)|].
  destruct (keep k') eqn:Ek'; simpl.
  - destruct (String.eqb_spec k' k) as [->|_]; [now rewrite Ek' | exact IH].
  - destruct (String.eqb_spec k' k) as [->|_]; [now rewrite IH, Ek' | exact IH].
Qed.

Lemma strip_output_only_no_key (obj : doc) :
  has_output_only (strip_output_only obj) = false.
Proof.
  induction obj as [|b|z|s|l IH|d IH] using doc_induction; try reflexivity.
  - simpl. induction IH as [|x l Hx _ IHl]; [reflexivity|].
    simpl. now rewrite Hx, IHl.
  - simpl. induction IH as [|[k v] d Hv _ IHd]; [reflexivity|].
    simpl in Hv. destruct (is_output_only k) eqn:Ek; [exact IHd|].
    simpl. now rewrite Ek, Hv, IHd.
Qed.

(** X6: once [strip_output_only] has returned, no dictionary of the
    document, at any depth under lists and dictionaries, has a key that
    starts with a colon. *)
Theorem strip_output_only_clean (obj : doc) :
  has_output_only (strip_output_only obj) = false.
Proof. exact (strip_output_only_no_key obj). Qed.

(** X7: [strip_output_only] turns a dictionary into the dictionary left
    by [del obj[key]] for each of its output-only keys, with every value
    stripped in turn; so a key that starts with a colon is gone, and any
    other key holds its former value, stripped.  A list is stripped
    element by element, and any other value is left as it is. *)
Theorem strip_output_only_keeps :
  (forall d,
     strip_output_only (DDict d)
     = DDict (map (fun kv => (fst kv, strip_output_only (snd kv)))
                  (del_output_only d))) /\
  (forall d d' k,
     strip_output_only (DDict d) = DDict d' ->
     Dict.get d' k = if is_output_only k then None
                     else option_map strip_output_only (Dict.get d k)) /\
  (forall l, strip_output_only (DList l) = DList (map strip_output_only l)) /\
  (forall obj, (forall l, obj <> DList l) -> (forall d, obj <> DDict d) ->
               strip_output_only obj = obj).
Proof.
  split; [|split; [|split]].
  - intros d. rewrite del_output_only_filter. apply strip_output_only_entries.
  - intros d d' k E. rewrite strip_output_only_entries in E. injection E as <-.
    rewrite get_map_values,
      (get_filter_keys (fun key => negb (is_output_only key)) d k).
    destruct (is_output_only k); reflexivity.
  - reflexivity.
  - intros [|b|z|s|l|d] Hl Hd; try reflexivity.
    + exfalso. now apply (Hl l).
    + exfalso. now apply (Hd d).
Qed.

(** X8: a document without output-only keys is left as it is, and
    stripping twice is stripping once: a dictionary that is reached twice
    ends as if it had been reached once. *)
Theorem strip_output_only_idempotent (obj : doc) :
  (has_output_only obj = false -> strip_output_only obj = obj) /\
  strip_output_only (strip_output_only obj) = strip_output_only obj.
Proof.
  assert (Hfix : forall a, has_output_only a = false -> strip_output_only a = a).
  { intros a. induction a as [|b|z|s|l IH|d IH] using doc_induction;
      try reflexivity.
    - intros H. simpl in H. simpl. f_equal.
      induction IH as [|x l Hx _ IHl]; [reflexivity|].
      simpl in H. apply orb_false_iff in H. destruct H as [H1 H2].
      simpl. now rewrite Hx, IHl.
    - intros H. simpl in H. simpl. f_equal.
      induction IH as [|[k v] d Hv _ IHd]; [reflexivity|].
      simpl in Hv. apply orb_false_iff in H. destruct H as [H H3].
      apply orb_false_iff in H. destruct H as [H1 H2].
      rewrite H1. now rewrite Hv, IHd. }
  split; [apply Hfix|]. apply Hfix, strip_output_only_no_key.
Qed.

(* ================================================================== *)
(** * [add_location] *)
(* ================================================================== *)

Lemma set_absent {V} (d : Dict.odict V) (k : string) (v : V) :
  Dict.get d k = None -> Dict.set d k v = d ++ [(k, v)].
Proof.
  induction d as [|[k' v'] d IH]; simpl; [reflexivity|].
  destruct (String.eqb k' k); [discriminate|]. intros H. now rewrite IH.
Qed.

Lemma list_set_middle {A} (done rest : list A) (x y : A) :
  list_set (length done) y (done ++ x :: rest) = done ++ y :: rest.
Proof. induction done as [|z done IH]; simpl; [reflexivity | now rewrite IH]. Qed.

Section AddLocationFacts.

Variable ItemInfo_items : list (string * string).
Variable item_groups : Dict.odict (list string).

Local Notation "'compile'" := (pattern_matcher_str ItemInfo_items item_groups).

(** Compiling a pattern raises nothing but the [KeyError] of an unknown
    group, and then leaves [self] as it was; when it returns it has
    changed at most the memoized major group. *)
Lemma pattern_matcher_str_outcome (p : string) (w : WorldDistribution) :
  (exists m, fst (compile p w) = Ok m /\
             snd (compile p w) = set_major_group (major_group (snd (compile p w))) w) \/
  (exists msg, compile p w = (Raise (KeyError msg), w)).
Proof.
  destruct (compile p w) as [[m|e] w'] eqn:E.
  - left. exists m. split; [reflexivity|].
    exact (proj1 (pattern_matcher_str_stable _ _ p w w' m E)).
  - right. revert E. unfold pattern_matcher_str.
    destruct (Py.startswith (if Py.startswith p "!" then Py.drop_first p else p) "#");
      [|discriminate].
    unfold bind, get.
    destruct (Dict.get (search_groups w) _) as [group|].
    + destruct (_ =? "#MajorItem"); [|discriminate].
      destruct (major_group w); discriminate.
    + unfold raise. intros H. injection H as <- <-. eexists. reflexivity.
Qed.

(** A name that is no pattern compiles to the test of equality. *)
Lemma compile_name (k : string) (w : WorldDistribution) :
  is_pattern k = false ->
  exists m, compile k w = (Ok m, w) /\ forall s, m s = String.eqb s k.
Proof.
  unfold is_pattern. intros H.
  apply orb_false_iff in H. destruct H as [H Hend].
  apply orb_false_iff in H. destruct H as [H Hhash].
  apply orb_false_iff in H. destruct H as [Hbang Hstar].
  exists (wildcard_matcher false k). split.
  - now apply compile_plain.
  - intros s. now apply wildcard_exact.
Qed.

(** The loop over the keys: it leaves the records alone, fails only with
    a [KeyError], and passes only if no key that is a plain name is the
    new location. *)
Lemma add_location_check_run (new_location : string) :
  forall keys w,
    let out := add_location_check ItemInfo_items item_groups new_location keys w in
    locations (snd out) = locations w /\
    (fst out = Ok tt \/ exists msg, fst out = Raise (KeyError msg)) /\
    (fst out = Ok tt ->
     forall k, In k keys -> is_pattern k = false -> k <> new_location).
Proof.
  induction keys as [|location keys IH]; intros w; cbn [add_location_check].
  - simpl. split; [reflexivity|]. split; [now left|]. intros _ k [].
  - unfold bind.
    destruct (pattern_matcher_str_outcome location w) as [(m & Em & Ew)|(msg & Er)].
    + destruct (compile location w) as [o w1] eqn:E. simpl in Em, Ew. subst o.
      assert (Hloc : locations w1 = locations w) by (rewrite Ew; reflexivity).
      destruct (m new_location) eqn:Hm.
      * simpl. split; [exact Hloc|]. split; [right; eexists; reflexivity|].
        discriminate.
      * specialize (IH w1). cbv zeta in IH. destruct IH as (IH1 & IH2 & IH3).
        split; [congruence|]. split; [exact IH2|].
        intros Hok k [<-|Hk] Hplain; [|now apply IH3].
        destruct (compile_name location w Hplain) as (m' & Em' & Hm').
        rewrite E in Em'. injection Em' as <-.
        rewrite Hm' in Hm. intros ->. now rewrite String.eqb_refl in Hm.
    + rewrite Er. simpl. split; [reflexivity|].
      split; [right; eexists; reflexivity | discriminate].
Qed.

Lemma add_location_run (new_location new_item : string) (w : WorldDistribution) :
  let out := add_location ItemInfo_items item_groups new_location new_item w in
  (fst out = Ok tt \/ exists msg, fst out = Raise (KeyError msg)) /\
  (forall e, fst out = Raise e -> locations (snd out) = locations w) /\
  (fst out = Ok tt ->
   locations (snd out)
   = Dict.set (locations w) new_location (OneRecord (record_of_item new_item)) /\
   forall k, In k (Dict.keys (locations w)) -> is_pattern k = false ->
             k <> new_location).
Proof.
  unfold add_location, bind, get, modify.
  pose proof (add_location_check_run new_location (Dict.keys (locations w)) w) as H.
  cbv zeta in H.
  destruct (add_location_check ItemInfo_items item_groups new_location
              (Dict.keys (locations w)) w) as [[[]|e] w1].
  - simpl in H |- *. destruct H as (H1 & _ & H3).
    split; [now left|]. split; [discriminate|]. intros _.
    split; [now rewrite H1 | now apply H3].
  - simpl in H |- *. destruct H as (H1 & H2 & _).
    split; [exact H2|]. split; [intros _ _; exact H1 | discriminate].
Qed.

(** X9: [WorldDistribution.add_location] fails only with a [KeyError],
    and then leaves the records as they were.  When it succeeds every
    other key keeps its record; and for a new location that is a plain
    name, success means that the name had no record: the new record, with
    the item and nothing else, is added after the others.  A plain name
    that has a record already is always refused. *)
Theorem add_location_never_overwrites (new_location new_item : string)
    (w : WorldDistribution) :
  let out := add_location ItemInfo_items item_groups new_location new_item w in
  (fst out = Ok tt \/ exists msg, fst out = Raise (KeyError msg)) /\
  (forall e, fst out = Raise e -> locations (snd out) = locations w) /\
  (fst out = Ok tt ->
   forall k, k <> new_location ->
             Dict.get (locations (snd out)) k = Dict.get (locations w) k) /\
  (is_pattern new_location = false ->
   (fst out = Ok tt ->
    Dict.get (locations w) new_location = None /\
    locations (snd out)
    = locations w ++ [(new_location, OneRecord (record_of_item new_item))]) /\
   (Dict.mem (locations w) new_location = true ->
    exists msg, fst out = Raise (KeyError msg))).
Proof.
  intros out. subst out.
  destruct (add_location_run new_location new_item w) as (H1 & H2 & H3).
  split; [exact H1|]. split; [exact H2|]. split.
  - intros Hok k Hk. destruct (H3 Hok) as [-> _]. now apply get_set_other.
  - intros Hplain.
    assert (Habsent : fst (add_location ItemInfo_items item_groups new_location
                             new_item w) = Ok tt ->
                      Dict.get (locations w) new_location = None).
    { intros Hok. destruct (H3 Hok) as [_ Hkeys].
      apply get_None_keys. intros Hin. now apply (Hkeys new_location Hin Hplain). }
    split.
    + intros Hok. split; [now apply Habsent|].
      destruct (H3 Hok) as [-> _]. apply set_absent. now apply Habsent.
    + intros Hmem. destruct H1 as [Hok|Hr]; [|exact Hr].
      apply mem_get in Hmem. exfalso. apply Hmem. now apply Habsent.
Qed.

(** The loop of [Distribution.add_location], from the world at a given
    position on. *)
Lemma Distribution_add_location_loop (new_location new_item : string) :
  let try_world := add_location ItemInfo_items item_groups new_location new_item in
  let refused w := match fst (try_world w) with Ok _ => false | Raise _ => true end in
  forall rest done printed,
    for_each (seq (length done) (length rest))
      (fun i =>
         try_except (on_world_dist i try_world)
           (fun e => if is_key_error e then Some (print_line excluded_location_line)
                     else None))
      {| ds_world_dists := done ++ rest; ds_printed := printed |}
    = (Ok tt,
       {| ds_world_dists := done ++ map (fun w => snd (try_world w)) rest;
          ds_printed := printed ++ repeat excluded_location_line
                                     (length (filter refused rest)) |}).
Proof.
  intros try_world refused.
  induction rest as [|w rest IH]; intros done printed.
  - simpl. rewrite !app_nil_r. reflexivity.
  - cbn [length seq for_each map filter]. unfold bind at 1.
    unfold try_except at 1, on_world_dist at 1. cbn [ds_world_dists ds_printed].
    assert (Hn' : nth_error (done ++ w :: rest) (length done) = Some w).
    { clear. induction done as [|z done IHd]; [reflexivity | exact IHd]. }
    rewrite Hn'.
    destruct (add_location_run new_location new_item w) as (Hout & _ & _).
    fold try_world in Hout. unfold refused at 1.
    destruct (try_world w) as [[[]|e] w'] eqn:Ew; cbn [fst snd] in Hout |- *;
      rewrite list_set_middle.
    + specialize (IH (done ++ [w']) printed).
      rewrite length_app in IH. simpl length in IH.
      rewrite Nat.add_1_r, <- !app_assoc in IH. simpl app in IH.
      exact IH.
    + destruct Hout as [Hout|[msg Hout]]; [discriminate|]. injection Hout as ->.
      cbn [is_key_error]. unfold print_line, modify.
      cbn [ds_world_dists ds_printed].
      specialize (IH (done ++ [w']) (printed ++ [excluded_location_line])).
      rewrite length_app in IH. simpl length in IH.
      rewrite Nat.add_1_r, <- !app_assoc in IH. simpl app in IH.
      exact IH.
Qed.

(** X10: [Distribution.add_location] never raises: it runs
    [add_location] in every world distribution in turn, keeps whatever
    each call leaves, and prints one line for each world in which the
    call failed. *)
Theorem Distribution_add_location_total (new_location new_item : string)
    (d : DistState) :
  let try_world := add_location ItemInfo_items item_groups new_location new_item in
  let refused w := match fst (try_world w) with Ok _ => false | Raise _ => true end in
  Distribution_add_location ItemInfo_items item_groups new_location new_item d
  = (Ok tt,
     {| ds_world_dists := map (fun w => snd (try_world w)) (ds_world_dists d);
        ds_printed := ds_printed d ++ repeat excluded_location_line
                                        (length (filter refused (ds_world_dists d))) |}).
Proof.
  intros try_world refused. unfold Distribution_add_location, bind, get.
  destruct d as [wds printed]. cbn [ds_world_dists ds_printed].
  exact (Distribution_add_location_loop new_location new_item wds [] printed).
Qed.

End AddLocationFacts.

(** The plan has a record for every chest: a chest is refused; the
    fountain is added after the records that were there. *)
Lemma add_location_never_overwrites_witness :
  fst (add_location [] [] "KF Midos Top Left Chest" "Bow" demo_plan_self)
  = Raise location_exists /\
  (fst (add_location [] [] "Zora Fountain" "Bow" demo_plan_self) = Ok tt ->
   Dict.get (locations demo_plan_self) "Zora Fountain" = None /\
   locations (snd (add_location [] [] "Zora Fountain" "Bow" demo_plan_self))
   = locations demo_plan_self
     ++ [("Zora Fountain", OneRecord (record_of_item "Bow"))]).
Proof.
  split; [reflexivity|].
  exact (proj1 (proj2 (proj2 (proj2 (add_location_never_overwrites [] []
                                       "Zora Fountain" "Bow" demo_plan_self)))
                 eq_refl)).
Defined.

(* ================================================================== *)
(** * Trials, dungeons and randomized settings of the plan *)
(* ================================================================== *)

(** Names taken out of a list that holds no name twice are no longer in
    it. *)
Lemma list_remove_nodup (x : string) (l l' : list string) :
  Py.list_remove String.eqb x l = Some l' -> NoDup l ->
  NoDup l' /\ ~ In x l' /\ forall y, In y l' -> In y l.
Proof.
  intros H Hnd.
  assert (Hin : In x l).
  { destruct (in_dec string_dec x l) as [Hi|Hn]; [exact Hi|].
    apply (list_remove_none String.eqb String.eqb_eq) in Hn. congruence. }
  destruct (list_remove_in String.eqb String.eqb_eq x l Hin) as (l1 & l2 & -> & Hn1 & E).
  rewrite E in H. injection H as <-.
  pose proof (NoDup_remove _ _ _ Hnd) as [Hnd' Hx].
  split; [exact Hnd'|]. split; [exact Hx|].
  intros y Hy. apply in_app_or in Hy. apply in_or_app.
  destruct Hy; [now left | right; now right].
Qed.

Lemma remove_names_nodup (names : list string) :
  forall l l', remove_names names l = Some l' -> NoDup l ->
    NoDup l' /\ (forall x, In x names -> ~ In x l') /\ forall y, In y l' -> In y l.
Proof.
  induction names as [|x names IH]; intros l l' H Hnd; simpl in H.
  - injection H as <-. split; [exact Hnd|]. split; [intros x []| auto].
  - destruct (Py.list_remove String.eqb x l) as [l1|] eqn:E; [|discriminate].
    destruct (list_remove_nodup x l l1 E Hnd) as (Hnd1 & Hx1 & Hsub1).
    destruct (IH l1 l' H Hnd1) as (Hnd' & Hn' & Hsub').
    split; [exact Hnd'|]. split.
    + intros y [<-|Hy]; [|now apply Hn'].
      intros Hin. apply Hx1. now apply Hsub'.
    + intros y Hy. now apply Hsub1, Hsub'.
Qed.

Lemma configure_trials_loop :
  forall (l : Dict.odict TrialRecord) (acc pool : list string),
    match remove_names (names_where (decided active) l) pool with
    | Some pool' =>
        fold_m l acc trial_step pool
        = (Ok (acc ++ names_where (affirmed active) l), pool')
    | None => fst (fold_m l acc trial_step pool) = Raise not_in_list
    end.
Proof.
  intros l. induction l as [|[name [a]] l IH]; intros acc pool.
  - simpl. now rewrite app_nil_r.
  - assert (Estep : fold_m ((name, {| active := a |}) :: l) acc trial_step pool
                    = match a with
                      | None => fold_m l acc trial_step pool
                      | Some chosen =>
                          match Py.list_remove String.eqb name pool with
                          | Some pool1 =>
                              fold_m l (if chosen then acc ++ [name] else acc)
                                trial_step pool1
                          | None => (Raise not_in_list, pool)
                          end
                      end).
    { cbn [fold_m]. unfold bind at 1. unfold trial_step at 1. cbn [active].
      destruct a as [chosen|]; [|reflexivity].
      unfold bind, get, put, ret, names_remove.
      destruct (Py.list_remove String.eqb name pool); reflexivity. }
    rewrite Estep. clear Estep.
    unfold names_where, decided, affirmed. cbn [filter snd fst active].
    destruct a as [chosen|].
    + cbn [map fst remove_names].
      destruct (Py.list_remove String.eqb name pool) as [pool1|]; [|reflexivity].
      specialize (IH (if chosen then acc ++ [name] else acc) pool1).
      unfold names_where, decided, affirmed in IH.
      destruct (remove_names _ pool1) as [pool'|]; [|exact IH].
      rewrite IH. destruct chosen; [|reflexivity].
      cbn [map fst]. now rewrite <- app_assoc.
    + exact (IH acc pool).
Qed.

(** X11: [configure_trials] takes every trial the plan decides, active or
    not, out of the pool it is given, one copy each and in the order of
    the plan, and returns the names of the trials the plan makes active;
    it raises [ValueError] when a decided trial is not in the pool.  When
    the pool holds no name twice, no trial the plan has decided is left
    in it for the random choice. *)
Theorem configure_trials_spec (self : WorldChoices) (trial_pool : list string) :
  match remove_names (names_where (decided active) (trials self)) trial_pool with
  | Some pool' =>
      configure_trials self trial_pool
      = (Ok (names_where (affirmed active) (trials self)), pool') /\
      (NoDup trial_pool ->
       forall name, In name (names_where (decided active) (trials self)) ->
                    ~ In name pool')
  | None => fst (configure_trials self trial_pool) = Raise not_in_list
  end.
Proof.
  unfold configure_trials.
  pose proof (configure_trials_loop (trials self) [] trial_pool) as H.
  destruct (remove_names (names_where (decided active) (trials self)) trial_pool)
    as [pool'|] eqn:E; [|exact H].
  split; [exact H|].
  intros Hnd name Hname.
  now apply (proj1 (proj2 (remove_names_nodup _ _ _ E Hnd))).
Qed.

(* ================================================================== *)
(** * [configure_dungeons] *)
(* ================================================================== *)

Lemma mem_set {V} (d : Dict.odict V) (k n : string) (v : V) :
  Dict.mem (Dict.set d k v) n = Dict.mem d n || String.eqb n k.
Proof.
  unfold Dict.mem. destruct (String.eqb_spec n k) as [->|Hne].
  - rewrite get_set_same. now rewrite orb_true_r.
  - rewrite get_set_other by exact Hne. now rewrite orb_false_r.
Qed.

Lemma keys_set_present {V} (d : Dict.odict V) (k : string) (v : V) :
  Dict.mem d k = true -> Dict.keys (Dict.set d k v) = Dict.keys d.
Proof.
  unfold Dict.mem, Dict.keys. induction d as [|[k' v'] d IH]; simpl; [discriminate|].
  destruct (String.eqb k' k) eqn:E; simpl; [reflexivity|].
  intros H. now rewrite IH.
Qed.

Lemma configure_mq_loop :
  forall (l : Dict.odict DungeonRecord) (acc : Z) (s : DungeonState),
    match remove_names (names_where (decided mq) l) (mq_dungeon_pool s) with
    | Some pool' =>
        fold_m l acc dungeon_mq_step s
        = (Ok (acc + Z.of_nat (length (names_where (affirmed mq) l)))%Z,
           {| mq_dungeon_pool := pool';
              empty_dungeon_pool := empty_dungeon_pool s;
              dungeon_mq := set_true (names_where (affirmed mq) l) (dungeon_mq s);
              world_empty_dungeons := world_empty_dungeons s |})
    | None => fst (fold_m l acc dungeon_mq_step s) = Raise not_in_list
    end.
Proof.
  intros l. induction l as [|[name [a]] l IH]; intros acc s.
  - simpl. rewrite Z.add_0_r. destruct s; reflexivity.
  - assert (Estep :
      fold_m ((name, {| mq := a |}) :: l) acc dungeon_mq_step s
      = match a with
        | None => fold_m l acc dungeon_mq_step s
        | Some is_mq =>
            match Py.list_remove String.eqb name (mq_dungeon_pool s) with
            | Some pool1 =>
                fold_m l (if is_mq then acc + 1 else acc)%Z dungeon_mq_step
                  {| mq_dungeon_pool := pool1;
                     empty_dungeon_pool := empty_dungeon_pool s;
                     dungeon_mq := if is_mq then Dict.set (dungeon_mq s) name true
                                   else dungeon_mq s;
                     world_empty_dungeons := world_empty_dungeons s |}
            | None => (Raise not_in_list, s)
            end
        end).
    { cbn [fold_m]. unfold bind at 1. unfold dungeon_mq_step at 1. cbn [mq].
      destruct a as [is_mq|]; [|reflexivity].
      unfold bind, get, put, ret, names_remove.
      destruct (Py.list_remove String.eqb name (mq_dungeon_pool s));
        [|reflexivity].
      destruct is_mq; reflexivity. }
    rewrite Estep. clear Estep.
    unfold names_where, decided, affirmed. cbn [filter snd fst mq].
    destruct a as [is_mq|].
    + cbn [map fst remove_names].
      destruct (Py.list_remove String.eqb name (mq_dungeon_pool s)) as [pool1|];
        [|reflexivity].
      match goal with
      | |- context [fold_m l ?a dungeon_mq_step ?st] => specialize (IH a st)
      end.
      cbn [mq_dungeon_pool empty_dungeon_pool dungeon_mq world_empty_dungeons] in IH.
      unfold names_where, decided, affirmed in IH.
      destruct (remove_names _ pool1) as [pool'|]; [|exact IH].
      rewrite IH. destruct is_mq; [|reflexivity].
      cbn [map fst length set_true fold_left]. do 2 f_equal. lia.
    + exact (IH acc s).
Qed.

Lemma set_true_keys (l : list string) :
  forall d, forallb (Dict.mem d) l = true ->
    Dict.keys (set_true l d) = Dict.keys d.
Proof.
  unfold set_true. induction l as [|n l IH]; intros d H; [reflexivity|].
  simpl in H. apply andb_true_iff in H. destruct H as [Hn Hl].
  simpl. rewrite IH.
  - now apply keys_set_present.
  - rewrite forallb_forall in Hl |- *. intros x Hx.
    rewrite mem_set, (Hl x Hx). reflexivity.
Qed.

Lemma configure_empty_loop :
  forall (l : Dict.odict EmptyDungeonRecord) (acc : Z) (s : DungeonState),
    match remove_names (names_where (decided empty) l) (empty_dungeon_pool s),
          forallb (Dict.mem (world_empty_dungeons s)) (names_where (affirmed empty) l)
    with
    | Some pool', true =>
        fold_m l acc dungeon_empty_step s
        = (Ok (acc + Z.of_nat (length (names_where (affirmed empty) l)))%Z,
           {| mq_dungeon_pool := mq_dungeon_pool s;
              empty_dungeon_pool := pool';
              dungeon_mq := dungeon_mq s;
              world_empty_dungeons :=
                set_true (names_where (affirmed empty) l) (world_empty_dungeons s) |})
    | _, _ => exists e, fst (fold_m l acc dungeon_empty_step s) = Raise e
    end.
Proof.
  intros l. induction l as [|[name [a]] l IH]; intros acc s.
  - simpl. rewrite Z.add_0_r. destruct s; reflexivity.
  - assert (Estep :
      fold_m ((name, {| empty := a |}) :: l) acc dungeon_empty_step s
      = match a with
        | None => fold_m l acc dungeon_empty_step s
        | Some is_empty =>
            match Py.list_remove String.eqb name (empty_dungeon_pool s) with
            | Some pool1 =>
                let s1 := {| mq_dungeon_pool := mq_dungeon_pool s;
                             empty_dungeon_pool := pool1;
                             dungeon_mq := dungeon_mq s;
                             world_empty_dungeons := world_empty_dungeons s |} in
                if is_empty then
                  if Dict.mem (world_empty_dungeons s) name then
                    fold_m l (acc + 1)%Z dungeon_empty_step
                      {| mq_dungeon_pool := mq_dungeon_pool s;
                         empty_dungeon_pool := pool1;
                         dungeon_mq := dungeon_mq s;
                         world_empty_dungeons :=
                           Dict.set (world_empty_dungeons s) name true |}
                  else (Raise (KeyError name), s1)
                else fold_m l acc dungeon_empty_step s1
            | None => (Raise not_in_list, s)
            end
        end).
    { cbn [fold_m]. unfold bind at 1. unfold dungeon_empty_step at 1. cbn [empty].
      destruct a as [is_empty|]; [|reflexivity].
      unfold bind, get, put, ret, names_remove.
      destruct (Py.list_remove String.eqb name (empty_dungeon_pool s));
        [|reflexivity].
      cbn [lift_outcome]. unfold ret. destruct is_empty; [|reflexivity].
      cbn [world_empty_dungeons mq_dungeon_pool empty_dungeon_pool dungeon_mq].
      destruct (Dict.mem (world_empty_dungeons s) name); reflexivity. }
    rewrite Estep. clear Estep.
    unfold names_where, decided, affirmed. cbn [filter snd fst empty].
    destruct a as [is_empty|].
    + cbn [map fst remove_names].
      destruct (Py.list_remove String.eqb name (empty_dungeon_pool s)) as [pool1|].
      2:{ eexists. reflexivity. }
      cbv zeta. destruct is_empty.
      * cbn [map fst forallb].
        destruct (Dict.mem (world_empty_dungeons s) name) eqn:Hmem.
        2:{ cbn [andb]. destruct (remove_names _ pool1); eexists; reflexivity. }
        cbn [andb].
        match goal with
        | |- context [fold_m l ?a dungeon_empty_step ?st] => specialize (IH a st)
        end.
        cbn [mq_dungeon_pool empty_dungeon_pool dungeon_mq world_empty_dungeons] in IH.
        unfold names_where, decided, affirmed in IH.
        destruct (remove_names _ pool1) as [pool'|]; [|exact IH].
        assert (Hall : forall names,
                  forallb (Dict.mem (Dict.set (world_empty_dungeons s) name true)) names
                  = forallb (Dict.mem (world_empty_dungeons s)) names).
        { intros names. induction names as [|n names IHn]; [reflexivity|].
          simpl. rewrite IHn, mem_set. f_equal.
          destruct (String.eqb_spec n name) as [->|_];
            [now rewrite Hmem | now rewrite orb_false_r]. }
        rewrite Hall in IH.
        destruct (forallb (Dict.mem (world_empty_dungeons s)) _); [|exact IH].
        rewrite IH. cbn [length set_true fold_left]. do 2 f_equal. lia.
      * match goal with
        | |- context [fold_m l ?a dungeon_empty_step ?st] => specialize (IH a st)
        end.
        cbn [mq_dungeon_pool empty_dungeon_pool dungeon_mq world_empty_dungeons] in IH.
        unfold names_where, decided, affirmed in IH.
        exact IH.
    + exact (IH acc s).
Qed.

(** X12: [configure_dungeons] succeeds exactly when every dungeon the
    plan decides, master quest or not, empty or not, is in the pool it is
    to leave, and every dungeon the plan empties is a dungeon of the
    world.  It then returns the number of dungeons the plan makes master
    quest and the number it empties, has taken each decided dungeon out
    of its pool, and has marked the affirmed ones in the world, whose set
    of dungeons is unchanged.  Otherwise it raises. *)
Theorem configure_dungeons_spec (self : WorldChoices) (s : DungeonState) :
  let mq_names := names_where (affirmed mq) (dungeons self) in
  let empty_names := names_where (affirmed empty) (empty_dungeons self) in
  match remove_names (names_where (decided mq) (dungeons self)) (mq_dungeon_pool s),
        remove_names (names_where (decided empty) (empty_dungeons self))
                     (empty_dungeon_pool s),
        forallb (Dict.mem (world_empty_dungeons s)) empty_names
  with
  | Some mq_pool, Some empty_pool, true =>
      configure_dungeons self s
      = (Ok (Z.of_nat (length mq_names), Z.of_nat (length empty_names)),
         {| mq_dungeon_pool := mq_pool;
            empty_dungeon_pool := empty_pool;
            dungeon_mq := set_true mq_names (dungeon_mq s);
            world_empty_dungeons := set_true empty_names (world_empty_dungeons s) |})
      /\ Dict.keys (set_true empty_names (world_empty_dungeons s))
         = Dict.keys (world_empty_dungeons s)
  | _, _, _ => exists e, fst (configure_dungeons self s) = Raise e
  end.
Proof.
  intros mq_names empty_names. unfold configure_dungeons, bind.
  pose proof (configure_mq_loop (dungeons self) 0 s) as Hmq.
  destruct (remove_names (names_where (decided mq) (dungeons self))
              (mq_dungeon_pool s)) as [mq_pool|].
  2:{ destruct (fold_m (dungeons self) 0%Z dungeon_mq_step s) as [[n|e] s1];
        simpl in Hmq; [discriminate|]. eexists. reflexivity. }
  rewrite Hmq. clear Hmq.
  match goal with
  | |- context [fold_m (empty_dungeons self) 0%Z dungeon_empty_step ?st] =>
      pose proof (configure_empty_loop (empty_dungeons self) 0 st) as Hempty
  end.
  cbn [mq_dungeon_pool empty_dungeon_pool dungeon_mq world_empty_dungeons] in Hempty.
  fold empty_names in Hempty.
  destruct (remove_names (names_where (decided empty) (empty_dungeons self))
              (empty_dungeon_pool s)) as [empty_pool|].
  2:{ destruct Hempty as [e He].
      destruct (fold_m (empty_dungeons self) 0%Z dungeon_empty_step _) as [[n|e'] s1];
        simpl in He; [discriminate|]. eexists. reflexivity. }
  destruct (forallb (Dict.mem (world_empty_dungeons s)) empty_names) eqn:Hall.
  2:{ destruct Hempty as [e He].
      destruct (fold_m (empty_dungeons self) 0%Z dungeon_empty_step _) as [[n|e'] s1];
        simpl in He; [discriminate|]. eexists. reflexivity. }
  rewrite Hempty. split; [reflexivity|]. now apply set_true_keys.
Qed.

(** A plan that decides two trials of four, and two dungeons of three. *)
Example configure_trials_demo :
  configure_trials demo_choices ["Forest"; "Fire"; "Water"; "Spirit"]
  = (Ok ["Forest"], ["Water"; "Spirit"]) /\
  fst (configure_trials demo_choices ["Forest"; "Water"; "Spirit"])
  = Raise not_in_list.
Proof. split; reflexivity. Qed.

Example configure_dungeons_demo :
  configure_dungeons demo_choices demo_dungeon_state
  = (Ok (1%Z, 1%Z),
     {| mq_dungeon_pool := ["Water Temple"];
        empty_dungeon_pool := ["Deku Tree"];
        dungeon_mq := [("Deku Tree", true); ("Fire Temple", false)];
        world_empty_dungeons := [("Deku Tree", false); ("Fire Temple", true)] |}).
Proof. reflexivity. Qed.

(* ================================================================== *)
(** * [configure_randomized_settings] *)
(* ================================================================== *)

Lemma mem_keys {V} (d : Dict.odict V) (k : string) :
  Dict.mem d k = true <-> In k (Dict.keys d).
Proof.
  rewrite mem_get. pose proof (get_None_keys d k) as H.
  destruct (Dict.get d k); split; intros H1; try congruence.
  - destruct (in_dec string_dec k (Dict.keys d)) as [Hi|Hn]; [exact Hi|].
    apply H in Hn. discriminate.
  - exfalso. now apply (proj1 H).
Qed.

Lemma mem_same_keys {V W} (d : Dict.odict V) (d' : Dict.odict W) (k : string) :
  Dict.keys d' = Dict.keys d -> Dict.mem d' k = Dict.mem d k.
Proof.
  intros E. destruct (Dict.mem d k) eqn:H.
  - apply mem_keys. rewrite E. now apply mem_keys.
  - destruct (Dict.mem d' k) eqn:H'; [|reflexivity].
    apply mem_keys in H'. rewrite E in H'. apply mem_keys in H'. congruence.
Qed.

Lemma randomized_loop (id : nat) :
  forall (l : Dict.odict doc) (world : SettingsWorld),
    let out := for_each l (randomized_step id) world in
    Dict.keys (settings_attrs (snd out)) = Dict.keys (settings_attrs world) /\
    (NoDup (randomized_list world) -> NoDup (randomized_list (snd out))) /\
    (forall n, In n (randomized_list world) -> In n (randomized_list (snd out))) /\
    (forall k, ~ In k (Dict.keys l) ->
               Dict.get (settings_attrs (snd out)) k
               = Dict.get (settings_attrs world) k) /\
    (fst out = Ok tt <->
     forall name, In name (Dict.keys l) ->
                  Dict.mem (settings_attrs world) name = true) /\
    (fst out = Ok tt ->
     (forall name, In name (Dict.keys l) -> In name (randomized_list (snd out))) /\
     (NoDup (Dict.keys l) ->
      forall name v, In (name, v) l ->
                     Dict.get (settings_attrs (snd out)) name = Some v)).
Proof.
  induction l as [|[name record] l IH]; intros world.
  - simpl. split; [reflexivity|]. split; [auto|]. split; [auto|].
    split; [reflexivity|]. split; [split; [intros _ name [] | reflexivity]|].
    intros _. split; [intros name [] | intros _ name v []].
  - set (world1 := {| settings_attrs := Dict.set (settings_attrs world) name record;
                      randomized_list :=
                        if negb (Py.mem name (randomized_list world))
                        then randomized_list world ++ [name]
                        else randomized_list world |}).
    assert (Erun : for_each ((name, record) :: l) (randomized_step id) world
                   = if Dict.mem (settings_attrs world) name
                     then for_each l (randomized_step id) world1
                     else (Raise (unknown_random_setting id name), world)).
    { cbn [for_each]. unfold bind at 1. unfold randomized_step at 1.
      unfold bind at 1, get at 1.
      destruct (Dict.mem (settings_attrs world) name); reflexivity. }
    cbv zeta. rewrite Erun. clear Erun.
    destruct (Dict.mem (settings_attrs world) name) eqn:Hmem.
    +
      specialize (IH world1). cbv zeta in IH.
      destruct IH as (Hkeys & Hnd & Hin & Hget & Hok & Hdone).
      assert (Hk1 : Dict.keys (settings_attrs world1) = Dict.keys (settings_attrs world))
        by (apply keys_set_present; exact Hmem).
      assert (Hname : In name (randomized_list world1)).
      { unfold world1. cbn [randomized_list].
        destruct (Py.mem name (randomized_list world)) eqn:Hm; cbn [negb].
        - now apply mem_In.
        - apply in_or_app. right. now left. }
      assert (Hold : forall n, In n (randomized_list world) ->
                               In n (randomized_list world1)).
      { intros n Hn. unfold world1. cbn [randomized_list].
        destruct (negb (Py.mem name (randomized_list world)));
          [apply in_or_app; now left | exact Hn]. }
      split; [congruence|]. split.
      { intros H0. apply Hnd. unfold world1. cbn [randomized_list].
        destruct (Py.mem name (randomized_list world)) eqn:Hm; cbn [negb];
          [exact H0|].
        apply NoDup_app; [exact H0 | repeat constructor; intros [] | ].
        intros x Hx [<-|[]]. apply mem_In in Hx. congruence. }
      split; [intros n Hn; apply Hin, Hold, Hn|]. split.
      { intros k Hk. rewrite Hget by (intros Hi; apply Hk; now right).
        unfold world1. cbn [settings_attrs]. apply get_set_other.
        intros ->. apply Hk. now left. }
      split.
      { rewrite Hok. split.
        - intros H n [<-|Hn]; [exact Hmem|].
          rewrite <- (mem_same_keys _ _ n Hk1). now apply H.
        - intros H n Hn. rewrite (mem_same_keys _ _ n Hk1). apply H. now right. }
      intros Hrun. destruct (Hdone Hrun) as [Hall Hval]. split.
      { intros n [<-|Hn]; [apply Hin, Hname | now apply Hall]. }
      intros Hnd0 n v [E|Hnv].
      * injection E as <- <-. simpl in Hnd0. apply NoDup_cons_iff in Hnd0.
        destruct Hnd0 as [Hn0 _]. rewrite Hget by exact Hn0.
        unfold world1. cbn [settings_attrs]. apply get_set_same.
      * simpl in Hnd0. apply NoDup_cons_iff in Hnd0. destruct Hnd0 as [_ Hnd0].
        now apply Hval.
    + cbn [fst snd]. split; [reflexivity|]. split; [auto|].
      split; [auto|]. split; [reflexivity|]. split; [|discriminate].
      split; [discriminate|]. intros H.
      rewrite (H name) in Hmem by now left. discriminate.
Qed.

(** X13: [configure_randomized_settings] never gives the settings object
    an attribute it did not have, and keeps [randomized_list] free of
    repetitions without dropping a name from it.  It succeeds exactly
    when every name of the plan's [randomized_settings] is an attribute
    of the settings; then every such name is in [randomized_list] and
    holds the value the plan gives it. *)
Theorem configure_randomized_settings_spec (id : nat) (self : WorldChoices)
    (world : SettingsWorld) :
  let out := configure_randomized_settings id self world in
  Dict.keys (settings_attrs (snd out)) = Dict.keys (settings_attrs world) /\
  (NoDup (randomized_list world) -> NoDup (randomized_list (snd out))) /\
  (forall n, In n (randomized_list world) -> In n (randomized_list (snd out))) /\
  (fst out = Ok tt <->
   forall name, In name (Dict.keys (randomized_settings self)) ->
                Dict.mem (settings_attrs world) name = true) /\
  (fst out = Ok tt ->
   (forall name, In name (Dict.keys (randomized_settings self)) ->
                 In name (randomized_list (snd out))) /\
   (NoDup (Dict.keys (randomized_settings self)) ->
    forall name v, In (name, v) (randomized_settings self) ->
                   Dict.get (settings_attrs (snd out)) name = Some v)).
Proof.
  intros out. subst out. unfold configure_randomized_settings.
  destruct (randomized_loop id (randomized_settings self) world)
    as (H1 & H2 & H3 & _ & H5 & H6).
  repeat split; try assumption; try (apply H5); try (apply H6; assumption).
Qed.

(* ================================================================== *)
(** * [set_complete_itempool] *)
(* ================================================================== *)

Section CompletePoolFacts.

Variable dungeonitem : Item -> bool.

(** The record of a name that has been counted [n] times. *)
Local Notation "'counted_record' n" :=
  (match n%nat with
   | O => None
   | S _ => Some {| ipr_type := "set"; ipr_count := Z.of_nat n%nat |}
   end) (at level 10, n at level 9).

Lemma counted_app (seen : list Item) (it : Item) (name : string) :
  counted dungeonitem (seen ++ [it]) name
  = counted dungeonitem seen name
    + (if negb (left_out dungeonitem it) && String.eqb (item_name it) name
       then 1 else 0).
Proof.
  unfold counted. rewrite filter_app, length_app. simpl.
  destruct (negb (left_out dungeonitem it) && String.eqb (item_name it) name);
    reflexivity.
Qed.

Lemma count_loop :
  forall (pool seen : list Item) (w : WorldDistribution),
    (forall name, Dict.get (item_pool w) name
                  = counted_record (counted dungeonitem seen name)) ->
    let out := for_each pool (count_item dungeonitem) w in
    fst out = Ok tt /\
    snd out = set_item_pool (item_pool (snd out)) w /\
    forall name, Dict.get (item_pool (snd out)) name
                 = counted_record (counted dungeonitem (seen ++ pool) name).
Proof.
  induction pool as [|it pool IH]; intros seen w Hinv.
  - simpl. rewrite app_nil_r. split; [reflexivity|]. split; [|exact Hinv].
    destruct w; reflexivity.
  - set (w1 := if left_out dungeonitem it then w
               else match Dict.get (item_pool w) (item_name it) with
                    | Some r =>
                        set_item_pool
                          (Dict.set (item_pool w) (item_name it)
                             {| ipr_type := ipr_type r;
                                ipr_count := ipr_count r + 1 |}) w
                    | None =>
                        set_item_pool
                          (Dict.set (item_pool w) (item_name it)
                             {| ipr_type := "set"; ipr_count := 1 |}) w
                    end).
    assert (Erun : for_each (it :: pool) (count_item dungeonitem) w
                   = for_each pool (count_item dungeonitem) w1).
    { cbn [for_each]. unfold bind at 1. unfold count_item at 1. unfold w1.
      destruct (left_out dungeonitem it); [reflexivity|].
      unfold bind at 1, get at 1.
      destruct (Dict.get (item_pool w) (item_name it)); reflexivity. }
    cbv zeta. rewrite Erun. clear Erun.
    assert (Hw1 : w1 = set_item_pool (item_pool w1) w).
    { unfold w1. destruct (left_out dungeonitem it); [destruct w; reflexivity|].
      destruct (Dict.get (item_pool w) (item_name it)); reflexivity. }
    destruct (IH (seen ++ [it]) w1) as (H1 & H2 & H3).
    { intros name. rewrite counted_app. unfold w1.
      destruct (left_out dungeonitem it) eqn:Hout; cbn [negb andb].
      - rewrite Nat.add_0_r. apply Hinv.
      - rewrite (Hinv (item_name it)).
        destruct (String.eqb_spec (item_name it) name) as [<-|Hne].
        + destruct (counted dungeonitem seen (item_name it)) as [|n] eqn:Ec;
            cbn [item_pool set_item_pool]; rewrite get_set_same.
          * reflexivity.
          * rewrite Nat.add_1_r. cbn [ipr_type ipr_count]. do 2 f_equal. lia.
        + rewrite Nat.add_0_r.
          destruct (counted dungeonitem seen (item_name it)) as [|n];
            cbn [item_pool set_item_pool];
            (rewrite get_set_other by (intros E; apply Hne; now symmetry));
            apply Hinv. }
    split; [exact H1|]. split.
    + rewrite H2 at 1. rewrite Hw1. destruct w; reflexivity.
    + intros name. rewrite <- app_assoc in H3. apply H3.
Qed.

(** X14: [set_complete_itempool] never raises and changes nothing of
    [self] but [item_pool], which it builds anew: a name has an entry
    exactly when the pool holds an item of that name that is no dungeon
    item, drop, event or dungeon reward, and the entry is a ['set']
    record whose count is the number of those items. *)
Theorem set_complete_itempool_counts (pool : list Item) (self : WorldDistribution) :
  let out := set_complete_itempool dungeonitem pool self in
  fst out = Ok tt /\
  snd out = set_item_pool (item_pool (snd out)) self /\
  forall name,
    Dict.get (item_pool (snd out)) name
    = match counted dungeonitem pool name with
      | O => None
      | S n => Some {| ipr_type := "set"; ipr_count := Z.of_nat (S n) |}
      end.
Proof.
  intros out. subst out.
  assert (Erun : set_complete_itempool dungeonitem pool self
                 = for_each pool (count_item dungeonitem) (set_item_pool [] self))
    by reflexivity.
  rewrite Erun.
  destruct (count_loop pool [] (set_item_pool [] self)) as (H1 & H2 & H3);
    [reflexivity|].
  split; [exact H1|]. split.
  - rewrite H2 at 1. destruct self; reflexivity.
  - intros name. rewrite H3. cbn [app].
    destruct (counted dungeonitem pool name); reflexivity.
Qed.

End CompletePoolFacts.

(** Two settings of the plan on a world that has randomized one of them,
    and a pool of two bows, a key, a drop and a bag of bombs. *)
Example configure_randomized_settings_demo :
  configure_randomized_settings 0 demo_choices demo_settings_world
  = (Ok tt,
     {| settings_attrs := [("bridge", DStr "open"); ("trials", DInt 2)];
        randomized_list := ["bridge"; "trials"] |}).
Proof. reflexivity. Qed.

Example set_complete_itempool_demo :
  item_pool
    (snd (set_complete_itempool demo_dungeonitem
            [demo_item 0 "Bow" "Item";
             demo_item 1 "Small Key (Forest Temple)" "SmallKey";
             demo_item 2 "Bow" "Item"; demo_item 3 "Deku Nuts (5)" "Drop";
             demo_item 4 "Bombs" "Item"] demo_plan_self))
  = [("Bow", {| ipr_type := "set"; ipr_count := 2 |});
     ("Bombs", {| ipr_type := "set"; ipr_count := 1 |})].
Proof. reflexivity. Qed.

(* ================================================================== *)
(** * Text ids of gossip stones: written and read back *)
(* ================================================================== *)

Lemma holds_from_spec (p : Z -> bool) :
  forall n z, holds_from n z p = true ->
    forall k, (z <= k < z + Z.of_nat n)%Z -> p k = true.
Proof.
  induction n as [|n IH]; intros z H k Hk; [lia|].
  cbn [holds_from] in H. apply andb_true_iff in H. destruct H as [Hz Hrest].
  destruct (Z.eq_dec k z) as [->|Hne]; [exact Hz|].
  apply (IH (z + 1)%Z Hrest). lia.
Qed.

(** Every id of four hexadecimal digits, by computation. *)
Lemma textid_all_read_back :
  holds_from (Z.to_nat 65536) 0 reads_back = true.
Proof. vm_compute. reflexivity. Qed.

Lemma substring_all (s : string) : substring 0 (String.length s) s = s.
Proof. induction s as [|c s IH]; simpl; [reflexivity | now rewrite IH]. Qed.

Lemma match_hex4_first (c : ascii) (s : string) :
  is_hex_digit c = false -> match_hex4 (String c s) = None.
Proof.
  intros H. destruct s as [|b [|c' [|d rest]]]; simpl; try reflexivity.
  now rewrite H.
Qed.

Lemma match_hex4_second (a c : ascii) (s : string) :
  is_hex_digit c = false -> match_hex4 (String a (String c s)) = None.
Proof.
  intros H. destruct s as [|c' [|d rest]]; simpl; try reflexivity.
  rewrite H. now rewrite andb_false_r.
Qed.

(** After ["0x"] only the digits are read. *)
Lemma match_textid_0x (t : string) :
  match_textid ("0x" ++ t) = match_hex4 t.
Proof.
  unfold match_textid, after_prefix. cbn [append].
  change (Py.startswith (Py.lower (String "0" (String "x" t))) "$") with false.
  change (Py.startswith (Py.lower (String "0" (String "x" t))) "x") with false.
  change (Py.startswith (Py.lower (String "0" (String "x" t))) "0x") with true.
  cbv iota. cbn [or_else String.length Nat.sub substring].
  rewrite Nat.sub_0_r, substring_all.
  destruct (match_hex4 t); [reflexivity|].
  cbn [or_else]. now rewrite match_hex4_second.
Qed.

(** The digits that [format] writes. *)
Lemma hex_digits_length (fuel : nat) :
  forall z acc, String.length acc <= String.length (hex_digits fuel z acc).
Proof.
  induction fuel as [|fuel IH]; intros z acc; simpl; [lia|].
  destruct (z / 16 =? 0)%Z; simpl; [lia|].
  specialize (IH (z / 16)%Z (String (hex_upper (z mod 16)) acc)). simpl in IH. lia.
Qed.

Lemma hex_digits_long (k : nat) :
  forall fuel z acc,
    (16 ^ Z.of_nat k <= z)%Z -> k < fuel ->
    k + 1 + String.length acc <= String.length (hex_digits fuel z acc).
Proof.
  induction k as [|k IH]; intros fuel z acc Hz Hf.
  - destruct fuel as [|fuel]; [lia|]. simpl.
    destruct (z / 16 =? 0)%Z; simpl; [lia|].
    pose proof (hex_digits_length fuel (z / 16)%Z (String (hex_upper (z mod 16)) acc)).
    simpl in H. lia.
  - destruct fuel as [|fuel]; [lia|]. simpl.
    assert (H16 : (16 ^ Z.of_nat k <= z / 16)%Z).
    { rewrite Nat2Z.inj_succ, Z.pow_succ_r in Hz by lia.
      apply Z.div_le_lower_bound; lia. }
    assert (Hpos : (0 < 16 ^ Z.of_nat k)%Z) by (apply Z.pow_pos_nonneg; lia).
    destruct (Z.eqb_spec (z / 16) 0) as [E|_]; [lia|].
    specialize (IH fuel (z / 16)%Z (String (hex_upper (z mod 16)) acc) H16
                  ltac:(lia)).
    simpl in IH. lia.
Qed.

Lemma hex_upper_not_newline (n : Z) :
  (0 <= n < 16)%Z -> hex_upper n <> ascii_of_nat 10.
Proof.
  intros H. assert (Hn : exists m, n = Z.of_nat m /\ m < 16).
  { exists (Z.to_nat n). split; lia. }
  destruct Hn as (m & -> & Hm).
  do 16 (destruct m as [|m]; [vm_compute; discriminate|]). lia.
Qed.

(** No character of the digits is a line feed. *)
Lemma hex_digits_no_newline (fuel : nat) :
  forall z acc,
    (forall pre post, acc <> (pre ++ String (ascii_of_nat 10) post)%string) ->
    forall pre post, hex_digits fuel z acc <> (pre ++ String (ascii_of_nat 10) post)%string.
Proof.
  induction fuel as [|fuel IH]; intros z acc Hacc; simpl; [exact Hacc|].
  assert (Hacc' : forall pre post,
            String (hex_upper (z mod 16)) acc
            <> (pre ++ String (ascii_of_nat 10) post)%string).
  { intros [|c pre] post; simpl; intros E; injection E as E1 E2.
    - revert E1. apply hex_upper_not_newline. apply Z.mod_pos_bound. lia.
    - now apply (Hacc pre post). }
  destruct (z / 16 =? 0)%Z; [exact Hacc'|]. now apply IH.
Qed.

Lemma match_hex4_long (s : string) :
  4 < String.length s ->
  (forall pre post, s <> (pre ++ String (ascii_of_nat 10) post)%string) ->
  match_hex4 s = None.
Proof.
  intros Hl Hn. destruct s as [|a [|b [|c [|d [|e rest]]]]]; simpl in Hl; try lia.
  unfold match_hex4.
  assert (E1 : (String e rest =? "") = false) by reflexivity.
  assert (E2 : (String e rest =? newline) = false).
  { apply String.eqb_neq. unfold newline. intros E. injection E as -> ->.
    apply (Hn (String a (String b (String c (String d "")))) ""). reflexivity. }
  rewrite E1, E2. cbn [orb]. now rewrite andb_false_r.
Qed.

(** X15: the key that [update_spoiler] writes for a hint whose stone has
    no name, ["0x%04X"] of the stone id, is read back by the pattern of
    [configure_gossip] as that id exactly when the id has at most four
    hexadecimal digits: an id from 0 to 65535.  A negative id and an id
    of five digits or more are written, but the key is not read as an
    id. *)
Theorem textid_round_trip (loc : Z) :
  ((0 <= loc < 65536)%Z -> explicit_textid (textid_key loc) = Some loc) /\
  ((loc < 0 \/ 65536 <= loc)%Z -> explicit_textid (textid_key loc) = None).
Proof.
  split.
  - intros [H0 H1].
    pose proof (holds_from_spec reads_back (Z.to_nat 65536) 0
                  textid_all_read_back loc) as H.
    assert (Hk : (0 <= loc < 0 + Z.of_nat (Z.to_nat 65536))%Z)
      by (rewrite Z2Nat.id; lia).
    specialize (H Hk). unfold reads_back in H.
    destruct (explicit_textid (textid_key loc)) as [z|]; [|discriminate].
    apply Z.eqb_eq in H. now subst.
  - intros H. unfold explicit_textid, textid_key. rewrite match_textid_0x.
    unfold format_04X. destruct (Z.ltb_spec loc 0) as [Hneg|Hpos].
    + cbn [append]. now rewrite match_hex4_first.
    + destruct H as [H|H]; [lia|].
      assert (Hlen : 4 < String.length (format_X loc)).
      { unfold format_X.
        pose proof (hex_digits_long 4 (S (Z.to_nat (Z.log2 loc))) loc "") as Hl.
        cbn [String.length] in Hl.
        assert (Hlog : (16 <= Z.log2 loc)%Z).
        { apply Z.log2_le_pow2; [lia|]. change (2 ^ 16)%Z with 65536%Z. lia. }
        specialize (Hl ltac:(change (16 ^ Z.of_nat 4)%Z with 65536%Z; lia)
                       ltac:(lia)).
        lia. }
      assert (Ez : 4 - String.length (format_X loc) = 0) by lia.
      rewrite Ez. cbn [zeros append].
      rewrite match_hex4_long; [reflexivity | exact Hlen |].
      unfold format_X. apply hex_digits_no_newline.
      intros [|c pre] post; discriminate.
Qed.

(** The stone 0x0405 and the first id that is too long. *)
Lemma textid_round_trip_witness :
  textid_key 1029 = "0x0405" /\
  explicit_textid (textid_key 1029) = Some 1029%Z /\
  textid_key 65536 = "0x10000" /\
  explicit_textid (textid_key 65536) = None.
Proof.
  split; [reflexivity|]. split; [apply (proj1 (textid_round_trip 1029)); lia|].
  split; [reflexivity|]. apply (proj2 (textid_round_trip 65536)). lia.
Defined.

(* ================================================================== *)
(** * [configure_triforce_hunt] *)
(* ================================================================== *)

Lemma nth_error_middle {A} (done rest : list A) (x : A) :
  nth_error (done ++ x :: rest) (length done) = Some x.
Proof. induction done as [|z done IH]; [reflexivity | exact IH]. Qed.

Lemma hunt_world_middle (done rest : list HuntWorld) (w : HuntWorld) :
  hunt_world (length done) (done ++ w :: rest) = (Ok w, done ++ w :: rest).
Proof. unfold hunt_world, bind, get. now rewrite nth_error_middle. Qed.

(** One world is counted. *)
Lemma hunt_count_step_ready (done rest : list HuntWorld) (w : HuntWorld)
    (total_count total_starting_count : Z) :
  hunt_ready w ->
  hunt_count_step (total_count, total_starting_count) (length done)
    (done ++ w :: rest)
  = (Ok ((total_count + (pool_pieces w + starting_pieces w))%Z,
         (total_starting_count + (starting_pieces w + impa_piece w))%Z),
     done ++ hunt_counted w :: rest).
Proof.
  intros (Hpool & (start & Hstart) & Himpa).
  unfold hunt_count_step, hunt_counted, pool_pieces, starting_pieces, impa_piece.
  unfold bind at 1. rewrite hunt_world_middle.
  unfold Dict.mem in Hpool.
  destruct (Dict.get (item_pool (hw_distribution w)) "Triforce Piece") as [r|];
    [|discriminate].
  unfold bind at 1, modify at 1. rewrite list_set_middle.
  rewrite Hstart. unfold bind at 1, lift_outcome at 1, ret at 1.
  unfold count_of.
  destruct (Dict.get start "Triforce Piece") as [sr|].
  - unfold bind at 1. unfold bind at 1. rewrite hunt_world_middle.
    unfold bind at 1, modify at 1. rewrite list_set_middle. unfold ret at 1.
    cbn [triforce_count set_triforce_count].
    destruct (skip_child_zelda w) eqn:Hskip.
    + destruct (Himpa eq_refl) as [b Hb]. rewrite Hb.
      unfold bind at 1. unfold bind at 1, lift_outcome at 1, ret at 1.
      unfold ret at 1. unfold bind at 1. rewrite hunt_world_middle.
      unfold ret. cbn [triforce_count set_triforce_count].
      destruct b; do 3 f_equal; lia.
    + unfold bind at 1, ret at 1. unfold bind at 1. rewrite hunt_world_middle.
      unfold ret. cbn [triforce_count set_triforce_count].
      do 3 f_equal; lia.
  - unfold bind at 1, ret at 1.
    destruct (skip_child_zelda w) eqn:Hskip.
    + destruct (Himpa eq_refl) as [b Hb]. rewrite Hb.
      unfold bind at 1. unfold bind at 1, lift_outcome at 1, ret at 1.
      unfold ret at 1. unfold bind at 1. rewrite hunt_world_middle.
      unfold ret. cbn [triforce_count set_triforce_count].
      rewrite !Z.add_0_r. destruct b; do 3 f_equal; lia.
    + unfold bind at 1, ret at 1. unfold bind at 1. rewrite hunt_world_middle.
      unfold ret. cbn [triforce_count set_triforce_count].
      rewrite !Z.add_0_r. do 3 f_equal; lia.
Qed.

Lemma hunt_count_loop :
  forall (rest done : list HuntWorld) (total_count total_starting_count : Z),
    Forall hunt_ready rest ->
    fold_m (seq (length done) (length rest)) (total_count, total_starting_count)
      hunt_count_step (done ++ rest)
    = (Ok ((total_count
            + sum_over (fun w => pool_pieces w + starting_pieces w) rest)%Z,
           (total_starting_count
            + sum_over (fun w => starting_pieces w + impa_piece w) rest)%Z),
       done ++ map hunt_counted rest).
Proof.
  induction rest as [|w rest IH]; intros done tc ts Hready.
  - simpl. unfold ret. now rewrite !Z.add_0_r.
  - inversion Hready as [|? ? Hw Hrest]; subst.
    cbn [length seq fold_m]. unfold bind at 1.
    rewrite (hunt_count_step_ready done rest w tc ts Hw).
    specialize (IH (done ++ [hunt_counted w])
                   (tc + (pool_pieces w + starting_pieces w))%Z
                   (ts + (starting_pieces w + impa_piece w))%Z Hrest).
    rewrite length_app in IH. cbn [length] in IH.
    rewrite Nat.add_1_r, <- !app_assoc in IH. cbn [app] in IH.
    rewrite IH. cbn [sum_over fold_right map]. rewrite !Z.add_assoc. reflexivity.
Qed.

Lemma hunt_settle_loop (total : Z) :
  forall (rest done : list HuntWorld),
    for_each (seq (length done) (length rest))
      (fun i =>
         world <- hunt_world i ;;
         modify (list_set i (set_total_starting total world)))
      (done ++ rest)
    = (Ok tt, done ++ map (set_total_starting total) rest).
Proof.
  induction rest as [|w rest IH]; intros done; [reflexivity|].
  cbn [length seq for_each]. unfold bind at 1. unfold bind at 1.
  rewrite hunt_world_middle. unfold modify at 1. rewrite list_set_middle.
  specialize (IH (done ++ [set_total_starting total w])).
  rewrite length_app in IH. cbn [length] in IH.
  rewrite Nat.add_1_r, <- !app_assoc in IH. cbn [app] in IH.
  rewrite IH. reflexivity.
Qed.

(** X16: over worlds whose plans can be counted, the first of which sets
    the goal, [configure_triforce_hunt] gives every world its count of
    pieces, pool and starting items together.  It raises when the counts
    of all worlds do not add up to the goal, and otherwise when the
    pieces the players start with (those among the starting items, and
    the one Impa gives where the visit to Zelda is skipped) reach the
    goal; the counts stay written in both cases.  Otherwise it succeeds
    and gives every world the same total of starting pieces, which is
    below the goal. *)
Theorem configure_triforce_hunt_spec (first : HuntWorld) (others : list HuntWorld) :
  let worlds := first :: others in
  let total_count := sum_over (fun w => pool_pieces w + starting_pieces w)%Z worlds in
  let total_starting := sum_over (fun w => starting_pieces w + impa_piece w)%Z worlds in
  let goal := triforce_goal first in
  Forall hunt_ready worlds ->
  configure_triforce_hunt worlds
  = if (total_count <? goal)%Z
    then (Raise (not_enough_pieces goal total_count), map hunt_counted worlds)
    else if (total_starting >=? goal)%Z
    then (Raise (too_many_pieces goal total_starting), map hunt_counted worlds)
    else (Ok tt, map (fun w => set_total_starting total_starting (hunt_counted w))
                     worlds).
Proof.
  intros worlds total_count total_starting goal Hready.
  unfold configure_triforce_hunt. unfold bind at 1, get at 1. unfold bind at 1.
  pose proof (hunt_count_loop worlds [] 0 0 Hready) as Hloop.
  cbn [length app] in Hloop. unfold Py.range. rewrite Hloop. clear Hloop.
  rewrite !Z.add_0_l. fold total_count total_starting.
  unfold bind at 1.
  assert (Hfirst : hunt_world 0 (map hunt_counted worlds)
                   = (Ok (hunt_counted first), map hunt_counted worlds))
    by reflexivity.
  rewrite Hfirst. cbn [triforce_goal hunt_counted set_triforce_count]. fold goal.
  destruct (total_count <? goal)%Z; [reflexivity|].
  destruct (total_starting >=? goal)%Z; [reflexivity|].
  pose proof (hunt_settle_loop total_starting (map hunt_counted worlds) []) as Hs.
  cbn [app] in Hs. rewrite length_map in Hs.
  change (length (@nil HuntWorld)) with 0 in Hs.
  rewrite Hs, map_map. reflexivity.
Qed.

(** Two worlds with three pieces in each pool and one among the starting
    items of all: eight pieces in all, two of them to start with.  A goal
    of five is met; a goal of nine is out of reach; a goal of two is
    reached at the start. *)
Lemma configure_triforce_hunt_spec_witness :
  fst (configure_triforce_hunt (demo_hunt_worlds 5)) = Ok tt /\
  map triforce_count (snd (configure_triforce_hunt (demo_hunt_worlds 5))) = [4; 4]%Z /\
  map total_starting_triforce_count
      (snd (configure_triforce_hunt (demo_hunt_worlds 5))) = [2; 2]%Z /\
  fst (configure_triforce_hunt (demo_hunt_worlds 9))
  = Raise (not_enough_pieces 9 8) /\
  fst (configure_triforce_hunt (demo_hunt_worlds 2))
  = Raise (too_many_pieces 2 2).
Proof.
  assert (Hready : forall goal, Forall hunt_ready (demo_hunt_worlds goal)).
  { intros goal. repeat constructor; try (eexists; reflexivity); discriminate. }
  unfold demo_hunt_worlds in *.
  rewrite !(configure_triforce_hunt_spec _ _ (Hready _)).
  repeat split.
Defined.

(* ================================================================== *)
(** * The hearts added by [Distribution.reset] *)
(* ================================================================== *)

(** [data[name].count += n] adds [n] to the count of the entry and
    leaves the other entries alone. *)
Lemma add_count_spec (name : string) (n : Z) (data : Dict.odict StartingEntry) :
  (forall d, Dict.get data name <> Some (ForWorld d)) ->
  exists data',
    add_count name n data = Ok data' /\
    entry_count data' name = (entry_count data name + n)%Z /\
    (forall d, Dict.get data' name <> Some (ForWorld d)) /\
    (forall other, other <> name -> Dict.get data' other = Dict.get data other).
Proof.
  intros Hcount. unfold add_count, entry_count.
  destruct (Dict.get data name) as [[r|d]|] eqn:Hget.
  - eexists. split; [reflexivity|]. rewrite get_set_same. split; [reflexivity|].
    split; [discriminate|]. intros other Hne. apply get_set_other. congruence.
  - exfalso. exact (Hcount d eq_refl).
  - eexists. split; [reflexivity|]. rewrite get_set_same. split; [reflexivity|].
    split; [discriminate|]. intros other Hne. apply get_set_other. congruence.
Qed.

Lemma halves (n : Z) : ((n + 1) / 2 + n / 2 = n)%Z.
Proof. Z.div_mod_to_equations. lia. Qed.

(** X17: whichever way [Distribution.reset] splits them between
    containers and pieces, the hearts it adds to the starting items make
    up the hearts asked for above the three of a new file: four quarters
    for each.  It adds none when no more than three are asked for, or
    when the plan already starts with a piece or a container.  No other
    starting item changes. *)
Theorem reset_hearts_quarters (starting_hearts : Z) (pool_value : string)
    (old data : Dict.odict StartingEntry) :
  (forall d, Dict.get data "Piece of Heart" <> Some (ForWorld d)) ->
  (forall d, Dict.get data "Heart Container" <> Some (ForWorld d)) ->
  exists data',
    reset_hearts starting_hearts pool_value old data = Ok data' /\
    heart_quarters data'
    = (heart_quarters data
       + if (starting_hearts >? 3)%Z && negb (Dict.mem old "Piece of Heart")
            && negb (Dict.mem old "Heart Container")
         then 4 * (starting_hearts - 3) else 0)%Z /\
    (forall name, name <> "Piece of Heart" -> name <> "Heart Container" ->
                  Dict.get data' name = Dict.get data name).
Proof.
  intros Hpiece Hcontainer. unfold reset_hearts, heart_quarters.
  destruct ((starting_hearts >? 3)%Z && negb (Dict.mem old "Piece of Heart")
            && negb (Dict.mem old "Heart Container")).
  2:{ exists data. split; [reflexivity|]. split; [lia | reflexivity]. }
  assert (Hne : "Heart Container" <> "Piece of Heart") by discriminate.
  assert (Hne' : "Piece of Heart" <> "Heart Container") by discriminate.
  assert (Hentry : forall d d' : Dict.odict StartingEntry,
             Dict.get d' "Piece of Heart" = Dict.get d "Piece of Heart" ->
             entry_count d' "Piece of Heart" = entry_count d "Piece of Heart").
  { intros d d' H. unfold entry_count. now rewrite H. }
  assert (Hentry' : forall d d' : Dict.odict StartingEntry,
             Dict.get d' "Heart Container" = Dict.get d "Heart Container" ->
             entry_count d' "Heart Container" = entry_count d "Heart Container").
  { intros d d' H. unfold entry_count. now rewrite H. }
  destruct (pool_value =? "plentiful"); [destruct (starting_hearts >=? 20)%Z|].
  - destruct (add_count_spec "Piece of Heart" 4 data Hpiece)
      as (d1 & E1 & C1 & _ & O1).
    assert (Hc1 : forall d, Dict.get d1 "Heart Container" <> Some (ForWorld d))
      by (intros d; rewrite (O1 _ Hne); apply Hcontainer).
    destruct (add_count_spec "Heart Container" (starting_hearts - 3 - 1) d1 Hc1)
      as (d2 & E2 & C2 & _ & O2).
    exists d2. rewrite E1. cbn [and_then]. split; [exact E2|]. split.
    + rewrite C2, (Hentry d1 d2 (O2 _ Hne')), C1, (Hentry' data d1 (O1 _ Hne)). lia.
    + intros name H1 H2. now rewrite (O2 _ H2), (O1 _ H1).
  - destruct (add_count_spec "Heart Container" (starting_hearts - 3) data Hcontainer)
      as (d1 & E1 & C1 & _ & O1).
    exists d1. split; [exact E1|]. split.
    + rewrite C1, (Hentry data d1 (O1 _ Hne')). lia.
    + intros name H1 H2. now rewrite (O1 _ H2).
  - destruct (add_count_spec "Piece of Heart"
                (4 * ((starting_hearts - 3 + 1) / 2)) data Hpiece)
      as (d1 & E1 & C1 & _ & O1).
    assert (Hc1 : forall d, Dict.get d1 "Heart Container" <> Some (ForWorld d))
      by (intros d; rewrite (O1 _ Hne); apply Hcontainer).
    destruct (add_count_spec "Heart Container" ((starting_hearts - 3) / 2) d1 Hc1)
      as (d2 & E2 & C2 & _ & O2).
    exists d2. rewrite E1. cbn [and_then]. split; [exact E2|]. split.
    + rewrite C2, (Hentry d1 d2 (O2 _ Hne')), C1, (Hentry' data d1 (O1 _ Hne)).
      pose proof (halves (starting_hearts - 3)). lia.
    + intros name H1 H2. now rewrite (O2 _ H2), (O1 _ H1).
Qed.

(** Seven hearts on a plan that starts with a bow: two containers and
    eight pieces, sixteen quarters. *)
Lemma reset_hearts_quarters_witness :
  let data := [("Bow", ForAll {| count := 1 |})] in
  reset_hearts 7 "balanced" [] data
  = Ok [("Bow", ForAll {| count := 1 |});
        ("Piece of Heart", ForAll {| count := 8 |});
        ("Heart Container", ForAll {| count := 2 |})] /\
  exists data',
    reset_hearts 7 "balanced" [] data = Ok data' /\
    heart_quarters data' = (heart_quarters data + 16)%Z /\
    (forall name, name <> "Piece of Heart" -> name <> "Heart Container" ->
                  Dict.get data' name = Dict.get data name).
Proof.
  split; [reflexivity|].
  apply (reset_hearts_quarters 7 "balanced" [] [("Bow", ForAll {| count := 1 |})]);
    intros d; discriminate.
Defined.

(* ================================================================== *)
(** * The records written to the spoiler *)
(* ================================================================== *)

(** X18: the record [LocationRecord.from_item] makes of a placed item
    can be written, and what is written reads back to the same record.
    The item of a world on its own, at a location of that world without
    a price, and shown as itself, is written as its bare name. *)
Theorem from_item_round_trip (it : SpoilerItem) (r : RecordObj) :
  from_item it = Ok r ->
  exists j,
    to_document CLocation r = Ok j /\
    from_document CLocation j = Ok r /\
    (forall l, si_location it = Some l ->
       (si_world_count it <= 1)%nat -> sl_world l = si_world it ->
       sl_price l = None ->
       sl_has_preview l && can_cloak (si_index it) = false ->
       j = DStr (si_name it)).
Proof.
  unfold from_item.
  destruct it as [name index world count [[lworld price preview]|] looks];
    cbn [si_name si_index si_world si_world_count si_location si_looks_like
         sl_world sl_price sl_has_preview]; [|discriminate].
  destruct (Nat.ltb_spec 1 count) as [Hc|Hc].
  - intros H. injection H as <-.
    destruct price as [p|], looks as [lk|];
      try destruct (preview && can_cloak index) eqn:Hm;
      (eexists; split; [reflexivity|]; split; [reflexivity|]);
      intros l Hl Hle; lia.
  - destruct (Nat.eqb_spec world lworld) as [Hw|Hw]; intros H; injection H as <-;
      destruct price as [p|], looks as [lk|];
      try destruct (preview && can_cloak index) eqn:Hm;
      (eexists; split; [reflexivity|]; split; [reflexivity|]);
      intros l Hl _ Hlw Hp Hpm; injection Hl as <-;
      cbn [sl_world sl_price sl_has_preview] in *;
      try discriminate; try congruence; reflexivity.
Qed.

(** A bow of a world on its own, found in that world: written ["Bow"]. *)
Lemma from_item_round_trip_witness :
  let it := {| si_name := "Bow"; si_index := Some 3%Z; si_world := 0;
               si_world_count := 1;
               si_location := Some {| sl_world := 0; sl_price := None;
                                      sl_has_preview := true |};
               si_looks_like := None |} in
  exists r, from_item it = Ok r /\
    exists j,
      to_document CLocation r = Ok j /\
      from_document CLocation j = Ok r /\
      (forall l, si_location it = Some l ->
         (si_world_count it <= 1)%nat -> sl_world l = si_world it ->
         sl_price l = None ->
         sl_has_preview l && can_cloak (si_index it) = false ->
         j = DStr (si_name it)).
Proof.
  eexists. split; [reflexivity|].
  apply from_item_round_trip. reflexivity.
Defined.

(** X19: the record [EntranceRecord.from_entrance] makes of a shuffled
    entrance can be written, and what is written reads back to the same
    record.  The origin is left out, and the record written as the bare
    name of the region, exactly when the entrance it replaces is the
    primary one of an interior, a grotto or a grave. *)
Theorem from_entrance_round_trip (entrance : SpoilerEntrance) (r : RecordObj) :
  from_entrance entrance = Ok r ->
  exists j connected primary type parent_region,
    se_connected_region entrance = Some connected /\
    se_replaces entrance = Some (primary, type, parent_region) /\
    to_document CEntrance r = Ok j /\
    from_document CEntrance j = Ok r /\
    j = if primary && Py.mem type ["Interior"; "SpecialInterior"; "Grotto"; "Grave"]
        then DStr connected
        else DDict [("region", DStr connected); ("from", DStr parent_region)].
Proof.
  unfold from_entrance.
  destruct entrance as [[connected|] [[[primary type] parent]|]];
    cbn [se_connected_region se_replaces]; try discriminate.
  intros H. exists (if primary && Py.mem type ["Interior"; "SpecialInterior"; "Grotto"; "Grave"]
        then DStr connected
        else DDict [("region", DStr connected); ("from", DStr parent)]).
  exists connected, primary, type, parent.
  split; [reflexivity|]. split; [reflexivity|].
  destruct (primary && Py.mem type ["Interior"; "SpecialInterior"; "Grotto"; "Grave"]);
    injection H as <-; repeat split.
Qed.

(** The way out of a house to Kakariko: the record keeps where it comes
    from. *)
Lemma from_entrance_round_trip_witness :
  let entrance := {| se_connected_region := Some "Kakariko Village";
                     se_replaces := Some (false, "Interior", "Kak Impas House") |} in
  exists r, from_entrance entrance = Ok r /\
  exists j connected primary type parent_region,
    se_connected_region entrance = Some connected /\
    se_replaces entrance = Some (primary, type, parent_region) /\
    to_document CEntrance r = Ok j /\
    from_document CEntrance j = Ok r /\
    j = if primary && Py.mem type ["Interior"; "SpecialInterior"; "Grotto"; "Grave"]
        then DStr connected
        else DDict [("region", DStr connected); ("from", DStr parent_region)].
Proof.
  eexists. split; [reflexivity|].
  apply from_entrance_round_trip. reflexivity.
Defined.

(* ================================================================== *)
(** * [Record.update] *)
(* ================================================================== *)

Lemma Record_update_loop (src : Dict.odict doc) (update_all : bool) :
  forall (props : Dict.odict doc) (self : RecordObj),
    NoDup (Dict.keys props) ->
    exists self',
      for_each props
        (fun kp : string * doc =>
           let (k, p) := kp in
           present <- (if update_all then ret true
                       else doc_contains (DDict src) k) ;;
           if present then v <- doc_get (DDict src) k p ;; setattr k v
           else ret tt) self
      = (Ok tt, self') /\
      properties self' = properties self /\
      forall k, Dict.get (attrs self') k
                = updated_attr props src update_all (Dict.get (attrs self) k) k.
Proof.
  induction props as [|[k0 p0] props IH]; intros self Hnd.
  - exists self. repeat split.
  - inversion Hnd as [|? ? Hnotin Hnd']; subst.
    assert (Hfresh : Dict.get props k0 = None) by (now apply get_None_keys).
    set (v0 := match Dict.get src k0 with Some v => v | None => p0 end).
    set (self1 := if update_all || Dict.mem src k0
                  then {| properties := properties self;
                          attrs := Dict.set (attrs self) k0 v0 |}
                  else self).
    destruct (IH self1 Hnd') as (self' & Hrun & Hprops & Hattrs).
    exists self'. split; [|split].
    + cbn [for_each]. unfold bind at 1.
      assert (Estep :
        (present <- (if update_all then ret true
                     else doc_contains (DDict src) k0) ;;
         if present then v <- doc_get (DDict src) k0 p0 ;; setattr k0 v
         else ret tt) self = (Ok tt, self1)).
      { unfold self1, v0. destruct update_all; cbn [orb].
        - reflexivity.
        - unfold bind at 1, doc_contains, ret at 1.
          destruct (Dict.mem src k0); reflexivity. }
      rewrite Estep. exact Hrun.
    + rewrite Hprops. unfold self1.
      destruct (update_all || Dict.mem src k0); reflexivity.
    + intros k. rewrite Hattrs. unfold updated_attr. cbn [Dict.get].
      destruct (String.eqb_spec k0 k) as [<-|Hne].
      * rewrite Hfresh. unfold self1, v0, Dict.mem.
        destruct (Dict.get src k0) as [v|]; rewrite ?orb_true_r, ?orb_false_r;
          cbn [attrs]; [now rewrite get_set_same|].
        destruct update_all; cbn [attrs]; [now rewrite get_set_same | reflexivity].
      * assert (Hsame : Dict.get (attrs self1) k = Dict.get (attrs self) k).
        { unfold self1. destruct (update_all || Dict.mem src k0); [|reflexivity].
          cbn [attrs]. apply get_set_other. congruence. }
        now rewrite Hsame.
Qed.

(** X20: [Record.update] with a dictionary never fails and touches only
    the attributes named by the properties of the record: a key of the
    source that is no property is ignored.  A property the source has
    takes the value given; one it lacks goes back to its default when
    all are updated, and keeps its value otherwise. *)
Theorem Record_update_frame (src : Dict.odict doc) (update_all : bool)
    (self : RecordObj) :
  NoDup (Dict.keys (properties self)) ->
  exists self',
    Record_update (DDict src) update_all self = (Ok tt, self') /\
    properties self' = properties self /\
    forall k, Dict.get (attrs self') k
              = updated_attr (properties self) src update_all
                  (Dict.get (attrs self) k) k.
Proof.
  intros Hnd. unfold Record_update. unfold bind at 1, get at 1.
  exact (Record_update_loop src update_all (properties self) self Hnd).
Qed.

(** A location record holding a bow for player 2 is given a price and a
    key it does not know: the price is taken, the item and the player
    stay, and no attribute appears for the unknown key. *)
Lemma Record_update_frame_witness :
  let self := {| properties := props_of CLocation;
                 attrs := [("item", DStr "Bow"); ("player", DInt 2);
                           ("price", DNone); ("model", DNone)] |} in
  let src := [("price", DInt 50); ("colour", DStr "red")] in
  exists self',
    Record_update (DDict src) false self = (Ok tt, self') /\
    Dict.get (attrs self') "price" = Some (DInt 50) /\
    Dict.get (attrs self') "item" = Some (DStr "Bow") /\
    Dict.get (attrs self') "player" = Some (DInt 2) /\
    Dict.get (attrs self') "colour" = None.
Proof.
  intros self src.
  destruct (Record_update_frame src false self) as (self' & Hrun & _ & Hattrs).
  - repeat constructor; simpl; intuition discriminate.
  - exists self'. split; [exact Hrun|]. rewrite !Hattrs. repeat split.
Defined.

(* ================================================================== *)
(** * [pool_add_item] *)
(* ================================================================== *)

Lemma random_choices_in {A} (l : list A) :
  forall (k : nat) (g g' : Rng) (xs : list A),
    random_choices l k g = (Some xs, g') ->
    length xs = k /\ forall x, In x xs -> In x l.
Proof.
  induction k as [|k IH]; intros g g' xs; cbn [random_choices].
  - intros H. injection H as <- _. split; [reflexivity | intros x []].
  - destruct (random_choice l g) as [[x|] g1] eqn:Ex; [|discriminate].
    destruct (random_choices l k g1) as [[ys|] g2] eqn:Eys; [|discriminate].
    intros H. injection H as <- _.
    destruct (IH _ _ _ Eys) as [Hlen Hin].
    split; [simpl; now rewrite Hlen|].
    intros y [<-|Hy]; [|now apply Hin].
    apply (random_choice_in l g). now rewrite Ex.
Qed.

Lemma pool_append_all_frame {E} (pool : ref) (l : list E) :
  forall s : PState E,
    exists s', for_each l (pool_append pool) s = (Ok tt, s') /\
               st_self s' = st_self s /\
               forall r, r <> pool -> deref (st_heap s') r = deref (st_heap s) r.
Proof.
  induction l as [|x l IH]; intros s.
  - exists s. repeat split.
  - destruct (IH (with_heap (store (st_heap s) pool (deref (st_heap s) pool ++ [x])) s))
      as (s' & Hrun & Hself & Hframe).
    exists s'. split; [exact Hrun|]. split; [exact Hself|].
    intros r Hr. rewrite (Hframe r Hr). simpl. now apply deref_store_other.
Qed.

Section AddItemFacts.

Variable ItemInfo_items : list (string * string).
Variable item_groups : Dict.odict (list string).
Variable is_item : string -> bool.
Variable build_close_match : string -> string -> string.
Variable get_junk_item :
  Z -> option (list string) -> option (Dict.odict ItemPoolRecord) -> Rng ->
  outcome (list string) * Rng.

(** Compiling a pattern inside a pool operation changes at most the
    memoized major group of [self]. *)
Lemma self_pattern_matcher_frame (p : string) (s s' : PState string)
    (r : outcome (string -> bool)) :
  self_pattern_matcher ItemInfo_items item_groups (PStr p) s = (r, s') ->
  st_heap s' = st_heap s /\ st_rng s' = st_rng s /\
  item_pool (st_self s') = item_pool (st_self s).
Proof.
  unfold self_pattern_matcher, lift_self. cbn [pattern_matcher].
  destruct (pattern_matcher_str_outcome ItemInfo_items item_groups p (st_self s))
    as [(m & Hm & Hw) | (msg & Hraise)].
  - destruct (pattern_matcher_str ItemInfo_items item_groups p (st_self s))
      as [r1 w1]. simpl in Hm, Hw. intros H. injection H as _ <-.
    cbn [st_heap st_rng st_self with_self]. rewrite Hw.
    repeat split.
  - rewrite Hraise. intros H. injection H as _ <-. repeat split.
Qed.

Lemma add_candidates_spec (item_name : string) :
  forall (names : list string) (s s' : PState string) (found : list string),
    add_candidates ItemInfo_items item_groups item_name names s = (Ok found, s') ->
    st_heap s' = st_heap s /\ st_rng s' = st_rng s /\
    item_pool (st_self s') = item_pool (st_self s) /\
    forall x, In x found ->
      In x names /\
      forall r, Dict.get (item_pool (st_self s)) x = Some r -> ipr_count r <> 0%Z.
Proof.
  induction names as [|name names IH]; intros s s' found.
  - intros H. injection H as <- <-.
    split; [reflexivity|]. split; [reflexivity|]. split; [reflexivity|].
    intros x [].
  - cbn [add_candidates]. unfold bind at 1.
    destruct (self_pattern_matcher ItemInfo_items item_groups (PStr item_name) s)
      as [[matcher|e] s1] eqn:E1; [|discriminate].
    destruct (self_pattern_matcher_frame _ _ _ _ E1) as (Hh1 & Hg1 & Hp1).
    unfold bind at 1, get at 1. unfold bind at 1.
    destruct (add_candidates ItemInfo_items item_groups item_name names s1)
      as [[rest|e] s2] eqn:E2; [|discriminate].
    destruct (IH _ _ _ E2) as (Hh2 & Hg2 & Hp2 & Hin).
    unfold ret. intros H. injection H as <- <-.
    split; [congruence|]. split; [congruence|]. split; [congruence|].
    intros x Hx.
    assert (Hrest : In x rest ->
              In x (name :: names) /\
              forall r, Dict.get (item_pool (st_self s)) x = Some r ->
                        ipr_count r <> 0%Z).
    { intros Hr. destruct (Hin x Hr) as [Hn Hz]. split; [now right|].
      rewrite <- Hp1. exact Hz. }
    destruct (matcher name); cbn [andb] in Hx; [|exact (Hrest Hx)].
    destruct (Dict.get (item_pool (st_self s1)) name) as [r0|] eqn:Er0.
    + destruct (Z.eqb_spec (ipr_count r0) 0) as [Hz|Hz]; cbn [negb] in Hx;
        [exact (Hrest Hx)|].
      destruct Hx as [<-|Hx]; [|exact (Hrest Hx)].
      split; [now left|]. intros r Hr. rewrite <- Hp1, Er0 in Hr.
      injection Hr as <-. exact Hz.
    + destruct Hx as [<-|Hx]; [|exact (Hrest Hx)].
      split; [now left|]. intros r Hr. rewrite <- Hp1, Er0 in Hr. discriminate.
Qed.

(** X21: when [pool_add_item] returns for a name other than ['#Junk'],
    it has added as many items as asked, and they are the items it
    returns, appended in order to the end of the pool; no other list
    changes, nor the item pool of the plan.  A plain name is added as
    itself and is the name of an item; a pattern adds names of the item
    table only, and never one that the plan sets to 0. *)
Theorem pool_add_item_appends (pool : ref) (item_name : string) (count : Z)
    (s s' : PState string) (added : list string) :
  item_name <> "#Junk" ->
  pool < length (st_heap s) ->
  pool_add_item ItemInfo_items item_groups is_item build_close_match get_junk_item
    pool item_name count s = (Ok added, s') ->
  length added = Z.to_nat count /\
  deref (st_heap s') pool = deref (st_heap s) pool ++ added /\
  (forall r, r <> pool -> deref (st_heap s') r = deref (st_heap s) r) /\
  item_pool (st_self s') = item_pool (st_self s) /\
  (if is_pattern item_name
   then forall x, In x added ->
          In x (map fst ItemInfo_items) /\
          forall r, Dict.get (item_pool (st_self s)) x = Some r ->
                    ipr_count r <> 0%Z
   else added = repeat item_name (Z.to_nat count) /\ is_item item_name = true).
Proof.
  intros Hjunk Hpool. unfold pool_add_item.
  destruct (String.eqb_spec item_name "#Junk") as [Heq|_]; [contradiction|].
  assert (Happend : forall (s1 : PState string) (l : list string),
            st_heap s1 = st_heap s ->
            item_pool (st_self s1) = item_pool (st_self s) ->
            (for_each l (pool_append pool) ;; ret l) s1 = (Ok added, s') ->
            added = l /\
            deref (st_heap s') pool = deref (st_heap s) pool ++ added /\
            (forall r, r <> pool -> deref (st_heap s') r = deref (st_heap s) r) /\
            item_pool (st_self s') = item_pool (st_self s)).
  { intros s1 l Hh Hp.
    destruct (pool_append_all pool l s1) as (s2 & Hrun & Hd);
      [now rewrite Hh|].
    destruct (pool_append_all_frame pool l s1) as (s3 & Hrun' & Hself & Hframe).
    rewrite Hrun in Hrun'. injection Hrun' as <-.
    unfold bind. rewrite Hrun. unfold ret. intros H. injection H as <- <-.
    split; [reflexivity|]. split; [now rewrite Hd, Hh|].
    split; [intros r Hr; now rewrite (Hframe r Hr), Hh|].
    now rewrite Hself. }
  destruct (is_pattern item_name).
  - unfold bind at 1. unfold bind at 1.
    destruct (add_candidates ItemInfo_items item_groups item_name
                (map fst ItemInfo_items) s) as [[found|e] s1] eqn:Ec;
      [|discriminate].
    destruct (add_candidates_spec _ _ _ _ _ Ec) as (Hh1 & Hg1 & Hp1 & Hin).
    destruct found as [|c cs]; [discriminate|].
    unfold bind at 1, get at 1.
    destruct (random_choices (c :: cs) (Z.to_nat count) (st_rng s1))
      as [[l|] g'] eqn:Er; [|discriminate].
    unfold bind at 1, put at 1, ret at 1.
    destruct (random_choices_in _ _ _ _ _ Er) as [Hlen Hsub].
    intros Hrun.
    destruct (Happend (with_rng g' s1) l Hh1 Hp1 Hrun) as (-> & Hd & Hf & Hp).
    split; [exact Hlen|]. split; [exact Hd|]. split; [exact Hf|].
    split; [exact Hp|]. intros x Hx. exact (Hin x (Hsub x Hx)).
  - destruct (is_item item_name); cbn [negb]; [|discriminate].
    unfold bind at 1, ret at 1. intros Hrun.
    destruct (Happend s _ eq_refl eq_refl Hrun) as (-> & Hd & Hf & Hp).
    split; [apply repeat_length|]. split; [exact Hd|]. split; [exact Hf|].
    split; [exact Hp|]. split; reflexivity.
Qed.

End AddItemFacts.

(** Two bottles of the group are drawn into a pool of five names. *)
Lemma pool_add_item_appends_witness :
  let run := pool_add_item demo_items demo_groups demo_is_item (fun _ _ => "")
               demo_get_junk_item 0 "#Bottle" 2 demo_alter_state in
  fst run = Ok ["Bottle"; "Bottle with Milk"] /\
  deref (st_heap (snd run)) 0
  = ["Kokiri Sword"; "Bow"; "Bombs"; "Recovery Heart"; "Bottle";
     "Bottle"; "Bottle with Milk"] /\
  forall x, In x ["Bottle"; "Bottle with Milk"] ->
    In x (map fst demo_items) /\
    forall r, Dict.get (item_pool demo_alter_self) x = Some r -> ipr_count r <> 0%Z.
Proof.
  intros run.
  assert (Hrun : run = (Ok ["Bottle"; "Bottle with Milk"], snd run))
    by (vm_compute; reflexivity).
  split; [now rewrite Hrun|]. split; [vm_compute; reflexivity|].
  refine (proj2 (proj2 (proj2 (proj2
    (pool_add_item_appends demo_items demo_groups demo_is_item (fun _ _ => "")
       demo_get_junk_item 0 "#Bottle" 2 demo_alter_state (snd run)
       ["Bottle"; "Bottle with Milk"] _ _ Hrun))))).
  - discriminate.
  - simpl. lia.
Defined.
